(** * Slack export extension: a shallow embedding of the export pipeline

    The development follows the JavaScript sources of the extension:
    - [src/utils.js]   : filename generation, Markdown escaping;
    - [src/content.js] : channel export, Markdown/HTML rendering, fence
      normalisation, attachment naming and reference rewriting, thread fetch;
    - [popup.js]       : the batch orchestrator;
    - [background.js]  : durable batch state and file download.

    JavaScript strings are sequences of UTF-16 code units; a code unit is
    modelled as a number in [N] and a string as a list of code units, so that
    [trim], the class [\s] and the class [.] of the regular expressions keep
    their meaning on every string. *)

From Stdlib Require Import ZArith NArith List Bool Lia Ascii String Sorted Permutation.
From stdpp Require Import base gmap list.
Import ListNotations.

Local Open Scope nat_scope.

(** ** Strings *)

Module Js.

Abbreviation char := N.
Abbreviation str := (list N).

(** An ASCII literal as a JavaScript string. *)
Definition lit (s : string) : str :=
  map N_of_ascii (list_ascii_of_string s).

Definition ch (a : ascii) : char := N_of_ascii a.

Definition eqc (a b : char) : bool := N.eqb a b.

Fixpoint eqs (a b : str) : bool :=
  match a, b with
  | [], [] => true
  | x :: a', y :: b' => eqc x y && eqs a' b'
  | _, _ => false
  end.

(** [WhiteSpace] and [LineTerminator] of ECMAScript: what [String.prototype.trim]
    strips and what [\s] matches. *)
Definition isWhiteSpace (c : char) : bool :=
  ((9 <=? c) && (c <=? 13) || (c =? 32) || (c =? 160) || (c =? 5760)
   || (8192 <=? c) && (c <=? 8202) || (c =? 8232) || (c =? 8233)
   || (c =? 8239) || (c =? 8287) || (c =? 12288) || (c =? 65279))%N.

(** Line terminators: the code units the regular expression [.] refuses. *)
Definition isLineTerminator (c : char) : bool :=
  ((c =? 10) || (c =? 13) || (c =? 8232) || (c =? 8233))%N.

Definition isDigit (c : char) : bool := ((48 <=? c) && (c <=? 57))%N.
Definition isUpper (c : char) : bool := ((65 <=? c) && (c <=? 90))%N.
Definition isLower (c : char) : bool := ((97 <=? c) && (c <=? 122))%N.
Definition isAlnum (c : char) : bool := isDigit c || isUpper c || isLower c.

(** [s.startsWith(p)] *)
Fixpoint startsWith (p s : str) : bool :=
  match p, s with
  | [], _ => true
  | x :: p', y :: s' => eqc x y && startsWith p' s'
  | _ :: _, [] => false
  end.

(** [s.indexOf(p)], [None] standing for -1. *)
Fixpoint indexOf (p s : str) : option nat :=
  if startsWith p s then Some 0
  else match s with
       | [] => None
       | _ :: s' => option_map S (indexOf p s')
       end.

(** [s.includes(p)] *)
Definition includes (p s : str) : bool :=
  match indexOf p s with Some _ => true | None => false end.

(** [s.lastIndexOf(c)] for a one-unit needle. *)
Fixpoint lastIndexOfChar (c : char) (s : str) : option nat :=
  match s with
  | [] => None
  | x :: s' =>
      match lastIndexOfChar c s' with
      | Some i => Some (S i)
      | None => if eqc x c then Some 0 else None
      end
  end.

Fixpoint dropWhile (f : char -> bool) (s : str) : str :=
  match s with
  | [] => []
  | c :: s' => if f c then dropWhile f s' else s
  end.

Fixpoint takeWhile (f : char -> bool) (s : str) : str :=
  match s with
  | [] => []
  | c :: s' => if f c then c :: takeWhile f s' else []
  end.

Definition trimStart (s : str) : str := dropWhile isWhiteSpace s.
Definition trimEnd (s : str) : str := rev (dropWhile isWhiteSpace (rev s)).
Definition trim (s : str) : str := trimEnd (trimStart s).

(** [s.slice(a)], [s.slice(0, b)] and [s.substring(0, b)] for indexes in
    range behave as [skipn] and [firstn]. *)
Definition sliceFrom (a : nat) (s : str) : str := skipn a s.
Definition sliceTo (b : nat) (s : str) : str := firstn b s.

(** [s.split(sep)] for a one-unit separator: never the empty list. *)
Fixpoint split (sep : char) (s : str) : list str :=
  match s with
  | [] => [[]]
  | c :: s' =>
      if eqc c sep then [] :: split sep s'
      else match split sep s' with
           | [] => [[c]]
           | l :: ls => (c :: l) :: ls
           end
  end.

(** [lines.join(sep)] *)
Fixpoint join (sep : str) (ls : list str) : str :=
  match ls with
  | [] => []
  | [l] => l
  | l :: ls' => l ++ sep ++ join sep ls'
  end.

(** ASCII [toLowerCase]; used only where the string is known to be ASCII. *)
Definition lowerAscii (c : char) : char :=
  if isUpper c then (c + 32)%N else c.

(** [String(n)] for a non-negative integer: the decimal digits, most
    significant first. The fuel is the number of binary digits of [n]. *)
Definition digitChar (d : N) : char := (48 + d)%N.

Fixpoint decimalFuel (fuel : nat) (n : N) (acc : str) : str :=
  match fuel with
  | 0 => acc
  | S f =>
      let acc' := digitChar (n mod 10) :: acc in
      if (n / 10 =? 0)%N then acc' else decimalFuel f (n / 10) acc'
  end.

Definition decimal (n : N) : str := decimalFuel (S (N.to_nat (N.size n))) n [].

(** The number a string of digits denotes. *)
Definition digitsValue (s : str) : N :=
  fold_left (fun v c => (10 * v + (c - 48))%N) s 0%N.

(** [s.padStart(w, '0')] *)
Definition padStart0 (w : nat) (s : str) : str :=
  repeat (ch "0") (w - length s) ++ s.

End Js.

Import Js.

Arguments ch : simpl never.
Arguments lit : simpl never.

(** Literal code units as numerals, for case analyses on character classes. *)
Ltac unfold_ch :=
  repeat match goal with
    | |- context [ch ?a] =>
        let v := eval vm_compute in (ch a) in change (ch a) with v
    | H : context [ch ?a] |- _ =>
        let v := eval vm_compute in (ch a) in change (ch a) with v in H
    end.


(** ** Replacement templates

    [String.prototype.replace] expands [$]-patterns of a replacement string
    (GetSubstitution of ECMAScript): [$$], [$&], [$`], [$'], and [$n]/[$nn]
    for the capture groups. [caps] are the captures of the match, [matched]
    the matched text, [before] and [after] the text around it. *)

Module Replace.

Definition digitVal (c : char) : nat := N.to_nat (c - 48)%N.

Definition capture (caps : list str) (n : nat) : str :=
  nth (n - 1) caps [].

Fixpoint expand (caps : list str) (matched before after : str) (t : str) : str :=
  match t with
  | [] => []
  | c :: t1 =>
      if eqc c (ch "$") then
        match t1 with
        | [] => [c]
        | d :: t2 =>
            if eqc d (ch "$") then ch "$" :: expand caps matched before after t2
            else if eqc d (ch "&") then matched ++ expand caps matched before after t2
            else if eqc d (ch "`") then before ++ expand caps matched before after t2
            else if eqc d (ch "'") then after ++ expand caps matched before after t2
            else if isDigit d then
              let m := length caps in
              let n1 := digitVal d in
              let oneDigit :=
                if (1 <=? n1) && (n1 <=? m)
                then capture caps n1 ++ expand caps matched before after t2
                else c :: d :: expand caps matched before after t2 in
              match t2 with
              | e :: t3 =>
                  if isDigit e then
                    let nn := 10 * n1 + digitVal e in
                    if m <? nn then oneDigit
                    else if 1 <=? nn
                         then capture caps nn ++ expand caps matched before after t3
                         else c :: d :: e :: expand caps matched before after t3
                  else oneDigit
              | [] => oneDigit
              end
            else c :: expand caps matched before after t1
        end
      else c :: expand caps matched before after t1
  end.

(** [s.replace(pat, repl)] with a string pattern: the first occurrence only. *)
Definition replaceFirst (pat repl s : str) : str :=
  match indexOf pat s with
  | None => s
  | Some i =>
      let before := firstn i s in
      let after := skipn (i + length pat) s in
      before ++ expand [] pat before after repl ++ after
  end.

(** A global replace [s.replace(/re/g, ...)]. [matchAt s] is the match of
    the expression anchored at the head of [s]: the length of the match and
    its captures. [subst] builds the replacement text from the match, the
    matched text and the text before and after it. Scanning resumes after
    the match; after an empty match one code unit is copied. [skip] counts
    the code units of the current match still to be passed over, [pre] is
    the text before the scan point (in reverse). *)
Record Match := { mlen : nat; mcaps : list str }.

Fixpoint gsubFrom (matchAt : str -> option Match)
    (subst : Match -> str -> str -> str -> str)
    (skip : nat) (pre : str) (s : str) : str :=
  match s with
  | [] =>
      match skip, matchAt [] with
      | 0, Some m => subst m [] (rev pre) []
      | _, _ => []
      end
  | c :: s' =>
      match skip with
      | S k => gsubFrom matchAt subst k (c :: pre) s'
      | 0 =>
          match matchAt s with
          | Some m =>
              match mlen m with
              | 0 => subst m [] (rev pre) s
                       ++ c :: gsubFrom matchAt subst 0 (c :: pre) s'
              | S k =>
                  subst m (firstn (S k) s) (rev pre) (skipn (S k) s)
                    ++ gsubFrom matchAt subst k (c :: pre) s'
              end
          | None => c :: gsubFrom matchAt subst 0 (c :: pre) s'
          end
      end
  end.

Definition gsub (matchAt : str -> option Match)
    (subst : Match -> str -> str -> str -> str) (s : str) : str :=
  gsubFrom matchAt subst 0 [] s.

(** The replacement given as a template string. *)
Definition byTemplate (t : str) (m : Match) (matched before after : str) : str :=
  expand (mcaps m) matched before after t.

(** A literal pattern [p] (as produced by [escapeRegex]) anchored at the head. *)
Definition literalAt (p : str) (s : str) : option Match :=
  if startsWith p s then Some {| mlen := length p; mcaps := [] |} else None.

(** [s.replace(/c/g, t)] for a class of single code units. *)
Definition classAt (f : char -> bool) (s : str) : option Match :=
  match s with
  | c :: _ => if f c then Some {| mlen := 1; mcaps := [] |} else None
  | [] => None
  end.

(** [s.replace(/c+/g, t)]: a maximal run of the class. *)
Definition runAt (f : char -> bool) (s : str) : option Match :=
  match takeWhile f s with
  | [] => None
  | r => Some {| mlen := length r; mcaps := [] |}
  end.

End Replace.

(** ** Promises

    A promise settles: it resolves with a value or rejects with an error
    whose message is given. *)
Inductive Settled (A : Type) : Type :=
  | Resolved (a : A)
  | Rejected (message : str).
Arguments Resolved {A} a.
Arguments Rejected {A} message.

(** ** src/utils.js *)

(** [new Date()] read through [getFullYear], [getMonth], [getDate],
    [getHours], [getMinutes]. *)
Record LocalTime := {
  fullYear : N;
  month0 : N;   (* getMonth(): 0..11 *)
  date : N;
  hours : N;
  minutes : N
}.

Module Utils.

Definition formatDate (d : LocalTime) (format : str) : str :=
  let year := decimal (fullYear d) in
  let month := padStart0 2 (decimal (month0 d + 1)) in
  let day := padStart0 2 (decimal (date d)) in
  let hours := padStart0 2 (decimal (hours d)) in
  let minutes := padStart0 2 (decimal (minutes d)) in
  Replace.replaceFirst (lit "mm") minutes
    (Replace.replaceFirst (lit "HH") hours
       (Replace.replaceFirst (lit "DD") day
          (Replace.replaceFirst (lit "MM") month
             (Replace.replaceFirst (lit "YYYY") year format)))).

(** The class [[a-zA-Z0-9-_]]. *)
Definition isNameChar (c : char) : bool :=
  isAlnum c || eqc c (ch "-") || eqc c (ch "_").

Definition generateFilename (now : LocalTime) (fileNameFormat : str) (channelName : str) : str :=
  let dateStr := formatDate now (lit "YYYYMMDD-HHmm") in
  let cleanChannel :=
    Replace.gsub (Replace.classAt (fun c => negb (isNameChar c)))
      (Replace.byTemplate (lit "-")) channelName in
  Replace.replaceFirst (lit "{channel}") cleanChannel
    (Replace.replaceFirst (lit "YYYYMMDD-HHmm") dateStr fileNameFormat).

(** [escapeMarkdown]: twelve global single-character replacements in turn. *)
Definition escapeOne (c : ascii) (s : str) : str :=
  Replace.gsub (Replace.classAt (eqc (ch c)))
    (fun _ _ _ _ => [ch "\"; ch c]) s.

Definition escapeMarkdown (text : str) : str :=
  match text with
  | [] => []
  | _ =>
      escapeOne "|" (escapeOne "#" (escapeOne "!" (escapeOne ")" (escapeOne "("
        (escapeOne "]" (escapeOne "[" (escapeOne "~" (escapeOne "`" (escapeOne "_"
          (escapeOne "*" (escapeOne "\" text)))))))))))
  end.

End Utils.

(** ** popup.js: filename generation *)

Module Popup.

Definition DEFAULT_FORMAT : str := lit "YYYYMMDD-HHmm-{channel}.md".

(** [toLowerCase] is applied to a string of [[a-zA-Z0-9_-]] only, where it
    is the ASCII lower-casing. *)
Definition cleanChannel (channelName : str) : str :=
  map lowerAscii
    (Replace.gsub (Replace.runAt (eqc (ch "-"))) (Replace.byTemplate (lit "-"))
       (Replace.gsub (Replace.classAt (fun c => negb (Utils.isNameChar c)))
          (Replace.byTemplate (lit "-")) channelName)).

Definition dateStr (now : LocalTime) : str :=
  decimal (fullYear now) ++ padStart0 2 (decimal (month0 now + 1))
    ++ padStart0 2 (decimal (date now)) ++ lit "-"
    ++ padStart0 2 (decimal (hours now)) ++ padStart0 2 (decimal (minutes now)).

Definition generateFilename (now : LocalTime) (fileNameFormat : str) (channelName : str) : str :=
  let fmt := match fileNameFormat with [] => DEFAULT_FORMAT | _ => fileNameFormat end in
  Replace.replaceFirst (lit "{channel}") (cleanChannel channelName)
    (Replace.replaceFirst (lit "YYYYMMDD-HHmm") (dateStr now) fmt).


(** *** Batch orchestration ([exportSelected]) *)

Record Channel := { name : str; channelId : str }.

Record Config := {
  downloadDirectory : str;
  fileNameFormat : str;
  historyDays : Z
}.

(** [/^[CDG][A-Z0-9]{8,}$/i] on the trimmed value. *)
Definition isSlackConversationId (value : str) : bool :=
  match trim value with
  | c :: rest =>
      (eqc c (ch "C") || eqc c (ch "D") || eqc c (ch "G")
       || eqc c (ch "c") || eqc c (ch "d") || eqc c (ch "g"))
      && (8 <=? length rest) && forallb isAlnum rest
  | [] => false
  end.

(** The response to [BATCH_EXPORT_CHANNEL]. *)
Record ExportResponse := {
  r_success : bool;
  r_messageCount : option Z;
  r_attachmentCount : option Z;
  r_markdown : option str;
  r_markdownSavedByContent : bool;
  r_error : option str
}.

Record DownloadResponse := { d_success : bool; d_error : option str }.

(** What the outside world answers while one channel is processed. *)
Record ChannelEnv := {
  ce_now : Z;                                   (* Date.now() for the window *)
  ce_response : Settled (option ExportResponse);   (* chrome.tabs.sendMessage *)
  ce_localeString : str;                        (* now.toLocaleString() *)
  ce_localTime : LocalTime;                     (* new Date() of generateFilename *)
  ce_download : nat -> Settled (option DownloadResponse);  (* DOWNLOAD_FILE, by attempt *)
  ce_stamp : Z;                                 (* Date.now() for the timestamp *)
  ce_saveConfig : Settled unit                  (* chrome.storage.sync.set *)
}.

Inductive Event :=
  | EvStatus (channelId status : str)
  | EvSession (event : str) (channelId : option str) (status : option str)
  | EvExportChannel (channelId channelName : str) (oldestTimestamp : Z)
  | EvDownloadFile (filename content directory : str)
  | EvSaveConfig (lastExportTimestamps : gmap str Z)
  | EvSleep (ms : Z).

Record ChannelResult := {
  cr_channel : str;
  cr_success : bool;
  cr_count : Z;
  cr_attachments : Z;
  cr_error : option str
}.

(** The variables of the loop, and the durable configuration store. *)
Record LoopState := {
  lastExportTimestamps : gmap str Z;   (* the popup's in-memory object *)
  storedTimestamps : gmap str Z;       (* what chrome.storage.sync holds *)
  results : list ChannelResult;
  combinedMarkdown : str;
  completedMessages : Z;
  completedAttachments : Z
}.

Definition pushResult (r : ChannelResult) (st : LoopState) : LoopState :=
  {| lastExportTimestamps := lastExportTimestamps st;
     storedTimestamps := storedTimestamps st;
     results := results st ++ [r];
     combinedMarkdown := combinedMarkdown st;
     completedMessages := completedMessages st;
     completedAttachments := completedAttachments st |}.

Definition failure (channel : Channel) (message : str) : ChannelResult :=
  {| cr_channel := name channel; cr_success := false; cr_count := 0;
     cr_attachments := 0; cr_error := Some message |}.

Definition orDefault (s dflt : str) : str :=
  match s with [] => dflt | _ => s end.

Definition fallbackMarkdown (channel : Channel) (exportTime : str) : str :=
  lit "# Slack Export Extension Export: " ++ name channel ++ [10%N]
    ++ lit "*Exported: " ++ exportTime ++ lit "*" ++ [10; 10]%N
    ++ lit "---" ++ [10; 10]%N
    ++ lit "*Note: No messages found or export encountered errors*" ++ [10; 10]%N.

(** The retry loop around [DOWNLOAD_FILE]: attempts [retry], [retry + 1], ...
    below 3. Returns the events, whether a download succeeded, and the last
    error. *)
Fixpoint downloadAttempts (fuel retry : nat) (request : Event)
    (answer : nat -> Settled (option DownloadResponse)) (lastError : option str)
    : list Event * bool * option str :=
  match fuel with
  | 0 => ([], false, lastError)
  | S fuel' =>
      let retryDelay := if retry <? 2 then [EvSleep 1000] else [] in
      match answer retry with
      | Resolved (Some {| d_success := true |}) => ([request], true, lastError)
      | Resolved (Some {| d_success := false; d_error := e |}) =>
          let err := Some (match e with
                           | Some ((_ :: _) as m) => m
                           | _ => lit "Download failed"
                           end) in
          let '(evs, ok, err') := downloadAttempts fuel' (S retry) request answer err in
          (request :: retryDelay ++ evs, ok, err')
      | Resolved None =>
          let '(evs, ok, err') :=
            downloadAttempts fuel' (S retry) request answer (Some (lit "Download failed")) in
          (request :: retryDelay ++ evs, ok, err')
      | Rejected m =>
          let '(evs, ok, err') := downloadAttempts fuel' (S retry) request answer (Some m) in
          (request :: retryDelay ++ evs, ok, err')
      end
  end.

(** The body of the [catch] clause of the loop. *)
Definition caught (channel : Channel) (message : str) (st : LoopState)
    : list Event * LoopState :=
  ([EvStatus (channelId channel) (lit "error");
    EvSession (lit "channel_done") (Some (channelId channel)) (Some (lit "error"))],
   pushResult (failure channel message) st).

(** One iteration of the loop for [channel]; [isLast] is [i = selected.length - 1].
    The [continue] statements leave the iteration before the rate-limit
    delay. *)
Definition exportOne (config : Config) (combinedChecked : bool) (isLast : bool)
    (channel : Channel) (env : ChannelEnv) (st : LoopState) : list Event * LoopState :=
  let id := channelId channel in
  let start := [EvStatus id (lit "active");
                EvSession (lit "channel_start") (Some id) None] in
  let rateLimit := if isLast then [] else [EvSleep 2500] in
  if negb (isSlackConversationId id) then
    (start ++ [EvStatus id (lit "error")],
     pushResult (failure channel (lit "Invalid conversation ID: " ++ id)) st)
  else
    let historyDays := if (historyDays config =? 0)%Z then 7%Z else historyDays config in
    let oldestTimestamp := (ce_now env - historyDays * 86400 * 1000)%Z in
    let request := [EvExportChannel id (name channel) oldestTimestamp] in
    match ce_response env with
    | Rejected m =>
        let '(evs, st') := caught channel m st in
        (start ++ request ++ evs ++ rateLimit, st')
    | Resolved None =>
        let '(evs, st') := caught channel (lit "Unknown error") st in
        (start ++ request ++ evs ++ rateLimit, st')
    | Resolved (Some response) =>
        if negb (r_success response) then
          let message := match r_error response with
                         | Some ((_ :: _) as m) => m
                         | _ => lit "Unknown error"
                         end in
          let '(evs, st') := caught channel message st in
          (start ++ request ++ evs ++ rateLimit, st')
        else
          let channelMessageCount := default 0%Z (r_messageCount response) in
          let channelAttachmentCount := default 0%Z (r_attachmentCount response) in
          let markdownToDownload :=
            match r_markdown response with
            | Some md => match trim md with
                         | [] => fallbackMarkdown channel (ce_localeString env)
                         | _ => md
                         end
            | None => fallbackMarkdown channel (ce_localeString env)
            end in
          let '(saveEvents, saved, downloadError) :=
            if r_markdownSavedByContent response then ([], true, None)
            else downloadAttempts 3 0
                   (EvDownloadFile
                      (generateFilename (ce_localTime env) (fileNameFormat config) (name channel))
                      markdownToDownload
                      (orDefault (downloadDirectory config) (lit "slack-exports")))
                   (ce_download env) None in
          if negb saved then
            (start ++ request ++ saveEvents ++ [EvStatus id (lit "error")],
             pushResult (failure channel (default (lit "Download failed") downloadError)) st)
          else
            let wantsCombined :=
              combinedChecked && (0 <? default 0 (r_messageCount response))%Z in
            match (if wantsCombined then r_markdown response else Some []) with
            | None =>
                let '(evs, st') :=
                  caught channel
                    (lit "Cannot read properties of undefined (reading 'split')") st in
                (start ++ request ++ saveEvents ++ evs ++ rateLimit, st')
            | Some md =>
                let combined :=
                  if wantsCombined
                  then combinedMarkdown st ++ [10; 10]%N ++ lit "---" ++ [10; 10]%N
                         ++ lit "## " ++ name channel ++ [10; 10]%N
                         ++ join [10%N] (skipn 3 (split 10%N md))
                  else combinedMarkdown st in
                let timestamps := <[id := ce_stamp env]> (lastExportTimestamps st) in
                let st1 :=
                  {| lastExportTimestamps := timestamps;
                     storedTimestamps := storedTimestamps st;
                     results := results st;
                     combinedMarkdown := combined;
                     completedMessages := completedMessages st;
                     completedAttachments := completedAttachments st |} in
                match ce_saveConfig env with
                | Rejected m =>
                    let '(evs, st') := caught channel m st1 in
                    (start ++ request ++ saveEvents ++ [EvSaveConfig timestamps]
                       ++ evs ++ rateLimit, st')
                | Resolved _ =>
                    (start ++ request ++ saveEvents ++ [EvSaveConfig timestamps]
                       ++ [EvStatus id (lit "success");
                           EvSession (lit "channel_done") (Some id) (Some (lit "success"))]
                       ++ rateLimit,
                     {| lastExportTimestamps := timestamps;
                        storedTimestamps := timestamps;
                        results := results st
                          ++ [{| cr_channel := name channel; cr_success := true;
                                 cr_count := channelMessageCount;
                                 cr_attachments := channelAttachmentCount;
                                 cr_error := None |}];
                        combinedMarkdown := combined;
                        completedMessages := (completedMessages st + channelMessageCount)%Z;
                        completedAttachments :=
                          (completedAttachments st + channelAttachmentCount)%Z |})
                end
            end
    end.

(** The [for] loop over the selected channels, each with its environment. *)
Fixpoint exportLoop (config : Config) (combinedChecked : bool)
    (selected : list (Channel * ChannelEnv)) (st : LoopState) : list Event * LoopState :=
  match selected with
  | [] => ([], st)
  | (channel, env) :: rest =>
      let isLast := match rest with [] => true | _ => false end in
      let '(evs, st1) := exportOne config combinedChecked isLast channel env st in
      let '(evs', st2) := exportLoop config combinedChecked rest st1 in
      (evs ++ evs', st2)
  end.

(** What [new Date()] gives when the combined file is written. *)
Record FinishEnv := { fe_localeString : str; fe_localTime : LocalTime }.

Definition resetBatch (st : LoopState) : LoopState :=
  {| lastExportTimestamps := lastExportTimestamps st;
     storedTimestamps := storedTimestamps st;
     results := [];
     combinedMarkdown := [];
     completedMessages := 0;
     completedAttachments := 0 |}.

Definition exportSelected (config : Config) (combinedChecked : bool)
    (selected : list (Channel * ChannelEnv)) (fin : FinishEnv) (st : LoopState)
    : list Event * LoopState :=
  match selected with
  | [] => ([], st)
  | _ =>
      let '(evs, st') := exportLoop config combinedChecked selected (resetBatch st) in
      let combined :=
        match combinedChecked, combinedMarkdown st' with
        | true, _ :: _ =>
            [EvDownloadFile
               (generateFilename (fe_localTime fin) (fileNameFormat config) (lit "combined"))
               (lit "# Slack Export Extension Combined Export" ++ [10%N]
                  ++ lit "*Exported: " ++ fe_localeString fin ++ lit "*" ++ [10%N]
                  ++ combinedMarkdown st')
               (orDefault (downloadDirectory config) (lit "slack-exports"))]
        | _, _ => []
        end in
      (EvSession (lit "start") None None :: evs ++ combined
         ++ [EvSession (lit "finish") None None], st')
  end.

End Popup.

(** ** src/content.js: attachment file names *)

Module Assets.

(** The class of [sanitizeFileName]: slash, backslash, question mark, star,
    bar, double quote (code 34), angle brackets and colon. *)
Definition isUnsafeNameChar (c : char) : bool :=
  eqc c (ch "/") || eqc c (ch "\") || eqc c (ch "?") || eqc c (ch "*")
  || eqc c (ch "|") || eqc c 34%N || eqc c (ch "<") || eqc c (ch ">")
  || eqc c (ch ":").

(** [filename] is [None] for [undefined]/[null]; the empty string is falsy
    too. [now] is [Date.now()]. *)
Definition sanitizeFileName (now : N) (filename : option str) : str :=
  match filename with
  | None | Some [] => lit "file-" ++ decimal now
  | Some f =>
      let sanitized :=
        firstn 200
          (Replace.gsub (Replace.runAt isWhiteSpace) (Replace.byTemplate (lit "_"))
             (Replace.gsub (Replace.classAt isUnsafeNameChar)
                (Replace.byTemplate (lit "_")) f)) in
      if includes (lit ".") sanitized then sanitized else sanitized ++ lit ".bin"
  end.

Definition hasExt (sanitized : str) : bool :=
  match lastIndexOfChar (ch ".") sanitized with
  | Some lastDotIndex => (0 <? lastDotIndex) && (lastDotIndex <? length sanitized - 1)
  | None => false
  end.

Definition lastDot (sanitized : str) : nat :=
  match lastIndexOfChar (ch ".") sanitized with Some i => i | None => 0 end.

Definition extOf (sanitized : str) : str :=
  if hasExt sanitized then sliceFrom (lastDot sanitized) sanitized else lit ".bin".

Definition baseOf (sanitized : str) : str :=
  if hasExt sanitized then sliceTo (lastDot sanitized) sanitized else sanitized.

Definition maxBaseLength : nat := 140.

Definition safeBaseOf (sanitized : str) : str := sliceTo maxBaseLength (baseOf sanitized).

Definition sequenceOf (index : N) : str := padStart0 4 (decimal (index + 1)).

Definition buildUniqueAssetFilename (now : N) (originalName : option str)
    (exportPrefix : str) (index : N) : str :=
  let sanitized := sanitizeFileName now originalName in
  exportPrefix ++ lit "-" ++ sequenceOf index ++ lit "-"
    ++ safeBaseOf sanitized ++ extOf sanitized.

End Assets.

(** ** src/content.js: messages *)

Record FileRef := {
  f_id : option str;
  f_name : str;
  f_url : str;
  f_mimetype : str;
  f_image : bool;
  f_embedded : bool
}.

Record Reply := {
  rp_sender : str;
  rp_content : str;
  rp_timestamp : str;
  rp_messageFiles : list FileRef
}.

Record EnrichedMessage := {
  sender : str;
  content : str;
  timestamp : str;
  threadReplies : list Reply;
  messageFiles : list FileRef
}.

Record ExportConfig := {
  cfg_downloadDirectory : str;
  cfg_fileNameFormat : str;
  cfg_includeTimestamps : bool;
  cfg_includeThreadReplies : bool;
  cfg_historyDays : Z
}.

(** ** src/content.js: Markdown *)

Module Markdown.

Definition LF : char := 10%N.
Definition CR : char := 13%N.

Definition backticks : str := lit "```".
Definition tildes : str := lit "~~~".

(** The alternation [(```|~~~)] at the head of [s]. *)
Definition fenceMarkerAt (s : str) : option str :=
  if startsWith backticks s then Some backticks
  else if startsWith tildes s then Some tildes
  else None.

(** [trimmed.match(/^(```|~~~)\s*[A-Za-z0-9_-]*\s*$/)]: the marker captured. *)
Definition openFenceMatch (trimmed : str) : option str :=
  match fenceMarkerAt trimmed with
  | Some marker =>
      match dropWhile isWhiteSpace
              (dropWhile Utils.isNameChar (dropWhile isWhiteSpace (skipn 3 trimmed))) with
      | [] => Some marker
      | _ => None
      end
  | None => None
  end.

(** The tail ["** (" Y "):"] of the header pattern, [Y] being one or more
    code units other than the closing parenthesis. *)
Definition headerTail (t : str) : bool :=
  startsWith (lit "** (") t
  && match takeWhile (fun c => negb (eqc c (ch ")"))) (skipn 4 t) with
     | [] => false
     | y => eqs (skipn (4 + length y) t) (lit "):")
     end.

(** [.+] followed by the tail: [seen] tells that [.+] has consumed a unit. *)
Fixpoint headerScan (seen : bool) (rest : str) : bool :=
  (seen && headerTail rest)
  || match rest with
     | c :: r => negb (isLineTerminator c) && headerScan true r
     | [] => false
     end.

(** [/^\*\*.+\*\* \([^)]+\):$/.test(trimmed)] *)
Definition messageHeaderPattern (trimmed : str) : bool :=
  startsWith (lit "**") trimmed && headerScan false (skipn 2 trimmed).

(** The lazy code group and the back-reference after an opening marker:
    the shortest code of at least one unit followed by the same marker; the
    rest of the line is the suffix. [codeRev] is the code read so far. *)
Fixpoint closeScan (marker : str) (codeRev : str) (t : str) : option (str * str) :=
  if startsWith marker t then Some (rev codeRev, skipn (length marker) t)
  else match t with
       | c :: t' => closeScan marker (c :: codeRev) t'
       | [] => None
       end.

Definition findClose (marker : str) (t : str) : option (str * str) :=
  match t with
  | c :: t' => closeScan marker [c] t'
  | [] => None
  end.

Fixpoint fullFenceScan (prefixRev : str) (s : str) : option (str * str * str * str) :=
  let continue :=
    match s with
    | c :: s' => fullFenceScan (c :: prefixRev) s'
    | [] => None
    end in
  match fenceMarkerAt s with
  | Some marker =>
      match findClose marker (skipn 3 s) with
      | Some (code, suffix) => Some (rev prefixRev, marker, code, suffix)
      | None => continue
      end
  | None => continue
  end.

(** The match of the inline full fence expression, anchored at both ends:
    a lazy prefix, a marker (three backticks or three tildes), a lazy code
    of at least one unit, the same marker again, and a greedy suffix. The
    result is prefix, marker, code and suffix. The groups and the markers
    cover the whole line and [.] refuses line terminators, so a line
    holding one does not match. *)
Definition inlineFullFenceMatch (line : str) : option (str * str * str * str) :=
  if existsb isLineTerminator line then None else fullFenceScan [] line.

(** [line.match(/^(.*?)(```|~~~)\s*$/)]: prefix and marker. *)
Fixpoint trailingScan (prefixRev : str) (s : str) : option (str * str) :=
  let continue :=
    match s with
    | c :: s' => if isLineTerminator c then None else trailingScan (c :: prefixRev) s'
    | [] => None
    end in
  match fenceMarkerAt s with
  | Some marker =>
      if forallb isWhiteSpace (skipn 3 s) then Some (rev prefixRev, marker)
      else continue
  | None => continue
  end.

Definition trailingOpenFenceMatch (line : str) : option (str * str) :=
  trailingScan [] line.

(** A string pushed unless it is empty ([if (x) out.push(x)]). *)
Definition pushIf (x : str) : list str :=
  match x with [] => [] | _ => [x] end.

(** [if (prefix && prefix.trim()) out.push(prefix.trimEnd())] *)
Definition pushPrefix (prefix : str) : list str :=
  match trim prefix with [] => [] | _ => [trimEnd prefix] end.

(** [if (suffix && suffix.trim()) out.push(suffix.trimStart())] *)
Definition pushSuffix (suffix : str) : list str :=
  match trim suffix with [] => [] | _ => [trimStart suffix] end.

(** The state of the loop: the marker of the open fence, if any. The
    variables [inCodeBlock] and [codeFenceMarker] change together:
    [inCodeBlock] is true exactly when [codeFenceMarker] is set. *)
Definition FenceState := option str.

(** One line inside the fence opened by [marker]. *)
Definition stepInside (marker : str) (line : str) : list str * FenceState :=
  let trimmed := trim line in
  if messageHeaderPattern trimmed then ([marker; line], None)
  else
    match indexOf marker line with
    | Some inlineCloseIndex =>
        let codePart := sliceTo inlineCloseIndex line in
        let trailing := trim (sliceFrom (inlineCloseIndex + length marker) line) in
        (pushIf codePart ++ [marker] ++ pushIf trailing, None)
    | None =>
        if startsWith marker trimmed
        then ([marker] ++ pushIf (trim (sliceFrom (length marker) trimmed)), None)
        else ([line], Some marker)
    end.

(** One line outside any fence. *)
Definition stepOutside (line : str) : list str * FenceState :=
  let trimmed := trim line in
  match openFenceMatch trimmed with
  | Some marker => ([trimmed], Some marker)
  | None =>
      match inlineFullFenceMatch line with
      | Some (prefix, marker, code, suffix) =>
          (pushPrefix prefix ++ [marker; code; marker] ++ pushSuffix suffix, None)
      | None =>
          match trailingOpenFenceMatch line with
          | Some (prefix, marker) => (pushPrefix prefix ++ [marker], Some marker)
          | None => ([line], None)
          end
      end
  end.

(** The body of the [for] loop: the lines pushed to [out] and the next state. *)
Definition step (st : FenceState) (rawLine : str) : list str * FenceState :=
  match st with
  | Some marker => stepInside marker rawLine
  | None => stepOutside rawLine
  end.

Fixpoint normalizeLines (st : FenceState) (lines : list str) : list str * FenceState :=
  match lines with
  | [] => ([], st)
  | l :: ls =>
      let '(out, st1) := step st l in
      let '(out', st2) := normalizeLines st1 ls in
      (out ++ out', st2)
  end.

Definition closeFenceIfOpen (st : FenceState) : list str :=
  match st with Some marker => [marker] | None => [] end.

(** [markdown.replace(/\r\n/g, '\n')] *)
Definition normalizeNewlines (markdown : str) : str :=
  Replace.gsub (Replace.literalAt [CR; LF]) (Replace.byTemplate [LF]) markdown.

Definition normalizeFenceBoundaries (markdown : str) : str :=
  let lines := split LF (normalizeNewlines markdown) in
  let '(out, st) := normalizeLines None lines in
  join [LF] (out ++ closeFenceIfOpen st).

Section Render.

(** [formatTimestamp] depends on the locale and the time zone of the
    browser; the export time is [new Date().toLocaleString()]. *)
Variable formatTimestamp : str -> str.
Variable exportTime : str.

Definition bullet : char := 8226%N.

Definition renderReply (reply : Reply) : str :=
  (match rp_sender reply with
   | [] => []
   | s => lit "  " ++ [bullet] ++ lit " **" ++ Utils.escapeMarkdown s ++ lit "**: "
   end)
  ++ (match rp_content reply with
      | [] => []
      | c => c ++ [LF]
      end).

Definition renderMessage (config : ExportConfig) (message : EnrichedMessage) : str :=
  (match sender message with
   | [] => []
   | s =>
       lit "**" ++ Utils.escapeMarkdown s ++ lit "**"
         ++ (match cfg_includeTimestamps config, timestamp message with
             | true, (_ :: _) as t => lit " (" ++ formatTimestamp t ++ lit ")"
             | _, _ => []
             end)
         ++ lit ":" ++ [LF]
   end)
  ++ (match content message with
      | [] => []
      | c => c ++ [LF; LF]
      end)
  ++ (match cfg_includeThreadReplies config, threadReplies message with
      | true, (_ :: _) as replies =>
          lit "**Thread Replies:**" ++ [LF]
            ++ concat (map renderReply replies) ++ [LF]
      | _, _ => []
      end).

Definition header (channelName : str) : str :=
  lit "# Slack Export Extension Export: " ++ channelName ++ [LF]
    ++ lit "*Exported: " ++ exportTime ++ lit "*" ++ [LF; LF]
    ++ lit "---" ++ [LF; LF].

(** The document before the final fence normalisation. *)
Definition rawMarkdown (messages : list EnrichedMessage) (channelName : str)
    (config : ExportConfig) : str :=
  header channelName ++ concat (map (renderMessage config) messages).

Definition convertToMarkdown (messages : list EnrichedMessage) (channelName : str)
    (config : ExportConfig) : str :=
  normalizeFenceBoundaries (rawMarkdown messages channelName config).

End Render.

End Markdown.

(** ** src/content.js: inline Markdown to HTML *)

Module Html.

Definition quote : char := 34%N.

(** A double-quoted attribute value. *)
Definition quoted (s : str) : str := quote :: s ++ [quote].

(** [escapeHtml]: five global replacements, the ampersand first. *)
Definition escapeHtml (text : str) : str :=
  let s1 := Replace.gsub (Replace.classAt (eqc (ch "&")))
              (Replace.byTemplate (lit "&amp;")) text in
  let s2 := Replace.gsub (Replace.classAt (eqc (ch "<")))
              (Replace.byTemplate (lit "&lt;")) s1 in
  let s3 := Replace.gsub (Replace.classAt (eqc (ch ">")))
              (Replace.byTemplate (lit "&gt;")) s2 in
  let s4 := Replace.gsub (Replace.classAt (eqc quote))
              (Replace.byTemplate (lit "&quot;")) s3 in
  Replace.gsub (Replace.classAt (eqc (ch "'")))
    (Replace.byTemplate (lit "&#39;")) s4.

(** A prefix test of an expression with the [i] flag and an ASCII pattern
    in lower case: an ASCII letter matches in both cases, any other code
    unit only itself. *)
Definition startsWithIgnoreCase (p value : str) : bool :=
  startsWith p (map lowerAscii value).

(** The first test of [normalizeHref]: one of the prefixes [http://],
    [https://], [mailto:], [#], [/], [./] and [../]. *)
Definition allowedPrefix (value : str) : bool :=
  startsWithIgnoreCase (lit "http://") value
  || startsWithIgnoreCase (lit "https://") value
  || startsWithIgnoreCase (lit "mailto:") value
  || startsWithIgnoreCase (lit "#") value
  || startsWithIgnoreCase (lit "/") value
  || startsWithIgnoreCase (lit "./") value
  || startsWithIgnoreCase (lit "../") value.

Definition isSegmentChar (c : char) : bool :=
  isAlnum c || eqc c (ch ".") || eqc c (ch "_") || eqc c (ch "-").

Definition isPathChar (c : char) : bool :=
  isAlnum c || eqc c (ch ".") || eqc c (ch "_") || eqc c (ch "%")
  || eqc c (ch "-") || eqc c (ch "/").

(** The second test: a first segment of letters, digits, dots, underscores
    and hyphens, a slash, and one or more path units up to the end. *)
Definition bareRelative (value : str) : bool :=
  match takeWhile isSegmentChar value with
  | [] => false
  | segment =>
      match skipn (length segment) value with
      | slash :: ((_ :: _) as rest) => eqc slash (ch "/") && forallb isPathChar rest
      | _ => false
      end
  end.

Definition isAllowed (value : str) : bool :=
  allowedPrefix value || bareRelative value.

(** [normalizeHref]: the trimmed value if it is allowed, else the empty
    string. *)
Definition normalizeHref (href : str) : str :=
  let value := trim href in
  match value with
  | [] => []
  | _ => if isAllowed value then value else []
  end.

Definition notBracket (c : char) : bool := negb (eqc c (ch "]")).

(** A unit of a link target: neither a closing parenthesis nor white
    space. *)
Definition isHrefChar (c : char) : bool := negb (eqc c (ch ")")) && negb (isWhiteSpace c).

(** The text and the target of a link anchored at the head of [s], after
    its opening bracket: units other than a closing bracket, a closing
    bracket, and one or more target units in parentheses. Both runs are
    greedy and neither can give a unit back: the unit after the run has
    to be the delimiter the run excludes. *)
Definition bracketed (rest : str) : option (str * str) :=
  let label := takeWhile notBracket rest in
  match skipn (length label) rest with
  | e :: f :: rest2 =>
      if eqc e (ch "]") && eqc f (ch "(") then
        let href := takeWhile isHrefChar rest2 in
        match href, skipn (length href) rest2 with
        | _ :: _, g :: _ => if eqc g (ch ")") then Some (label, href) else None
        | _, _ => None
        end
      else None
  | _ => None
  end.

(** The image pattern: an exclamation mark and a link whose text may be
    empty. *)
Definition imageAt (s : str) : option Replace.Match :=
  match s with
  | c :: d :: rest =>
      if eqc c (ch "!") && eqc d (ch "[") then
        match bracketed rest with
        | Some (alt, href) =>
            Some {| Replace.mlen := 2 + length alt + 2 + length href + 1;
                    Replace.mcaps := [alt; href] |}
        | None => None
        end
      else None
  | _ => None
  end.

(** The link pattern: the text is not empty. *)
Definition linkAt (s : str) : option Replace.Match :=
  match s with
  | c :: rest =>
      if eqc c (ch "[") then
        match bracketed rest with
        | Some ((_ :: _) as label, href) =>
            Some {| Replace.mlen := 1 + length label + 2 + length href + 1;
                    Replace.mcaps := [label; href] |}
        | _ => None
        end
      else None
  | [] => None
  end.

(** The callback of the image replacement. *)
Definition imageHtml (m : Replace.Match) (matched before after : str) : str :=
  let alt := Replace.capture (Replace.mcaps m) 1 in
  let href := Replace.capture (Replace.mcaps m) 2 in
  match normalizeHref href with
  | [] => matched
  | normalizedHref =>
      lit "<img src=" ++ quoted normalizedHref ++ lit " alt=" ++ quoted alt
        ++ lit " loading=" ++ quoted (lit "lazy") ++ lit ">"
  end.

(** The callback of the link replacement. *)
Definition linkHtml (m : Replace.Match) (matched before after : str) : str :=
  let label := Replace.capture (Replace.mcaps m) 1 in
  let href := Replace.capture (Replace.mcaps m) 2 in
  match normalizeHref href with
  | [] => label
  | normalizedHref =>
      lit "<a href=" ++ quoted normalizedHref ++ lit " target=" ++ quoted (lit "_blank")
        ++ lit " rel=" ++ quoted (lit "noopener noreferrer") ++ lit ">"
        ++ label ++ lit "</a>"
  end.

(** A lazy run of one or more units other than line terminators, up to
    the first place where [closer] follows: the length of the run. *)
Fixpoint lazyUntil (closer : str) (s : str) : option nat :=
  match s with
  | [] => None
  | c :: s' =>
      if isLineTerminator c then None
      else if startsWith closer s' then Some 1
      else option_map S (lazyUntil closer s')
  end.

(** A lazy run between two copies of [marker]. *)
Definition delimitedAt (marker : str) (s : str) : option Replace.Match :=
  if startsWith marker s then
    let rest := skipn (length marker) s in
    match lazyUntil marker rest with
    | Some n => Some {| Replace.mlen := length marker + n + length marker;
                        Replace.mcaps := [firstn n rest] |}
    | None => None
    end
  else None.

Definition inlineMarkdownToHtml (text : str) : str :=
  let safe0 := escapeHtml text in
  let safe1 := Replace.gsub imageAt imageHtml safe0 in
  let safe2 := Replace.gsub linkAt linkHtml safe1 in
  let safe3 := Replace.gsub (delimitedAt (lit "**"))
                 (Replace.byTemplate (lit "<strong>$1</strong>")) safe2 in
  let safe4 := Replace.gsub (delimitedAt (lit "*"))
                 (Replace.byTemplate (lit "<em>$1</em>")) safe3 in
  Replace.gsub (delimitedAt (lit "`"))
    (Replace.byTemplate (lit "<code>$1</code>")) safe4.

End Html.

(** ** src/content.js: the HTML document *)

Module Document.

Import Markdown.

(** The code lines and the marker of the open fence: [inCodeBlock] is true
    exactly when [codeFenceMarker] is set, and [codeLines] is emptied when a
    fence opens. *)
Record State := {
  fence : option (str * list str);
  inList : bool
}.

(** [closeList()]: the line pushed. *)
Definition closeList (inList : bool) : list str :=
  if inList then [lit "</ul>"] else [].

(** The element pushed for a code block. *)
Definition preBlock (codeLines : list str) : str :=
  lit "<pre><code>" ++ Html.escapeHtml (join [LF] codeLines) ++ lit "</code></pre>".

(** An element holding inline Markdown. *)
Definition element (tag : str) (text : str) : str :=
  lit "<" ++ tag ++ lit ">" ++ Html.inlineMarkdownToHtml text ++ lit "</" ++ tag ++ lit ">".

(** The expression built from the marker on the trimmed line: the marker
    at the start and any units but line terminators up to the end, which
    are captured. Neither marker holds a special character. *)
Definition closeFenceWithTailMatch (marker trimmed : str) : option str :=
  if startsWith marker trimmed then
    let tail := skipn (length marker) trimmed in
    if existsb isLineTerminator tail then None else Some tail
  else None.

(** A line outside any code block, after the test for an opening fence:
    the lines pushed and the new value of [inList]. *)
Definition textLine (inList : bool) (trimmed : str) : list str * bool :=
  match trimmed with
  | [] => (closeList inList, false)
  | _ =>
      if eqs trimmed (lit "---") then (closeList inList ++ [lit "<hr>"], false)
      else if startsWith (lit "# ") trimmed
      then (closeList inList ++ [element (lit "h1") (sliceFrom 2 trimmed)], false)
      else if startsWith (lit "## ") trimmed
      then (closeList inList ++ [element (lit "h2") (sliceFrom 3 trimmed)], false)
      else if startsWith (lit "### ") trimmed
      then (closeList inList ++ [element (lit "h3") (sliceFrom 4 trimmed)], false)
      else if startsWith (lit "> ") trimmed
      then (closeList inList ++ [element (lit "blockquote") (sliceFrom 2 trimmed)], false)
      else if startsWith (lit "- ") trimmed || startsWith (lit "* ") trimmed
              || startsWith (bullet :: lit " ") trimmed
      then ((if inList then [] else [lit "<ul>"])
              ++ [element (lit "li") (sliceFrom 2 trimmed)], true)
      else (closeList inList ++ [element (lit "p") trimmed], false)
  end.

(** The body of the [for] loop: the lines pushed to [html] and the next
    state. *)
Definition step (st : State) (rawLine : str) : list str * State :=
  let trimmedForFence := trim rawLine in
  match fence st with
  | None =>
      match openFenceMatch trimmedForFence with
      | Some marker =>
          (closeList (inList st), {| fence := Some (marker, []); inList := false |})
      | None =>
          let '(pushed, inList') := textLine (inList st) (trim rawLine) in
          (pushed, {| fence := None; inList := inList' |})
      end
  | Some (marker, codeLines) =>
      match closeFenceWithTailMatch marker trimmedForFence with
      | Some tail =>
          (preBlock codeLines
             :: match trim tail with
                | [] => []
                | trailing => [element (lit "p") trailing]
                end,
           {| fence := None; inList := inList st |})
      | None =>
          ([], {| fence := Some (marker, codeLines ++ [rawLine]); inList := inList st |})
      end
  end.

Fixpoint run (st : State) (lines : list str) : list str * State :=
  match lines with
  | [] => ([], st)
  | l :: ls =>
      let '(pushed, st1) := step st l in
      let '(pushed', st2) := run st1 ls in
      (pushed ++ pushed', st2)
  end.

(** The array [html] at the end of [markdownToBasicHtml]. *)
Definition htmlLines (markdown : str) : list str :=
  let lines := split LF (normalizeNewlines markdown) in
  let '(pushed, st) := run {| fence := None; inList := false |} lines in
  pushed
    ++ match fence st with
       | Some (_, codeLines) => [preBlock codeLines]
       | None => []
       end
    ++ closeList (inList st).

Definition markdownToBasicHtml (markdown : str) : str :=
  join [LF] (htmlLines markdown).

Definition defaultTitle : str := lit "Slack Export Extension Export".

Definition convertMarkdownToHtmlDocument (markdown channelName : str) : str :=
  let safeTitle :=
    Html.escapeHtml (match channelName with [] => defaultTitle | _ => channelName end) in
  let bodyHtml := markdownToBasicHtml (normalizeFenceBoundaries markdown) in
  join [LF]
    [ lit "<!doctype html>";
      lit "<html lang=" ++ Html.quoted (lit "en") ++ lit ">";
      lit "<head>";
      lit "  <meta charset=" ++ Html.quoted (lit "utf-8") ++ lit ">";
      lit "  <meta name=" ++ Html.quoted (lit "viewport") ++ lit " content="
        ++ Html.quoted (lit "width=device-width, initial-scale=1") ++ lit ">";
      lit "  <title>Slack Export Extension Export: " ++ safeTitle ++ lit "</title>";
      lit "  <style>";
      lit "    body { font-family: -apple-system, BlinkMacSystemFont, "
        ++ Html.quoted (lit "Segoe UI")
        ++ lit ", Roboto, sans-serif; margin: 24px; line-height: 1.5; color: #111827; }";
      lit "    h1, h2, h3 { margin-top: 1.4em; margin-bottom: 0.5em; }";
      lit "    p { margin: 0.6em 0; white-space: pre-wrap; }";
      lit "    hr { border: 0; border-top: 1px solid #d1d5db; margin: 1.2em 0; }";
      lit "    code { background: #f3f4f6; padding: 0.1em 0.25em; border-radius: 4px; }";
      lit "    pre { background: #f3f4f6; padding: 12px; border-radius: 6px; overflow-x: auto; }";
      lit "    blockquote { border-left: 3px solid #d1d5db; margin: 0.8em 0; padding-left: 10px; color: #4b5563; }";
      lit "    ul { margin: 0.5em 0 0.8em 1.2em; }";
      lit "    img { max-width: 100%; height: auto; border-radius: 6px; }";
      lit "  </style>";
      lit "</head>";
      lit "<body>";
      bodyHtml;
      lit "</body>";
      lit "</html>" ].

End Document.

(** ** src/content.js: attachments in message text *)

Module Files.

(** An entry of the download map: [{ localPath, localName, file, error }]. *)
Record FileInfo := {
  localPath : str;
  localName : str;
  error : bool
}.

(** [escapeRegex] escapes every special character, so the expression built
    from a URL matches that URL literally. The link pattern is an opening
    bracket, one or more units other than a closing bracket (captured), a
    closing bracket, and the URL in parentheses. *)
Definition linkAt (url : str) (s : str) : option Replace.Match :=
  match s with
  | c :: rest =>
      if eqc c (ch "[") then
        match takeWhile (fun x => negb (eqc x (ch "]"))) rest with
        | [] => None
        | label =>
            if startsWith (lit "](" ++ url ++ lit ")") (skipn (length label) rest)
            then Some {| Replace.mlen := 1 + length label + 2 + length url + 1;
                         Replace.mcaps := [label] |}
            else None
        end
      else None
  | [] => None
  end.

(** The image pattern: an exclamation mark, an opening bracket, any units
    other than a closing bracket (captured), a closing bracket, and the URL
    in parentheses. *)
Definition imageAt (url : str) (s : str) : option Replace.Match :=
  match s with
  | c :: d :: rest =>
      if eqc c (ch "!") && eqc d (ch "[") then
        let label := takeWhile (fun x => negb (eqc x (ch "]"))) rest in
        if startsWith (lit "](" ++ url ++ lit ")") (skipn (length label) rest)
        then Some {| Replace.mlen := 2 + length label + 2 + length url + 1;
                     Replace.mcaps := [label] |}
        else None
      else None
  | _ => None
  end.

Definition stripBaseDirectory (baseDirectory path : str) : str :=
  match path with
  | [] => path
  | _ =>
      let basePrefix := baseDirectory ++ lit "/" in
      if startsWith basePrefix path then skipn (length basePrefix) path else path
  end.

(** [fileInfo && fileInfo.localPath && !fileInfo.error]: the relative path
    to write, if the file was downloaded. *)
Definition usablePath (fileMap : gmap str FileInfo) (baseDirectory : str)
    (file : FileRef) : option str :=
  match fileMap !! f_url file with
  | Some info =>
      match localPath info, error info with
      | _ :: _, false => Some (stripBaseDirectory baseDirectory (localPath info))
      | _, _ => None
      end
  | None => None
  end.

(** The rewriting of the content of a top-level message for one file. *)
Definition rewriteForFile (fileMap : gmap str FileInfo) (baseDirectory : str)
    (updatedContent : str) (file : FileRef) : str :=
  match usablePath fileMap baseDirectory file with
  | Some relativePath =>
      let c1 := Replace.gsub (Replace.literalAt (f_url file))
                  (Replace.byTemplate relativePath) updatedContent in
      let c2 := Replace.gsub (linkAt (f_url file))
                  (Replace.byTemplate (lit "[$1](" ++ relativePath ++ lit ")")) c1 in
      if f_image file
      then Replace.gsub (imageAt (f_url file))
             (Replace.byTemplate (lit "![$1](" ++ relativePath ++ lit ")")) c2
      else c2
  | None => updatedContent
  end.

(** The rewriting of the content of a thread reply for one file. *)
Definition rewriteReplyForFile (fileMap : gmap str FileInfo) (baseDirectory : str)
    (updatedReplyContent : str) (file : FileRef) : str :=
  match usablePath fileMap baseDirectory file with
  | Some relativePath =>
      Replace.gsub (Replace.literalAt (f_url file))
        (Replace.byTemplate relativePath) updatedReplyContent
  | None => updatedReplyContent
  end.

Definition updateReply (fileMap : gmap str FileInfo) (baseDirectory : str)
    (reply : Reply) : Reply :=
  {| rp_sender := rp_sender reply;
     rp_content := fold_left (rewriteReplyForFile fileMap baseDirectory)
                     (rp_messageFiles reply) (rp_content reply);
     rp_timestamp := rp_timestamp reply;
     rp_messageFiles := rp_messageFiles reply |}.

Definition updateMessage (fileMap : gmap str FileInfo) (baseDirectory : str)
    (message : EnrichedMessage) : EnrichedMessage :=
  {| sender := sender message;
     content := fold_left (rewriteForFile fileMap baseDirectory)
                  (messageFiles message) (content message);
     timestamp := timestamp message;
     threadReplies := map (updateReply fileMap baseDirectory) (threadReplies message);
     messageFiles := messageFiles message |}.

(** The messages are updated in place; the updated list is returned. *)
Definition updateFileReferencesInMessages (messages : list EnrichedMessage)
    (fileMap : gmap str FileInfo) (baseDirectory : str) : list EnrichedMessage :=
  map (updateMessage fileMap baseDirectory) messages.

(** *** Download *)

Record DownloadResponse := { dr_success : bool; dr_error : option str }.

Definition retryable (message : str) : bool :=
  includes (lit "401") message || includes (lit "Failed to fetch") message.

Definition maxDownloadRetries : nat := 2.

Section Download.

(** The answer of the background page to [DOWNLOAD_SLACK_FILE] for a file
    and an attempt, and the clock. *)
Variable sendDownload : FileRef -> nat -> Settled (option DownloadResponse).
Variable now : N.

Fixpoint downloadSingleFileFrom (fuel : nat) (file : FileRef) (filesDir : str)
    (fileIndex : N) (exportPrefix : str) (retryCount : nat) : option (Settled str) :=
  match fuel with
  | 0 => None
  | S fuel' =>
      let sanitizedName :=
        Assets.buildUniqueAssetFilename now (Some (f_name file)) exportPrefix fileIndex in
      let localPath := filesDir ++ lit "/" ++ sanitizedName in
      let again :=
        downloadSingleFileFrom fuel' file filesDir fileIndex exportPrefix (S retryCount) in
      let caught (message : str) :=
        if retryable message && (retryCount <? maxDownloadRetries) then again
        else Some (Rejected message) in
      match sendDownload file retryCount with
      | Rejected m => caught m
      | Resolved (Some {| dr_success := true |}) => Some (Resolved localPath)
      | Resolved other =>
          let error :=
            match other with
            | Some {| dr_error := Some ((_ :: _) as e) |} => e
            | _ => lit "Download failed"
            end in
          if retryable error && (retryCount <? maxDownloadRetries) then again
          else caught error
      end
  end.

Definition downloadSingleFile (file : FileRef) (filesDir : str) (fileIndex : N)
    (exportPrefix : str) : option (Settled str) :=
  downloadSingleFileFrom (S maxDownloadRetries) file filesDir fileIndex exportPrefix 0.

(** The files with the URLs not seen before, in order. *)
Fixpoint uniqueFiles (seenUrls : list str) (files : list FileRef) : list FileRef :=
  match files with
  | [] => []
  | file :: rest =>
      if existsb (eqs (f_url file)) seenUrls then uniqueFiles seenUrls rest
      else file :: uniqueFiles (f_url file :: seenUrls) rest
  end.

Fixpoint downloadEach (files : list FileRef) (i : N) (filesDir exportPrefix : str)
    (fileMap : gmap str FileInfo) : gmap str FileInfo :=
  match files with
  | [] => fileMap
  | file :: rest =>
      let fileMap' :=
        match downloadSingleFile file filesDir i exportPrefix with
        | Some (Resolved ((_ :: _) as path)) =>
            <[f_url file := {| localPath := path; localName := f_name file;
                               error := false |}]> fileMap
        | Some (Resolved []) => fileMap
        | Some (Rejected _) | None =>
            <[f_url file := {| localPath := f_url file; localName := f_name file;
                               error := true |}]> fileMap
        end in
      downloadEach rest (i + 1) filesDir exportPrefix fileMap'
  end.

Definition downloadFiles (files : list FileRef) (channelName : str)
    (config : ExportConfig) (exportPrefix : str) : gmap str FileInfo :=
  let filesDir :=
    (match cfg_downloadDirectory config with [] => lit "slack-exports" | d => d end)
      ++ lit "/" ++ channelName ++ lit "_files" in
  downloadEach (uniqueFiles [] files) 0 filesDir exportPrefix ∅.

End Download.

End Files.

(** ** src/content.js: the channel export *)

Module Pipeline.

(** A message of [conversations.history] or [conversations.replies], with
    the fields the export reads itself. *)
Record RawMessage := {
  ts : str;
  user : option str;
  subtype : option str;
  bot_id : option str;
  username : option str;
  text : option str;
  thread_ts : option str;
  reply_count : option Z
}.

(** A string that is set and not empty. *)
Definition truthy (o : option str) : option str :=
  match o with
  | Some ((_ :: _) as s) => Some s
  | _ => None
  end.

(** *** Thread replies *)

(** What one request to [conversations.replies] comes to: [fetch] or
    [response.json()] throws, or the body says [ok] (with or without
    [messages]), or it reports an error (with or without
    [response_metadata.retry_after]). *)
Inductive RepliesResponse :=
  | FetchFails (message : str)
  | ApiOk (messages : option (list RawMessage))
  | ApiError (error : str) (retry_after : option Z).

(** The network as the export sees it: the thread of each request sent to
    [conversations.replies], the threads [fetchThreadReplies] was called
    for by the export, and the delays waited (ms). *)
Record Net := {
  calls : list str;
  requested : list str;
  waits : list Z
}.

Definition sent (threadTs : str) (net : Net) : Net :=
  {| calls := calls net ++ [threadTs]; requested := requested net; waits := waits net |}.

Definition slept (ms : Z) (net : Net) : Net :=
  {| calls := calls net; requested := requested net; waits := waits net ++ [ms] |}.

Definition asked (threadTs : str) (net : Net) : Net :=
  {| calls := calls net; requested := requested net ++ [threadTs]; waits := waits net |}.

Definition maxRetries : nat := 3.

Section Replies.

(** The answer to the [n]-th request to [conversations.replies] (counted
    from 0 over the whole export). *)
Variable respond : nat -> RepliesResponse.

(** [fetchThreadReplies(channelId, threadTs, oldestUnix, token, retryCount)].
    A recursive call is returned as it is; every [throw] of the [try] block
    lands in the [catch] clause, which retries or returns the empty list. *)
Fixpoint fetchThreadRepliesFrom (fuel : nat) (threadTs : str) (retryCount : nat)
    (net : Net) : option (list RawMessage * Net) :=
  match fuel with
  | 0 => None
  | S fuel' =>
      let response := respond (length (calls net)) in
      let net1 := sent threadTs net in
      let backoff := (2 ^ Z.of_nat retryCount * 2)%Z in
      let retryAfter (seconds : Z) :=
        fetchThreadRepliesFrom fuel' threadTs (S retryCount)
          (slept (seconds * 1000) net1) in
      let caught (message : str) :=
        if includes (lit "ratelimited") message && (retryCount <? maxRetries)
        then retryAfter backoff
        else Some ([], net1) in
      match response with
      | FetchFails m => caught m
      | ApiOk messages => Some (default [] messages, net1)
      | ApiError error retry_after =>
          if eqs error (lit "ratelimited") && (retryCount <? maxRetries)
          then retryAfter (match retry_after with
                           | Some r => if (r =? 0)%Z then backoff else r
                           | None => backoff
                           end)
          else caught (lit "conversations.replies API failed: " ++ error)
      end
  end.

Definition fetchThreadReplies (threadTs : str) (net : Net) : list RawMessage * Net :=
  default ([], net) (fetchThreadRepliesFrom (S maxRetries) threadTs 0 net).

(** *** The first pass: user ids and thread replies *)

Definition isUserIdChar (c : char) : bool := isUpper c || isDigit c.

(** The ids captured by the mention pattern: an opening angle bracket, an
    at sign, one or more of [[A-Z0-9]], a closing angle bracket. Matches do
    not overlap, a match holding one opening bracket only. *)
Fixpoint mentionIds (s : str) : list str :=
  match s with
  | [] => []
  | _ :: s' =>
      (if startsWith (lit "<@") s then
         match takeWhile isUserIdChar (skipn 2 s) with
         | [] => []
         | id => if startsWith (lit ">") (skipn (2 + length id) s) then [id] else []
         end
       else [])
      ++ mentionIds s'
  end.

(** [userIds.add(id)] on a set kept in insertion order. *)
Definition addId (ids : list str) (id : str) : list str :=
  if existsb (eqs id) ids then ids else ids ++ [id].

Definition addIdsOf (ids : list str) (msg : RawMessage) : list str :=
  fold_left addId (mentionIds (default [] (text msg)))
    (match truthy (user msg) with Some u => addId ids u | None => ids end).

(** [config.includeThreadReplies && msg.thread_ts && msg.reply_count > 0] *)
Definition threadOf (config : ExportConfig) (msg : RawMessage) : option str :=
  if cfg_includeThreadReplies config
  then match truthy (thread_ts msg), reply_count msg with
       | Some t, Some n => if (0 <? n)%Z then Some t else None
       | _, _ => None
       end
  else None.

Record ScanState := {
  userIds : list str;
  threadRepliesCache : gmap str (list RawMessage);
  threadFetchCount : nat;
  net : Net
}.

Definition scanMessage (config : ExportConfig) (st : ScanState) (msg : RawMessage)
    : ScanState :=
  let ids := addIdsOf (userIds st) msg in
  match threadOf config msg with
  | Some threadTs =>
      let net0 := match threadFetchCount st with
                  | 0 => net st
                  | S _ => slept 800 (net st)
                  end in
      let '(repliesRaw, net1) := fetchThreadReplies threadTs (asked threadTs net0) in
      {| userIds := fold_left addIdsOf repliesRaw ids;
         threadRepliesCache := <[threadTs := repliesRaw]> (threadRepliesCache st);
         threadFetchCount := S (threadFetchCount st);
         net := net1 |}
  | None =>
      {| userIds := ids;
         threadRepliesCache := threadRepliesCache st;
         threadFetchCount := threadFetchCount st;
         net := net st |}
  end.

Definition scanMessages (config : ExportConfig) (apiMessages : list RawMessage)
    (net0 : Net) : ScanState :=
  fold_left (scanMessage config) apiMessages
    {| userIds := []; threadRepliesCache := ∅; threadFetchCount := 0; net := net0 |}.

End Replies.

(** *** The second pass: enrichment *)

Section Enrich.

(** [collectFilesFromMessage] and [extractMessageContent] read the files
    and blocks of the platform message and clean its text through the DOM;
    [parseFloat] is the number a timestamp string denotes, scaled to an
    integer of microseconds. *)
Variable collectFilesFromMessage : RawMessage -> list FileRef.
Variable extractMessageContent : RawMessage -> gmap str str -> list FileRef -> str.
Variable parseFloat : str -> Z.

Definition unknownUser : str := lit "Unknown User".

(** [userMap[id] || 'Unknown User'] *)
Definition nameOf (userMap : gmap str str) (id : option str) : str :=
  match id with
  | Some u => default unknownUser (truthy (userMap !! u))
  | None => unknownUser
  end.

Definition senderOf (userMap : gmap str str) (apiMsg : RawMessage) : str :=
  match truthy (user apiMsg) with
  | Some u => nameOf userMap (Some u)
  | None =>
      match truthy (subtype apiMsg) with
      | Some st =>
          if eqs st (lit "bot_message")
          then match truthy (bot_id apiMsg) with
               | Some _ => default (lit "Bot") (truthy (username apiMsg))
               | None => lit "System"
               end
          else lit "System"
      | None => unknownUser
      end
  end.

Definition enrichReply (userMap : gmap str str) (reply : RawMessage) : Reply :=
  let replyFiles := collectFilesFromMessage reply in
  {| rp_sender := nameOf userMap (user reply);
     rp_content := extractMessageContent reply userMap replyFiles;
     rp_timestamp := ts reply;
     rp_messageFiles := replyFiles |}.

(** The enriched message and the files it adds to [filesToDownload]. The
    replies come from the cache only. *)
Definition enrichMessage (config : ExportConfig) (userMap : gmap str str)
    (cache : gmap str (list RawMessage)) (apiMsg : RawMessage)
    : EnrichedMessage * list FileRef :=
  let files := collectFilesFromMessage apiMsg in
  let replies :=
    match threadOf config apiMsg with
    | Some threadTs =>
        map (enrichReply userMap)
          (List.filter (fun reply => negb (eqs (ts reply) threadTs))
             (default [] (cache !! threadTs)))
    | None => []
    end in
  ({| sender := senderOf userMap apiMsg;
      content := extractMessageContent apiMsg userMap files;
      timestamp := ts apiMsg;
      threadReplies := replies;
      messageFiles := files |},
   files ++ concat (map rp_messageFiles replies)).

(** The stable sort by [parseFloat(a.timestamp) - parseFloat(b.timestamp)]. *)
Fixpoint insertByTimestamp (m : EnrichedMessage) (sorted : list EnrichedMessage)
    : list EnrichedMessage :=
  match sorted with
  | [] => [m]
  | x :: rest =>
      if (parseFloat (timestamp m) <? parseFloat (timestamp x))%Z
      then m :: sorted
      else x :: insertByTimestamp m rest
  end.

Definition sortByTimestamp (ms : list EnrichedMessage) : list EnrichedMessage :=
  fold_left (fun sorted m => insertByTimestamp m sorted) ms [].

(** *** [exportChannelViaAPI] *)

Record ExportResult := {
  res_messageCount : nat;
  res_markdown : str;
  res_channelName : str
}.

(** What the browser and the platform answer during one channel export. *)
Record ExportEnv := {
  env_config : ExportConfig;                       (* getConfig() *)
  env_token : Settled str;                         (* getSlackAuthToken() *)
  env_now : Z;                                     (* Date.now() *)
  env_exportPrefix : str;
  env_history : str -> Z -> Settled (list RawMessage);  (* getMessagesViaHistoryAPI *)
  env_respond : nat -> RepliesResponse;            (* conversations.replies *)
  env_users : list str -> gmap str str;            (* fetchSpecificUsers *)
  env_sendDownload : FileRef -> nat -> Settled (option Files.DownloadResponse);
  env_clock : N;
  env_formatTimestamp : str -> str;
  env_exportTime : str                             (* toLocaleString() *)
}.

Definition toMarkdown (env : ExportEnv) (messages : list EnrichedMessage)
    (channelName : str) : str :=
  Markdown.convertToMarkdown (env_formatTimestamp env) (env_exportTime env)
    messages channelName (env_config env).

Definition emptyNet : Net := {| calls := []; requested := []; waits := [] |}.

Definition exportChannelViaAPI (env : ExportEnv) (channelId channelName : str)
    (oldestTimestamp : option Z) : Settled ExportResult * Net :=
  let config := env_config env in
  match env_token env with
  | Rejected m => (Rejected m, emptyNet)
  | Resolved token =>
      let historyDays := if (cfg_historyDays config =? 0)%Z then 7%Z
                         else cfg_historyDays config in
      let oldestUnix :=
        match oldestTimestamp with
        | Some t => if (t =? 0)%Z
                    then ((env_now env - historyDays * 86400 * 1000) / 1000)%Z
                    else (t / 1000)%Z
        | None => ((env_now env - historyDays * 86400 * 1000) / 1000)%Z
        end in
      match env_history env channelId oldestUnix with
      | Rejected m => (Rejected m, emptyNet)
      | Resolved [] =>
          (Resolved {| res_messageCount := 0;
                       res_markdown := toMarkdown env [] channelName;
                       res_channelName := channelName |}, emptyNet)
      | Resolved apiMessages =>
          let scan := scanMessages (env_respond env) config apiMessages emptyNet in
          let userMap := env_users env (userIds scan) in
          let enriched :=
            map (enrichMessage config userMap (threadRepliesCache scan)) apiMessages in
          let enrichedMessages := map fst enriched in
          let filesToDownload := concat (map snd enriched) in
          let messages :=
            sortByTimestamp
              (List.filter (fun msg => match trim (content msg) with
                                       | [] => false
                                       | _ => true
                                       end) enrichedMessages) in
          let fileMap :=
            Files.downloadFiles (env_sendDownload env) (env_clock env)
              filesToDownload channelName config (env_exportPrefix env) in
          let baseDirectory :=
            match cfg_downloadDirectory config with
            | [] => lit "slack-exports"
            | d => d
            end in
          let messages' := Files.updateFileReferencesInMessages messages fileMap baseDirectory in
          let markdown := toMarkdown env messages' channelName in
          (Resolved {| res_messageCount := length messages';
                       res_markdown := match trim markdown with
                                       | [] => toMarkdown env [] channelName
                                       | _ => markdown
                                       end;
                       res_channelName := channelName |}, net scan)
      end
  end.

End Enrich.

(** *** The [BATCH_EXPORT_CHANNEL] listener *)

Record SaveRes := { save_success : bool; save_error : option str }.

Record BatchResponse := {
  b_success : bool;
  b_messageCount : nat;
  b_markdown : str;
  b_channelName : str;
  b_markdownSavedByContent : bool;
  b_markdownSaveError : option str;
  b_error : option str
}.

Section Listener.

Variable collectFilesFromMessage : RawMessage -> list FileRef.
Variable extractMessageContent : RawMessage -> gmap str str -> list FileRef -> str.
Variable parseFloat : str -> Z.

(** [saveBatchChannelMarkdown], by attempt: what it resolves with, or the
    message it rejects with. *)
Variable save : nat -> str -> str -> Settled SaveRes.

Definition savedBy (r : Settled SaveRes) : bool * option str :=
  match r with
  | Resolved res => (save_success res, truthy (save_error res))
  | Rejected m => (false, Some m)
  end.

Definition handleBatchExportChannel (env : ExportEnv) (channelId channelName : str)
    (oldestTimestamp : option Z) : BatchResponse :=
  match fst (exportChannelViaAPI collectFilesFromMessage extractMessageContent parseFloat
               env channelId channelName oldestTimestamp) with
  | Resolved result =>
      let markdown := match trim (res_markdown result) with
                      | [] => toMarkdown env [] channelName
                      | _ => res_markdown result
                      end in
      let '(saved, saveError) := savedBy (save 0 channelName markdown) in
      {| b_success := true;
         b_messageCount := res_messageCount result;
         b_markdown := markdown;
         b_channelName := res_channelName result;
         b_markdownSavedByContent := saved;
         b_markdownSaveError := saveError;
         b_error := None |}
  | Rejected message =>
      let errorMarkdown := toMarkdown env [] channelName in
      match save 0 channelName errorMarkdown with
      | Resolved saveRes =>
          {| b_success := true;
             b_messageCount := 0;
             b_markdown := errorMarkdown;
             b_channelName := channelName;
             b_markdownSavedByContent := save_success saveRes;
             b_markdownSaveError := truthy (save_error saveRes);
             b_error := Some message |}
      | Rejected _ =>
          let minimalMarkdown :=
            lit "# Slack Export Extension Export: " ++ channelName ++ [Markdown.LF]
              ++ lit "*Exported: " ++ env_exportTime env ++ lit "*"
              ++ [Markdown.LF; Markdown.LF] ++ lit "---" ++ [Markdown.LF; Markdown.LF]
              ++ lit "*Note: Export encountered errors: " ++ message ++ lit "*"
              ++ [Markdown.LF; Markdown.LF] in
          let '(saved, saveError) := savedBy (save 1 channelName minimalMarkdown) in
          {| b_success := true;
             b_messageCount := 0;
             b_markdown := minimalMarkdown;
             b_channelName := channelName;
             b_markdownSavedByContent := saved;
             b_markdownSaveError := saveError;
             b_error := Some message |}
      end
  end.

End Listener.

End Pipeline.

(** ** src/content.js: the message history *)

Module History.

(** What one request to [conversations.history] comes to: [fetch] or
    [response.json()] throws, or the body says [ok] (with or without
    [messages], [has_more] and [response_metadata.next_cursor]), or it
    reports an error. *)
Inductive Response :=
  | FetchFails (message : str)
  | ApiOk (messages : option (list Pipeline.RawMessage)) (has_more : bool)
          (next_cursor : option str)
  | ApiError (error : str).

(** The cursor sent with each request (the empty string when the request
    carries none) and the delays waited (ms). *)
Record Log := {
  requests : list str;
  waits : list Z
}.

Definition sent (cursor : str) (log : Log) : Log :=
  {| requests := requests log ++ [cursor]; waits := waits log |}.

Definition slept (ms : Z) (log : Log) : Log :=
  {| requests := requests log; waits := waits log ++ [ms] |}.

Definition emptyLog : Log := {| requests := []; waits := [] |}.

(** How the retry loop of one page ends: with the page, or with an error
    thrown out of the function. *)
Inductive PageResult :=
  | PageOk (pageMessages : list Pipeline.RawMessage) (hasMore : bool) (cursor : str)
  | PageThrows (message : str).

Section Fetch.

(** The answer to the [n]-th request (counted from 0). *)
Variable respond : nat -> Response.

(** The loop [while (!success && retryCount < 3)] for one page;
    [remaining] is [3 - retryCount]. A rate-limited answer counts a retry
    and waits before the condition is tested again; any other failure is
    caught, counts a retry and is thrown again at the third. *)
Fixpoint fetchPage (remaining : nat) (pageCount : nat) (cursor : str) (log : Log)
    : PageResult * Log :=
  match remaining with
  | 0 =>
      (PageThrows (lit "Failed to fetch message page " ++ decimal (N.of_nat pageCount)
                     ++ lit " after 3 retries"), log)
  | S remaining' =>
      let retryCount := 3 - remaining in
      let log1 := sent cursor log in
      let caught (message : str) :=
        match remaining' with
        | 0 => (PageThrows message, log1)
        | S _ =>
            fetchPage remaining' pageCount cursor
              (slept (2 ^ Z.of_nat (S retryCount) * 1000) log1)
        end in
      match respond (length (requests log)) with
      | ApiOk messages has_more next_cursor =>
          (PageOk (default [] messages) has_more
             (default [] (Pipeline.truthy next_cursor)), log1)
      | ApiError error =>
          if eqs error (lit "ratelimited")
          then fetchPage remaining' pageCount cursor
                 (slept (2 ^ Z.of_nat (S retryCount) * 2000) log1)
          else caught (lit "conversations.history API failed: " ++ error)
      | FetchFails message => caught message
      end
  end.

(** The loop [while (hasMore)]: one page for each unit of fuel. *)
Fixpoint fetchPages (fuel : nat) (pageCount : nat) (cursor : str)
    (allMessages : list Pipeline.RawMessage) (log : Log)
    : option (Settled (list Pipeline.RawMessage) * Log) :=
  match fuel with
  | 0 => None
  | S fuel' =>
      let pageCount := S pageCount in
      let log0 := if 1 <? pageCount then slept 1000 log else log in
      match fetchPage 3 pageCount cursor log0 with
      | (PageThrows message, log1) => Some (Rejected message, log1)
      | (PageOk pageMessages hasMore cursor', log1) =>
          let allMessages := allMessages ++ pageMessages in
          if hasMore then fetchPages fuel' pageCount cursor' allMessages log1
          else Some (Resolved allMessages, log1)
      end
  end.

Definition getMessagesViaHistoryAPI (fuel : nat)
    : option (Settled (list Pipeline.RawMessage) * Log) :=
  fetchPages fuel 0 [] [] emptyLog.

End Fetch.

End History.

(** ** src/content.js: user names *)

Module Users.

(** The fields of a user object that the export reads. *)
Record User := {
  real_name : option str;
  profile_display_name : option str;
  profile_real_name : option str;
  name : option str
}.

(** [user.real_name || user.profile?.display_name || user.profile?.real_name
    || user.name || 'Unknown User'] *)
Definition displayName (user : User) : str :=
  match Pipeline.truthy (real_name user) with
  | Some n => n
  | None =>
      match Pipeline.truthy (profile_display_name user) with
      | Some n => n
      | None =>
          match Pipeline.truthy (profile_real_name user) with
          | Some n => n
          | None => default (lit "Unknown User") (Pipeline.truthy (name user))
          end
      end
  end.

(** [remainingUserIds.slice(i, i + batchSize)] for [i = 0, batchSize, ...];
    the fuel is the number of ids. *)
Fixpoint batches (fuel : nat) (batchSize : nat) (ids : list str) : list (list str) :=
  match fuel, ids with
  | S fuel', _ :: _ => firstn batchSize ids :: batches fuel' batchSize (skipn batchSize ids)
  | _, _ => []
  end.

Section Fetch.

(** [fetchSingleUser]: the user of the answer ([None] when the answer
    holds none), or the error thrown. *)
Variable fetchSingleUser : str -> Settled (option User).

(** The user map and the delays waited (ms). *)
Definition State : Type := gmap str str * list Z.

(** The body of the inner loop, for one id. *)
Definition fetchOne (st : State) (userId : str) : State :=
  let '(userMap, waits) := st in
  match fetchSingleUser userId with
  | Resolved (Some user) => (<[userId := displayName user]> userMap, waits ++ [100%Z])
  | Resolved None => (userMap, waits ++ [100%Z])
  | Rejected _ => (<[userId := lit "Unknown User"]> userMap, waits)
  end.

(** The outer loop over the batches: the longer delay is waited when
    another batch follows. *)
Fixpoint fetchBatches (bs : list (list str)) (st : State) : State :=
  match bs with
  | [] => st
  | batch :: rest =>
      let '(userMap, waits) := fold_left fetchOne batch st in
      fetchBatches rest
        (userMap, match rest with [] => waits | _ => waits ++ [500%Z] end)
  end.

(** [fetchSpecificUsers]: [fetchChannelMembers] returns no member (an
    empty list on every path), so every id is looked up on its own. *)
Definition fetchSpecificUsers (userIds : list str) : State :=
  let userMap : gmap str str := ∅ in
  let remainingUserIds :=
    List.filter (fun id => match Pipeline.truthy (userMap !! id) with
                           | Some _ => false
                           | None => true
                           end) userIds in
  fetchBatches (batches (length remainingUserIds) 10 remainingUserIds) (userMap, []).

End Fetch.

End Users.

(** ** src/utils.js and src/content.js: names *)

Module Names.

(** The class [[\w\-\.]] of [sanitizeChannelName]. *)
Definition isChannelChar (c : char) : bool :=
  isAlnum c || eqc c (ch "_") || eqc c (ch "-") || eqc c (ch ".").

(** [s.replace(/^#/, '')] *)
Definition stripHash (s : str) : str :=
  match s with
  | c :: rest => if eqc c (ch "#") then rest else s
  | [] => []
  end.

(** [s.replace(/^-|-$/g, '')]: a hyphen at the start is removed, and then
    a hyphen at the end of what follows it. *)
Definition stripEdgeHyphens (s : str) : str :=
  let s1 := match s with
            | c :: rest => if eqc c (ch "-") then rest else s
            | [] => []
            end in
  match rev s1 with
  | c :: restRev => if eqc c (ch "-") then rev restRev else s1
  | [] => []
  end.

(** [sanitizeChannelName]; [toLowerCase] meets ASCII code units only. *)
Definition sanitizeChannelName (name : str) : str :=
  match name with
  | [] => lit "slack-channel"
  | _ =>
      let replaced :=
        Replace.gsub (Replace.classAt (fun c => negb (isChannelChar c)))
          (Replace.byTemplate (lit "-")) (stripHash name) in
      let collapsed :=
        Replace.gsub (Replace.runAt (eqc (ch "-"))) (Replace.byTemplate (lit "-")) replaced in
      match firstn 50 (map lowerAscii (stripEdgeHyphens collapsed)) with
      | [] => lit "slack-channel"
      | sanitized => sanitized
      end
  end.

(** The test of an expression [/\.x$/i] for an ASCII suffix in lower
    case. *)
Definition endsWithIgnoreCase (suffix s : str) : bool :=
  (length suffix <=? length s)
  && eqs (map lowerAscii (skipn (length s - length suffix) s)) suffix.

(** [getHtmlFilename]; the argument is [None] when it is not a string. *)
Definition getHtmlFilename (markdownFilename : option str) : str :=
  match markdownFilename with
  | None | Some [] => lit "slack-export.html"
  | Some f =>
      if endsWithIgnoreCase (lit ".md") f
      then firstn (length f - 3) f ++ lit ".html"
      else if endsWithIgnoreCase (lit ".markdown") f
      then firstn (length f - 9) f ++ lit ".html"
      else f ++ lit ".html"
  end.

End Names.

(** ** src/content.js: saving the channel files *)

Module Save.

(** The data of a [DOWNLOAD_FILE] request. *)
Record Request := {
  filename : str;
  content : str;
  directory : str;
  mimeType : option str
}.

Record Response := { success : bool; error : option str }.

Section Save.

(** [getConfig()], the [new Date()] of [generateFilename], and what
    [chrome.runtime.sendMessage] comes to for the [n]-th request. *)
Variable config : ExportConfig.
Variable now : LocalTime.
Variable sendMessage : nat -> Request -> Settled (option Response).

(** [response?.error || fallback] *)
Definition errorOf (response : option Response) (fallback : str) : str :=
  match response with
  | Some {| error := Some ((_ :: _) as e) |} => e
  | _ => fallback
  end.

(** [saveBatchChannelMarkdown]: what it settles with, and the requests it
    has sent. *)
Definition saveBatchChannelMarkdown (channelName markdown : str)
    : Settled Pipeline.SaveRes * list Request :=
  let filename := Utils.generateFilename now (cfg_fileNameFormat config) channelName in
  let htmlFilename := Names.getHtmlFilename (Some filename) in
  let html := Document.convertMarkdownToHtmlDocument markdown channelName in
  let directory := match cfg_downloadDirectory config with
                   | [] => lit "slack-exports"
                   | d => d
                   end in
  let markdownRequest :=
    {| filename := filename; content := markdown; directory := directory;
       mimeType := None |} in
  let htmlRequest :=
    {| filename := htmlFilename; content := html; directory := directory;
       mimeType := Some (lit "text/html") |} in
  match sendMessage 0 markdownRequest with
  | Rejected m => (Rejected m, [markdownRequest])
  | Resolved (Some {| success := true |}) =>
      match sendMessage 1 htmlRequest with
      | Rejected m => (Rejected m, [markdownRequest; htmlRequest])
      | Resolved (Some {| success := true |}) =>
          (Resolved {| Pipeline.save_success := true; Pipeline.save_error := None |},
           [markdownRequest; htmlRequest])
      | Resolved htmlResponse =>
          (Resolved {| Pipeline.save_success := false;
                       Pipeline.save_error :=
                         Some (errorOf htmlResponse (lit "DOWNLOAD_FILE failed for HTML")) |},
           [markdownRequest; htmlRequest])
      end
  | Resolved response =>
      (Resolved {| Pipeline.save_success := false;
                   Pipeline.save_error := Some (errorOf response (lit "DOWNLOAD_FILE failed")) |},
       [markdownRequest])
  end.

End Save.

End Save.

(** ** background.js *)

Module Background.

(** *** [handleFileDownload] *)

Record DownloadData := {
  dd_filename : str;
  dd_content : option str;
  dd_directory : option str;
  dd_mimeType : option str
}.

Record DownloadOptions := {
  do_url : str;
  do_filename : str;
  do_saveAs : bool;
  do_conflictAction : str
}.

Definition isPathSeparator (c : char) : bool := eqc c (ch "/") || eqc c (ch "\").

(** [directory.trim().replace(/[\/\\]/g, '')] *)
Definition cleanDirectory (directory : str) : str :=
  Replace.gsub (Replace.classAt isPathSeparator) (Replace.byTemplate []) (trim directory).

(** [directory && directory.trim()] selects the prefixed path. *)
Definition downloadPath (filename : str) (directory : option str) : str :=
  match directory with
  | Some d =>
      match d, trim d with
      | _ :: _, _ :: _ => cleanDirectory d ++ lit "/" ++ filename
      | _, _ => filename
      end
  | None => filename
  end.

Section Download.

(** [encodeURIComponent] ([None] when it throws [URIError]) and
    [chrome.downloads.download] (the download id, or the rejection). *)
Variable encodeURIComponent : str -> option str.
Variable chromeDownload : DownloadOptions -> str + Z.

(** The options handed to [chrome.downloads.download], or the error thrown
    before the call. *)
Definition downloadRequest (data : DownloadData) : str + DownloadOptions :=
  let mimeType := match dd_mimeType data with Some m => m | None => lit "text/markdown" end in
  match dd_content data with
  | None | Some [] => inl (lit "No content provided for download")
  | Some content =>
      match encodeURIComponent content with
      | None => inl (lit "URI malformed")
      | Some enc =>
          inr {| do_url := lit "data:" ++ mimeType ++ lit ";charset=utf-8," ++ enc;
                 do_filename := downloadPath (dd_filename data) (dd_directory data);
                 do_saveAs := false;
                 do_conflictAction := lit "uniquify" |}
      end
  end.

Definition handleFileDownload (data : DownloadData) : str + Z :=
  match downloadRequest data with
  | inl e => inl e
  | inr opts => chromeDownload opts
  end.

End Download.

(** *** Durable batch state *)

Record BatchExportState := {
  active : bool;
  totalChannels : Z;
  completedChannels : Z;
  currentChannelId : str;
  currentChannelName : str;
  activityText : str;
  stage : str;
  messageCount : Z;
  attachmentCount : Z;
  fetchedThreads : Z;
  totalThreads : Z;
  progressPercent : Z;
  channelStatuses : gmap str str;
  updatedAt : Z
}.

(** What the store holds under the key: an object with any subset of the
    fields. *)
Record StoredState := {
  s_active : option bool;
  s_totalChannels : option Z;
  s_completedChannels : option Z;
  s_currentChannelId : option str;
  s_currentChannelName : option str;
  s_activityText : option str;
  s_stage : option str;
  s_messageCount : option Z;
  s_attachmentCount : option Z;
  s_fetchedThreads : option Z;
  s_totalThreads : option Z;
  s_progressPercent : option Z;
  s_channelStatuses : option (gmap str str);
  s_updatedAt : option Z
}.

Definition BATCH_EXPORT_STATE_STALE_MS : Z := 45000.

Definition DEFAULT_BATCH_EXPORT_STATE : BatchExportState :=
  {| active := false; totalChannels := 0; completedChannels := 0;
     currentChannelId := []; currentChannelName := []; activityText := [];
     stage := []; messageCount := 0; attachmentCount := 0; fetchedThreads := 0;
     totalThreads := 0; progressPercent := 0; channelStatuses := ∅;
     updatedAt := 0 |}.

Definition emptyStored : StoredState :=
  {| s_active := None; s_totalChannels := None; s_completedChannels := None;
     s_currentChannelId := None; s_currentChannelName := None;
     s_activityText := None; s_stage := None; s_messageCount := None;
     s_attachmentCount := None; s_fetchedThreads := None; s_totalThreads := None;
     s_progressPercent := None; s_channelStatuses := None; s_updatedAt := None |}.

(** [{ ...base, ...stored }] *)
Definition spread (base : BatchExportState) (stored : StoredState) : BatchExportState :=
  {| active := default (active base) (s_active stored);
     totalChannels := default (totalChannels base) (s_totalChannels stored);
     completedChannels := default (completedChannels base) (s_completedChannels stored);
     currentChannelId := default (currentChannelId base) (s_currentChannelId stored);
     currentChannelName := default (currentChannelName base) (s_currentChannelName stored);
     activityText := default (activityText base) (s_activityText stored);
     stage := default (stage base) (s_stage stored);
     messageCount := default (messageCount base) (s_messageCount stored);
     attachmentCount := default (attachmentCount base) (s_attachmentCount stored);
     fetchedThreads := default (fetchedThreads base) (s_fetchedThreads stored);
     totalThreads := default (totalThreads base) (s_totalThreads stored);
     progressPercent := default (progressPercent base) (s_progressPercent stored);
     channelStatuses := default (channelStatuses base) (s_channelStatuses stored);
     updatedAt := default (updatedAt base) (s_updatedAt stored) |}.

Definition markStale (state : BatchExportState) (now : Z) : BatchExportState :=
  {| active := false;
     totalChannels := totalChannels state;
     completedChannels := completedChannels state;
     currentChannelId := currentChannelId state;
     currentChannelName := currentChannelName state;
     activityText := lit "Export status stale";
     stage := lit "stale";
     messageCount := messageCount state;
     attachmentCount := attachmentCount state;
     fetchedThreads := fetchedThreads state;
     totalThreads := totalThreads state;
     progressPercent := progressPercent state;
     channelStatuses := channelStatuses state;
     updatedAt := now |}.

(** One read of the state.
    - [stored] is the outcome of [chrome.storage.local.get]: [None] when it
      rejects, [Some None] when the key is absent;
    - [nowRead] and [nowWrite] are the two readings of [Date.now()];
    - [setOk] tells whether [chrome.storage.local.set] resolves.
    The result is the state returned and the state written back, if any. *)
Definition getBatchExportState (stored : option (option StoredState))
    (nowRead nowWrite : Z) (setOk : bool) : BatchExportState * option BatchExportState :=
  match stored with
  | None => (DEFAULT_BATCH_EXPORT_STATE, None)
  | Some result =>
      let state := spread DEFAULT_BATCH_EXPORT_STATE (default emptyStored result) in
      if active state && negb (updatedAt state =? 0)%Z
         && (BATCH_EXPORT_STATE_STALE_MS <? nowRead - updatedAt state)%Z
      then
        let staleState := markStale state nowWrite in
        if setOk then (staleState, Some staleState)
        else (DEFAULT_BATCH_EXPORT_STATE, None)
      else (state, None)
  end.

(** [saveBatchExportState]: the next state merged over the defaults and
    stamped with [Date.now()]; it is written to the store and returned. *)
Definition saveBatchExportState (nextState : StoredState) (now : Z) : BatchExportState :=
  let state := spread DEFAULT_BATCH_EXPORT_STATE nextState in
  {| active := active state;
     totalChannels := totalChannels state;
     completedChannels := completedChannels state;
     currentChannelId := currentChannelId state;
     currentChannelName := currentChannelName state;
     activityText := activityText state;
     stage := stage state;
     messageCount := messageCount state;
     attachmentCount := attachmentCount state;
     fetchedThreads := fetchedThreads state;
     totalThreads := totalThreads state;
     progressPercent := progressPercent state;
     channelStatuses := channelStatuses state;
     updatedAt := now |}.

(** The object the store holds after a full state was written. *)
Definition toStored (state : BatchExportState) : StoredState :=
  {| s_active := Some (active state);
     s_totalChannels := Some (totalChannels state);
     s_completedChannels := Some (completedChannels state);
     s_currentChannelId := Some (currentChannelId state);
     s_currentChannelName := Some (currentChannelName state);
     s_activityText := Some (activityText state);
     s_stage := Some (stage state);
     s_messageCount := Some (messageCount state);
     s_attachmentCount := Some (attachmentCount state);
     s_fetchedThreads := Some (fetchedThreads state);
     s_totalThreads := Some (totalThreads state);
     s_progressPercent := Some (progressPercent state);
     s_channelStatuses := Some (channelStatuses state);
     s_updatedAt := Some (updatedAt state) |}.

End Background.

(** ** background.js: the direct download of a platform file *)

Module SlackFile.

(** The class [[a-z0-9-]] under the [i] flag. *)
Definition isLabelChar (c : char) : bool := isAlnum c || eqc c (ch "-").

(** The rest of the expression of [isSlackUrl] anchored at the head of
    [s]: any number of groups made of one or more label units and a dot,
    and then [slack.com/]. A run of label units is followed by the dot only
    when it is taken whole. [fuel] bounds the number of groups. *)
Fixpoint hostAt (fuel : nat) (s : str) : bool :=
  Html.startsWithIgnoreCase (lit "slack.com/") s
  || match fuel with
     | 0 => false
     | S fuel' =>
         match takeWhile isLabelChar s with
         | [] => false
         | label =>
             match skipn (length label) s with
             | dot :: rest => eqc dot (ch ".") && hostAt fuel' rest
             | [] => false
             end
         end
     end.

(** The expression anchored at the head of [s]: the optional scheme, which
    matches at the start of the input only, and the rest. *)
Definition matchAt (atStart : bool) (s : str) : bool :=
  atStart
  && (Html.startsWithIgnoreCase (lit "http://") s && hostAt (length s) (skipn 7 s)
      || Html.startsWithIgnoreCase (lit "https://") s && hostAt (length s) (skipn 8 s))
  || hostAt (length s) s.

(** The search for a match from each position in turn. *)
Fixpoint testFrom (atStart : bool) (s : str) : bool :=
  matchAt atStart s
  || match s with
     | [] => false
     | _ :: s' => testFrom false s'
     end.

Definition isSlackUrl (actualFileUrl : str) : bool := testFrom true actualFileUrl.

Record DownloadOptions := {
  url : str;
  filename : str;
  saveAs : bool;
  conflictAction : str;
  headers : option (list (str * str))
}.

(** The options of the first attempt of [handleSlackFileDownload], the
    direct download. *)
Definition directDownloadOptions (actualFileUrl filename token : str) : DownloadOptions :=
  {| url := actualFileUrl;
     filename := filename;
     saveAs := false;
     conflictAction := lit "uniquify";
     headers := if isSlackUrl actualFileUrl
                then Some [(lit "Authorization", lit "Bearer " ++ token)]
                else None |}.

End SlackFile.

(** ** background.js: the session of a batch export *)

Module Session.

Import Background.

(** A [BATCH_EXPORT_SESSION] message. *)
Record Message := {
  event : str;
  channelId : option str;
  channelName : option str;
  totalChannels : option Z;
  status : option str
}.

Section Handler.

(** [Math.round((completedChannels / totalChannels) * 100)], computed in
    floating point. *)
Variable roundedPercent : Z -> Z -> Z.

Definition calcProgressPercent (completedChannels totalChannels : Z) : Z :=
  if (totalChannels <=? 0)%Z then 0%Z
  else Z.max 0 (Z.min 100 (roundedPercent completedChannels totalChannels)).

(** [if (channelId) nextStatuses[channelId] = value] on a copy of the
    statuses. *)
Definition setStatus (statuses : gmap str str) (channelId : option str) (value : str)
    : gmap str str :=
  match Pipeline.truthy channelId with
  | Some id => <[id := value]> statuses
  | None => statuses
  end.

(** [{ ...current, ...changes }], the fields of [changes] given one by
    one. *)
Definition startState (total : Z) : StoredState :=
  {| s_active := Some true;
     s_totalChannels := Some total;
     s_completedChannels := Some 0%Z;
     s_currentChannelId := Some [];
     s_currentChannelName := Some [];
     s_activityText := Some (lit "Preparing export...");
     s_stage := Some (lit "starting");
     s_messageCount := Some 0%Z;
     s_attachmentCount := Some 0%Z;
     s_fetchedThreads := Some 0%Z;
     s_totalThreads := Some 0%Z;
     s_progressPercent := Some 0%Z;
     s_channelStatuses := Some ∅;
     s_updatedAt := None |}.

Definition channelStartState (current : BatchExportState) (message : Message)
    : StoredState :=
  {| s_active := Some true;
     s_totalChannels := Some (Background.totalChannels current);
     s_completedChannels := Some (completedChannels current);
     s_currentChannelId :=
       Some (default (currentChannelId current) (Pipeline.truthy (channelId message)));
     s_currentChannelName :=
       Some (default (currentChannelName current) (Pipeline.truthy (channelName message)));
     s_activityText :=
       Some (match Pipeline.truthy (channelName message) with
             | Some n => lit "Starting " ++ n ++ lit "..."
             | None => lit "Starting channel..."
             end);
     s_stage := Some (lit "channel_start");
     s_messageCount := Some (messageCount current);
     s_attachmentCount := Some (attachmentCount current);
     s_fetchedThreads := Some (fetchedThreads current);
     s_totalThreads := Some (totalThreads current);
     s_progressPercent := Some (progressPercent current);
     s_channelStatuses :=
       Some (setStatus (channelStatuses current) (channelId message) (lit "active"));
     s_updatedAt := Some (updatedAt current) |}.

Definition channelDoneState (current : BatchExportState) (message : Message)
    : StoredState :=
  let completed := Z.min (completedChannels current + 1) (Background.totalChannels current) in
  {| s_active := Some (active current);
     s_totalChannels := Some (Background.totalChannels current);
     s_completedChannels := Some completed;
     s_currentChannelId := Some (currentChannelId current);
     s_currentChannelName := Some (currentChannelName current);
     s_activityText := Some (activityText current);
     s_stage := Some (stage current);
     s_messageCount := Some (messageCount current);
     s_attachmentCount := Some (attachmentCount current);
     s_fetchedThreads := Some (fetchedThreads current);
     s_totalThreads := Some (totalThreads current);
     s_progressPercent :=
       Some (calcProgressPercent completed (Background.totalChannels current));
     s_channelStatuses :=
       Some (setStatus (channelStatuses current) (channelId message)
               (match status message with
                | Some s => if eqs s (lit "error") then lit "error" else lit "success"
                | None => lit "success"
                end));
     s_updatedAt := Some (updatedAt current) |}.

Definition finishState (current : BatchExportState) : StoredState :=
  {| s_active := Some false;
     s_totalChannels := Some (Background.totalChannels current);
     s_completedChannels := Some (completedChannels current);
     s_currentChannelId := Some [];
     s_currentChannelName := Some [];
     s_activityText := Some (lit "Export complete");
     s_stage := Some (lit "done");
     s_messageCount := Some (messageCount current);
     s_attachmentCount := Some (attachmentCount current);
     s_fetchedThreads := Some 0%Z;
     s_totalThreads := Some 0%Z;
     s_progressPercent := Some 100%Z;
     s_channelStatuses := Some (channelStatuses current);
     s_updatedAt := Some (updatedAt current) |}.

(** The object handed to [saveBatchExportState], if the event is known. *)
Definition nextState (current : BatchExportState) (message : Message)
    : option StoredState :=
  if eqs (event message) (lit "start")
  then Some (startState (default 0%Z (totalChannels message)))
  else if eqs (event message) (lit "channel_start")
  then Some (channelStartState current message)
  else if eqs (event message) (lit "channel_done")
  then Some (channelDoneState current message)
  else if eqs (event message) (lit "finish")
  then Some (finishState current)
  else None.

(** What the browser does while one message is handled: whether
    [chrome.storage.local.get] resolves, the readings of [Date.now()], and
    whether the two calls of [chrome.storage.local.set] resolve. *)
Record Browser := {
  getOk : bool;
  nowRead : Z;
  nowStale : Z;
  staleSetOk : bool;
  nowSave : Z;
  saveOk : bool
}.

(** The listener for [BATCH_EXPORT_SESSION]: the store after the message
    (the value under the key of the state, if any) and the [success] field
    of the response. *)
Definition handleSession (store : option StoredState) (browser : Browser)
    (message : Message) : option StoredState * bool :=
  let '(current, written) :=
    getBatchExportState (if getOk browser then Some store else None)
      (nowRead browser) (nowStale browser) (staleSetOk browser) in
  let store1 := match written with
                | Some staleState => Some (toStored staleState)
                | None => store
                end in
  match nextState current message with
  | Some next =>
      if saveOk browser
      then (Some (toStored (saveBatchExportState next (nowSave browser))), true)
      else (store1, false)
  | None => (store1, true)
  end.

End Handler.

End Session.

(** ** Reference definitions for the filename claims

    These follow the words of the specification, not the code, and are
    compared with the generators above. *)

Module Spec.

(** Every maximal run of code units satisfying [bad] becomes one hyphen. *)
Fixpoint collapseRuns (bad : char -> bool) (inRun : bool) (s : str) : str :=
  match s with
  | [] => []
  | c :: s' =>
      if bad c
      then (if inRun then collapseRuns bad true s'
            else ch "-" :: collapseRuns bad true s')
      else c :: collapseRuns bad false s'
  end.

(** "the channel name lowercased with all non [[A-Za-z0-9_-]] characters
    collapsed to single hyphens". *)
Definition cleanChannel (channelName : str) : str :=
  map lowerAscii (collapseRuns (fun c => negb (Utils.isNameChar c)) false channelName).

(** The class [[A-Za-z0-9_]]. *)
Definition isWordChar (c : char) : bool := isAlnum c || eqc c (ch "_").

(** The same with the hyphen counted among the collapsed characters: every
    maximal run of code units outside [[A-Za-z0-9_]] becomes one hyphen. *)
Definition cleanChannelWord (channelName : str) : str :=
  map lowerAscii (collapseRuns (fun c => negb (isWordChar c)) false channelName).

(** The first occurrence of the token [pat] replaced by the text [repl],
    taken literally. *)
Definition substFirst (pat repl s : str) : str :=
  match indexOf pat s with
  | None => s
  | Some i => firstn i s ++ repl ++ skipn (i + length pat) s
  end.

(** The export timestamp as [YYYYMMDD-HHmm]. *)
Definition stamp (t : LocalTime) : str :=
  decimal (fullYear t) ++ padStart0 2 (decimal (month0 t + 1))
    ++ padStart0 2 (decimal (date t)) ++ lit "-"
    ++ padStart0 2 (decimal (hours t)) ++ padStart0 2 (decimal (minutes t)).

End Spec.

(** * Properties *)

Example lit_abc : lit "abc" = [97; 98; 99]%N.
Proof. reflexivity. Qed.

Example split_ex : split 10%N (lit "a" ++ [10%N] ++ lit "b" ++ [10%N]) = [lit "a"; lit "b"; []].
Proof. reflexivity. Qed.

Example decimal_ex : decimal 2024 = lit "2024" /\ padStart0 4 (decimal 7) = lit "0007".
Proof. split; reflexivity. Qed.

Example trim_ex : trim (lit "  a b  ") = lit "a b".
Proof. reflexivity. Qed.

Definition t_2024 : LocalTime :=
  {| fullYear := 2024; month0 := 0; date := 2; hours := 3; minutes := 4 |}.

Example popup_general_chat :
  Popup.generateFilename t_2024 Popup.DEFAULT_FORMAT (lit "General Chat")
  = lit "20240102-0304-general-chat.md".
Proof. vm_compute. reflexivity. Qed.

Example utils_general_chat :
  Utils.generateFilename t_2024 Popup.DEFAULT_FORMAT (lit "General Chat")
  = lit "20240102-0304-General-Chat.md".
Proof. vm_compute. reflexivity. Qed.

Example popup_hyphens :
  Popup.cleanChannel (lit "a - B--c") = lit "a-b-c".
Proof. vm_compute. reflexivity. Qed.

Example expand_ex :
  Replace.expand [lit "L"] (lit "M") (lit "B") (lit "A") (lit "[$1]($&)$$$`$'$2$10$00$01$")
  = lit "[L](M)$BA$2L0$00L$".
Proof. vm_compute. reflexivity. Qed.

Example escapeMarkdown_ex :
  Utils.escapeMarkdown (lit "a*b\_c") = lit "a\*b\\\_c".
Proof. vm_compute. reflexivity. Qed.

Example gsub_empty_pattern :
  Replace.gsub (Replace.literalAt []) (Replace.byTemplate (lit "-")) (lit "ab") = lit "-a-b-".
Proof. vm_compute. reflexivity. Qed.

(** ** Character classes *)

(** Boolean tests on code units as arithmetic facts. *)
Ltac b2p :=
  repeat rewrite ?orb_true_iff, ?andb_true_iff, ?orb_false_iff, ?andb_false_iff,
    ?negb_true_iff, ?negb_false_iff, ?N.leb_le, ?N.eqb_eq, ?N.leb_gt, ?N.eqb_neq in *.

Lemma eqc_eq (a b : char) : eqc a b = true <-> a = b.
Proof. unfold eqc. apply N.eqb_eq. Qed.

Lemma eqc_refl (a : char) : eqc a a = true.
Proof. apply eqc_eq. reflexivity. Qed.

Lemma eqc_neq (a b : char) : eqc a b = false <-> a <> b.
Proof. unfold eqc. apply N.eqb_neq. Qed.

(** ** Global replacement: code units of the output *)

Section GsubForall.

Variable P : char -> Prop.
Variable matchAt : str -> option Replace.Match.
Variable subst : Replace.Match -> str -> str -> str -> str.

Hypothesis subst_ok : forall m a b c, Forall P (subst m a b c).

Lemma gsubFrom_Forall (s : str) :
  (forall c s', In c s ->
     (forall m, matchAt (c :: s') = Some m -> Replace.mlen m = 0) -> P c) ->
  forall skip pre, Forall P (Replace.gsubFrom matchAt subst skip pre s).
Proof.
  induction s as [|c s IH]; intros Hcopy skip pre; simpl.
  - destruct skip; [|constructor].
    destruct (matchAt []); [apply subst_ok|constructor].
  - assert (IH' : forall skip pre, Forall P (Replace.gsubFrom matchAt subst skip pre s)).
    { apply IH. intros c' s' Hin. apply Hcopy. right. exact Hin. }
    destruct skip as [|k]; [|apply IH'].
    destruct (matchAt (c :: s)) as [m|] eqn:Hm.
    + destruct (Replace.mlen m) as [|k] eqn:Hk.
      * apply Forall_app. split; [apply subst_ok|].
        constructor; [|apply IH'].
        apply (Hcopy c s); [left; reflexivity|].
        intros m' Hm'. rewrite Hm in Hm'. inversion Hm'. subst. exact Hk.
      * apply Forall_app. split; [apply subst_ok|apply IH'].
    + constructor; [|apply IH'].
      apply (Hcopy c s); [left; reflexivity|].
      intros m' Hm'. rewrite Hm in Hm'. discriminate.
Qed.

End GsubForall.

Lemma expand_literal caps matched before after (t : str) :
  Forall (fun c => c <> ch "$") t ->
  Replace.expand caps matched before after t = t.
Proof.
  induction 1 as [|c t Hc _ IH]; simpl; [reflexivity|].
  destruct (eqc c (ch "$")) eqn:E.
  - apply eqc_eq in E. contradiction.
  - rewrite IH. reflexivity.
Qed.

Lemma gsub_class_Forall (P : char -> Prop) (f : char -> bool) (t s : str) :
  Forall (fun c => c <> ch "$") t -> Forall P t ->
  Forall (fun c => f c = false -> P c) s ->
  Forall P (Replace.gsub (Replace.classAt f) (Replace.byTemplate t) s).
Proof.
  intros Ht HPt Hs. unfold Replace.gsub. apply gsubFrom_Forall.
  - intros. unfold Replace.byTemplate. rewrite expand_literal; assumption.
  - intros c s' Hin Hm. rewrite Forall_forall in Hs. apply Hs.
    + apply list_elem_of_In. exact Hin.
    + destruct (f c) eqn:Hf; [|reflexivity].
      specialize (Hm {| Replace.mlen := 1; Replace.mcaps := [] |}).
      simpl in Hm. rewrite Hf in Hm. specialize (Hm eq_refl). discriminate.
Qed.

Lemma gsub_run_Forall (P : char -> Prop) (f : char -> bool) (t s : str) :
  Forall (fun c => c <> ch "$") t -> Forall P t ->
  Forall (fun c => f c = false -> P c) s ->
  Forall P (Replace.gsub (Replace.runAt f) (Replace.byTemplate t) s).
Proof.
  intros Ht HPt Hs. unfold Replace.gsub. apply gsubFrom_Forall.
  - intros. unfold Replace.byTemplate. rewrite expand_literal; assumption.
  - intros c s' Hin Hm. rewrite Forall_forall in Hs. apply Hs.
    + apply list_elem_of_In. exact Hin.
    + destruct (f c) eqn:Hf; [|reflexivity].
      specialize (Hm {| Replace.mlen := length (c :: takeWhile f s'); Replace.mcaps := [] |}).
      unfold Replace.runAt in Hm. simpl in Hm. rewrite Hf in Hm.
      specialize (Hm eq_refl). discriminate.
Qed.

(** ** Attachment file names (sanitizeFileName, buildUniqueAssetFilename) *)

(** A code unit that may appear in a sanitized name: not one of the nine
    unsafe characters and not whitespace. *)
Definition cleanChar (c : char) : Prop :=
  Assets.isUnsafeNameChar c = false /\ isWhiteSpace c = false.

Lemma digitChar_isDigit (n : N) : isDigit (digitChar (n mod 10)) = true.
Proof.
  assert (H : (n mod 10 < 10)%N) by (apply N.mod_upper_bound; lia).
  revert H. generalize (n mod 10)%N. intros d H.
  unfold isDigit, digitChar. apply andb_true_iff. split; apply N.leb_le; lia.
Qed.

Lemma decimalFuel_digits (fuel : nat) (n : N) (acc : str) :
  Forall (fun c => isDigit c = true) acc ->
  Forall (fun c => isDigit c = true) (decimalFuel fuel n acc).
Proof.
  revert n acc. induction fuel as [|f IH]; intros n acc Hacc; cbn [decimalFuel];
    [exact Hacc|].
  assert (Forall (fun c => isDigit c = true) (digitChar (n mod 10) :: acc))
    by (constructor; [apply digitChar_isDigit|exact Hacc]).
  destruct (n / 10 =? 0)%N; [assumption|apply IH; assumption].
Qed.

Lemma decimal_digits (n : N) : Forall (fun c => isDigit c = true) (decimal n).
Proof. apply decimalFuel_digits. constructor. Qed.

Lemma decimal_nonempty (n : N) : decimal n <> [].
Proof.
  assert (G : forall f m acc, acc <> [] -> decimalFuel f m acc <> []).
  { induction f as [|f IH]; intros m acc Hacc; cbn [decimalFuel]; [exact Hacc|].
    destruct (m / 10 =? 0)%N; [discriminate|apply IH; discriminate]. }
  unfold decimal. cbn [decimalFuel]. destruct (n / 10 =? 0)%N; [discriminate|].
  apply G. discriminate.
Qed.

(** [decimal] has fuel enough: reading its digits back gives the number. *)
Lemma decimalFuel_value (fuel : nat) : forall (n : N) (acc : str),
  (n < 2 ^ N.of_nat fuel)%N ->
  exists ds, decimalFuel fuel n acc = ds ++ acc
    /\ forall v0, fold_left (fun v c => (10 * v + (c - 48))%N) ds v0
                  = (v0 * 10 ^ N.of_nat (length ds) + n)%N.
Proof.
  induction fuel as [|f IH]; intros n acc Hn.
  - exists []. split; [reflexivity|]. intros v0. simpl in *.
    assert (n = 0%N) by lia. subst. simpl. lia.
  - cbn [decimalFuel].
    pose proof (N.div_mod' n 10) as Hdm.
    assert (Hm : (n mod 10 < 10)%N) by (apply N.mod_upper_bound; lia).
    remember (n mod 10)%N as r eqn:Er. remember (n / 10)%N as q eqn:Eq.
    clear Er Eq.
    destruct (N.eqb_spec q 0) as [Hz|Hz].
    + exists [digitChar r]. split; [reflexivity|].
      intros v0. unfold digitChar. cbn [fold_left length].
      change (N.of_nat 1) with 1%N. rewrite N.pow_1_r. lia.
    + assert (Hlt : (q < 2 ^ N.of_nat f)%N).
      { rewrite Nat2N.inj_succ, N.pow_succ_r' in Hn. lia. }
      destruct (IH q (digitChar r :: acc) Hlt) as (ds & Hds & Hval).
      exists (ds ++ [digitChar r]). split.
      * rewrite Hds, <- app_assoc. reflexivity.
      * intros v0. rewrite fold_left_app. cbn [fold_left]. rewrite Hval.
        rewrite length_app. cbn [length]. rewrite Nat.add_1_r, Nat2N.inj_succ, N.pow_succ_r'.
        unfold digitChar. nia.
Qed.

Lemma decimal_value (n : N) : digitsValue (decimal n) = n.
Proof.
  unfold decimal, digitsValue.
  destruct (decimalFuel_value (S (N.to_nat (N.size n))) n []) as (ds & Hds & Hval).
  - rewrite Nat2N.inj_succ, N2Nat.id, N.pow_succ_r'.
    pose proof (N.size_gt n). lia.
  - rewrite Hds, app_nil_r, Hval. lia.
Qed.

Lemma digit_clean (c : char) : isDigit c = true -> cleanChar c.
Proof.
  unfold isDigit, cleanChar, Assets.isUnsafeNameChar, isWhiteSpace, eqc.
  intros H. unfold_ch. b2p. lia.
Qed.

Lemma underscore_clean : cleanChar (ch "_").
Proof. split; reflexivity. Qed.

Lemma lit_clean (s : string) :
  forallb (fun c => negb (Assets.isUnsafeNameChar c) && negb (isWhiteSpace c)) (lit s) = true ->
  Forall cleanChar (lit s).
Proof.
  intros H. rewrite forallb_forall in H. apply Forall_forall. intros c Hc.
  apply list_elem_of_In in Hc. apply H in Hc. apply andb_true_iff in Hc.
  destruct Hc as [A B]. apply negb_true_iff in A, B. split; assumption.
Qed.

Lemma sanitizeFileName_clean (now : N) (filename : option str) :
  Forall cleanChar (Assets.sanitizeFileName now filename).
Proof.
  assert (Hfile : Forall cleanChar (lit "file-" ++ decimal now)).
  { apply Forall_app. split; [apply lit_clean; reflexivity|].
    eapply List.Forall_impl; [|apply decimal_digits]. apply digit_clean. }
  destruct filename as [[|c f]|]; simpl; try exact Hfile.
  set (raw := c :: f).
  set (s1 := Replace.gsub (Replace.classAt Assets.isUnsafeNameChar) _ raw).
  set (s2 := Replace.gsub (Replace.runAt isWhiteSpace) _ s1).
  assert (H1 : Forall (fun c => Assets.isUnsafeNameChar c = false) s1).
  { apply gsub_class_Forall.
    - repeat constructor; discriminate.
    - repeat constructor.
    - apply Forall_forall. intros; assumption. }
  assert (H2 : Forall cleanChar s2).
  { apply gsub_run_Forall.
    - repeat constructor; discriminate.
    - repeat constructor.
    - eapply List.Forall_impl; [|exact H1]. intros x Hx Hw. split; assumption. }
  assert (H3 : Forall cleanChar (firstn 200 s2)).
  { apply Forall_take. exact H2. }
  destruct (includes (lit ".") (firstn 200 s2)); [exact H3|].
  apply Forall_app. split; [exact H3|apply lit_clean; reflexivity].
Qed.

Lemma lastIndexOfChar_split (c : char) (s : str) (i : nat) :
  lastIndexOfChar c s = Some i ->
  exists a b, s = a ++ c :: b /\ length a = i.
Proof.
  revert i. induction s as [|x s IH]; intros i H; simpl in H; [discriminate|].
  destruct (lastIndexOfChar c s) as [j|] eqn:E.
  - inversion H; subst. destruct (IH j eq_refl) as (a & b & -> & Hl).
    exists (x :: a), b. split; [reflexivity|simpl; lia].
  - destruct (eqc x c) eqn:Ex; [|discriminate]. inversion H; subst.
    apply eqc_eq in Ex. subst. exists [], s. split; reflexivity.
Qed.

Lemma extOf_present (sanitized : str) :
  exists e, Assets.extOf sanitized = ch "." :: e /\ e <> [].
Proof.
  unfold Assets.extOf, Assets.hasExt, Assets.lastDot.
  destruct (lastIndexOfChar (ch ".") sanitized) as [i|] eqn:E.
  - destruct ((0 <? i) && (i <? length sanitized - 1)) eqn:Hb.
    + apply andb_true_iff in Hb. destruct Hb as [_ Hb]. apply Nat.ltb_lt in Hb.
      destruct (lastIndexOfChar_split _ _ _ E) as (a & b & -> & Hl).
      rewrite length_app in Hb. simpl in Hb.
      unfold sliceFrom. rewrite <- Hl.
      rewrite skipn_app, skipn_all, Nat.sub_diag. simpl.
      exists b. split; [reflexivity|]. destruct b; [simpl in Hb; lia|discriminate].
    + exists (lit "bin"). split; [reflexivity|discriminate].
  - exists (lit "bin"). split; [reflexivity|discriminate].
Qed.

Lemma sequenceOf_shape (index : N) :
  4 <= length (Assets.sequenceOf index)
  /\ Forall (fun c => isDigit c = true) (Assets.sequenceOf index).
Proof.
  unfold Assets.sequenceOf, padStart0. split.
  - rewrite length_app, repeat_length. lia.
  - apply Forall_app. split; [|apply decimal_digits].
    apply Forall_forall. intros x Hx. apply list_elem_of_In in Hx.
    apply repeat_spec in Hx. subst. reflexivity.
Qed.


Example asset_name_plain :
  Assets.buildUniqueAssetFilename 0 (Some (lit "my report: v2?.pdf")) (lit "run") 6
  = lit "run-0007-my_report__v2_.pdf".
Proof. vm_compute. reflexivity. Qed.

Example asset_name_missing :
  Assets.buildUniqueAssetFilename 1700000000000 None (lit "run") 0
  = lit "run-0001-file-1700000000000.bin".
Proof. vm_compute. reflexivity. Qed.

Example asset_name_dotfile :
  Assets.buildUniqueAssetFilename 0 (Some (lit ".gitignore")) (lit "run") 0
  = lit "run-0001-.gitignore.bin".
Proof. vm_compute. reflexivity. Qed.

(** ** Class and run replacements in closed form *)

Definition noDollar (t : str) : Prop := Forall (fun c => c <> ch "$") t.

Lemma gsubFrom_classAt (f : char -> bool) (t : str) :
  noDollar t ->
  forall s pre,
    Replace.gsubFrom (Replace.classAt f) (Replace.byTemplate t) 0 pre s
    = flat_map (fun c => if f c then t else [c]) s.
Proof.
  intros Ht. induction s as [|c s IH]; intros pre; [reflexivity|].
  cbn [Replace.gsubFrom Replace.classAt flat_map].
  destruct (f c).
  - cbn [Replace.mlen]. rewrite IH. unfold Replace.byTemplate.
    rewrite expand_literal by exact Ht. reflexivity.
  - rewrite IH. reflexivity.
Qed.

Lemma gsub_classAt (f : char -> bool) (t s : str) :
  noDollar t ->
  Replace.gsub (Replace.classAt f) (Replace.byTemplate t) s
  = flat_map (fun c => if f c then t else [c]) s.
Proof. intros. apply gsubFrom_classAt. assumption. Qed.

Lemma runAt_cons (f : char -> bool) (c : char) (s : str) :
  Replace.runAt f (c :: s)
  = if f c then Some {| Replace.mlen := S (length (takeWhile f s)); Replace.mcaps := [] |}
    else None.
Proof. unfold Replace.runAt. cbn [takeWhile]. destruct (f c); reflexivity. Qed.

Lemma gsubFrom_runAt (f : char -> bool) :
  forall s pre,
    Replace.gsubFrom (Replace.runAt f) (Replace.byTemplate (lit "-")) 0 pre s
    = Spec.collapseRuns f false s
    /\ Replace.gsubFrom (Replace.runAt f) (Replace.byTemplate (lit "-"))
         (length (takeWhile f s)) pre s
       = Spec.collapseRuns f true s.
Proof.
  induction s as [|c s IH]; intros pre; [split; reflexivity|].
  assert (H0 : Replace.gsubFrom (Replace.runAt f) (Replace.byTemplate (lit "-")) 0 pre (c :: s)
               = Spec.collapseRuns f false (c :: s)).
  { cbn [Replace.gsubFrom Spec.collapseRuns]. rewrite runAt_cons.
    destruct (f c).
    - cbn [Replace.mlen]. rewrite (proj2 (IH (c :: pre))). reflexivity.
    - rewrite (proj1 (IH (c :: pre))). reflexivity. }
  split; [exact H0|].
  cbn [takeWhile]. destruct (f c) eqn:Hf.
  - cbn [length Replace.gsubFrom Spec.collapseRuns]. rewrite Hf.
    apply (proj2 (IH (c :: pre))).
  - cbn [length]. rewrite H0. cbn [Spec.collapseRuns]. rewrite Hf. reflexivity.
Qed.

Lemma gsub_runAt (f : char -> bool) (s : str) :
  Replace.gsub (Replace.runAt f) (Replace.byTemplate (lit "-")) s
  = Spec.collapseRuns f false s.
Proof. apply gsubFrom_runAt. Qed.

Lemma replaceFirst_literal (pat repl s : str) :
  noDollar repl -> Replace.replaceFirst pat repl s = Spec.substFirst pat repl s.
Proof.
  intros H. unfold Replace.replaceFirst, Spec.substFirst.
  destruct (indexOf pat s); [|reflexivity].
  rewrite expand_literal by exact H. reflexivity.
Qed.

(** ** Export file names (generateFilename) *)

Lemma collapse_hyphenated (name : str) : forall b,
  Spec.collapseRuns (eqc (ch "-")) b
    (flat_map (fun c => if negb (Utils.isNameChar c) then lit "-" else [c]) name)
  = Spec.collapseRuns (fun c => negb (Spec.isWordChar c)) b name.
Proof.
  induction name as [|c name IH]; intros b; [reflexivity|].
  assert (A : Utils.isNameChar c = Spec.isWordChar c || eqc c (ch "-")).
  { unfold Utils.isNameChar, Spec.isWordChar.
    destruct (isAlnum c), (eqc c (ch "-")), (eqc c (ch "_")); reflexivity. }
  assert (B : eqc (ch "-") c = eqc c (ch "-")) by apply N.eqb_sym.
  assert (C : eqc c (ch "-") = true -> Spec.isWordChar c = false).
  { intros H. apply eqc_eq in H. subst. reflexivity. }
  cbn [flat_map]. rewrite A.
  destruct (Spec.isWordChar c) eqn:Hc, (eqc c (ch "-")) eqn:Hh;
    try (specialize (C eq_refl); discriminate);
    cbn [orb negb app]; change (lit "-" ++ ?x) with (ch "-" :: x);
    cbn [Spec.collapseRuns app]; rewrite ?B, ?Hh, ?Hc, ?eqc_refl; cbn [negb];
    try destruct b; rewrite IH; reflexivity.
Qed.

Lemma popup_cleanChannel_word (name : str) :
  Popup.cleanChannel name = Spec.cleanChannelWord name.
Proof.
  unfold Popup.cleanChannel, Spec.cleanChannelWord.
  rewrite gsub_runAt, gsub_classAt by (repeat constructor; discriminate).
  rewrite collapse_hyphenated. reflexivity.
Qed.

Lemma collapseRuns_Forall (bad : char -> bool) (s : str) : forall b,
  Forall (fun c => c = ch "-" \/ bad c = false) (Spec.collapseRuns bad b s).
Proof.
  induction s as [|c s IH]; intros b; cbn [Spec.collapseRuns]; [constructor|].
  destruct (bad c) eqn:Hb.
  - destruct b; [apply IH|constructor; [left; reflexivity|apply IH]].
  - constructor; [right; exact Hb|apply IH].
Qed.

Lemma cleanChannelWord_noDollar (name : str) : noDollar (Spec.cleanChannelWord name).
Proof.
  unfold noDollar, Spec.cleanChannelWord. apply Forall_map.
  eapply List.Forall_impl; [|apply collapseRuns_Forall].
  intros c [->|Hc]; [discriminate|].
  apply negb_false_iff in Hc. cbn beta. unfold lowerAscii.
  destruct (isUpper c) eqn:Hu; revert Hc Hu;
    unfold Spec.isWordChar, isAlnum, isDigit, isUpper, isLower, eqc;
    unfold_ch; intros Hc Hu; b2p; lia.
Qed.

Lemma digits_noDollar (s : str) : Forall (fun c => isDigit c = true) s -> noDollar s.
Proof.
  apply List.Forall_impl. intros c Hc E. rewrite E in Hc. vm_compute in Hc. discriminate.
Qed.

Lemma pad_noDollar (w : nat) (s : str) : noDollar s -> noDollar (padStart0 w s).
Proof.
  intros H. unfold padStart0. apply Forall_app. split; [|exact H].
  apply Forall_forall. intros x Hx. apply list_elem_of_In, repeat_spec in Hx.
  subst. discriminate.
Qed.

Lemma stamp_noDollar (t : LocalTime) : noDollar (Spec.stamp t).
Proof.
  assert (D : forall n, noDollar (decimal n))
    by (intros n; apply digits_noDollar, decimal_digits).
  unfold Spec.stamp, noDollar.
  rewrite !Forall_app. repeat split; try apply pad_noDollar; try apply D.
  repeat constructor. discriminate.
Qed.

(** C8 (as amended). The popup's generator returns [fileNameFormat] (the
    default format when it is empty) with the first [YYYYMMDD-HHmm] replaced
    by the local export time and then the first [{channel}] replaced by the
    channel name in which every maximal run of code units outside
    [[A-Za-z0-9_]] (hyphens included) has become one hyphen and the ASCII
    letters are lower-cased. *)
Theorem popup_generateFilename_spec (now : LocalTime) (fileNameFormat channelName : str) :
  Popup.generateFilename now fileNameFormat channelName
  = Spec.substFirst (lit "{channel}") (Spec.cleanChannelWord channelName)
      (Spec.substFirst (lit "YYYYMMDD-HHmm") (Spec.stamp now)
         (match fileNameFormat with [] => Popup.DEFAULT_FORMAT | _ => fileNameFormat end)).
Proof.
  unfold Popup.generateFilename.
  change (Popup.dateStr now) with (Spec.stamp now).
  rewrite popup_cleanChannel_word.
  rewrite (replaceFirst_literal _ (Spec.stamp now)) by apply stamp_noDollar.
  rewrite replaceFirst_literal by apply cleanChannelWord_noDollar.
  reflexivity.
Qed.

(** C8, the claim as stated fails twice: the content-script utility neither
    lower-cases nor collapses, and the popup also collapses hyphens the
    channel name already has. *)
Lemma generateFilename_counterexample :
  Utils.generateFilename t_2024 (lit "YYYYMMDD-HHmm-{channel}.md") (lit "General Chat")
    = lit "20240102-0304-General-Chat.md"
  /\ lit "20240102-0304-General-Chat.md" <> lit "20240102-0304-general-chat.md"
  /\ Popup.cleanChannel (lit "a--b") = lit "a-b"
  /\ Spec.cleanChannel (lit "a--b") = lit "a--b"
  /\ Popup.generateFilename t_2024 (lit "{channel}") (lit "a--b")
     <> Spec.substFirst (lit "{channel}") (Spec.cleanChannel (lit "a--b"))
          (Spec.substFirst (lit "YYYYMMDD-HHmm") (Spec.stamp t_2024) (lit "{channel}")).
Proof.
  repeat split; try (vm_compute; reflexivity); vm_compute; discriminate.
Qed.

(** ** File download (handleFileDownload) *)

Lemma cleanDirectory_filter (directory : str) :
  Background.cleanDirectory directory
  = List.filter (fun c => negb (Background.isPathSeparator c)) (trim directory).
Proof.
  unfold Background.cleanDirectory. rewrite gsub_classAt by constructor.
  induction (trim directory) as [|c s IH]; [reflexivity|].
  cbn [flat_map List.filter]. rewrite IH.
  destruct (Background.isPathSeparator c); reflexivity.
Qed.

Lemma cleanDirectory_flat (directory : str) :
  Forall (fun c => c <> ch "/" /\ c <> ch "\") (Background.cleanDirectory directory).
Proof.
  rewrite cleanDirectory_filter. apply Forall_forall. intros c Hc.
  apply list_elem_of_In, filter_In in Hc. destruct Hc as [_ Hc].
  apply negb_true_iff in Hc. unfold Background.isPathSeparator in Hc.
  apply orb_false_iff in Hc. destruct Hc as [H1 H2].
  apply eqc_neq in H1, H2. split; assumption.
Qed.


Definition download_a_b : Background.DownloadData :=
  {| Background.dd_filename := lit "f.md";
     Background.dd_content := Some (lit "x");
     Background.dd_directory := Some (lit " a/b\c ");
     Background.dd_mimeType := None |}.



(** ** Durable batch state (getBatchExportState) *)


Definition stored_active (at_ : Z) : Background.StoredState :=
  {| Background.s_active := Some true;
     Background.s_totalChannels := Some 3%Z;
     Background.s_completedChannels := Some 1%Z;
     Background.s_currentChannelId := None;
     Background.s_currentChannelName := None;
     Background.s_activityText := None;
     Background.s_stage := Some (lit "fetching_messages");
     Background.s_messageCount := None;
     Background.s_attachmentCount := None;
     Background.s_fetchedThreads := None;
     Background.s_totalThreads := None;
     Background.s_progressPercent := None;
     Background.s_channelStatuses := None;
     Background.s_updatedAt := Some at_ |}.



(** ** Batch orchestrator: the last-exported timestamp *)

Section Orchestrator.

Variable config : Popup.Config.
Variable combinedChecked : bool.

Ltac crush_one :=
  repeat match goal with
    | |- context [match ?x with _ => _ end] => destruct x eqn:?
    end.

(** The state an iteration leaves does not depend on its being the last. *)
Lemma exportOne_state_any_position (b1 b2 : bool) channel env st :
  snd (Popup.exportOne config combinedChecked b1 channel env st)
  = snd (Popup.exportOne config combinedChecked b2 channel env st).
Proof.
  unfold Popup.exportOne, Popup.caught.
  crush_one; reflexivity.
Qed.

Lemma exportLoop_state_app pre post st :
  snd (Popup.exportLoop config combinedChecked (pre ++ post) st)
  = snd (Popup.exportLoop config combinedChecked post
           (snd (Popup.exportLoop config combinedChecked pre st))).
Proof.
  revert st. induction pre as [|[channel env] pre IH]; intros st; [reflexivity|].
  cbn [app Popup.exportLoop].
  pose proof (exportOne_state_any_position
                match pre ++ post with [] => true | _ => false end
                match pre with [] => true | _ => false end channel env st) as Hpos.
  destruct (Popup.exportOne _ _ match pre ++ post with [] => true | _ => false end _ _ _)
    as [e1 s1].
  destruct (Popup.exportOne _ _ match pre with [] => true | _ => false end _ _ _)
    as [e2 s2].
  cbn [snd] in Hpos. subst s2. specialize (IH s1).
  destruct (Popup.exportLoop config combinedChecked (pre ++ post) s1) as [e3 s3].
  destruct (Popup.exportLoop config combinedChecked pre s1) as [e4 s4].
  cbn [snd] in *. exact IH.
Qed.

(** One iteration pushes one result; a successful one has written the
    timestamp of its channel to the store, a failed one leaves the store
    as it was. *)
Lemma exportOne_timestamp isLast channel env st :
  let after := snd (Popup.exportOne config combinedChecked isLast channel env st) in
  exists r,
    Popup.results after = Popup.results st ++ [r]
    /\ if Popup.cr_success r
       then Popup.storedTimestamps after
            = <[Popup.channelId channel := Popup.ce_stamp env]> (Popup.lastExportTimestamps st)
       else Popup.storedTimestamps after = Popup.storedTimestamps st.
Proof.
  unfold Popup.exportOne, Popup.caught.
  crush_one; cbn [snd]; eexists; (split; [reflexivity|]); reflexivity.
Qed.

End Orchestrator.


Definition config_default : Popup.Config :=
  {| Popup.downloadDirectory := []; Popup.fileNameFormat := []; Popup.historyDays := 7 |}.

Definition channel_general : Popup.Channel :=
  {| Popup.name := lit "general"; Popup.channelId := lit "C012345678" |}.

(** The content script does not answer. *)
Definition env_unreachable : Popup.ChannelEnv :=
  {| Popup.ce_now := 1700000000000;
     Popup.ce_response := Rejected (lit "Could not establish connection");
     Popup.ce_localeString := lit "1/2/2024, 3:04:00 AM";
     Popup.ce_localTime := t_2024;
     Popup.ce_download := fun _ => Resolved None;
     Popup.ce_stamp := 1700000005000;
     Popup.ce_saveConfig := Resolved tt |}.

Definition loop_start : Popup.LoopState :=
  {| Popup.lastExportTimestamps := ∅; Popup.storedTimestamps := ∅;
     Popup.results := []; Popup.combinedMarkdown := [];
     Popup.completedMessages := 0; Popup.completedAttachments := 0 |}.


(** ** Fence normalisation: examples *)

Definition nl (ls : list str) : str := join [Markdown.LF] ls.

Example fence_ok :
  Markdown.normalizeFenceBoundaries (nl [lit "a"; lit "```js"; lit "x = 1"; lit "```"; lit "b"])
  = nl [lit "a"; lit "```js"; lit "x = 1"; lit "```"; lit "b"].
Proof. vm_compute. reflexivity. Qed.

Example fence_unterminated :
  Markdown.normalizeFenceBoundaries (nl [lit "```"; lit "code"; lit "**bob** (Jan 1, 2024 3:04 AM):"; lit "hi"])
  = nl [lit "```"; lit "code"; lit "```"; lit "**bob** (Jan 1, 2024 3:04 AM):"; lit "hi"].
Proof. vm_compute. reflexivity. Qed.

Example fence_inline_full :
  Markdown.normalizeFenceBoundaries (nl [lit "see ```x = 1``` here"])
  = nl [lit "see"; lit "```"; lit "x = 1"; lit "```"; lit "here"].
Proof. vm_compute. reflexivity. Qed.

Example fence_trailing_open :
  Markdown.normalizeFenceBoundaries (nl [lit "text ```"; lit "code"; lit "more```tail"])
  = nl [lit "text"; lit "```"; lit "code"; lit "more"; lit "```"; lit "tail"].
Proof. vm_compute. reflexivity. Qed.

Example fence_twice_differs :
  Markdown.normalizeFenceBoundaries (nl [lit "a ```b``` c ```d``` e"])
    = nl [lit "a"; lit "```"; lit "b"; lit "```"; lit "c ```d``` e"]
  /\ Markdown.normalizeFenceBoundaries (nl [lit "a"; lit "```"; lit "b"; lit "```"; lit "c ```d``` e"])
    = nl [lit "a"; lit "```"; lit "b"; lit "```"; lit "c"; lit "```"; lit "d"; lit "```"; lit "e"].
Proof. split; vm_compute; reflexivity. Qed.

(** ** Strings: prefixes, occurrences, trimming *)

Lemma startsWith_app (p rest : str) : startsWith p (p ++ rest) = true.
Proof. induction p as [|c p IH]; [reflexivity|]. simpl. rewrite eqc_refl. exact IH. Qed.

Lemma startsWith_spec (p s : str) :
  startsWith p s = true -> s = p ++ skipn (length p) s.
Proof.
  revert s. induction p as [|c p IH]; intros s H; [reflexivity|].
  destruct s as [|x s]; [discriminate|]. simpl in H.
  apply andb_true_iff in H. destruct H as [Hc Hp]. apply eqc_eq in Hc. subst x.
  simpl. f_equal. apply IH. exact Hp.
Qed.

Lemma startsWith_head (p s : str) (c : char) :
  startsWith (c :: p) s = true -> exists s', s = c :: s'.
Proof.
  destruct s as [|x s]; [discriminate|]. simpl. intros H.
  apply andb_true_iff in H. destruct H as [Hc _]. apply eqc_eq in Hc. subst.
  eexists. reflexivity.
Qed.

(** No occurrence of [p] in a string none of whose units is the head of [p]. *)
Lemma indexOf_absent (c : char) (p s : str) :
  Forall (fun x => x <> c) s -> indexOf (c :: p) s = None.
Proof.
  induction 1 as [|x s Hx _ IH]; [reflexivity|].
  cbn [indexOf startsWith]. apply eqc_neq in Hx.
  replace (eqc c x) with false by (symmetry; rewrite <- Hx; apply N.eqb_sym).
  cbn [andb]. rewrite IH. reflexivity.
Qed.

Lemma indexOf_tail (p s : str) (c : char) :
  indexOf p (c :: s) = None -> indexOf p s = None.
Proof.
  cbn [indexOf]. destruct (startsWith p (c :: s)); [discriminate|].
  destruct (indexOf p s); [discriminate|reflexivity].
Qed.

Lemma indexOf_None_head (p s : str) : indexOf p s = None -> startsWith p s = false.
Proof.
  destruct s as [|c s]; cbn [indexOf]; destruct (startsWith p _); congruence.
Qed.

(** The first occurrence is past a stretch that lacks the head of [p]. *)
Lemma indexOf_skip (c : char) (p w rest : str) :
  Forall (fun x => x <> c) w ->
  indexOf (c :: p) (w ++ rest) = option_map (fun i => length w + i) (indexOf (c :: p) rest).
Proof.
  induction 1 as [|x w Hx _ IH].
  - simpl. destruct (indexOf (c :: p) rest); reflexivity.
  - cbn [app indexOf startsWith]. apply eqc_neq in Hx.
    replace (eqc c x) with false by (symmetry; rewrite <- Hx; apply N.eqb_sym).
    cbn [andb]. rewrite IH. destruct (indexOf (c :: p) rest); reflexivity.
Qed.

Lemma indexOf_here (p rest : str) : indexOf p (p ++ rest) = Some 0.
Proof.
  destruct (p ++ rest) eqn:E; cbn [indexOf]; rewrite <- E, startsWith_app; reflexivity.
Qed.

Lemma dropWhile_takeWhile (f : char -> bool) (s : str) :
  s = takeWhile f s ++ dropWhile f s.
Proof.
  induction s as [|c s IH]; [reflexivity|]. simpl.
  destruct (f c); [simpl; f_equal; exact IH|reflexivity].
Qed.

Lemma takeWhile_all (f : char -> bool) (s : str) :
  Forall (fun c => f c = true) (takeWhile f s).
Proof.
  induction s as [|c s IH]; simpl; [constructor|].
  destruct (f c) eqn:E; constructor; assumption.
Qed.

Lemma dropWhile_all (f : char -> bool) (s : str) :
  Forall (fun c => f c = true) s -> dropWhile f s = [].
Proof.
  induction 1 as [|c s Hc _ IH]; [reflexivity|]. simpl. rewrite Hc. exact IH.
Qed.

Lemma dropWhile_app_all (f : char -> bool) (w s : str) :
  Forall (fun c => f c = true) w -> dropWhile f (w ++ s) = dropWhile f s.
Proof.
  induction 1 as [|c w Hc _ IH]; [reflexivity|]. simpl. rewrite Hc. exact IH.
Qed.

Lemma dropWhile_stop (f : char -> bool) (c : char) (s : str) :
  f c = false -> dropWhile f (c :: s) = c :: s.
Proof. intros H. simpl. rewrite H. reflexivity. Qed.

Lemma dropWhile_head (f : char -> bool) (s : str) (c : char) (r : str) :
  dropWhile f s = c :: r -> f c = false.
Proof.
  induction s as [|x s IH]; [discriminate|]. simpl.
  destruct (f x) eqn:E; [exact IH|]. intros H. inversion H; subst. exact E.
Qed.

Definition allWs (s : str) : Prop := Forall (fun c => isWhiteSpace c = true) s.

(** A string between two stretches of whitespace, itself starting and
    ending with something else, is what [trim] returns. *)
Lemma trim_core (w1 w2 : str) (a b : char) (mid : str) :
  allWs w1 -> allWs w2 -> isWhiteSpace a = false -> isWhiteSpace b = false ->
  trim (w1 ++ (a :: mid ++ [b]) ++ w2) = a :: mid ++ [b].
Proof.
  intros H1 H2 Ha Hb. unfold trim, trimStart, trimEnd.
  rewrite dropWhile_app_all by exact H1.
  cbn [app]. rewrite dropWhile_stop by exact Ha.
  change (a :: (mid ++ [b]) ++ w2) with ((a :: mid ++ [b]) ++ w2).
  rewrite rev_app_distr.
  rewrite dropWhile_app_all.
  2:{ apply Forall_forall. intros x Hx. apply list_elem_of_In, in_rev in Hx.
      unfold allWs in H2. rewrite Forall_forall in H2. apply H2.
      apply list_elem_of_In. exact Hx. }
  change (a :: mid ++ [b]) with ((a :: mid) ++ [b]).
  rewrite rev_app_distr. cbn [rev app]. rewrite dropWhile_stop by exact Hb.
  change (b :: rev mid ++ [a]) with ([b] ++ rev (a :: mid)).
  rewrite rev_app_distr, rev_involutive. reflexivity.
Qed.

Lemma trim_single (w1 w2 : str) (a : char) :
  allWs w1 -> allWs w2 -> isWhiteSpace a = false ->
  trim (w1 ++ [a] ++ w2) = [a].
Proof.
  intros H1 H2 Ha. unfold trim, trimStart, trimEnd.
  rewrite dropWhile_app_all by exact H1.
  cbn [app]. rewrite dropWhile_stop by exact Ha.
  change (a :: w2) with ([a] ++ w2). rewrite rev_app_distr.
  rewrite dropWhile_app_all.
  2:{ apply Forall_forall. intros x Hx. apply list_elem_of_In, in_rev in Hx.
      unfold allWs in H2. rewrite Forall_forall in H2. apply H2.
      apply list_elem_of_In. exact Hx. }
  cbn [rev app]. rewrite dropWhile_stop by exact Ha. reflexivity.
Qed.

Lemma trim_allWs (w : str) : allWs w -> trim w = [].
Proof.
  intros H. unfold trim, trimStart, trimEnd. rewrite (dropWhile_all _ w H).
  reflexivity.
Qed.

(** Every string is whitespace, then its trimmed form, then whitespace; the
    trimmed form is empty or starts and ends with something else. *)
Lemma trim_decompose (s : str) :
  exists w1 w2, s = w1 ++ trim s ++ w2 /\ allWs w1 /\ allWs w2
    /\ (trim s = [] \/ (exists a, trim s = [a] /\ isWhiteSpace a = false)
        \/ exists a mid b, trim s = a :: mid ++ [b]
             /\ isWhiteSpace a = false /\ isWhiteSpace b = false).
Proof.
  unfold trim, trimStart, trimEnd.
  set (t := dropWhile isWhiteSpace s).
  exists (takeWhile isWhiteSpace s), (rev (takeWhile isWhiteSpace (rev t))).
  assert (Ht : t = rev (dropWhile isWhiteSpace (rev t))
                     ++ rev (takeWhile isWhiteSpace (rev t))).
  { rewrite <- rev_app_distr, <- dropWhile_takeWhile, rev_involutive. reflexivity. }
  split.
  { rewrite <- Ht. apply dropWhile_takeWhile. }
  split; [apply takeWhile_all|].
  split.
  { apply Forall_forall. intros x Hx. apply list_elem_of_In, in_rev in Hx.
    pose proof (takeWhile_all isWhiteSpace (rev t)) as H. rewrite Forall_forall in H.
    apply H. apply list_elem_of_In. exact Hx. }
  destruct (dropWhile isWhiteSpace (rev t)) as [|b r] eqn:Er; [left; reflexivity|].
  right. pose proof (dropWhile_head _ _ _ _ Er) as Hb.
  cbn [rev].
  destruct (rev r) as [|a mid] eqn:Em.
  - left. exists b. split; [reflexivity|exact Hb].
  - right. exists a, mid, b. split; [reflexivity|]. split; [|exact Hb].
    (* the head of the trimmed text is the head of [t] *)
    cbn [rev] in Ht. rewrite Em in Ht.
    apply (dropWhile_head isWhiteSpace s a
             ((mid ++ [b]) ++ rev (takeWhile isWhiteSpace (rev t)))).
    exact Ht.
Qed.

Lemma trim_idem (s : str) : trim (trim s) = trim s.
Proof.
  destruct (trim_decompose s) as (w1 & w2 & _ & _ & _ & [E|[(a & E & Ha)|(a & mid & b & E & Ha & Hb)]]).
  - rewrite E. reflexivity.
  - rewrite E. apply (trim_single [] [] a); [constructor|constructor|exact Ha].
  - rewrite E.
    pose proof (trim_core [] [] a b mid) as H. cbn [app] in H.
    rewrite app_nil_r in H. apply H; [constructor|constructor|exact Ha|exact Hb].
Qed.

(** ** Fence normalisation on tidy documents *)

Definition isMarker (m : str) : Prop := m = Markdown.backticks \/ m = Markdown.tildes.

Definition validState (st : Markdown.FenceState) : Prop :=
  match st with Some m => isMarker m | None => True end.

Definition fenceFree (l : str) : Prop :=
  indexOf Markdown.backticks l = None /\ indexOf Markdown.tildes l = None.

Definition allLang (s : str) : Prop := Forall (fun c => Utils.isNameChar c = true) s.

(** A tidy line holds no carriage return and either holds no fence marker
    or is a bare fence line: a marker and an optional language tag, with
    optional whitespace around them. *)
Definition tidyLine (l : str) : bool :=
  negb (existsb (eqc Markdown.CR) l) && negb (existsb (eqc Markdown.LF) l)
  && ((negb (includes Markdown.backticks l) && negb (includes Markdown.tildes l))
      || match Markdown.openFenceMatch (trim l) with Some _ => true | None => false end).

Lemma fenceMarkerAt_Some (s m : str) :
  Markdown.fenceMarkerAt s = Some m -> isMarker m /\ startsWith m s = true.
Proof.
  unfold Markdown.fenceMarkerAt.
  destruct (startsWith Markdown.backticks s) eqn:E1.
  - intros H; inversion H; subst. split; [left; reflexivity|exact E1].
  - destruct (startsWith Markdown.tildes s) eqn:E2; [|discriminate].
    intros H; inversion H; subst. split; [right; reflexivity|exact E2].
Qed.

Lemma fenceFree_tail (c : char) (l : str) : fenceFree (c :: l) -> fenceFree l.
Proof. intros [H1 H2]. split; eapply indexOf_tail; eassumption. Qed.

Lemma fenceFree_marker (l : str) : fenceFree l -> Markdown.fenceMarkerAt l = None.
Proof.
  intros [H1 H2]. unfold Markdown.fenceMarkerAt.
  rewrite (indexOf_None_head _ _ H1), (indexOf_None_head _ _ H2). reflexivity.
Qed.

Lemma fenceFree_fullFence (l : str) : forall p,
  fenceFree l -> Markdown.fullFenceScan p l = None.
Proof.
  induction l as [|c l IH]; intros p H.
  - reflexivity.
  - cbn [Markdown.fullFenceScan]. rewrite (fenceFree_marker _ H).
    apply IH. eapply fenceFree_tail; exact H.
Qed.

Lemma fenceFree_trailing (l : str) : forall p,
  fenceFree l -> Markdown.trailingScan p l = None.
Proof.
  induction l as [|c l IH]; intros p H.
  - reflexivity.
  - cbn [Markdown.trailingScan]. rewrite (fenceFree_marker _ H).
    destruct (isLineTerminator c); [reflexivity|].
    apply IH. eapply fenceFree_tail; exact H.
Qed.

Lemma marker_head (m : str) :
  isMarker m -> exists c, m = [c; c; c] /\ isWhiteSpace c = false
    /\ Utils.isNameChar c = false /\ c <> ch "*" /\ c <> Markdown.CR /\ c <> Markdown.LF.
Proof.
  intros [->| ->]; [exists (ch "`")|exists (ch "~")];
    repeat split; try reflexivity; discriminate.
Qed.

Lemma ws_not (c : char) (w : str) :
  isWhiteSpace c = false -> allWs w -> Forall (fun x => x <> c) w.
Proof.
  intros Hc. apply List.Forall_impl. intros x Hx ->. congruence.
Qed.

Lemma lang_not (c : char) (b : str) :
  Utils.isNameChar c = false -> allLang b -> Forall (fun x => x <> c) b.
Proof.
  intros Hc. apply List.Forall_impl. intros x Hx ->. congruence.
Qed.

(** A line without markers is not a bare fence line. *)
Lemma fenceFree_openFence (l : str) :
  fenceFree l -> Markdown.openFenceMatch (trim l) = None.
Proof.
  intros Hff. unfold Markdown.openFenceMatch.
  destruct (Markdown.fenceMarkerAt (trim l)) as [m|] eqn:E; [exfalso|reflexivity].
  apply fenceMarkerAt_Some in E. destruct E as [Hm Hs].
  destruct (marker_head m Hm) as (c & -> & Hc & _).
  destruct (trim_decompose l) as (w1 & w2 & Hl & H1 & _).
  apply startsWith_spec in Hs.
  assert (Hidx : indexOf [c; c; c] l = Some (length w1 + 0)).
  { rewrite Hl, Hs, <- app_assoc.
    rewrite (indexOf_skip c [c; c] w1) by (apply ws_not; assumption).
    rewrite indexOf_here. reflexivity. }
  destruct Hff as [F1 F2]. destruct Hm as [Hm|Hm]; rewrite Hm in Hidx; congruence.
Qed.

Lemma tidyLine_spec (l : str) :
  tidyLine l = true ->
  Forall (fun c => c <> Markdown.CR) l /\ Forall (fun c => c <> Markdown.LF) l
  /\ (fenceFree l \/ exists m, Markdown.openFenceMatch (trim l) = Some m).
Proof.
  unfold tidyLine. intros H.
  apply andb_true_iff in H. destruct H as [H Hc].
  apply andb_true_iff in H. destruct H as [Hcr Hlf].
  assert (Hno : forall x, existsb (eqc x) l = false -> Forall (fun c => c <> x) l).
  { intros x Hx. apply Forall_forall. intros c Hin ->.
    assert (existsb (eqc x) l = true); [|congruence].
    apply existsb_exists. exists x. split; [apply list_elem_of_In; exact Hin|apply eqc_refl]. }
  split; [apply Hno, negb_true_iff, Hcr|].
  split; [apply Hno, negb_true_iff, Hlf|].
  apply orb_true_iff in Hc. destruct Hc as [Hc|Hc].
  - left. apply andb_true_iff in Hc. destruct Hc as [A B].
    unfold includes in A, B. split.
    + destruct (indexOf Markdown.backticks l); [discriminate|reflexivity].
    + destruct (indexOf Markdown.tildes l); [discriminate|reflexivity].
  - right. destruct (Markdown.openFenceMatch (trim l)) as [m|]; [|discriminate].
    exists m. reflexivity.
Qed.

Lemma lang_not_ws (c : char) : Utils.isNameChar c = true -> isWhiteSpace c = false.
Proof.
  unfold Utils.isNameChar, isAlnum, isDigit, isUpper, isLower, isWhiteSpace, eqc.
  unfold_ch. intros H. b2p. lia.
Qed.

(** Text without whitespace between two stretches of whitespace. *)
Lemma trim_solid (w1 x w2 : str) :
  allWs w1 -> allWs w2 -> Forall (fun c => isWhiteSpace c = false) x ->
  trim (w1 ++ x ++ w2) = x.
Proof.
  intros H1 H2 Hx.
  destruct x as [|a x]; [apply trim_allWs, Forall_app; split; assumption|].
  destruct (exists_last (l := a :: x) ltac:(discriminate)) as (body & b & E).
  rewrite E in *. clear E a x.
  destruct body as [|a mid]; cbn [app] in *.
  - apply trim_single; try assumption. inversion Hx; assumption.
  - inversion Hx as [|? ? Ha Hrest]; subst.
    apply Forall_app in Hrest. destruct Hrest as [_ Hb]. inversion Hb; subst.
    apply trim_core; assumption.
Qed.

(** The shape of a bare fence line. *)
Lemma bareFence_shape (l m : str) :
  Markdown.openFenceMatch (trim l) = Some m ->
  isMarker m /\ exists w1 a b c w2,
    l = w1 ++ m ++ (a ++ b ++ c ++ w2) /\ trim l = m ++ a ++ b ++ c
    /\ allWs w1 /\ allWs a /\ allLang b /\ allWs c /\ allWs w2.
Proof.
  unfold Markdown.openFenceMatch.
  destruct (Markdown.fenceMarkerAt (trim l)) as [m'|] eqn:E; [|discriminate].
  apply fenceMarkerAt_Some in E. destruct E as [Hm Hs].
  set (r := skipn 3 (trim l)).
  set (r1 := dropWhile isWhiteSpace r).
  set (r2 := dropWhile Utils.isNameChar r1).
  destruct (dropWhile isWhiteSpace r2) eqn:E3; [|discriminate].
  intros H; inversion H; subst m'. split; [exact Hm|].
  destruct (trim_decompose l) as (w1 & w2 & Hl & H1 & H2 & _).
  pose proof (takeWhile_all isWhiteSpace r) as Ha.
  pose proof (takeWhile_all Utils.isNameChar r1) as Hb.
  pose proof (takeWhile_all isWhiteSpace r2) as Hc.
  assert (Hr : r = takeWhile isWhiteSpace r ++ takeWhile Utils.isNameChar r1
                     ++ takeWhile isWhiteSpace r2).
  { rewrite (dropWhile_takeWhile isWhiteSpace r) at 1. f_equal. fold r1.
    rewrite (dropWhile_takeWhile Utils.isNameChar r1) at 1. f_equal. fold r2.
    rewrite (dropWhile_takeWhile isWhiteSpace r2) at 1. rewrite E3, app_nil_r.
    reflexivity. }
  revert Ha Hb Hc Hr.
  generalize (takeWhile isWhiteSpace r) (takeWhile Utils.isNameChar r1)
    (takeWhile isWhiteSpace r2).
  intros a b c Ha Hb Hc Hr.
  assert (Ht : trim l = m ++ r).
  { apply startsWith_spec in Hs. destruct (marker_head m Hm) as (x & -> & _).
    exact Hs. }
  exists w1, a, b, c, w2.
  split.
  { rewrite Hl at 1. rewrite Ht, Hr. rewrite <- !app_assoc. reflexivity. }
  split; [rewrite Ht, Hr; reflexivity|].
  repeat split; assumption.
Qed.

(** A line that is the open marker closes the fence. *)
Lemma step_close (m : str) :
  isMarker m -> Markdown.step (Some m) m = ([m], None).
Proof. intros [->| ->]; reflexivity. Qed.

Lemma header_not_marker (t : str) :
  Markdown.messageHeaderPattern t = true -> Markdown.fenceMarkerAt t = None.
Proof.
  unfold Markdown.messageHeaderPattern. intros H.
  apply andb_true_iff in H. destruct H as [H _].
  apply startsWith_head in H. destruct H as [s' ->]. reflexivity.
Qed.

Lemma marker_not_header (m rest : str) :
  isMarker m -> Markdown.messageHeaderPattern (m ++ rest) = false.
Proof. intros [->| ->]; reflexivity. Qed.

Lemma normalizeLines_app (a b : list str) : forall st,
  Markdown.normalizeLines st (a ++ b)
  = let '(o1, s1) := Markdown.normalizeLines st a in
    let '(o2, s2) := Markdown.normalizeLines s1 b in
    (o1 ++ o2, s2).
Proof.
  induction a as [|l a IH]; intros st.
  - cbn [app Markdown.normalizeLines].
    destruct (Markdown.normalizeLines st b); reflexivity.
  - cbn [app Markdown.normalizeLines]. destruct (Markdown.step st l) as [o s1].
    rewrite IH. destruct (Markdown.normalizeLines s1 a) as [o1 s2].
    destruct (Markdown.normalizeLines s2 b) as [o2 s3].
    rewrite app_assoc. reflexivity.
Qed.

Lemma normalizeLines_one (st : Markdown.FenceState) (l : str) :
  Markdown.normalizeLines st [l] = (fst (Markdown.step st l), snd (Markdown.step st l)).
Proof.
  cbn [Markdown.normalizeLines]. destruct (Markdown.step st l).
  rewrite app_nil_r. reflexivity.
Qed.

(** Outside a fence, a line without markers goes through unchanged. *)
Lemma stepOutside_fenceFree (l : str) :
  fenceFree l -> Markdown.stepOutside l = ([l], None).
Proof.
  intros H. unfold Markdown.stepOutside.
  rewrite (fenceFree_openFence _ H).
  unfold Markdown.inlineFullFenceMatch, Markdown.trailingOpenFenceMatch.
  rewrite (fenceFree_fullFence _ _ H), (fenceFree_trailing _ _ H).
  destruct (existsb isLineTerminator l); reflexivity.
Qed.

Lemma indexOf_after_ws (m w1 rest : str) :
  isMarker m -> allWs w1 -> indexOf m (w1 ++ m ++ rest) = Some (length w1).
Proof.
  intros Hm H1. destruct (marker_head m Hm) as (c & -> & Hc & _).
  rewrite (indexOf_skip c [c; c] w1) by (apply ws_not; assumption).
  rewrite indexOf_here. cbn [option_map]. f_equal. lia.
Qed.

Lemma marker_at_trim (m l : str) :
  isMarker m -> startsWith m (trim l) = true ->
  exists w1, allWs w1 /\ indexOf m l = Some (length w1).
Proof.
  intros Hm Hs. destruct (trim_decompose l) as (w1 & w2 & Hl & H1 & _).
  exists w1. split; [exact H1|].
  apply startsWith_spec in Hs. rewrite Hl, Hs, <- app_assoc.
  apply indexOf_after_ws; assumption.
Qed.

Lemma pushIf_cases (x : str) :
  (x = [] /\ Markdown.pushIf x = []) \/ (x <> [] /\ Markdown.pushIf x = [x]).
Proof. destruct x; [left|right]; split; try reflexivity; discriminate. Qed.

(** Whitespace inside a fence stays as a line of the fence. *)
Lemma rerun_ws (m w1 : str) :
  isMarker m -> allWs w1 ->
  Markdown.normalizeLines (Some m) (Markdown.pushIf w1) = (Markdown.pushIf w1, Some m).
Proof.
  intros Hm H1. destruct (pushIf_cases w1) as [[_ ->]|[_ ->]]; [reflexivity|].
  rewrite normalizeLines_one. cbn [Markdown.step]. unfold Markdown.stepInside.
  rewrite (trim_allWs _ H1).
  change (Markdown.messageHeaderPattern []) with false. cbv iota.
  destruct (marker_head m Hm) as (c & -> & Hc & _).
  rewrite (indexOf_absent c [c; c] w1) by (apply ws_not; assumption).
  reflexivity.
Qed.

Lemma lang_fenceFree (b : str) : allLang b -> fenceFree b.
Proof.
  intros Hb. split.
  - apply (indexOf_absent (ch "`")). apply lang_not; [reflexivity|exact Hb].
  - apply (indexOf_absent (ch "~")). apply lang_not; [reflexivity|exact Hb].
Qed.

(** A language tag left after a closing marker is an ordinary line. *)
Lemma rerun_lang (b : str) :
  allLang b ->
  Markdown.normalizeLines None (Markdown.pushIf b) = (Markdown.pushIf b, None).
Proof.
  intros Hb. destruct (pushIf_cases b) as [[_ ->]|[_ ->]]; [reflexivity|].
  rewrite normalizeLines_one. cbn [Markdown.step].
  rewrite stepOutside_fenceFree by (apply lang_fenceFree; exact Hb). reflexivity.
Qed.

(** Inside a fence, a bare fence line with the marker of the fence closes
    it: leading whitespace, the marker, and the language tag are pushed. *)
Lemma stepInside_bare_same (m w1 a b c w2 : str) :
  isMarker m -> allWs w1 -> allWs a -> allLang b -> allWs c -> allWs w2 ->
  trim (w1 ++ m ++ (a ++ b ++ c ++ w2)) = m ++ a ++ b ++ c ->
  Markdown.stepInside m (w1 ++ m ++ (a ++ b ++ c ++ w2))
  = (Markdown.pushIf w1 ++ [m] ++ Markdown.pushIf b, None).
Proof.
  intros Hm H1 Ha Hb Hc H2 Ht. unfold Markdown.stepInside.
  set (l := w1 ++ m ++ (a ++ b ++ c ++ w2)) in *.
  rewrite Ht, (marker_not_header m _ Hm).
  unfold l at 1. rewrite (indexOf_after_ws m w1 _ Hm H1).
  unfold sliceTo, sliceFrom.
  assert (Hcode : firstn (length w1) l = w1).
  { unfold l. rewrite firstn_app, Nat.sub_diag, firstn_all. cbn [firstn].
    apply app_nil_r. }
  assert (Htail : trim (skipn (length w1 + length m) l) = b).
  { unfold l. rewrite app_assoc, skipn_app.
    rewrite length_app, Nat.sub_diag. cbn [skipn].
    rewrite skipn_all2 by (rewrite length_app; lia). cbn [app].
    apply trim_solid; [exact Ha|apply Forall_app; split; assumption|].
    eapply List.Forall_impl; [|exact Hb]. apply lang_not_ws. }
  rewrite Hcode, Htail. reflexivity.
Qed.

(** Inside a fence, a bare fence line with the other marker is code. *)
Lemma stepInside_bare_other (m m' w1 a b c w2 : str) :
  isMarker m -> isMarker m' -> m <> m' ->
  allWs w1 -> allWs a -> allLang b -> allWs c -> allWs w2 ->
  trim (w1 ++ m' ++ (a ++ b ++ c ++ w2)) = m' ++ a ++ b ++ c ->
  Markdown.stepInside m (w1 ++ m' ++ (a ++ b ++ c ++ w2))
  = ([w1 ++ m' ++ (a ++ b ++ c ++ w2)], Some m).
Proof.
  intros Hm Hm' Hne H1 Ha Hb Hc H2 Ht. unfold Markdown.stepInside.
  rewrite Ht, (marker_not_header m' _ Hm').
  destruct (marker_head m Hm) as (x & Em & Hx & Hxl & _).
  destruct (marker_head m' Hm') as (y & Em' & _).
  assert (Hxy : y <> x) by (intros ->; congruence).
  assert (Habs : indexOf m (w1 ++ m' ++ a ++ b ++ c ++ w2) = None).
  { rewrite Em. apply indexOf_absent.
    repeat (apply Forall_app; split);
      try (apply ws_not; assumption); try (apply lang_not; assumption).
    rewrite Em'. repeat constructor; exact Hxy. }
  rewrite Habs.
  assert (Hst : startsWith m (m' ++ a ++ b ++ c) = false).
  { rewrite Em, Em'. cbn [app startsWith].
    replace (eqc x y) with false; [reflexivity|].
    symmetry. apply eqc_neq. congruence. }
  rewrite Hst. reflexivity.
Qed.

(** No carriage return and no line feed. *)
Definition plainLine (x : str) : Prop :=
  Forall (fun c => c <> Markdown.CR /\ c <> Markdown.LF) x.

Lemma marker_plain (m : str) : isMarker m -> plainLine m.
Proof.
  intros Hm. destruct (marker_head m Hm) as (c & -> & _ & _ & _ & H1 & H2).
  repeat constructor; assumption.
Qed.

Lemma pushIf_plain (x : str) : plainLine x -> Forall plainLine (Markdown.pushIf x).
Proof.
  destruct x; intros H; cbn [Markdown.pushIf]; [constructor|].
  constructor; [exact H|constructor].
Qed.

(** Running the loop again over what one tidy line has produced, from the
    state that line was read in, produces the same lines and the same
    state. *)
Lemma step_tidy (st : Markdown.FenceState) (l : str) :
  validState st -> tidyLine l = true ->
  validState (snd (Markdown.step st l))
  /\ fst (Markdown.step st l) <> []
  /\ Forall plainLine (fst (Markdown.step st l))
  /\ Markdown.normalizeLines st (fst (Markdown.step st l)) = Markdown.step st l.
Proof.
  intros Hst Ht. apply tidyLine_spec in Ht. destruct Ht as (Hcr & Hlf & Hshape).
  assert (Hl : plainLine l).
  { unfold plainLine. rewrite Forall_forall in *. intros x Hx. split; auto. }
  clear Hcr Hlf.
  assert (Hsame : forall s e, Markdown.step st l = ([l], s) ->
            Markdown.normalizeLines st [l] = e -> e = ([l], s)).
  { intros s e Hs <-. rewrite normalizeLines_one, Hs. reflexivity. }
  destruct st as [m|]; cbn [Markdown.step].
  - (* inside the fence [m] *)
    cbn [validState] in Hst.
    destruct Hshape as [Hff|[m' Hbare]].
    + (* no marker in the line *)
      assert (Hno : indexOf m l = None).
      { destruct Hff as [F1 F2]. destruct Hst as [->| ->]; assumption. }
      unfold Markdown.stepInside.
      destruct (Markdown.messageHeaderPattern (trim l)) eqn:Hh; cbn [fst snd].
      * split; [exact I|]. split; [discriminate|].
        split; [repeat constructor; [apply marker_plain; exact Hst|exact Hl]|].
        change [m; l] with ([m] ++ [l]). rewrite normalizeLines_app.
        rewrite normalizeLines_one, (step_close m Hst). cbn [fst snd].
        rewrite normalizeLines_one. cbn [Markdown.step].
        rewrite (stepOutside_fenceFree l Hff). reflexivity.
      * rewrite Hno.
        assert (Hs : startsWith m (trim l) = false).
        { destruct (startsWith m (trim l)) eqn:E; [|reflexivity].
          destruct (marker_at_trim m l Hst E) as (w1 & _ & Hi). congruence. }
        rewrite Hs. cbn [fst snd].
        split; [exact Hst|]. split; [discriminate|].
        split; [repeat constructor; exact Hl|].
        rewrite normalizeLines_one. cbn [Markdown.step]. unfold Markdown.stepInside.
        rewrite Hh, Hno, Hs. reflexivity.
    + (* a bare fence line *)
      destruct (bareFence_shape l m' Hbare)
        as (Hm' & w1 & a & b & c & w2 & El & Et & H1 & Ha & Hb & Hc & H2).
      assert (Hparts : plainLine w1 /\ plainLine b).
      { unfold plainLine in *. rewrite El in Hl.
        rewrite !Forall_app in Hl. tauto. }
      destruct Hparts as [Pw Pb].
      assert (Hdec : m = m' \/ m <> m').
      { destruct Hst as [->| ->], Hm' as [->| ->];
          try (left; reflexivity); right; discriminate. }
      destruct Hdec as [<-|Hne].
      * rewrite El in Et |- *.
        rewrite (stepInside_bare_same m w1 a b c w2 Hst H1 Ha Hb Hc H2 Et).
        cbn [fst snd]. split; [exact I|].
        split; [destruct (Markdown.pushIf w1); discriminate|].
        split.
        { repeat (apply Forall_app; split); try (apply pushIf_plain; assumption).
          repeat constructor. apply marker_plain; exact Hst. }
        rewrite normalizeLines_app, (rerun_ws m w1 Hst H1).
        rewrite normalizeLines_app, normalizeLines_one, (step_close m Hst).
        cbn [fst snd]. rewrite (rerun_lang b Hb). reflexivity.
      * rewrite El in Et |- *.
        rewrite (stepInside_bare_other m m' w1 a b c w2 Hst Hm' Hne H1 Ha Hb Hc H2 Et).
        cbn [fst snd]. split; [exact Hst|]. split; [discriminate|].
        split; [repeat constructor; rewrite <- El; exact Hl|].
        rewrite normalizeLines_one. cbn [Markdown.step].
        rewrite (stepInside_bare_other m m' w1 a b c w2 Hst Hm' Hne H1 Ha Hb Hc H2 Et).
        reflexivity.
  - (* outside *)
    unfold Markdown.stepOutside.
    destruct (Markdown.openFenceMatch (trim l)) as [m|] eqn:E; cbn [fst snd].
    + destruct (bareFence_shape l m E)
        as (Hm & w1 & a & b & c & w2 & El & Et & _).
      split; [exact Hm|]. split; [discriminate|].
      split.
      { repeat constructor. unfold plainLine in *. rewrite El in Hl. rewrite Et.
        rewrite !Forall_app in *. tauto. }
      rewrite normalizeLines_one. cbn [Markdown.step]. unfold Markdown.stepOutside.
      rewrite trim_idem, E. reflexivity.
    + destruct Hshape as [Hff|[m' Hbare]]; [|congruence].
      pose proof (stepOutside_fenceFree l Hff) as Hs.
      unfold Markdown.stepOutside in Hs. rewrite E in Hs. rewrite Hs. cbn [fst snd].
      split; [exact I|]. split; [discriminate|].
      split; [repeat constructor; exact Hl|].
      rewrite normalizeLines_one. cbn [Markdown.step].
      rewrite (stepOutside_fenceFree l Hff). reflexivity.
Qed.

Lemma normalizeLines_tidy (lines : list str) : forall st,
  validState st -> forallb tidyLine lines = true ->
  validState (snd (Markdown.normalizeLines st lines))
  /\ Forall plainLine (fst (Markdown.normalizeLines st lines))
  /\ (lines <> [] -> fst (Markdown.normalizeLines st lines) <> [])
  /\ Markdown.normalizeLines st (fst (Markdown.normalizeLines st lines))
     = Markdown.normalizeLines st lines.
Proof.
  induction lines as [|l ls IH]; intros st Hst Ht.
  - cbn. repeat split; [exact Hst|constructor|congruence].
  - cbn [forallb] in Ht. apply andb_true_iff in Ht. destruct Ht as [Hl Hls].
    destruct (step_tidy st l Hst Hl) as (Hv & Hne & Hplain & Hre).
    cbn [Markdown.normalizeLines].
    destruct (Markdown.step st l) as [e s1] eqn:Es. cbn [fst snd] in *.
    destruct (IH s1 Hv Hls) as (Hv2 & Hplain2 & _ & Hre2).
    destruct (Markdown.normalizeLines s1 ls) as [o2 s2] eqn:En. cbn [fst snd] in *.
    split; [exact Hv2|].
    split; [apply Forall_app; split; assumption|].
    split; [intros _ E; apply app_eq_nil in E; destruct E; contradiction|].
    rewrite normalizeLines_app, Hre, Hre2. reflexivity.
Qed.

(** A global replacement whose pattern starts with a code unit the string
    lacks changes nothing. *)
Lemma gsub_literal_absent (c : char) (p : str) subst (s : str) :
  Forall (fun x => x <> c) s ->
  Replace.gsub (Replace.literalAt (c :: p)) subst s = s.
Proof.
  unfold Replace.gsub. generalize (@nil N) as pre.
  induction s as [|x s IH]; intros pre H; [reflexivity|].
  inversion H as [|? ? Hx Hs]; subst.
  cbn [Replace.gsubFrom]. unfold Replace.literalAt. cbn [startsWith].
  replace (eqc c x) with false by (symmetry; apply eqc_neq; congruence).
  cbn [andb]. rewrite IH by exact Hs. reflexivity.
Qed.

Lemma join_plain (ls : list str) :
  Forall plainLine ls -> Forall (fun c => c <> Markdown.CR) (join [Markdown.LF] ls).
Proof.
  induction 1 as [|l ls Hl _ IH]; [constructor|].
  cbn [join]. destruct ls as [|l' ls].
  - eapply List.Forall_impl; [|exact Hl]. intros c [Hc _]. exact Hc.
  - apply Forall_app. split.
    + eapply List.Forall_impl; [|exact Hl]. intros c [Hc _]. exact Hc.
    + constructor; [discriminate|exact IH].
Qed.

(** Splitting what was joined gives the lines back. *)
Lemma split_join (ls : list str) :
  ls <> [] -> Forall plainLine ls -> split Markdown.LF (join [Markdown.LF] ls) = ls.
Proof.
  intros Hne H. induction H as [|l ls Hl Hls IH]; [contradiction|]. clear Hne.
  assert (Hline : forall rest tail,
            split Markdown.LF rest = tail -> tail <> [] ->
            split Markdown.LF (l ++ Markdown.LF :: rest) = l :: tail).
  { intros rest tail Hr Ht. induction Hl as [|c l [_ Hc] _ IHl].
    - cbn. rewrite Hr. reflexivity.
    - cbn [app split]. apply eqc_neq in Hc. unfold eqc in *. rewrite Hc.
      rewrite IHl. reflexivity. }
  cbn [join]. destruct ls as [|l' ls].
  - clear IH Hline. induction Hl as [|c l [_ Hc] _ IHl]; [reflexivity|].
    cbn [split]. apply eqc_neq in Hc. unfold eqc in *. rewrite Hc, IHl. reflexivity.
  - cbn [app]. apply Hline; [|discriminate]. apply IH. discriminate.
Qed.

(** The normaliser leaves its own output unchanged when the lines of the
    document are tidy. *)
Lemma normalizeFenceBoundaries_tidy (md : str) :
  forallb tidyLine (split Markdown.LF (Markdown.normalizeNewlines md)) = true ->
  Markdown.normalizeFenceBoundaries (Markdown.normalizeFenceBoundaries md)
  = Markdown.normalizeFenceBoundaries md.
Proof.
  intros Ht. unfold Markdown.normalizeFenceBoundaries at 2 3.
  set (lines := split Markdown.LF (Markdown.normalizeNewlines md)) in *.
  assert (Hlines : lines <> []).
  { unfold lines. destruct (Markdown.normalizeNewlines md) as [|c s]; [discriminate|].
    cbn [split]. destruct (eqc c Markdown.LF); [discriminate|].
    destruct (split Markdown.LF s); discriminate. }
  destruct (normalizeLines_tidy lines None I Ht) as (Hv & Hplain & Hne & Hre).
  specialize (Hne Hlines).
  destruct (Markdown.normalizeLines None lines) as [out st] eqn:En.
  cbn [fst snd] in *.
  assert (Hall : Forall plainLine (out ++ Markdown.closeFenceIfOpen st)).
  { apply Forall_app. split; [exact Hplain|].
    destruct st as [m|]; cbn [Markdown.closeFenceIfOpen]; [|constructor].
    repeat constructor. apply marker_plain. exact Hv. }
  assert (Hne' : out ++ Markdown.closeFenceIfOpen st <> []).
  { intros E. apply app_eq_nil in E. destruct E; contradiction. }
  unfold Markdown.normalizeFenceBoundaries.
  unfold Markdown.normalizeNewlines at 1.
  rewrite (gsub_literal_absent Markdown.CR [Markdown.LF]) by (apply join_plain; exact Hall).
  rewrite (split_join _ Hne' Hall).
  rewrite normalizeLines_app, Hre.
  destruct st as [m|]; cbn [Markdown.closeFenceIfOpen].
  - rewrite normalizeLines_one, (step_close m Hv). cbn [fst snd Markdown.closeFenceIfOpen].
    rewrite app_nil_r. reflexivity.
  - cbn [Markdown.normalizeLines Markdown.closeFenceIfOpen]. rewrite !app_nil_r.
    reflexivity.
Qed.


Definition config_plain : ExportConfig :=
  {| cfg_downloadDirectory := []; cfg_fileNameFormat := [];
     cfg_includeTimestamps := true; cfg_includeThreadReplies := true;
     cfg_historyDays := 7 |}.

Definition message_with_code : EnrichedMessage :=
  {| sender := lit "bob";
     content := nl [lit "look:"; lit "```js"; lit "x = 1"; lit "~~~"; lit "```"; lit "done"];
     timestamp := lit "1700000000.000100";
     threadReplies := [{| rp_sender := lit "amy"; rp_content := lit "ok";
                          rp_timestamp := lit "1700000001.000100";
                          rp_messageFiles := [] |}];
     messageFiles := [] |}.

Definition message_two_fences : EnrichedMessage :=
  {| sender := lit "bob";
     content := lit "a ```b``` c ```d``` e";
     timestamp := lit "1700000000.000100";
     threadReplies := [];
     messageFiles := [] |}.



Example two_fences_output :
  Markdown.convertToMarkdown (fun t => t) (lit "T") [message_two_fences] (lit "general") config_plain
  = nl [lit "# Slack Export Extension Export: general"; lit "*Exported: T*"; [];
        lit "---"; []; lit "**bob** (1700000000.000100):"; lit "a"; lit "```"; lit "b";
        lit "```"; lit "c ```d``` e"; []; []].
Proof. vm_compute. reflexivity. Qed.

(** ** Thread replies: retries and the cache *)

Section ThreadReplies.

Variable respond : nat -> Pipeline.RepliesResponse.

(** What the last of [k] attempts brings back. *)
Definition lastAnswer (first k : nat) : list Pipeline.RawMessage :=
  match respond (first + k - 1) with
  | Pipeline.ApiOk messages => default [] messages
  | _ => []
  end.

(** With fuel for the retries left, [fetchThreadReplies] returns: it has
    sent between one and [4 - retryCount] requests for the thread, and
    nothing else; its result is what the last request brought back, or the
    empty list when that request failed. *)
Lemma fetchThreadRepliesFrom_returns (fuel : nat) :
  forall (threadTs : str) (retryCount : nat) (net : Pipeline.Net),
    retryCount <= Pipeline.maxRetries ->
    S Pipeline.maxRetries <= fuel + retryCount ->
    exists k net',
      Pipeline.fetchThreadRepliesFrom respond fuel threadTs retryCount net
        = Some (lastAnswer (length (Pipeline.calls net)) k, net')
      /\ 1 <= k <= S Pipeline.maxRetries - retryCount
      /\ Pipeline.calls net' = Pipeline.calls net ++ repeat threadTs k
      /\ Pipeline.requested net' = Pipeline.requested net.
Proof.
  unfold Pipeline.maxRetries.
  induction fuel as [|fuel IH]; intros threadTs retryCount net Hr Hf; [lia|].
  cbn [Pipeline.fetchThreadRepliesFrom]. unfold Pipeline.maxRetries.
  set (n := length (Pipeline.calls net)).
  assert (Hretry : retryCount < 3 -> forall seconds,
            exists k net',
              Pipeline.fetchThreadRepliesFrom respond fuel threadTs (S retryCount)
                (Pipeline.slept seconds (Pipeline.sent threadTs net))
              = Some (lastAnswer n k, net')
              /\ 1 <= k <= 4 - retryCount
              /\ Pipeline.calls net' = Pipeline.calls net ++ repeat threadTs k
              /\ Pipeline.requested net' = Pipeline.requested net).
  { intros Hlt seconds.
    destruct (IH threadTs (S retryCount)
                (Pipeline.slept seconds (Pipeline.sent threadTs net)))
      as (k & net' & E & Hk & Hc & Hq); [lia|lia|].
    exists (S k), net'. cbn [Pipeline.slept Pipeline.sent Pipeline.calls] in E, Hc.
    rewrite length_app in E. cbn [length] in E. fold n in E.
    split.
    { rewrite E. unfold lastAnswer.
      replace (n + 1 + k - 1) with (n + S k - 1) by lia. reflexivity. }
    split; [lia|]. split; [|exact Hq].
    rewrite Hc, <- app_assoc. reflexivity. }
  assert (Hstop : forall msgs,
            lastAnswer n 1 = msgs ->
            exists k net',
              Some (msgs, Pipeline.sent threadTs net) = Some (lastAnswer n k, net')
              /\ 1 <= k <= 4 - retryCount
              /\ Pipeline.calls net' = Pipeline.calls net ++ repeat threadTs k
              /\ Pipeline.requested net' = Pipeline.requested net).
  { intros msgs <-. exists 1, (Pipeline.sent threadTs net).
    repeat split; try reflexivity; lia. }
  assert (Hn : n + 1 - 1 = n) by lia.
  destruct (respond n) as [m|messages|error retry_after] eqn:Er.
  - destruct (includes (lit "ratelimited") m && (retryCount <? 3)) eqn:Ec.
    + apply andb_true_iff in Ec. destruct Ec as [_ Ec]. apply Nat.ltb_lt in Ec.
      apply Hretry. exact Ec.
    + apply Hstop. unfold lastAnswer. rewrite Hn, Er. reflexivity.
  - apply Hstop. unfold lastAnswer. rewrite Hn, Er. reflexivity.
  - destruct (eqs error (lit "ratelimited") && (retryCount <? 3)) eqn:Ec.
    + apply andb_true_iff in Ec. destruct Ec as [_ Ec]. apply Nat.ltb_lt in Ec.
      apply Hretry. exact Ec.
    + destruct (includes (lit "ratelimited")
                  (lit "conversations.replies API failed: " ++ error)
                && (retryCount <? 3)) eqn:Ec2.
      * apply andb_true_iff in Ec2. destruct Ec2 as [_ Ec2]. apply Nat.ltb_lt in Ec2.
        apply Hretry. exact Ec2.
      * apply Hstop. unfold lastAnswer. rewrite Hn, Er. reflexivity.
Qed.

Lemma fetchThreadReplies_returns (threadTs : str) (net : Pipeline.Net) :
  exists k,
    1 <= k <= 4
    /\ fst (Pipeline.fetchThreadReplies respond threadTs net)
       = lastAnswer (length (Pipeline.calls net)) k
    /\ Pipeline.calls (snd (Pipeline.fetchThreadReplies respond threadTs net))
       = Pipeline.calls net ++ repeat threadTs k
    /\ Pipeline.requested (snd (Pipeline.fetchThreadReplies respond threadTs net))
       = Pipeline.requested net.
Proof.
  unfold Pipeline.fetchThreadReplies.
  destruct (fetchThreadRepliesFrom_returns (S Pipeline.maxRetries) threadTs 0 net)
    as (k & net' & E & Hk & Hc & Hq); [unfold Pipeline.maxRetries; lia|lia|].
  rewrite E. cbn [default fst snd]. exists k.
  unfold Pipeline.maxRetries in Hk. repeat split; try assumption; lia.
Qed.

Variable config : ExportConfig.

(** The first pass calls [fetchThreadReplies] once for each message that
    carries a thread, in order. *)
Lemma scan_requested (apiMessages : list Pipeline.RawMessage) : forall st,
  Pipeline.requested (Pipeline.net (fold_left (Pipeline.scanMessage respond config)
                                      apiMessages st))
  = Pipeline.requested (Pipeline.net st) ++ omap (Pipeline.threadOf config) apiMessages.
Proof.
  induction apiMessages as [|msg rest IH]; intros st.
  - cbn. rewrite app_nil_r. reflexivity.
  - assert (Ho : omap (Pipeline.threadOf config) (msg :: rest)
                 = match Pipeline.threadOf config msg with
                   | Some t => t :: omap (Pipeline.threadOf config) rest
                   | None => omap (Pipeline.threadOf config) rest
                   end) by reflexivity.
    rewrite Ho. clear Ho.
    cbn [fold_left]. rewrite IH. unfold Pipeline.scanMessage.
    destruct (Pipeline.threadOf config msg) as [threadTs|] eqn:Et.
    + set (net0 := match Pipeline.threadFetchCount st with
                   | 0 => Pipeline.net st
                   | S _ => Pipeline.slept 800 (Pipeline.net st)
                   end).
      destruct (fetchThreadReplies_returns threadTs (Pipeline.asked threadTs net0))
        as (k & _ & _ & _ & Hq).
      destruct (Pipeline.fetchThreadReplies respond threadTs (Pipeline.asked threadTs net0))
        as [repliesRaw net1].
      cbn [snd Pipeline.net] in *. rewrite Hq. cbn [Pipeline.asked Pipeline.requested].
      assert (Pipeline.requested net0 = Pipeline.requested (Pipeline.net st)) as ->.
      { unfold net0. destruct (Pipeline.threadFetchCount st); reflexivity. }
      rewrite <- app_assoc. reflexivity.
    + cbn [Pipeline.net]. reflexivity.
Qed.

End ThreadReplies.

Definition str_eq_dec : forall a b : str, {a = b} + {a <> b} := List.list_eq_dec N.eq_dec.


Definition reply_a : Pipeline.RawMessage :=
  {| Pipeline.ts := lit "1700000001.000200"; Pipeline.user := Some (lit "U2");
     Pipeline.subtype := None; Pipeline.bot_id := None; Pipeline.username := None;
     Pipeline.text := Some (lit "a reply"); Pipeline.thread_ts := Some (lit "1700000000.000100");
     Pipeline.reply_count := None |}.

Definition parent_a : Pipeline.RawMessage :=
  {| Pipeline.ts := lit "1700000000.000100"; Pipeline.user := Some (lit "U1");
     Pipeline.subtype := None; Pipeline.bot_id := None; Pipeline.username := None;
     Pipeline.text := Some (lit "a thread"); Pipeline.thread_ts := Some (lit "1700000000.000100");
     Pipeline.reply_count := Some 1%Z |}.

(** A second message carrying the same thread. *)
Definition parent_b : Pipeline.RawMessage :=
  {| Pipeline.ts := lit "1700000002.000300"; Pipeline.user := Some (lit "U1");
     Pipeline.subtype := None; Pipeline.bot_id := None; Pipeline.username := None;
     Pipeline.text := Some (lit "also sent to channel");
     Pipeline.thread_ts := Some (lit "1700000000.000100");
     Pipeline.reply_count := Some 1%Z |}.

Definition respond_ok (n : nat) : Pipeline.RepliesResponse :=
  Pipeline.ApiOk (Some [parent_a; reply_a]).

(** Rate limited three times, then answered. *)
Definition respond_busy (n : nat) : Pipeline.RepliesResponse :=
  if n <? 3 then Pipeline.ApiError (lit "ratelimited") None
  else Pipeline.ApiOk (Some [parent_a; reply_a]).

Definition env_of (history : list Pipeline.RawMessage)
    (respond : nat -> Pipeline.RepliesResponse) : Pipeline.ExportEnv :=
  {| Pipeline.env_config := config_plain;
     Pipeline.env_token := Resolved (lit "xoxc-1");
     Pipeline.env_now := 1700000100000;
     Pipeline.env_exportPrefix := lit "1700000100000-ab12cd";
     Pipeline.env_history := fun _ _ => Resolved history;
     Pipeline.env_respond := respond;
     Pipeline.env_users := fun _ => ∅;
     Pipeline.env_sendDownload := fun _ _ => Resolved None;
     Pipeline.env_clock := 1700000100000;
     Pipeline.env_formatTimestamp := fun t => t;
     Pipeline.env_exportTime := lit "1/2/2024, 3:04:00 AM" |}.

Definition noFiles (m : Pipeline.RawMessage) : list FileRef := [].

Definition textOnly (m : Pipeline.RawMessage) (userMap : gmap str str)
    (files : list FileRef) : str := default [] (Pipeline.text m).



(** ** Channel export with no message to render *)

(** No backtick, no tilde and no carriage return. *)
Definition quiet (s : str) : Prop :=
  Forall (fun c => c <> ch "`" /\ c <> ch "~" /\ c <> Markdown.CR) s.

Lemma quiet_lit (s : string) :
  forallb (fun c => negb (eqc c (ch "`")) && negb (eqc c (ch "~"))
                    && negb (eqc c Markdown.CR)) (lit s) = true ->
  quiet (lit s).
Proof.
  intros H. rewrite forallb_forall in H. apply Forall_forall. intros c Hc.
  apply list_elem_of_In, H in Hc. b2p. destruct Hc as [[A B] C].
  unfold eqc in *. b2p. repeat split; assumption.
Qed.

Lemma split_Forall (P : char -> Prop) (s : str) :
  Forall P s -> Forall (Forall P) (split Markdown.LF s).
Proof.
  induction 1 as [|c s Hc _ IH]; [repeat constructor|].
  cbn [split]. destruct (eqc c Markdown.LF).
  - constructor; [constructor|exact IH].
  - destruct (split Markdown.LF s) as [|l ls]; [repeat constructor; exact Hc|].
    inversion IH; subst. constructor; [constructor; assumption|assumption].
Qed.

Lemma split_nonempty (sep : char) (s : str) : split sep s <> [].
Proof.
  destruct s as [|c s]; [discriminate|]. cbn [split].
  destruct (eqc c sep); [discriminate|]. destruct (split sep s); discriminate.
Qed.

Lemma join_cons (sep l : str) (ls : list str) :
  ls <> [] -> join sep (l :: ls) = l ++ sep ++ join sep ls.
Proof. destruct ls; [contradiction|reflexivity]. Qed.

Lemma join_split (s : str) : join [Markdown.LF] (split Markdown.LF s) = s.
Proof.
  induction s as [|c s IH]; [reflexivity|].
  pose proof (split_nonempty Markdown.LF s) as Hne.
  cbn [split]. destruct (eqc c Markdown.LF) eqn:E.
  - apply eqc_eq in E. subst c. rewrite join_cons by exact Hne. rewrite IH. reflexivity.
  - destruct (split Markdown.LF s) as [|l ls]; [contradiction|].
    destruct ls as [|l' ls].
    + cbn [join] in *. rewrite IH. reflexivity.
    + rewrite join_cons in * by discriminate. rewrite <- IH. reflexivity.
Qed.

Lemma quiet_fenceFree (l : str) : quiet l -> fenceFree l.
Proof.
  intros H. split.
  - apply (indexOf_absent (ch "`")). eapply List.Forall_impl; [|exact H].
    intros c (A & _). exact A.
  - apply (indexOf_absent (ch "~")). eapply List.Forall_impl; [|exact H].
    intros c (_ & B & _). exact B.
Qed.

Lemma normalizeLines_fenceFree (lines : list str) :
  Forall fenceFree lines -> Markdown.normalizeLines None lines = (lines, None).
Proof.
  induction 1 as [|l ls Hl _ IH]; [reflexivity|].
  cbn [Markdown.normalizeLines Markdown.step].
  rewrite (stepOutside_fenceFree l Hl), IH. reflexivity.
Qed.

(** A document without backticks, tildes and carriage returns is left as
    it is. *)
Lemma normalizeFenceBoundaries_quiet (md : str) :
  quiet md -> Markdown.normalizeFenceBoundaries md = md.
Proof.
  intros H. unfold Markdown.normalizeFenceBoundaries, Markdown.normalizeNewlines.
  rewrite (gsub_literal_absent Markdown.CR [Markdown.LF]).
  2:{ eapply List.Forall_impl; [|exact H]. intros c (_ & _ & C). exact C. }
  rewrite normalizeLines_fenceFree.
  - cbn [Markdown.closeFenceIfOpen]. rewrite app_nil_r. apply join_split.
  - eapply List.Forall_impl; [|apply split_Forall; exact H].
    intros l Hl. apply quiet_fenceFree. exact Hl.
Qed.

Lemma header_quiet (exportTime channelName : str) :
  quiet channelName -> quiet exportTime -> quiet (Markdown.header exportTime channelName).
Proof.
  intros Hc He. unfold Markdown.header, quiet.
  rewrite !Forall_app. repeat split;
    try assumption; try (apply quiet_lit; reflexivity);
    repeat constructor; discriminate.
Qed.

Lemma includes_mid (p a b : str) : includes p (a ++ p ++ b) = true.
Proof.
  unfold includes. induction a as [|c a IH].
  - cbn [app]. rewrite indexOf_here. reflexivity.
  - cbn [app indexOf]. destruct (startsWith p (c :: a ++ p ++ b)); [reflexivity|].
    destruct (indexOf p (a ++ p ++ b)); [reflexivity|discriminate].
Qed.

Section ZeroMessages.

Variable collectFilesFromMessage : Pipeline.RawMessage -> list FileRef.
Variable extractMessageContent : Pipeline.RawMessage -> gmap str str -> list FileRef -> str.
Variable parseFloat : str -> Z.
Variable save : nat -> str -> str -> Settled Pipeline.SaveRes.

(** With no message left to render, the result of [exportChannelViaAPI] is
    the count 0 and the header-only document. *)
Lemma exportChannelViaAPI_blank (env : Pipeline.ExportEnv) (channelId channelName : str)
    (oldestTimestamp : option Z) (token : str) (apiMessages : list Pipeline.RawMessage) :
  Pipeline.env_token env = Resolved token ->
  (forall oldestUnix, Pipeline.env_history env channelId oldestUnix = Resolved apiMessages) ->
  Forall (fun m => forall userMap, trim (extractMessageContent m userMap
                                          (collectFilesFromMessage m)) = []) apiMessages ->
  fst (Pipeline.exportChannelViaAPI collectFilesFromMessage extractMessageContent parseFloat
         env channelId channelName oldestTimestamp)
  = Resolved {| Pipeline.res_messageCount := 0;
                Pipeline.res_markdown := Pipeline.toMarkdown env [] channelName;
                Pipeline.res_channelName := channelName |}.
Proof.
  intros Htoken Hhistory Hblank. unfold Pipeline.exportChannelViaAPI.
  rewrite Htoken, Hhistory. destruct apiMessages as [|m rest]; [reflexivity|].
  cbn [fst]. rewrite map_map.
  set (scan := Pipeline.scanMessages _ _ _ _).
  set (userMap := Pipeline.env_users env _).
  assert (Hnone : forall (l : list Pipeline.RawMessage),
            Forall (fun m => forall userMap,
                      trim (extractMessageContent m userMap (collectFilesFromMessage m)) = [])
                   l ->
            List.filter
              (fun msg => match trim (content msg) with [] => false | _ => true end)
              (map (fun x => fst (Pipeline.enrichMessage collectFilesFromMessage
                                    extractMessageContent (Pipeline.env_config env) userMap
                                    (Pipeline.threadRepliesCache scan) x)) l) = []).
  { clearbody scan userMap. clear Hhistory Hblank.
    induction 1 as [|x xs Hx _ IH]; [reflexivity|].
    cbn [map List.filter]. cbn [Pipeline.enrichMessage fst content].
    rewrite Hx. exact IH. }
  specialize (Hnone (m :: rest) Hblank).
  rewrite Hnone. cbn [Pipeline.sortByTimestamp fold_left
                        Files.updateFileReferencesInMessages map length].
  destruct (trim (Pipeline.toMarkdown env [] channelName)); reflexivity.
Qed.

End ZeroMessages.

(** C1 (as amended). When the history of the channel yields no message to
    render (none fetched, or none with content), the response to
    [BATCH_EXPORT_CHANNEL] has [success: true], the count 0, no error, and a
    non-empty Markdown document that is the header alone: the title line
    with the channel name, the export time and the rule. This holds for a
    channel name and a locale time string without backticks, tildes and
    carriage returns. *)
Theorem exportChannel_zero_messages
    (collectFilesFromMessage : Pipeline.RawMessage -> list FileRef)
    (extractMessageContent : Pipeline.RawMessage -> gmap str str -> list FileRef -> str)
    (parseFloat : str -> Z)
    (save : nat -> str -> str -> Settled Pipeline.SaveRes)
    (env : Pipeline.ExportEnv) (channelId channelName : str)
    (oldestTimestamp : option Z) (token : str) (apiMessages : list Pipeline.RawMessage) :
  Pipeline.env_token env = Resolved token ->
  (forall oldestUnix, Pipeline.env_history env channelId oldestUnix = Resolved apiMessages) ->
  Forall (fun m => forall userMap, trim (extractMessageContent m userMap
                                          (collectFilesFromMessage m)) = []) apiMessages ->
  quiet channelName -> quiet (Pipeline.env_exportTime env) ->
  let response :=
    Pipeline.handleBatchExportChannel collectFilesFromMessage extractMessageContent
      parseFloat save env channelId channelName oldestTimestamp in
  Pipeline.b_success response = true
  /\ Pipeline.b_messageCount response = 0
  /\ Pipeline.b_error response = None
  /\ Pipeline.b_markdown response
     = Markdown.header (Pipeline.env_exportTime env) channelName
  /\ Pipeline.b_markdown response <> []
  /\ includes channelName (Pipeline.b_markdown response) = true.
Proof.
  intros Htoken Hhistory Hblank Hc He response.
  assert (Hmd : Pipeline.toMarkdown env [] channelName
                = Markdown.header (Pipeline.env_exportTime env) channelName).
  { unfold Pipeline.toMarkdown, Markdown.convertToMarkdown, Markdown.rawMarkdown.
    cbn [map concat]. rewrite app_nil_r.
    apply normalizeFenceBoundaries_quiet, header_quiet; assumption. }
  assert (Hresp : Pipeline.b_success response = true
                  /\ Pipeline.b_messageCount response = 0
                  /\ Pipeline.b_error response = None
                  /\ Pipeline.b_markdown response = Pipeline.toMarkdown env [] channelName).
  { unfold response, Pipeline.handleBatchExportChannel.
    rewrite (exportChannelViaAPI_blank collectFilesFromMessage extractMessageContent
               parseFloat env channelId channelName oldestTimestamp token apiMessages
               Htoken Hhistory Hblank).
    cbn [Pipeline.res_markdown Pipeline.res_messageCount Pipeline.res_channelName].
    destruct (trim (Pipeline.toMarkdown env [] channelName));
      destruct (Pipeline.savedBy _); repeat split; reflexivity. }
  destruct Hresp as (H1 & H2 & H3 & H4).
  rewrite H4, Hmd. repeat split; try assumption.
  - unfold Markdown.header. discriminate.
  - unfold Markdown.header. apply (includes_mid channelName _ _).
Qed.

Definition save_ok (attempt : nat) (channelName markdown : str) : Settled Pipeline.SaveRes :=
  Resolved {| Pipeline.save_success := true; Pipeline.save_error := None |}.

Lemma exportChannel_zero_messages_witness :
  Pipeline.b_markdown
    (Pipeline.handleBatchExportChannel noFiles textOnly (fun _ => 0%Z) save_ok
       (env_of [] respond_ok) (lit "C012345678") (lit "general") None)
  = Markdown.header (lit "1/2/2024, 3:04:00 AM") (lit "general").
Proof.
  apply (exportChannel_zero_messages noFiles textOnly (fun _ => 0%Z) save_ok
           (env_of [] respond_ok) (lit "C012345678") (lit "general") None (lit "xoxc-1") []
           eq_refl (fun _ => eq_refl) (List.Forall_nil _)
           (quiet_lit "general" eq_refl) (quiet_lit "1/2/2024, 3:04:00 AM" eq_refl)).
Defined.

(** C1, the claim as stated fails: the document of a channel without
    messages is the header alone; it holds no note about missing messages. *)
Lemma exportChannel_no_note :
  let response :=
    Pipeline.handleBatchExportChannel noFiles textOnly (fun _ => 0%Z) save_ok
      (env_of [] respond_ok) (lit "C012345678") (lit "general") None in
  Pipeline.b_success response = true
  /\ Pipeline.b_messageCount response = 0
  /\ Pipeline.b_markdown response
     = nl [lit "# Slack Export Extension Export: general";
           lit "*Exported: 1/2/2024, 3:04:00 AM*"; []; lit "---"; []; []]
  /\ includes (lit "essages") (Pipeline.b_markdown response) = false
  /\ includes (lit "ote") (Pipeline.b_markdown response) = false.
Proof. repeat split; vm_compute; reflexivity. Qed.

(** ** Occurrences of a string and global replacement *)

(** [absent u s]: [u] does not occur in [s]. *)
Definition absent (u s : str) : Prop := indexOf u s = None.

Lemma absent_includes (u s : str) : absent u s <-> includes u s = false.
Proof.
  unfold absent, includes. destruct (indexOf u s); split; congruence.
Qed.

Lemma absent_cons (u : str) (c : char) (s : str) :
  absent u (c :: s) <-> startsWith u (c :: s) = false /\ absent u s.
Proof.
  unfold absent. cbn [indexOf]. destruct (startsWith u (c :: s)).
  - split; [discriminate|intros [H _]; discriminate].
  - destruct (indexOf u s); split; try congruence; try tauto.
    + discriminate.
    + intros [_ H]. discriminate.
Qed.

Lemma absent_nil (u : str) : u <> [] -> absent u [].
Proof. destruct u; [contradiction|reflexivity]. Qed.

Lemma startsWith_nil (u : str) : u <> [] -> startsWith u [] = false.
Proof. destruct u; [contradiction|reflexivity]. Qed.

Lemma absent_suffix (u x y : str) : absent u (x ++ y) -> absent u y.
Proof.
  induction x as [|c x IH]; [trivial|]. cbn [app]. intros H.
  apply absent_cons in H. apply IH, H.
Qed.

Lemma startsWith_extend (u x y : str) :
  startsWith u x = true -> startsWith u (x ++ y) = true.
Proof.
  revert x. induction u as [|a u IH]; intros x H; [reflexivity|].
  destruct x as [|b x]; [discriminate|]. cbn [app startsWith] in *.
  apply andb_true_iff in H. destruct H as [H1 H2]. rewrite H1, (IH _ H2). reflexivity.
Qed.

Lemma absent_prefix (u x y : str) : u <> [] -> absent u (x ++ y) -> absent u x.
Proof.
  intros Hu. induction x as [|c x IH]; intros H; [apply absent_nil; exact Hu|].
  cbn [app] in H. apply absent_cons in H. destruct H as [H1 H2].
  apply absent_cons. split; [|apply IH; exact H2].
  destruct (startsWith u (c :: x)) eqn:E; [|reflexivity].
  apply (startsWith_extend u (c :: x) y) in E. cbn [app] in E. congruence.
Qed.

(** [overlaps b a]: a non-empty suffix of [b] is a prefix of [a]. *)
Fixpoint overlaps (b a : str) : bool :=
  match b with
  | [] => false
  | _ :: b' => startsWith b a || overlaps b' a
  end.

(** Neither of [u] and [q] occurs in the other or overlaps it at an end. *)
Definition overlapFree (u q : str) : bool :=
  negb (overlaps u q) && negb (overlaps q u)
  && negb (includes u q) && negb (includes q u).

(** [q] separates occurrences of [u]: in no text can an occurrence of [u]
    share a code unit with an occurrence of [q]. *)
Definition separates (u q : str) : Prop :=
  (forall h v, u = h ++ v -> v <> [] -> startsWith v q = false)
  /\ (forall h v, q = h ++ v -> v <> [] -> startsWith v u = false)
  /\ absent q u /\ absent u q.

Lemma overlaps_spec (b a : str) :
  overlaps b a = false ->
  forall h v, b = h ++ v -> v <> [] -> startsWith v a = false.
Proof.
  intros H h. revert b H. induction h as [|x h IH]; intros b H v -> Hv.
  - cbn [app] in H. destruct v as [|c v]; [contradiction|].
    cbn [overlaps] in H. apply orb_false_iff in H. apply H.
  - cbn [app overlaps] in H. apply orb_false_iff in H. destruct H as [_ H].
    apply (IH _ H v eq_refl Hv).
Qed.

Lemma overlapFree_separates (u q : str) : overlapFree u q = true -> separates u q.
Proof.
  unfold overlapFree. rewrite !andb_true_iff, !negb_true_iff.
  intros [[[H1 H2] H3] H4].
  split; [apply overlaps_spec; exact H1|].
  split; [apply overlaps_spec; exact H2|].
  split; apply absent_includes; assumption.
Qed.

Lemma absent_occurrence (u h t : str) : absent u (h ++ u ++ t) -> False.
Proof.
  intros H. apply absent_suffix in H. unfold absent in H.
  rewrite indexOf_here in H. discriminate.
Qed.

(** An occurrence of [u] at the head of [x ++ y] lies within [x] or runs
    into [y]. *)
Lemma startsWith_split (u x y : str) :
  startsWith u (x ++ y) = true ->
  startsWith u x = true \/ exists v, v <> [] /\ u = x ++ v /\ startsWith v y = true.
Proof.
  revert u. induction x as [|a x IH]; intros u H.
  - destruct u as [|b u]; [left; reflexivity|].
    right. exists (b :: u). split; [discriminate|]. split; [reflexivity|exact H].
  - destruct u as [|b u]; [left; reflexivity|].
    cbn [app startsWith] in H. apply andb_true_iff in H. destruct H as [H1 H2].
    apply eqc_eq in H1. subst b.
    destruct (IH _ H2) as [H|(v & Hv & -> & Hs)].
    + left. cbn [startsWith]. rewrite eqc_refl, H. reflexivity.
    + right. exists v. split; [exact Hv|]. split; [reflexivity|exact Hs].
Qed.

(** An occurrence of [u] at the head of a text that continues with [q] ends
    before [q]. *)
Lemma startsWith_separated (u q x r : str) :
  separates u q -> startsWith u (x ++ q ++ r) = true -> startsWith u x = true.
Proof.
  intros (S1 & _ & S3 & _) H.
  destruct (startsWith_split _ _ _ H) as [Hx|(v & Hv & -> & Hs)]; [exact Hx|].
  destruct (startsWith_split _ _ _ Hs) as [Hq|(w & _ & -> & _)].
  - rewrite (S1 x v eq_refl Hv) in Hq. discriminate.
  - destruct (absent_occurrence q x w S3).
Qed.

(** [u] cannot occur across a separating text. *)
Lemma absent_separated (u q A B : str) :
  u <> [] -> q <> [] -> separates u q ->
  absent u A -> absent u B -> absent u (A ++ q ++ B).
Proof.
  intros Hu Hq Hsep HA HB.
  assert (HqB : forall q' p', q = p' ++ q' -> absent u (q' ++ B)).
  { induction q' as [|c q' IH]; intros p' Hp; [exact HB|].
    cbn [app]. apply absent_cons. split.
    - apply not_true_iff_false. intros E.
      change (startsWith u ((c :: q') ++ B) = true) in E.
      destruct Hsep as (_ & S2 & _ & S4).
      destruct (startsWith_split _ _ _ E) as [Hin|(v & _ & Hv & _)].
      + apply startsWith_spec in Hin. rewrite Hin in Hp. rewrite Hp in S4.
        destruct (absent_occurrence _ _ _ S4).
      + assert (Hs : startsWith (c :: q') u = true)
          by (rewrite Hv; apply startsWith_app).
        rewrite (S2 p' (c :: q') Hp) in Hs by discriminate. discriminate.
    - apply (IH (p' ++ [c])). rewrite <- app_assoc. exact Hp. }
  induction A as [|a A IH]; [apply (HqB q []); reflexivity|].
  apply absent_cons in HA. destruct HA as [H1 H2].
  cbn [app]. apply absent_cons. split; [|apply IH; exact H2].
  apply not_true_iff_false. intros E.
  change (startsWith u ((a :: A) ++ q ++ B) = true) in E.
  apply (startsWith_separated u q (a :: A) B Hsep) in E. congruence.
Qed.

Section KeepAbsent.

Variables (u q : str).
Hypothesis u_nonempty : u <> [].
Hypothesis q_nonempty : q <> [].
Hypothesis u_q_separate : separates u q.

Variable matchAt : str -> option Replace.Match.
Variable subst : Replace.Match -> str -> str -> str -> str.

(** Every replacement is [q] between a prefix and a suffix of the text it
    replaces. *)
Hypothesis replacement_form : forall s m before after,
  matchAt s = Some m ->
  exists a mid b,
    firstn (Replace.mlen m) s = a ++ mid ++ b
    /\ subst m (firstn (Replace.mlen m) s) before after = a ++ q ++ b.

(** A global replacement does not bring [u] into a text that lacks it. *)
Lemma gsubFrom_keeps_absent (s : str) : forall k x pre,
  absent u (x ++ skipn k s) ->
  absent u (x ++ Replace.gsubFrom matchAt subst k pre s).
Proof.
  induction s as [|c s IH]; intros k x pre H.
  - rewrite skipn_nil in H. cbn [Replace.gsubFrom]. destruct k; [|exact H].
    destruct (matchAt []) as [m|] eqn:Em; [|exact H].
    destruct (replacement_form [] m (rev pre) [] Em) as (a & mid & b & Hf & Hs).
    rewrite firstn_nil in Hf, Hs. symmetry in Hf.
    apply app_eq_nil in Hf. destruct Hf as [-> Hf].
    apply app_eq_nil in Hf. destruct Hf as [-> ->].
    rewrite Hs. cbn [app]. rewrite app_nil_r in *.
    rewrite <- (app_nil_r q). apply absent_separated; try assumption.
    apply absent_nil. exact u_nonempty.
  - cbn [Replace.gsubFrom]. destruct k as [|k]; [|apply IH; exact H].
    cbn [skipn] in H.
    destruct (matchAt (c :: s)) as [m|] eqn:Em.
    + destruct (replacement_form (c :: s) m (rev pre)
                  (skipn (Replace.mlen m) (c :: s)) Em) as (a & mid & b & Hf & Hs).
      assert (Hsplit : c :: s = a ++ mid ++ b ++ skipn (Replace.mlen m) (c :: s)).
      { rewrite <- (firstn_skipn (Replace.mlen m) (c :: s)) at 1.
        rewrite Hf, <- !app_assoc. reflexivity. }
      assert (Hpre : absent u (x ++ a)).
      { apply (absent_prefix u (x ++ a) (mid ++ b ++ skipn (Replace.mlen m) (c :: s)));
          [exact u_nonempty|].
        rewrite <- app_assoc, <- Hsplit. exact H. }
      assert (Hpost : absent u (b ++ skipn (Replace.mlen m) (c :: s))).
      { apply (absent_suffix u (x ++ a ++ mid)).
        rewrite <- !app_assoc, <- Hsplit. exact H. }
      destruct (Replace.mlen m) as [|L] eqn:El.
      * cbn [firstn skipn] in Hf, Hs. symmetry in Hf.
        apply app_eq_nil in Hf. destruct Hf as [-> Hf].
        apply app_eq_nil in Hf. destruct Hf as [-> ->].
        rewrite Hs. cbn [app]. rewrite app_nil_r.
        rewrite app_nil_r in Hpre. cbn [skipn app] in Hpost.
        apply absent_separated; try assumption.
        apply (IH 0 [c] (c :: pre)). cbn [skipn app]. exact Hpost.
      * rewrite Hs. rewrite <- !app_assoc. rewrite (app_assoc x a).
        apply absent_separated; try assumption.
        apply (IH L b (c :: pre)). cbn [skipn] in Hpost. exact Hpost.
    + replace (x ++ c :: Replace.gsubFrom matchAt subst 0 (c :: pre) s)
        with ((x ++ [c]) ++ Replace.gsubFrom matchAt subst 0 (c :: pre) s)
        by (rewrite <- app_assoc; reflexivity).
      apply IH. cbn [skipn]. rewrite <- app_assoc. exact H.
Qed.

Lemma gsub_keeps_absent (s : str) :
  absent u s -> absent u (Replace.gsub matchAt subst s).
Proof. intros H. apply (gsubFrom_keeps_absent s 0 [] []). exact H. Qed.

End KeepAbsent.

Section RemoveLiteral.

Variables (u q : str).
Hypothesis u_nonempty : u <> [].
Hypothesis q_nonempty : q <> [].
Hypothesis u_q_separate : separates u q.

Variable subst : Replace.Match -> str -> str -> str -> str.
Hypothesis subst_q : forall m a b c, subst m a b c = q.

Lemma literalAt_nil : Replace.literalAt u [] = None.
Proof. unfold Replace.literalAt. rewrite startsWith_nil by exact u_nonempty. reflexivity. Qed.

(** An occurrence of [u] at the head of a text followed by the rewritten
    rest was there before the rewriting. *)
Lemma gsubFrom_literal_head (s : str) : forall k x pre,
  startsWith u (x ++ Replace.gsubFrom (Replace.literalAt u) subst k pre s) = true ->
  startsWith u (x ++ skipn k s) = true.
Proof.
  induction s as [|c s IH]; intros k x pre H.
  - rewrite skipn_nil. cbn [Replace.gsubFrom] in H. rewrite literalAt_nil in H.
    destruct k; exact H.
  - cbn [Replace.gsubFrom] in H. destruct k as [|k]; [|apply (IH _ _ _ H)].
    cbn [skipn]. unfold Replace.literalAt in H.
    destruct (startsWith u (c :: s)) eqn:E.
    + cbn [Replace.mlen] in H.
      destruct (length u) eqn:El; [destruct u; [contradiction|discriminate]|].
      rewrite subst_q in H. apply startsWith_extend.
      apply (startsWith_separated u q x _ u_q_separate H).
    + replace (x ++ c :: Replace.gsubFrom
                 (fun s0 => if startsWith u s0
                            then Some {| Replace.mlen := length u; Replace.mcaps := [] |}
                            else None) subst 0 (c :: pre) s)
        with ((x ++ [c]) ++ Replace.gsubFrom (Replace.literalAt u) subst 0 (c :: pre) s) in H
        by (rewrite <- app_assoc; reflexivity).
      apply IH in H. rewrite skipn_O in H. rewrite <- app_assoc in H. exact H.
Qed.

(** Replacing every occurrence of [u] by [q] leaves no occurrence of [u]. *)
Lemma gsubFrom_literal_removes (s : str) : forall k pre,
  absent u (Replace.gsubFrom (Replace.literalAt u) subst k pre s).
Proof.
  induction s as [|c s IH]; intros k pre.
  - cbn [Replace.gsubFrom]. rewrite literalAt_nil.
    destruct k; apply absent_nil; exact u_nonempty.
  - cbn [Replace.gsubFrom]. destruct k as [|k]; [|apply IH].
    destruct (Replace.literalAt u (c :: s)) as [m|] eqn:Em.
    + unfold Replace.literalAt in Em.
      destruct (startsWith u (c :: s)); [|discriminate].
      inversion Em; subst m. cbn [Replace.mlen].
      destruct (length u) eqn:El; [destruct u; [contradiction|discriminate]|].
      rewrite subst_q.
      apply (absent_separated u q [] _); try assumption.
      * apply absent_nil. exact u_nonempty.
      * apply IH.
    + apply absent_cons. split; [|apply IH].
      apply not_true_iff_false. intros E.
      apply (gsubFrom_literal_head s 0 [c] (c :: pre)) in E.
      rewrite skipn_O in E. cbn [app] in E.
      unfold Replace.literalAt in Em. rewrite E in Em. discriminate.
Qed.

End RemoveLiteral.

(** *** The templates of the link and image rewriting *)

Lemma expand_link_template (label matched before after q : str) :
  noDollar q ->
  Replace.expand [label] matched before after (lit "[$1](" ++ q ++ lit ")")
  = (lit "[" ++ label ++ lit "](") ++ q ++ lit ")".
Proof.
  intros Hq.
  change (lit "[$1](") with [ch "["; ch "$"; ch "1"; ch "]"; ch "("].
  change (lit "[") with [ch "["]. change (lit "](") with [ch "]"; ch "("].
  cbn [app Replace.expand].
  change (eqc (ch "[") (ch "$")) with false.
  change (eqc (ch "$") (ch "$")) with true.
  change (eqc (ch "1") (ch "$")) with false.
  change (eqc (ch "1") (ch "&")) with false.
  change (eqc (ch "1") (ch "`")) with false.
  change (eqc (ch "1") (ch "'")) with false.
  change (isDigit (ch "1")) with true.
  change (isDigit (ch "]")) with false.
  change (Replace.digitVal (ch "1")) with 1.
  cbn [length Nat.leb andb Replace.capture Nat.sub nth].
  change (eqc (ch "]") (ch "$")) with false.
  change (eqc (ch "(") (ch "$")) with false.
  cbn iota. rewrite expand_literal.
  - rewrite <- !app_assoc. reflexivity.
  - apply Forall_app. split; [exact Hq|]. repeat constructor. discriminate.
Qed.

Lemma expand_image_template (label matched before after q : str) :
  noDollar q ->
  Replace.expand [label] matched before after (lit "![$1](" ++ q ++ lit ")")
  = (lit "![" ++ label ++ lit "](") ++ q ++ lit ")".
Proof.
  intros Hq.
  change (lit "![$1](") with (ch "!" :: (lit "[$1](")).
  change (lit "![") with (ch "!" :: lit "[").
  cbn [app Replace.expand].
  change (eqc (ch "!") (ch "$")) with false. cbn iota.
  rewrite expand_link_template by exact Hq. reflexivity.
Qed.

(** *** The three patterns replace a text by the path between its ends *)

Lemma skipn_takeWhile (f : char -> bool) (s : str) :
  skipn (length (takeWhile f s)) s = dropWhile f s.
Proof.
  induction s as [|c s IH]; [reflexivity|]. simpl.
  destruct (f c); [exact IH|reflexivity].
Qed.

Lemma firstn_exact (n : nat) (P tail : str) :
  n = length P -> firstn n (P ++ tail) = P.
Proof. intros ->. apply take_app_length. Qed.

Lemma literal_form (g q : str) :
  noDollar q ->
  forall s m before after,
    Replace.literalAt g s = Some m ->
    exists a mid b,
      firstn (Replace.mlen m) s = a ++ mid ++ b
      /\ Replace.byTemplate q m (firstn (Replace.mlen m) s) before after = a ++ q ++ b.
Proof.
  intros Hq s m before after _. exists [], (firstn (Replace.mlen m) s), [].
  split; [rewrite app_nil_r; reflexivity|].
  unfold Replace.byTemplate. rewrite expand_literal by exact Hq.
  rewrite app_nil_r. reflexivity.
Qed.

Lemma link_form (g q : str) :
  noDollar q ->
  forall s m before after,
    Files.linkAt g s = Some m ->
    exists a mid b,
      firstn (Replace.mlen m) s = a ++ mid ++ b
      /\ Replace.byTemplate (lit "[$1](" ++ q ++ lit ")") m
           (firstn (Replace.mlen m) s) before after = a ++ q ++ b.
Proof.
  intros Hq s m before after H. unfold Files.linkAt in H.
  destruct s as [|c rest]; [discriminate|].
  destruct (eqc c (ch "[")) eqn:Ec; [|discriminate]. apply eqc_eq in Ec. subst c.
  pose proof (skipn_takeWhile (fun x => negb (eqc x (ch "]"))) rest) as Hskip.
  pose proof (dropWhile_takeWhile (fun x => negb (eqc x (ch "]"))) rest) as Hrest.
  destruct (takeWhile (fun x => negb (eqc x (ch "]"))) rest) as [|l0 label] eqn:El;
    [discriminate|].
  destruct (startsWith (lit "](" ++ g ++ lit ")") (skipn (length (l0 :: label)) rest))
    eqn:Es; [|discriminate].
  inversion H; subst m. cbn [Replace.mlen Replace.mcaps]. clear H.
  apply startsWith_spec in Es. rewrite Hskip in Es.
  exists (lit "[" ++ (l0 :: label) ++ lit "]("), g, (lit ")").
  split.
  - rewrite Hrest, Es.
    set (T := skipn _ (dropWhile _ rest)).
    replace (ch "[" :: (l0 :: label) ++ (lit "](" ++ g ++ lit ")") ++ T)
      with (((lit "[" ++ (l0 :: label) ++ lit "](") ++ g ++ lit ")") ++ T)
      by (change (lit "[") with [ch "["]; rewrite <- !app_assoc; reflexivity).
    apply firstn_exact. rewrite !length_app.
    change (length (lit "[")) with 1. change (length (lit "](")) with 2.
    change (length (lit ")")) with 1. cbn [length]. lia.
  - unfold Replace.byTemplate. cbn [Replace.mcaps].
    apply expand_link_template. exact Hq.
Qed.

Lemma image_form (g q : str) :
  noDollar q ->
  forall s m before after,
    Files.imageAt g s = Some m ->
    exists a mid b,
      firstn (Replace.mlen m) s = a ++ mid ++ b
      /\ Replace.byTemplate (lit "![$1](" ++ q ++ lit ")") m
           (firstn (Replace.mlen m) s) before after = a ++ q ++ b.
Proof.
  intros Hq s m before after H. unfold Files.imageAt in H.
  destruct s as [|c [|d rest]]; try discriminate.
  destruct (eqc c (ch "!")) eqn:Ec; [|discriminate]. apply eqc_eq in Ec. subst c.
  destruct (eqc d (ch "[")) eqn:Ed; [|discriminate]. apply eqc_eq in Ed. subst d.
  cbn [andb] in H. cbv zeta in H.
  pose proof (skipn_takeWhile (fun x => negb (eqc x (ch "]"))) rest) as Hskip.
  pose proof (dropWhile_takeWhile (fun x => negb (eqc x (ch "]"))) rest) as Hrest.
  set (label := takeWhile (fun x => negb (eqc x (ch "]"))) rest) in *.
  destruct (startsWith (lit "](" ++ g ++ lit ")") (skipn (length label) rest))
    eqn:Es; [|discriminate].
  inversion H; subst m. cbn [Replace.mlen Replace.mcaps]. clear H.
  apply startsWith_spec in Es. rewrite Hskip in Es.
  exists (lit "![" ++ label ++ lit "]("), g, (lit ")").
  split.
  - rewrite Hrest, Es.
    set (T := skipn _ (dropWhile _ rest)).
    replace (ch "!" :: ch "[" :: label ++ (lit "](" ++ g ++ lit ")") ++ T)
      with (((lit "![" ++ label ++ lit "](") ++ g ++ lit ")") ++ T)
      by (change (lit "![") with [ch "!"; ch "["]; rewrite <- !app_assoc; reflexivity).
    apply firstn_exact. rewrite !length_app.
    change (length (lit "![")) with 2. change (length (lit "](")) with 2.
    change (length (lit ")")) with 1. lia.
  - unfold Replace.byTemplate. cbn [Replace.mcaps].
    apply expand_image_template. exact Hq.
Qed.

(** *** The rewriting of a message *)

(** A relative path that can stand for [url]: without [$] (which
    [String.prototype.replace] would expand), and such that neither of the
    path and the URL occurs in the other or overlaps it at an end. *)
Definition pathFits (url relativePath : str) : bool :=
  forallb (fun c => negb (eqc c (ch "$"))) relativePath
  && overlapFree url relativePath.

(** Every downloaded file of [files] has a path that fits [url]. *)
Definition fits (fileMap : gmap str Files.FileInfo) (baseDirectory url : str)
    (files : list FileRef) : bool :=
  forallb (fun g => match Files.usablePath fileMap baseDirectory g with
                    | Some relativePath => pathFits url relativePath
                    | None => true
                    end) files.

(** No file of [files] was downloaded. *)
Definition noneUsable (fileMap : gmap str Files.FileInfo) (baseDirectory : str)
    (files : list FileRef) : bool :=
  forallb (fun g => match Files.usablePath fileMap baseDirectory g with
                    | Some _ => false
                    | None => true
                    end) files.

Lemma absent_nonempty (u s : str) : absent u s -> u <> [].
Proof. intros H ->. unfold absent in H. destruct s; discriminate. Qed.

Lemma pathFits_spec (url relativePath : str) :
  pathFits url relativePath = true ->
  relativePath <> [] /\ noDollar relativePath /\ separates url relativePath.
Proof.
  unfold pathFits. intros H. apply andb_true_iff in H. destruct H as [H1 H2].
  apply overlapFree_separates in H2.
  split; [apply (absent_nonempty _ url), H2|].
  split; [|exact H2].
  rewrite forallb_forall in H1. apply List.Forall_forall. intros c Hc.
  specialize (H1 c Hc). apply negb_true_iff, eqc_neq in H1. exact H1.
Qed.

Section Rewriting.

Variable fileMap : gmap str Files.FileInfo.
Variable baseDirectory : str.
Variable u : str.
Hypothesis u_nonempty : u <> [].

Lemma rewriteForFile_keeps (c : str) (g : FileRef) :
  fits fileMap baseDirectory u [g] = true ->
  absent u c -> absent u (Files.rewriteForFile fileMap baseDirectory c g).
Proof.
  unfold fits, Files.rewriteForFile. cbn [forallb]. rewrite andb_true_r.
  destruct (Files.usablePath fileMap baseDirectory g) as [q|]; [|trivial].
  intros Hfit Hc. apply pathFits_spec in Hfit. destruct Hfit as (Hq & Hd & Hdis).
  assert (H1 : absent u (Replace.gsub (Replace.literalAt (f_url g))
                           (Replace.byTemplate q) c)).
  { apply (gsub_keeps_absent u q); try assumption. apply literal_form. exact Hd. }
  assert (H2 : absent u (Replace.gsub (Files.linkAt (f_url g))
                           (Replace.byTemplate (lit "[$1](" ++ q ++ lit ")"))
                           (Replace.gsub (Replace.literalAt (f_url g))
                              (Replace.byTemplate q) c))).
  { apply (gsub_keeps_absent u q); try assumption. apply link_form. exact Hd. }
  cbv zeta. destruct (f_image g); [|exact H2].
  apply (gsub_keeps_absent u q); try assumption. apply image_form. exact Hd.
Qed.

Lemma rewriteReplyForFile_keeps (c : str) (g : FileRef) :
  fits fileMap baseDirectory u [g] = true ->
  absent u c -> absent u (Files.rewriteReplyForFile fileMap baseDirectory c g).
Proof.
  unfold fits, Files.rewriteReplyForFile. cbn [forallb]. rewrite andb_true_r.
  destruct (Files.usablePath fileMap baseDirectory g) as [q|]; [|trivial].
  intros Hfit Hc. apply pathFits_spec in Hfit. destruct Hfit as (Hq & Hd & Hdis).
  apply (gsub_keeps_absent u q); try assumption. apply literal_form. exact Hd.
Qed.

Lemma literal_removed (q c : str) :
  pathFits u q = true ->
  absent u (Replace.gsub (Replace.literalAt u) (Replace.byTemplate q) c).
Proof.
  intros Hfit. apply pathFits_spec in Hfit. destruct Hfit as (Hq & Hd & Hdis).
  apply (gsubFrom_literal_removes u q); try assumption.
  intros m a b c0. unfold Replace.byTemplate. apply expand_literal. exact Hd.
Qed.

Lemma fits_cons (g : FileRef) (files : list FileRef) :
  fits fileMap baseDirectory u (g :: files) = true ->
  fits fileMap baseDirectory u [g] = true /\ fits fileMap baseDirectory u files = true.
Proof.
  unfold fits. cbn [forallb]. rewrite andb_true_r. apply andb_true_iff.
Qed.

Lemma fits_app (l1 l2 : list FileRef) :
  fits fileMap baseDirectory u (l1 ++ l2) = true ->
  fits fileMap baseDirectory u l1 = true /\ fits fileMap baseDirectory u l2 = true.
Proof. unfold fits. rewrite forallb_app. apply andb_true_iff. Qed.

(** Once the URL is gone, the files that follow do not bring it back. *)
Lemma fold_keeps (step : str -> FileRef -> str) (files : list FileRef) :
  (forall c g, fits fileMap baseDirectory u [g] = true ->
               absent u c -> absent u (step c g)) ->
  fits fileMap baseDirectory u files = true ->
  forall c, absent u c -> absent u (fold_left step files c).
Proof.
  intros Hstep. induction files as [|g files IH]; intros Hfits c Hc; [exact Hc|].
  apply fits_cons in Hfits. destruct Hfits as [Hg Hrest].
  cbn [fold_left]. apply IH; [exact Hrest|]. apply Hstep; assumption.
Qed.

(** The step of a file whose URL is [u] removes [u]; the steps before it
    do not matter. *)
Lemma fold_removes (step : str -> FileRef -> str) (files : list FileRef)
    (file : FileRef) :
  (forall c g, fits fileMap baseDirectory u [g] = true ->
               absent u c -> absent u (step c g)) ->
  (forall c, fits fileMap baseDirectory u [file] = true -> absent u (step c file)) ->
  In file files ->
  fits fileMap baseDirectory u files = true ->
  forall c, absent u (fold_left step files c).
Proof.
  intros Hkeep Hremove Hin Hfits c.
  apply in_split in Hin. destruct Hin as (l1 & l2 & ->).
  apply fits_app in Hfits. destruct Hfits as [_ Hfits].
  apply fits_cons in Hfits. destruct Hfits as [Hfile Hl2].
  rewrite fold_left_app. cbn [fold_left].
  apply fold_keeps; [exact Hkeep|exact Hl2|]. apply Hremove. exact Hfile.
Qed.

End Rewriting.

Lemma rewriteForFile_removes fileMap baseDirectory (c : str) (file : FileRef) :
  f_url file <> [] ->
  Files.usablePath fileMap baseDirectory file <> None ->
  fits fileMap baseDirectory (f_url file) [file] = true ->
  absent (f_url file) (Files.rewriteForFile fileMap baseDirectory c file).
Proof.
  intros Hu Hsome. unfold fits, Files.rewriteForFile. cbn [forallb].
  rewrite andb_true_r.
  destruct (Files.usablePath fileMap baseDirectory file) as [q|]; [|contradiction].
  intros Hfit. pose proof (literal_removed _ Hu q c Hfit) as H1.
  apply pathFits_spec in Hfit. destruct Hfit as (Hq & Hd & Hdis).
  assert (H2 : absent (f_url file)
                 (Replace.gsub (Files.linkAt (f_url file))
                    (Replace.byTemplate (lit "[$1](" ++ q ++ lit ")"))
                    (Replace.gsub (Replace.literalAt (f_url file))
                       (Replace.byTemplate q) c))).
  { apply (gsub_keeps_absent (f_url file) q); try assumption.
    apply link_form. exact Hd. }
  cbv zeta. destruct (f_image file); [|exact H2].
  apply (gsub_keeps_absent (f_url file) q); try assumption.
  apply image_form. exact Hd.
Qed.

Lemma rewriteReplyForFile_removes fileMap baseDirectory (c : str) (file : FileRef) :
  f_url file <> [] ->
  Files.usablePath fileMap baseDirectory file <> None ->
  fits fileMap baseDirectory (f_url file) [file] = true ->
  absent (f_url file) (Files.rewriteReplyForFile fileMap baseDirectory c file).
Proof.
  intros Hu Hsome. unfold fits, Files.rewriteReplyForFile. cbn [forallb].
  rewrite andb_true_r.
  destruct (Files.usablePath fileMap baseDirectory file) as [q|]; [|contradiction].
  intros Hfit. apply literal_removed; assumption.
Qed.

Lemma fold_noneUsable fileMap baseDirectory (step : str -> FileRef -> str)
    (files : list FileRef) :
  (forall c g, Files.usablePath fileMap baseDirectory g = None -> step c g = c) ->
  noneUsable fileMap baseDirectory files = true ->
  forall c, fold_left step files c = c.
Proof.
  intros Hstep. unfold noneUsable.
  induction files as [|g files IH]; intros H c; [reflexivity|].
  cbn [forallb] in H. apply andb_true_iff in H. destruct H as [Hg Hrest].
  cbn [fold_left].
  destruct (Files.usablePath fileMap baseDirectory g) eqn:E; [discriminate|].
  rewrite (Hstep c g E). apply IH. exact Hrest.
Qed.

Lemma rewriteForFile_unusable fileMap baseDirectory (c : str) (g : FileRef) :
  Files.usablePath fileMap baseDirectory g = None ->
  Files.rewriteForFile fileMap baseDirectory c g = c.
Proof. unfold Files.rewriteForFile. intros ->. reflexivity. Qed.

Lemma rewriteReplyForFile_unusable fileMap baseDirectory (c : str) (g : FileRef) :
  Files.usablePath fileMap baseDirectory g = None ->
  Files.rewriteReplyForFile fileMap baseDirectory c g = c.
Proof. unfold Files.rewriteReplyForFile. intros ->. reflexivity. Qed.

(** An entry that is missing, error-flagged or without a local path is not
    usable. *)
Lemma usablePath_error fileMap baseDirectory (g : FileRef) (info : Files.FileInfo) :
  fileMap !! f_url g = Some info -> Files.error info = true ->
  Files.usablePath fileMap baseDirectory g = None.
Proof.
  unfold Files.usablePath. intros -> ->. destruct (Files.localPath info); reflexivity.
Qed.


(** A message with an image and a document, both downloaded. *)
Definition url_cat : str := lit "https://files.slack.com/files-pri/T1-F1/cat.png".
Definition url_notes : str := lit "https://files.slack.com/files-pri/T1-F2/notes.pdf".

Definition file_cat : FileRef :=
  {| f_id := Some (lit "F1"); f_name := lit "cat.png"; f_url := url_cat;
     f_mimetype := lit "image/png"; f_image := true; f_embedded := false |}.

Definition file_notes : FileRef :=
  {| f_id := Some (lit "F2"); f_name := lit "notes.pdf"; f_url := url_notes;
     f_mimetype := lit "application/pdf"; f_image := false; f_embedded := false |}.

Definition message_files : EnrichedMessage :=
  {| sender := lit "bob";
     content := lit "see ![cat.png](" ++ url_cat ++ lit "), [notes.pdf]("
                  ++ url_notes ++ lit ") (application/pdf)";
     timestamp := lit "1700000000.000100";
     threadReplies := [{| rp_sender := lit "amy";
                          rp_content := lit "again: " ++ url_notes;
                          rp_timestamp := lit "1700000001.000100";
                          rp_messageFiles := [file_notes] |}];
     messageFiles := [file_cat; file_notes] |}.

Definition download_ok (file : FileRef) (attempt : nat)
    : Settled (option Files.DownloadResponse) :=
  Resolved (Some {| Files.dr_success := true; Files.dr_error := None |}).

(** The download map the export builds for these files in channel
    [random]. *)
Definition fileMap_random : gmap str Files.FileInfo :=
  Files.downloadFiles download_ok 1700000000000 [file_cat; file_notes]
    (lit "random") config_plain (lit "run").

(** A file whose name holds the replacement pattern [$&]. *)
Definition file_dollar : FileRef :=
  {| f_id := Some (lit "F3"); f_name := lit "$&.png"; f_url := url_cat;
     f_mimetype := lit "image/png"; f_image := true; f_embedded := false |}.

Definition message_dollar : EnrichedMessage :=
  {| sender := lit "bob";
     content := lit "![$&.png](" ++ url_cat ++ lit ")";
     timestamp := lit "1700000000.000100";
     threadReplies := [];
     messageFiles := [file_dollar] |}.

Definition fileMap_dollar : gmap str Files.FileInfo :=
  Files.downloadFiles download_ok 1700000000000 [file_dollar]
    (lit "random") config_plain (lit "run").

(** A preview whose URL extends the URL of the image, and whose download
    fails. *)
Definition url_preview : str := url_cat ++ lit "?thumb=1".

Definition file_preview : FileRef :=
  {| f_id := Some (lit "F4"); f_name := lit "preview.png"; f_url := url_preview;
     f_mimetype := lit "image/png"; f_image := true; f_embedded := false |}.

Definition message_preview : EnrichedMessage :=
  {| sender := lit "bob";
     content := lit "[preview](" ++ url_preview ++ lit ") [cat.png](" ++ url_cat ++ lit ")";
     timestamp := lit "1700000000.000100";
     threadReplies := [];
     messageFiles := [file_preview; file_cat] |}.

Definition download_preview_fails (file : FileRef) (attempt : nat)
    : Settled (option Files.DownloadResponse) :=
  if eqs (f_url file) url_preview then Rejected (lit "HTTP 404")
  else Resolved (Some {| Files.dr_success := true; Files.dr_error := None |}).

Definition fileMap_preview : gmap str Files.FileInfo :=
  Files.downloadFiles download_preview_fails 1700000000000 [file_preview; file_cat]
    (lit "random") config_plain (lit "run").

Example updateFileReferences_example :
  map content
    (Files.updateFileReferencesInMessages [message_files] fileMap_random
       (lit "slack-exports"))
  = [lit "see ![cat.png](random_files/run-0001-cat.png), [notes.pdf](random_files/run-0002-notes.pdf) (application/pdf)"].
Proof. vm_compute. reflexivity. Qed.



(** * Further properties of the code *)

(** ** Senders *)

Lemma truthy_nonempty (o : option str) (s : str) :
  Pipeline.truthy o = Some s -> s <> [].
Proof.
  destruct o as [[|c r]|]; cbn; intros H; inversion H; discriminate.
Qed.

Lemma nameOf_nonempty (userMap : gmap str str) (id : option str) :
  Pipeline.nameOf userMap id <> [].
Proof.
  unfold Pipeline.nameOf. destruct id as [u|]; [|discriminate].
  destruct (Pipeline.truthy (userMap !! u)) as [n|] eqn:E; cbn [default].
  - apply (truthy_nonempty _ _ E).
  - discriminate.
Qed.


(** ** The order of the exported messages *)

Lemma filter_none {A : Type} (f : A -> bool) (l : list A) :
  Forall (fun x => f x = false) l -> List.filter f l = [].
Proof.
  induction 1 as [|x l Hx _ IH]; [reflexivity|]. cbn [List.filter].
  rewrite Hx. exact IH.
Qed.

Section SortByTimestamp.

Variable parseFloat : str -> Z.

Let key (m : EnrichedMessage) : Z := parseFloat (timestamp m).
Let ordered (a b : EnrichedMessage) : Prop := (key a <= key b)%Z.

Lemma insertByTimestamp_perm (m : EnrichedMessage) (sorted : list EnrichedMessage) :
  Permutation (m :: sorted) (Pipeline.insertByTimestamp parseFloat m sorted).
Proof.
  induction sorted as [|x rest IH]; cbn [Pipeline.insertByTimestamp]; [reflexivity|].
  destruct (parseFloat (timestamp m) <? parseFloat (timestamp x))%Z; [reflexivity|].
  rewrite perm_swap. apply perm_skip. exact IH.
Qed.

Lemma insertByTimestamp_sorted (m : EnrichedMessage) (sorted : list EnrichedMessage) :
  StronglySorted ordered sorted ->
  StronglySorted ordered (Pipeline.insertByTimestamp parseFloat m sorted).
Proof.
  induction 1 as [|x rest Hrest IH Hx]; cbn [Pipeline.insertByTimestamp].
  - constructor; constructor.
  - destruct (Z.ltb_spec (parseFloat (timestamp m)) (parseFloat (timestamp x))) as [Hlt|Hge].
    + constructor; [constructor; assumption|].
      constructor; [unfold ordered, key; lia|].
      eapply List.Forall_impl; [|exact Hx].
      intros y Hy. unfold ordered, key in *. lia.
    + constructor; [exact IH|].
      eapply Permutation_Forall; [apply insertByTimestamp_perm|].
      constructor; [unfold ordered, key; lia|exact Hx].
Qed.

(** Inserting into a sorted list puts the message after those of the same
    timestamp. *)
Lemma insertByTimestamp_stable (k : Z) (m : EnrichedMessage)
    (sorted : list EnrichedMessage) :
  StronglySorted ordered sorted ->
  List.filter (fun x => (key x =? k)%Z) (Pipeline.insertByTimestamp parseFloat m sorted)
  = List.filter (fun x => (key x =? k)%Z) sorted
      ++ (if (key m =? k)%Z then [m] else []).
Proof.
  induction 1 as [|x rest Hrest IH Hx]; cbn [Pipeline.insertByTimestamp List.filter app].
  - destruct (key m =? k)%Z; reflexivity.
  - destruct (Z.ltb_spec (parseFloat (timestamp m)) (parseFloat (timestamp x))) as [Hlt|Hge].
    + cbn [List.filter].
      destruct (Z.eqb_spec (key m) k) as [Hm|Hm].
      * assert (Hnone : List.filter (fun y => (key y =? k)%Z) (x :: rest) = []).
        { apply filter_none. constructor.
          - apply Z.eqb_neq. unfold key in *. lia.
          - eapply List.Forall_impl; [|exact Hx].
            intros y Hy. apply Z.eqb_neq. unfold ordered, key in *. lia. }
        cbn [List.filter] in Hnone. rewrite Hnone. reflexivity.
      * rewrite app_nil_r. reflexivity.
    + cbn [List.filter]. rewrite IH.
      destruct (key x =? k)%Z; reflexivity.
Qed.

Lemma sortFold_spec (ms acc : list EnrichedMessage) :
  StronglySorted ordered acc ->
  let out := fold_left (fun sorted m => Pipeline.insertByTimestamp parseFloat m sorted) ms acc in
  StronglySorted ordered out
  /\ Permutation (acc ++ ms) out
  /\ forall k, List.filter (fun x => (key x =? k)%Z) out
               = List.filter (fun x => (key x =? k)%Z) (acc ++ ms).
Proof.
  revert acc. induction ms as [|m ms IH]; intros acc Hacc; cbn [fold_left].
  - rewrite app_nil_r. repeat split; [exact Hacc|reflexivity].
  - destruct (IH _ (insertByTimestamp_sorted m acc Hacc)) as (H1 & H2 & H3).
    split; [exact H1|]. split.
    + rewrite <- H2. rewrite <- insertByTimestamp_perm.
      symmetry. apply Permutation_middle.
    + intros k. rewrite H3. rewrite !List.filter_app.
      rewrite insertByTimestamp_stable by exact Hacc.
      cbn [List.filter]. rewrite <- app_assoc.
      destruct (key m =? k)%Z; reflexivity.
Qed.

End SortByTimestamp.

(** The messages of an export come out in ascending order of their
    timestamps; none is lost or repeated, and messages with the same
    timestamp keep the order in which the history gave them. *)
Theorem sortByTimestamp_sorted_stable (parseFloat : str -> Z) (ms : list EnrichedMessage) :
  let out := Pipeline.sortByTimestamp parseFloat ms in
  StronglySorted (fun a b => (parseFloat (timestamp a) <= parseFloat (timestamp b))%Z) out
  /\ Permutation ms out
  /\ forall k, List.filter (fun m => (parseFloat (timestamp m) =? k)%Z) out
               = List.filter (fun m => (parseFloat (timestamp m) =? k)%Z) ms.
Proof.
  intros out. apply (sortFold_spec parseFloat ms []). constructor.
Qed.

(** ** The batch loop of the popup *)

Definition isExportRequest (e : Popup.Event) : bool :=
  match e with Popup.EvExportChannel _ _ _ => true | _ => false end.

Definition isDownloadRequest (e : Popup.Event) : bool :=
  match e with Popup.EvDownloadFile _ _ _ => true | _ => false end.

(** The conversation id an export request carries is valid. *)
Definition requestsValidId (e : Popup.Event) : Prop :=
  match e with
  | Popup.EvExportChannel id _ _ => Popup.isSlackConversationId id = true
  | _ => True
  end.

Definition sumZ (l : list Z) : Z := fold_right Z.add 0%Z l.

Lemma sumZ_app (a b : list Z) : sumZ (a ++ b) = (sumZ a + sumZ b)%Z.
Proof. induction a as [|x a IH]; cbn; [reflexivity|]. unfold sumZ in *. cbn. lia. Qed.

Section BatchLoop.

Variable config : Popup.Config.
Variable combinedChecked : bool.

Ltac crush_loop :=
  repeat match goal with
    | |- context [match ?x with _ => _ end] => destruct x eqn:?
    end.

(** The retry loop sends the same request each time, at most once per
    unit of fuel, and waits in between. *)
Lemma downloadAttempts_events (fuel : nat) request : forall retry answer lastError,
  let evs := fst (fst (Popup.downloadAttempts fuel retry request answer lastError)) in
  Forall (fun e => e = request \/ exists ms, e = Popup.EvSleep ms) evs
  /\ length (List.filter (fun e => negb (match e with Popup.EvSleep _ => true | _ => false end))
               evs) <= fuel.
Proof.
  induction fuel as [|fuel IH]; intros retry answer lastError; cbn [Popup.downloadAttempts].
  - cbn. split; [constructor|lia].
  - assert (Hdelay : forall rest,
              Forall (fun e => e = request \/ exists ms, e = Popup.EvSleep ms) rest ->
              Forall (fun e => e = request \/ exists ms, e = Popup.EvSleep ms)
                (request :: (if retry <? 2 then [Popup.EvSleep 1000] else []) ++ rest)).
    { intros rest Hrest. constructor; [left; reflexivity|].
      apply Forall_app. split; [|exact Hrest].
      destruct (retry <? 2); [|constructor].
      constructor; [right; eexists; reflexivity|constructor]. }
    assert (Hcount : forall rest,
              length (List.filter
                        (fun e => negb (match e with Popup.EvSleep _ => true | _ => false end))
                        ((if retry <? 2 then [Popup.EvSleep 1000] else []) ++ rest))
              = length (List.filter
                          (fun e => negb (match e with Popup.EvSleep _ => true | _ => false end))
                          rest)).
    { intros rest. destruct (retry <? 2); reflexivity. }
    destruct (answer retry) as [[[[|] e]|]|m].
    + cbn. split; [constructor; [left; reflexivity|constructor]|].
      destruct request; cbn; lia.
    + specialize (IH (S retry) answer
                    (Some match e with Some ((_ :: _) as m) => m | _ => lit "Download failed" end)).
      cbv zeta in IH.
      destruct (Popup.downloadAttempts fuel (S retry) request answer _) as [[evs ok] err].
      cbn [fst] in *. destruct IH as [H1 H2]. split; [apply Hdelay; exact H1|].
      cbn [List.filter]. destruct (negb _); cbn [length]; rewrite Hcount; lia.
    + specialize (IH (S retry) answer (Some (lit "Download failed"))). cbv zeta in IH.
      destruct (Popup.downloadAttempts fuel (S retry) request answer _) as [[evs ok] err].
      cbn [fst] in *. destruct IH as [H1 H2]. split; [apply Hdelay; exact H1|].
      cbn [List.filter]. destruct (negb _); cbn [length]; rewrite Hcount; lia.
    + specialize (IH (S retry) answer (Some m)). cbv zeta in IH.
      destruct (Popup.downloadAttempts fuel (S retry) request answer _) as [[evs ok] err].
      cbn [fst] in *. destruct IH as [H1 H2]. split; [apply Hdelay; exact H1|].
      cbn [List.filter]. destruct (negb _); cbn [length]; rewrite Hcount; lia.
Qed.

End BatchLoop.

Definition countIf (f : Popup.Event -> bool) (evs : list Popup.Event) : nat :=
  length (List.filter f evs).

Lemma countIf_app (f : Popup.Event -> bool) (a b : list Popup.Event) :
  countIf f (a ++ b) = countIf f a + countIf f b.
Proof. unfold countIf. rewrite List.filter_app, length_app. reflexivity. Qed.

Lemma downloadAttempts_download (fuel retry : nat) (f c d : str) answer lastError :
  let evs := fst (fst (Popup.downloadAttempts fuel retry (Popup.EvDownloadFile f c d)
                         answer lastError)) in
  Forall requestsValidId evs
  /\ countIf isExportRequest evs = 0
  /\ countIf isDownloadRequest evs <= fuel.
Proof.
  intros evs.
  destruct (downloadAttempts_events fuel (Popup.EvDownloadFile f c d) retry answer lastError)
    as [Hshape Hcount].
  cbv zeta in Hshape, Hcount. fold evs in Hshape, Hcount.
  clearbody evs. split; [|split].
  - eapply List.Forall_impl; [|exact Hshape].
    intros e [->|[ms ->]]; exact I.
  - unfold countIf. rewrite filter_none; [reflexivity|].
    eapply List.Forall_impl; [|exact Hshape].
    intros e [->|[ms ->]]; reflexivity.
  - unfold countIf. etransitivity; [|exact Hcount].
    clear Hcount. induction Hshape as [|e evs [->|[ms ->]] _ IH]; cbn; lia.
Qed.

Section BatchLoopSteps.

Variable config : Popup.Config.
Variable combinedChecked : bool.

Ltac trace_parts :=
  repeat (apply Forall_app; split);
  repeat (apply List.Forall_cons; [cbn [requestsValidId]; try exact I; try assumption|]);
  try apply List.Forall_nil; try assumption.

Ltac count_parts :=
  rewrite ?countIf_app; cbn [countIf List.filter isExportRequest isDownloadRequest length];
  try lia.

Ltac result_parts :=
  eexists; split; [cbn [Popup.results Popup.pushResult]; reflexivity|];
  cbn [Popup.pushResult Popup.failure Popup.cr_channel
         Popup.cr_count Popup.cr_attachments Popup.completedMessages
         Popup.completedAttachments];
  repeat split; try reflexivity; try lia.

Ltac leaf :=
  cbn [fst snd negb Popup.caught]; split; [trace_parts|];
  split; [count_parts|]; split; [count_parts|result_parts].

(** One iteration: its trace sends at most one export request, to a valid
    conversation only, and at most three download requests; it pushes one
    result for its channel and adds the counts of that result to the
    totals. *)
Lemma exportOne_spec (isLast : bool) channel env st :
  let run := Popup.exportOne config combinedChecked isLast channel env st in
  Forall requestsValidId (fst run)
  /\ countIf isExportRequest (fst run) <= 1
  /\ countIf isDownloadRequest (fst run) <= 3
  /\ exists r,
       Popup.results (snd run) = Popup.results st ++ [r]
       /\ Popup.cr_channel r = Popup.name channel
       /\ Popup.completedMessages (snd run)
          = (Popup.completedMessages st + Popup.cr_count r)%Z
       /\ Popup.completedAttachments (snd run)
          = (Popup.completedAttachments st + Popup.cr_attachments r)%Z.
Proof.
  intros run. unfold run, Popup.exportOne. clear run.
  destruct (negb (Popup.isSlackConversationId (Popup.channelId channel))) eqn:Hid;
    [leaf|].
  rewrite negb_false_iff in Hid.
  assert (Hlimit : Forall requestsValidId (if isLast then [] else [Popup.EvSleep 2500])
                   /\ countIf isExportRequest (if isLast then [] else [Popup.EvSleep 2500]) = 0
                   /\ countIf isDownloadRequest (if isLast then [] else [Popup.EvSleep 2500]) = 0).
  { destruct isLast; repeat split; repeat constructor. }
  destruct Hlimit as (L1 & L2 & L3).
  set (rateLimit := if isLast then [] else [Popup.EvSleep 2500]) in *. clearbody rateLimit.
  destruct (Popup.ce_response env) as [[response|]|m]; [|leaf|leaf].
  destruct (negb (Popup.r_success response)); [leaf|].
  match goal with
  | |- context [Popup.downloadAttempts ?fu ?re (Popup.EvDownloadFile ?f ?c ?d) ?an ?le] =>
      pose proof (downloadAttempts_download fu re f c d an le) as HD;
      cbv zeta in HD;
      destruct (Popup.downloadAttempts fu re (Popup.EvDownloadFile f c d) an le)
        as [[saveEvents saved] downloadError]
  end.
  cbn [fst] in HD. destruct HD as (D1 & D2 & D3).
  destruct (Popup.r_markdownSavedByContent response).
  - cbn iota beta.
    destruct (if combinedChecked && (0 <? default 0 (Popup.r_messageCount response))%Z
              then Popup.r_markdown response else Some []) as [md|]; [|leaf].
    destruct (Popup.ce_saveConfig env); leaf.
  - destruct saved; cbn [negb]; [|leaf].
    destruct (if combinedChecked && (0 <? default 0 (Popup.r_messageCount response))%Z
              then Popup.r_markdown response else Some []) as [md|]; [|leaf].
    destruct (Popup.ce_saveConfig env); leaf.
Qed.

End BatchLoopSteps.

Lemma exportLoop_spec (config : Popup.Config) (combinedChecked : bool)
    (selected : list (Popup.Channel * Popup.ChannelEnv)) : forall st,
  let run := Popup.exportLoop config combinedChecked selected st in
  Forall requestsValidId (fst run)
  /\ countIf isExportRequest (fst run) <= length selected
  /\ countIf isDownloadRequest (fst run) <= 3 * length selected
  /\ exists rs,
       Popup.results (snd run) = Popup.results st ++ rs
       /\ map Popup.cr_channel rs = map (fun p => Popup.name (fst p)) selected
       /\ Popup.completedMessages (snd run)
          = (Popup.completedMessages st + sumZ (map Popup.cr_count rs))%Z
       /\ Popup.completedAttachments (snd run)
          = (Popup.completedAttachments st + sumZ (map Popup.cr_attachments rs))%Z.
Proof.
  induction selected as [|[channel env] rest IH]; intros st; cbn [Popup.exportLoop].
  - cbn. repeat split; try constructor; try lia.
    exists []. rewrite app_nil_r. cbn. repeat split; lia.
  - pose proof (exportOne_spec config combinedChecked
                  match rest with [] => true | _ => false end channel env st) as H1.
    cbv zeta in H1.
    destruct (Popup.exportOne _ _ _ channel env st) as [evs st1].
    specialize (IH st1). cbv zeta in IH.
    destruct (Popup.exportLoop config combinedChecked rest st1) as [evs' st2].
    cbn [fst snd] in *.
    destruct H1 as (A1 & A2 & A3 & r & A4 & A5 & A6 & A7).
    destruct IH as (B1 & B2 & B3 & rs & B4 & B5 & B6 & B7).
    split; [apply Forall_app; split; assumption|].
    rewrite !countIf_app. cbn [length].
    split; [lia|]. split; [lia|].
    exists (r :: rs). cbn [map sumZ fold_right].
    split; [rewrite B4, A4, <- app_assoc; reflexivity|].
    split; [rewrite A5, B5; reflexivity|].
    unfold sumZ in *. split; lia.
Qed.

(** A batch records one result for each selected channel, in the order of
    the selection and under the channel's name, and the running totals of
    messages and attachments are the sums over these results. *)
Theorem exportSelected_one_result_per_channel
    (config : Popup.Config) (combinedChecked : bool)
    (selected : list (Popup.Channel * Popup.ChannelEnv))
    (fin : Popup.FinishEnv) (st : Popup.LoopState) :
  selected <> [] ->
  let after := snd (Popup.exportSelected config combinedChecked selected fin st) in
  map Popup.cr_channel (Popup.results after) = map (fun p => Popup.name (fst p)) selected
  /\ Popup.completedMessages after = sumZ (map Popup.cr_count (Popup.results after))
  /\ Popup.completedAttachments after
     = sumZ (map Popup.cr_attachments (Popup.results after)).
Proof.
  intros Hsel after. unfold after, Popup.exportSelected.
  destruct selected as [|p rest]; [contradiction|].
  pose proof (exportLoop_spec config combinedChecked (p :: rest) (Popup.resetBatch st)) as H.
  cbv zeta in H.
  destruct (Popup.exportLoop config combinedChecked (p :: rest) (Popup.resetBatch st))
    as [evs st']. cbn [fst snd] in *.
  destruct H as (_ & _ & _ & rs & H1 & H2 & H3 & H4).
  cbn [Popup.resetBatch Popup.results Popup.completedMessages Popup.completedAttachments app]
    in H1, H3, H4.
  rewrite H1. repeat split; [exact H2|lia|lia].
Qed.

Lemma exportSelected_one_result_per_channel_witness :
  map Popup.cr_channel
    (Popup.results
       (snd (Popup.exportSelected config_default false
               [(channel_general, env_unreachable)]
               {| Popup.fe_localeString := lit "1/2/2024, 3:04:00 AM";
                  Popup.fe_localTime := t_2024 |} loop_start)))
  = [lit "general"].
Proof.
  apply (exportSelected_one_result_per_channel config_default false
           [(channel_general, env_unreachable)]
           {| Popup.fe_localeString := lit "1/2/2024, 3:04:00 AM";
              Popup.fe_localTime := t_2024 |} loop_start).
  discriminate.
Defined.

(** A batch sends an export request to valid conversation ids only, at
    most one for each selected channel, and at most three download requests
    for each channel plus one for the combined file. *)
Theorem exportSelected_requests
    (config : Popup.Config) (combinedChecked : bool)
    (selected : list (Popup.Channel * Popup.ChannelEnv))
    (fin : Popup.FinishEnv) (st : Popup.LoopState) :
  let trace := fst (Popup.exportSelected config combinedChecked selected fin st) in
  Forall requestsValidId trace
  /\ countIf isExportRequest trace <= length selected
  /\ countIf isDownloadRequest trace <= 3 * length selected + 1.
Proof.
  intros trace. unfold trace, Popup.exportSelected. clear trace.
  destruct selected as [|p rest]; [cbn; repeat split; try constructor; lia|].
  pose proof (exportLoop_spec config combinedChecked (p :: rest) (Popup.resetBatch st)) as H.
  cbv zeta in H.
  destruct (Popup.exportLoop config combinedChecked (p :: rest) (Popup.resetBatch st))
    as [evs st']. cbn [fst snd] in *.
  destruct H as (H1 & H2 & H3 & _).
  set (combined := match combinedChecked, Popup.combinedMarkdown st' with
                   | true, _ :: _ => _
                   | _, _ => []
                   end).
  assert (Hc : Forall requestsValidId combined
               /\ countIf isExportRequest combined = 0
               /\ countIf isDownloadRequest combined <= 1).
  { unfold combined. destruct combinedChecked; [|cbn; repeat split; try constructor; lia].
    destruct (Popup.combinedMarkdown st'); cbn; repeat split; repeat constructor. }
  destruct Hc as (C1 & C2 & C3). clearbody combined.
  split.
  - constructor; [exact I|]. apply Forall_app. split; [exact H1|].
    apply Forall_app. split; [exact C1|]. repeat constructor.
  - change (Popup.EvSession (lit "start") None None :: evs ++ combined
              ++ [Popup.EvSession (lit "finish") None None])
      with ([Popup.EvSession (lit "start") None None] ++ evs ++ combined
              ++ [Popup.EvSession (lit "finish") None None]).
    rewrite !countIf_app. cbn [countIf List.filter isExportRequest isDownloadRequest length].
    cbn [length] in H2, H3. split; lia.
Qed.

(** ** The durable batch state *)

Lemma spread_toStored (state : Background.BatchExportState) :
  Background.spread Background.DEFAULT_BATCH_EXPORT_STATE (Background.toStored state) = state.
Proof. destruct state. reflexivity. Qed.

(** Whatever the store does (the read fails, the key is missing or holds a
    partial object, the write-back fails), a state that
    [getBatchExportState] returns as active is not stale: its [updatedAt]
    is missing (zero) or at most 45 seconds before the read. *)
Theorem getBatchExportState_active_is_fresh
    (stored : option (option Background.StoredState)) (nowRead nowWrite : Z) (setOk : bool) :
  let state := fst (Background.getBatchExportState stored nowRead nowWrite setOk) in
  Background.active state = true ->
  Background.updatedAt state = 0%Z
  \/ (nowRead - Background.updatedAt state <= 45000)%Z.
Proof.
  unfold Background.getBatchExportState, Background.BATCH_EXPORT_STATE_STALE_MS.
  destruct stored as [result|]; [|cbn; discriminate].
  set (state := Background.spread _ _).
  destruct (Background.active state) eqn:Ha; cbn [andb].
  - destruct (Z.eqb_spec (Background.updatedAt state) 0) as [Hz|Hz]; cbn [negb andb].
    + intros _. left. exact Hz.
    + destruct (Z.ltb_spec 45000 (nowRead - Background.updatedAt state)).
      * destruct setOk; cbn; discriminate.
      * intros _. right. cbn [fst]. lia.
  - cbn [fst]. congruence.
Qed.

Lemma getBatchExportState_active_is_fresh_witness :
  Background.updatedAt
    (fst (Background.getBatchExportState (Some (Some (stored_active 10000)))
            50000 50000 true)) = 0%Z
  \/ (50000 - Background.updatedAt
                (fst (Background.getBatchExportState (Some (Some (stored_active 10000)))
                        50000 50000 true)) <= 45000)%Z.
Proof.
  apply (getBatchExportState_active_is_fresh (Some (Some (stored_active 10000)))
           50000 50000 true).
  reflexivity.
Defined.

(** Save and read back: a state written by [saveBatchExportState] and read
    within 45 seconds of its time stamp is returned as it was written, and
    the read writes nothing; read later, an active state comes back marked
    stale and inactive. *)
Theorem saveBatchExportState_read_back
    (nextState : Background.StoredState) (now nowRead nowWrite : Z) :
  let saved := Background.saveBatchExportState nextState now in
  let read := Background.getBatchExportState
                (Some (Some (Background.toStored saved))) nowRead nowWrite true in
  Background.updatedAt saved = now
  /\ ((nowRead - now <= 45000)%Z -> read = (saved, None))
  /\ ((45000 < nowRead - now)%Z -> now <> 0%Z -> Background.active saved = true ->
      read = (Background.markStale saved nowWrite, Some (Background.markStale saved nowWrite))).
Proof.
  intros saved read. unfold read, Background.getBatchExportState.
  cbn [default id]. rewrite spread_toStored.
  unfold Background.BATCH_EXPORT_STATE_STALE_MS.
  change (Background.updatedAt saved) with now.
  split; [reflexivity|]. split.
  - intros Hfresh. destruct (Z.ltb_spec 45000 (nowRead - now)); [lia|].
    rewrite andb_false_r. reflexivity.
  - intros Hold Hnow Hactive. rewrite Hactive.
    destruct (Z.eqb_spec now 0); [contradiction|].
    destruct (Z.ltb_spec 45000 (nowRead - now)); [|lia]. reflexivity.
Qed.

Lemma saveBatchExportState_read_back_witness :
  Background.getBatchExportState
    (Some (Some (Background.toStored
                   (Background.saveBatchExportState (stored_active 0) 1700000000000))))
    1700000030000 1700000030000 true
  = (Background.saveBatchExportState (stored_active 0) 1700000000000, None).
Proof.
  apply (saveBatchExportState_read_back (stored_active 0) 1700000000000
           1700000030000 1700000030000).
  lia.
Defined.

(** ** Escaping *)

(** The characters [escapeMarkdown] escapes. *)
Definition isMarkdownSpecial (c : char) : bool :=
  existsb (eqc c) (lit "\*_`~[]()!#|").

Definition escapedMarkdownChar (c : char) : str :=
  if isMarkdownSpecial c then [ch "\"; c] else [c].

Lemma gsub_class_const (f : char -> bool) (t s : str) :
  Replace.gsub (Replace.classAt f) (fun _ _ _ _ => t) s
  = flat_map (fun c => if f c then t else [c]) s.
Proof.
  unfold Replace.gsub.
  assert (H : forall pre,
            Replace.gsubFrom (Replace.classAt f) (fun _ _ _ _ => t) 0 pre s
            = flat_map (fun c => if f c then t else [c]) s); [|apply H].
  induction s as [|c s IH]; intros pre; [reflexivity|].
  cbn [Replace.gsubFrom Replace.classAt flat_map].
  destruct (f c); cbn [Replace.mlen]; rewrite IH; reflexivity.
Qed.

Lemma escapeOne_app (k : ascii) (a b : str) :
  Utils.escapeOne k (a ++ b) = Utils.escapeOne k a ++ Utils.escapeOne k b.
Proof. unfold Utils.escapeOne. rewrite !gsub_class_const. apply List.flat_map_app. Qed.

Lemma escapeOne_other (k : ascii) (c : char) :
  eqc c (ch k) = false -> Utils.escapeOne k [c] = [c].
Proof.
  intros H. unfold Utils.escapeOne. rewrite gsub_class_const. cbn [flat_map].
  replace (eqc (ch k) c) with false; [reflexivity|].
  symmetry. apply eqc_neq. apply eqc_neq in H. congruence.
Qed.

(** The twelve passes of [escapeMarkdown] come to one: every backslash,
    star, underscore, backtick, tilde, bracket, parenthesis, exclamation
    mark, hash and bar gets one backslash in front of it, and no other
    code unit changes; the backslashes the later passes insert are not
    escaped again. *)
Theorem escapeMarkdown_each_char (text : str) :
  Utils.escapeMarkdown text = flat_map escapedMarkdownChar text.
Proof.
  unfold Utils.escapeMarkdown.
  assert (H : forall t,
            Utils.escapeOne "|" (Utils.escapeOne "#" (Utils.escapeOne "!"
              (Utils.escapeOne ")" (Utils.escapeOne "(" (Utils.escapeOne "]"
                (Utils.escapeOne "[" (Utils.escapeOne "~" (Utils.escapeOne "`"
                  (Utils.escapeOne "_" (Utils.escapeOne "*"
                    (Utils.escapeOne "\" t)))))))))))
            = flat_map escapedMarkdownChar t).
  { induction t as [|c t IH]; [reflexivity|].
    change (c :: t) with ([c] ++ t). rewrite !escapeOne_app, IH.
    cbn [flat_map app]. f_equal.
    unfold escapedMarkdownChar, isMarkdownSpecial.
    destruct (existsb (eqc c) (lit "\*_`~[]()!#|")) eqn:E.
    - apply existsb_exists in E. destruct E as (x & Hin & Hx).
      apply eqc_eq in Hx. subst x.
      repeat (destruct Hin as [<-|Hin]; [vm_compute; reflexivity|]).
      destruct Hin.
    - change (lit "\*_`~[]()!#|")
        with [ch "\"; ch "*"; ch "_"; ch "`"; ch "~"; ch "["; ch "]"; ch "("; ch ")";
              ch "!"; ch "#"; ch "|"] in E.
      cbn [existsb] in E. rewrite !orb_false_iff in E.
      destruct E as (E1 & E2 & E3 & E4 & E5 & E6 & E7 & E8 & E9 & E10 & E11 & E12 & _).
      rewrite !escapeOne_other by assumption. reflexivity. }
  destruct text as [|c t]; [reflexivity|]. apply H.
Qed.

(** The entity [escapeHtml] writes for a code unit. *)
Definition htmlEntity (c : char) : str :=
  if eqc c (ch "&") then lit "&amp;"
  else if eqc c (ch "<") then lit "&lt;"
  else if eqc c (ch ">") then lit "&gt;"
  else if eqc c Html.quote then lit "&quot;"
  else if eqc c (ch "'") then lit "&#39;"
  else [c].

Lemma entity_noDollar (t : string) :
  forallb (fun c => negb (eqc c (ch "$"))) (lit t) = true -> noDollar (lit t).
Proof.
  intros H. rewrite forallb_forall in H. apply List.Forall_forall. intros c Hc.
  specialize (H c Hc). apply negb_true_iff, eqc_neq in H. exact H.
Qed.

Lemma classPass_app (f : char -> bool) (t : string) (a b : str) :
  forallb (fun c => negb (eqc c (ch "$"))) (lit t) = true ->
  Replace.gsub (Replace.classAt f) (Replace.byTemplate (lit t)) (a ++ b)
  = Replace.gsub (Replace.classAt f) (Replace.byTemplate (lit t)) a
      ++ Replace.gsub (Replace.classAt f) (Replace.byTemplate (lit t)) b.
Proof.
  intros H. rewrite !gsub_classAt by (apply entity_noDollar; exact H).
  apply List.flat_map_app.
Qed.

Lemma classPass_other (k : char) (t : string) (c : char) :
  forallb (fun c => negb (eqc c (ch "$"))) (lit t) = true ->
  eqc c k = false ->
  Replace.gsub (Replace.classAt (eqc k)) (Replace.byTemplate (lit t)) [c] = [c].
Proof.
  intros H Hc. rewrite gsub_classAt by (apply entity_noDollar; exact H).
  cbn [flat_map]. replace (eqc k c) with false; [reflexivity|].
  symmetry. apply eqc_neq. apply eqc_neq in Hc. congruence.
Qed.

Lemma escapeHtml_flat_map (text : str) :
  Html.escapeHtml text = flat_map htmlEntity text.
Proof.
  unfold Html.escapeHtml. cbv zeta.
  induction text as [|c t IH]; [reflexivity|].
  change (c :: t) with ([c] ++ t).
  rewrite !classPass_app, IH by reflexivity.
  cbn [flat_map app]. f_equal. unfold htmlEntity.
  destruct (eqc c (ch "&")) eqn:E1;
    [apply eqc_eq in E1; subst c; vm_compute; reflexivity|].
  destruct (eqc c (ch "<")) eqn:E2;
    [apply eqc_eq in E2; subst c; vm_compute; reflexivity|].
  destruct (eqc c (ch ">")) eqn:E3;
    [apply eqc_eq in E3; subst c; vm_compute; reflexivity|].
  destruct (eqc c Html.quote) eqn:E4;
    [apply eqc_eq in E4; subst c; vm_compute; reflexivity|].
  destruct (eqc c (ch "'")) eqn:E5;
    [apply eqc_eq in E5; subst c; vm_compute; reflexivity|].
  rewrite !classPass_other by (reflexivity || assumption). reflexivity.
Qed.

(** The five passes of [escapeHtml] come to one: an ampersand, an angle
    bracket, a double quote or an apostrophe becomes its entity and every
    other code unit stays; the ampersands of the entities are not escaped
    again. The result holds no angle bracket, double quote or apostrophe. *)
Theorem escapeHtml_each_char (text : str) :
  Html.escapeHtml text = flat_map htmlEntity text
  /\ Forall (fun c => c <> ch "<" /\ c <> ch ">" /\ c <> Html.quote /\ c <> ch "'")
       (Html.escapeHtml text).
Proof.
  split; [apply escapeHtml_flat_map|]. rewrite escapeHtml_flat_map.
  induction text as [|c t IH]; [constructor|].
  cbn [flat_map]. apply Forall_app. split; [|exact IH].
  unfold htmlEntity.
  destruct (eqc c (ch "&")); [repeat constructor; discriminate|].
  destruct (eqc c (ch "<")) eqn:E2; [repeat constructor; discriminate|].
  destruct (eqc c (ch ">")) eqn:E3; [repeat constructor; discriminate|].
  destruct (eqc c Html.quote) eqn:E4; [repeat constructor; discriminate|].
  destruct (eqc c (ch "'")) eqn:E5; [repeat constructor; discriminate|].
  apply eqc_neq in E2, E3, E4, E5. repeat constructor; assumption.
Qed.

(** ** The date stamp of file names *)

Lemma skipn_exact (n : nat) (P tail : str) :
  n = length P -> skipn n (P ++ tail) = tail.
Proof. intros ->. apply drop_app_length. Qed.

Lemma substFirst_past (c : char) (p repl w rest : str) :
  Forall (fun x => x <> c) w ->
  Spec.substFirst (c :: p) repl (w ++ (c :: p) ++ rest) = w ++ repl ++ rest.
Proof.
  intros Hw. unfold Spec.substFirst.
  rewrite (indexOf_skip c p w _ Hw), indexOf_here. cbn [option_map].
  rewrite Nat.add_0_r.
  rewrite firstn_exact by reflexivity.
  rewrite (app_assoc w (c :: p) rest) at 1.
  rewrite skipn_exact by (rewrite length_app; reflexivity).
  reflexivity.
Qed.

Lemma substFirst_past_end (c : char) (p repl w : str) :
  Forall (fun x => x <> c) w ->
  Spec.substFirst (c :: p) repl (w ++ c :: p) = w ++ repl.
Proof.
  intros Hw. pose proof (substFirst_past c p repl w [] Hw) as H.
  rewrite !app_nil_r in H. exact H.
Qed.

Lemma digits_not (c : char) (s : str) :
  isDigit c = false -> Forall (fun x => isDigit x = true) s -> Forall (fun x => x <> c) s.
Proof.
  intros Hc. apply List.Forall_impl. intros x Hx E. congruence.
Qed.

Lemma pad_digits (w : nat) (s : str) :
  Forall (fun x => isDigit x = true) s -> Forall (fun x => isDigit x = true) (padStart0 w s).
Proof.
  intros H. unfold padStart0. apply Forall_app. split; [|exact H].
  apply List.Forall_forall. intros x Hx. apply repeat_spec in Hx. subst. reflexivity.
Qed.

(** [formatDate] with the pattern of the file names gives the stamp the
    popup builds by hand: the year, then month, day, a hyphen, hours and
    minutes in two digits each. The digits written by one replacement are
    never taken for a token by the next. *)
Theorem formatDate_stamp (d : LocalTime) :
  Utils.formatDate d (lit "YYYYMMDD-HHmm") = Popup.dateStr d.
Proof.
  unfold Utils.formatDate, Popup.dateStr. cbv zeta.
  pose proof (decimal_digits (fullYear d)) as Hy.
  pose proof (pad_digits 2 _ (decimal_digits (month0 d + 1))) as Hm.
  pose proof (pad_digits 2 _ (decimal_digits (date d))) as Hd.
  pose proof (pad_digits 2 _ (decimal_digits (hours d))) as Hh.
  pose proof (pad_digits 2 _ (decimal_digits (minutes d))) as Hn.
  set (year := decimal (fullYear d)) in *.
  set (month := padStart0 2 (decimal (month0 d + 1))) in *.
  set (day := padStart0 2 (decimal (date d))) in *.
  set (hh := padStart0 2 (decimal (hours d))) in *.
  set (mm := padStart0 2 (decimal (minutes d))) in *.
  clearbody year month day hh mm.
  rewrite !replaceFirst_literal by (apply digits_noDollar; assumption).
  change (lit "YYYYMMDD-HHmm") with ([] ++ lit "YYYY" ++ lit "MMDD-HHmm").
  change (lit "YYYY") with (ch "Y" :: lit "YYY").
  rewrite substFirst_past by constructor. cbn [app].
  change (lit "MMDD-HHmm") with (lit "MM" ++ lit "DD-HHmm").
  change (lit "MM") with (ch "M" :: lit "M").
  rewrite substFirst_past by (apply digits_not; [reflexivity|exact Hy]).
  change (lit "DD-HHmm") with (lit "DD" ++ lit "-HHmm").
  change (lit "DD") with (ch "D" :: lit "D").
  rewrite (app_assoc year month).
  rewrite substFirst_past
    by (apply Forall_app; split; apply digits_not; (reflexivity || assumption)).
  change (lit "-HHmm") with ([ch "-"] ++ lit "HH" ++ lit "mm").
  change (lit "HH") with (ch "H" :: lit "H").
  rewrite (app_assoc (year ++ month) day), (app_assoc _ [ch "-"]).
  rewrite substFirst_past.
  2: { repeat (apply Forall_app; split);
         try (apply digits_not; [reflexivity|assumption]).
       constructor; [discriminate|constructor]. }
  change (lit "mm") with (ch "m" :: lit "m").
  rewrite (app_assoc _ hh).
  rewrite substFirst_past_end.
  2: { repeat (apply Forall_app; split);
         try (apply digits_not; [reflexivity|assumption]).
       constructor; [discriminate|constructor]. }
  rewrite <- !app_assoc. reflexivity.
Qed.

(** ** Attachment downloads *)

Lemma eqs_eq (a b : str) : eqs a b = true <-> a = b.
Proof.
  revert b. induction a as [|x a IH]; intros [|y b]; cbn [eqs]; split;
    try discriminate; try reflexivity.
  - intros H. apply andb_true_iff in H. destruct H as [H1 H2].
    apply eqc_eq in H1. apply IH in H2. congruence.
  - intros H. inversion H; subst. rewrite eqc_refl. apply IH. reflexivity.
Qed.

(** The outcomes of the download of one file. *)
Definition downloadOutcome (now : N) (file : FileRef) (filesDir : str) (fileIndex : N)
    (exportPrefix : str) (r : option (Settled str)) : Prop :=
  r = Some (Resolved (filesDir ++ lit "/"
                        ++ Assets.buildUniqueAssetFilename now (Some (f_name file))
                             exportPrefix fileIndex))
  \/ exists message, r = Some (Rejected message).

Lemma downloadSingleFile_outcome
    (send : FileRef -> nat -> Settled (option Files.DownloadResponse))
    (now : N) (file : FileRef) (filesDir : str) (fileIndex : N) (exportPrefix : str) :
  downloadOutcome now file filesDir fileIndex exportPrefix
    (Files.downloadSingleFile send now file filesDir fileIndex exportPrefix).
Proof.
  unfold Files.downloadSingleFile, Files.maxDownloadRetries, downloadOutcome.
  cbn [Files.downloadSingleFileFrom]. unfold Files.maxDownloadRetries.
  change (0 <? 2) with true. change (1 <? 2) with true. change (2 <? 2) with false.
  repeat match goal with
    | |- context [match ?x with _ => _ end] => destruct x eqn:?
    end; try (left; reflexivity); try (right; eexists; reflexivity);
    exfalso;
    match goal with
    | H : _ && false = true |- _ => rewrite andb_false_r in H; discriminate
    end.
Qed.

(** [downloadSingleFile] always settles, after three attempts at most: it
    never reads the answer to a fourth attempt. It resolves with the path
    of the file under the files directory (the unique name built from the
    file name, the prefix and the index) or rejects with a message. *)
Theorem downloadSingleFile_three_attempts
    (send other : FileRef -> nat -> Settled (option Files.DownloadResponse))
    (now : N) (file : FileRef) (filesDir : str) (fileIndex : N) (exportPrefix : str) :
  (forall attempt, attempt < 3 -> other file attempt = send file attempt) ->
  Files.downloadSingleFile other now file filesDir fileIndex exportPrefix
  = Files.downloadSingleFile send now file filesDir fileIndex exportPrefix
  /\ downloadOutcome now file filesDir fileIndex exportPrefix
       (Files.downloadSingleFile send now file filesDir fileIndex exportPrefix).
Proof.
  intros Hsame. split; [|apply downloadSingleFile_outcome].
  unfold Files.downloadSingleFile, Files.maxDownloadRetries.
  cbn [Files.downloadSingleFileFrom].
  rewrite (Hsame 0), (Hsame 1), (Hsame 2) by lia. reflexivity.
Qed.

(** The fourth answer is never read. *)
Definition download_three_then_fail (file : FileRef) (attempt : nat)
    : Settled (option Files.DownloadResponse) :=
  if attempt <? 3 then Rejected (lit "Failed to fetch") else download_ok file attempt.

Definition download_always_fail (file : FileRef) (attempt : nat)
    : Settled (option Files.DownloadResponse) :=
  Rejected (lit "Failed to fetch").

Lemma downloadSingleFile_three_attempts_witness :
  Files.downloadSingleFile download_three_then_fail 1700000000000 file_cat
    (lit "slack-exports/random_files") 0 (lit "run")
  = Files.downloadSingleFile download_always_fail 1700000000000 file_cat
      (lit "slack-exports/random_files") 0 (lit "run").
Proof.
  apply (downloadSingleFile_three_attempts download_always_fail download_three_then_fail).
  intros [|[|[|attempt]]] H; try reflexivity. lia.
Defined.

Section DownloadMap.

Variable send : FileRef -> nat -> Settled (option Files.DownloadResponse).
Variable now : N.
Variables filesDir exportPrefix : str.

(** An entry of the download map for the URL [u]: flagged as an error and
    holding the URL itself, or holding the path of a file of that URL under
    the files directory. *)
Definition entryShape (pool : list FileRef) (u : str) (info : Files.FileInfo) : Prop :=
  (Files.error info = true /\ Files.localPath info = u)
  \/ (Files.error info = false
      /\ exists g i, In g pool /\ f_url g = u
           /\ Files.localPath info
              = filesDir ++ lit "/"
                  ++ Assets.buildUniqueAssetFilename now (Some (f_name g)) exportPrefix i).

Lemma downloadEach_spec (pool files : list FileRef) : forall i fileMap,
  (forall f, In f files -> In f pool) ->
  (forall u info, fileMap !! u = Some info -> entryShape pool u info) ->
  let m := Files.downloadEach send now files i filesDir exportPrefix fileMap in
  (forall u info, m !! u = Some info -> entryShape pool u info)
  /\ (forall u, is_Some (m !! u)
               <-> is_Some (fileMap !! u) \/ exists f, In f files /\ f_url f = u).
Proof.
  induction files as [|file rest IH]; intros i fileMap Hpool Hinv; cbn [Files.downloadEach].
  - split; [exact Hinv|]. intros u. split; [intros H; left; exact H|].
    intros [H|(f & [] & _)]. exact H.
  - set (fileMap' := match Files.downloadSingleFile send now file filesDir i exportPrefix with
                     | Some (Resolved ((_ :: _) as path)) => _
                     | Some (Resolved []) => fileMap
                     | _ => _
                     end).
    assert (H' : (forall u info, fileMap' !! u = Some info -> entryShape pool u info)
                 /\ forall u, is_Some (fileMap' !! u)
                              <-> is_Some (fileMap !! u) \/ f_url file = u).
    { unfold fileMap'.
      destruct (downloadSingleFile_outcome send now file filesDir i exportPrefix)
        as [->|[message ->]].
      - destruct (filesDir ++ lit "/" ++ _) as [|c path] eqn:Epath.
        { apply app_eq_nil in Epath. destruct Epath as [_ Epath]. discriminate. }
        split.
        + intros u info. destruct (str_eq_dec (f_url file) u) as [<-|Hne].
          * rewrite lookup_insert_eq. intros [= <-]. right.
            split; [reflexivity|]. exists file, i.
            split; [apply Hpool; left; reflexivity|]. split; [reflexivity|].
            cbn [Files.localPath]. symmetry. exact Epath.
          * rewrite lookup_insert_ne by exact Hne. apply Hinv.
        + intros u. destruct (str_eq_dec (f_url file) u) as [<-|Hne].
          * rewrite lookup_insert_eq. split; [intros _; right; reflexivity|eauto].
          * rewrite lookup_insert_ne by exact Hne. split; [intros H; left; exact H|].
            intros [H|H]; [exact H|contradiction].
      - split.
        + intros u info. destruct (str_eq_dec (f_url file) u) as [<-|Hne].
          * rewrite lookup_insert_eq. intros [= <-]. left. split; reflexivity.
          * rewrite lookup_insert_ne by exact Hne. apply Hinv.
        + intros u. destruct (str_eq_dec (f_url file) u) as [<-|Hne].
          * rewrite lookup_insert_eq. split; [intros _; right; reflexivity|eauto].
          * rewrite lookup_insert_ne by exact Hne. split; [intros H; left; exact H|].
            intros [H|H]; [exact H|contradiction]. }
    clearbody fileMap'. destruct H' as [Hinv' Hdom'].
    destruct (IH (i + 1)%N fileMap' (fun f Hf => Hpool f (or_intror Hf)) Hinv')
      as [H1 H2]. split; [exact H1|].
    intros u. rewrite H2, Hdom'. split.
    + intros [[H|H]|(f & Hin & Hf)].
      * left. exact H.
      * right. exists file. split; [left; reflexivity|exact H].
      * right. exists f. split; [right; exact Hin|exact Hf].
    + intros [H|(f & [<-|Hin] & Hf)].
      * left. left. exact H.
      * left. right. exact Hf.
      * right. exists f. split; assumption.
Qed.

End DownloadMap.

Lemma uniqueFiles_urls (files : list FileRef) : forall seenUrls u,
  (exists f, In f (Files.uniqueFiles seenUrls files) /\ f_url f = u)
  <-> ~ In u seenUrls /\ exists f, In f files /\ f_url f = u.
Proof.
  induction files as [|file rest IH]; intros seenUrls u; cbn [Files.uniqueFiles].
  - split; [intros (f & [] & _)|intros (_ & f & [] & _)].
  - destruct (existsb (eqs (f_url file)) seenUrls) eqn:E.
    + apply existsb_exists in E. destruct E as (x & Hx & Ex).
      apply eqs_eq in Ex. subst x. rewrite IH. split.
      * intros (Hn & f & Hin & Hf). split; [exact Hn|]. exists f. split; [right|]; assumption.
      * intros (Hn & f & [<-|Hin] & Hf); [subst u; contradiction|].
        split; [exact Hn|]. exists f. split; assumption.
    + assert (Hnot : ~ In (f_url file) seenUrls).
      { intros Hin. apply not_true_iff_false in E. apply E.
        apply existsb_exists. exists (f_url file). split; [exact Hin|apply eqs_eq; reflexivity]. }
      split.
      * intros (f & [<-|Hin] & Hf).
        -- subst u. split; [exact Hnot|]. exists file. split; [left|]; reflexivity.
        -- destruct (proj1 (IH _ _) (ex_intro _ f (conj Hin Hf))) as (Hn & g & Hg & Hgu).
           split; [intros Hu; apply Hn; right; exact Hu|].
           exists g. split; [right|]; assumption.
      * intros (Hn & f & Hin & Hf).
        destruct (str_eq_dec (f_url file) u) as [Heq|Hne].
        -- exists file. split; [left; reflexivity|exact Heq].
        -- destruct Hin as [<-|Hin]; [contradiction|].
           destruct (proj2 (IH (f_url file :: seenUrls) u)) as (g & Hg & Hgu).
           { split; [intros [H|H]; [contradiction|apply Hn; exact H]|].
             exists f. split; assumption. }
           exists g. split; [right|]; assumption.
Qed.

(** The download directory of the export: the configured one, or
    [slack-exports]. *)
Definition exportDirectory (config : ExportConfig) : str :=
  match cfg_downloadDirectory config with
  | [] => lit "slack-exports"
  | d => d
  end.

Lemma uniqueFiles_incl (files : list FileRef) : forall seenUrls f,
  In f (Files.uniqueFiles seenUrls files) -> In f files.
Proof.
  induction files as [|file rest IH]; intros seenUrls f; cbn [Files.uniqueFiles]; [tauto|].
  destruct (existsb _ seenUrls).
  - intros H. right. apply (IH _ _ H).
  - intros [<-|H]; [left; reflexivity|right; apply (IH _ _ H)].
Qed.

Lemma downloadFiles_map
    (send : FileRef -> nat -> Settled (option Files.DownloadResponse)) (now : N)
    (files : list FileRef) (channelName : str) (config : ExportConfig)
    (exportPrefix : str) (u : str) :
  let fileMap := Files.downloadFiles send now files channelName config exportPrefix in
  let filesDir := exportDirectory config ++ lit "/" ++ channelName ++ lit "_files" in
  (is_Some (fileMap !! u) <-> exists f, In f files /\ f_url f = u)
  /\ (forall info, fileMap !! u = Some info ->
        entryShape now filesDir exportPrefix files u info).
Proof.
  intros fileMap filesDir. unfold fileMap, Files.downloadFiles. fold (exportDirectory config).
  cbv zeta. fold filesDir.
  destruct (downloadEach_spec send now filesDir exportPrefix files
              (Files.uniqueFiles [] files) 0 ∅) as [Hshape Hdom].
  { intros f. apply uniqueFiles_incl. }
  { intros u' info H. rewrite lookup_empty in H. discriminate. }
  split; [|apply Hshape].
  rewrite Hdom, uniqueFiles_urls. split.
  - intros [H|(_ & H)]; [|exact H]. rewrite lookup_empty in H. destruct H. discriminate.
  - intros H. right. split; [intros []|exact H].
Qed.

(** The download map has an entry exactly for the URLs of the files given
    (one entry for a URL that several files share), and every entry is
    either flagged as an error and holds the URL itself, or holds the path
    [<directory>/<channel>_files/<unique name>] of a file with that URL. *)
Theorem downloadFiles_entries
    (send : FileRef -> nat -> Settled (option Files.DownloadResponse)) (now : N)
    (files : list FileRef) (channelName : str) (config : ExportConfig)
    (exportPrefix : str) (u : str) :
  let fileMap := Files.downloadFiles send now files channelName config exportPrefix in
  let filesDir := exportDirectory config ++ lit "/" ++ channelName ++ lit "_files" in
  (is_Some (fileMap !! u) <-> exists f, In f files /\ f_url f = u)
  /\ (forall info, fileMap !! u = Some info ->
        (Files.error info = true /\ Files.localPath info = u)
        \/ (Files.error info = false
            /\ exists g i, In g files /\ f_url g = u
                 /\ Files.localPath info
                    = filesDir ++ lit "/"
                        ++ Assets.buildUniqueAssetFilename now (Some (f_name g))
                             exportPrefix i)).
Proof. apply downloadFiles_map. Qed.



(** ** Sanitized file names *)

(** A sanitized file name is never empty, has at most 204 code units (200
    and the added extension), and holds none of the nine unsafe characters
    and no white space; when a name was given it holds a dot, the extension
    [.bin] being added to a name without one. The fallback for a missing
    name, [file-<time>], has no extension. *)
Theorem sanitizeFileName_safe (now : N) (filename : option str) :
  let sanitized := Assets.sanitizeFileName now filename in
  sanitized <> []
  /\ Forall (fun c => Assets.isUnsafeNameChar c = false /\ isWhiteSpace c = false) sanitized
  /\ match filename with
     | Some (_ :: _) => includes (lit ".") sanitized = true /\ length sanitized <= 204
     | _ => sanitized = lit "file-" ++ decimal now /\ includes (lit ".") sanitized = false
     end.
Proof.
  intros sanitized.
  assert (Hfallback : includes (lit ".") (lit "file-" ++ decimal now) = false).
  { apply absent_includes. apply (indexOf_absent (ch ".") []).
    apply Forall_app. split; [repeat constructor; discriminate|].
    apply digits_not; [reflexivity|apply decimal_digits]. }
  split; [|split; [apply sanitizeFileName_clean|]].
  - subst sanitized. unfold Assets.sanitizeFileName.
    destruct filename as [[|c f]|]; try discriminate.
    cbv zeta. set (cut := firstn 200 _).
    destruct (includes (lit ".") cut) eqn:E.
    + intros Hnil. rewrite Hnil in E. discriminate.
    + intros Hnil. apply app_eq_nil in Hnil. destruct Hnil as [_ Hnil]. discriminate.
  - subst sanitized. unfold Assets.sanitizeFileName.
    destruct filename as [[|c f]|]; try (split; [reflexivity|exact Hfallback]).
    cbv zeta. set (cut := firstn 200 _).
    assert (Hcut : length cut <= 200) by (unfold cut; rewrite length_firstn; lia).
    destruct (includes (lit ".") cut) eqn:E.
    + split; [exact E|lia].
    + split; [rewrite <- (app_nil_r (lit ".bin")); apply (includes_mid (lit ".") _ (lit "bin"))|].
      rewrite length_app. change (length (lit ".bin")) with 4. lia.
Qed.

(** ** Text without code fences *)

(** A document that holds no backtick and no tilde has no fence to repair:
    [normalizeFenceBoundaries] only turns its CRLF pairs into line feeds. *)
Theorem normalizeFenceBoundaries_without_markers (markdown : str) :
  Forall (fun c => c <> ch "`" /\ c <> ch "~") markdown ->
  Markdown.normalizeFenceBoundaries markdown = Markdown.normalizeNewlines markdown.
Proof.
  intros H. unfold Markdown.normalizeFenceBoundaries.
  assert (Hn : Forall (fun c => c <> ch "`" /\ c <> ch "~")
                 (Markdown.normalizeNewlines markdown)).
  { unfold Markdown.normalizeNewlines, Replace.gsub. apply gsubFrom_Forall.
    - intros m a b c. unfold Replace.byTemplate.
      rewrite expand_literal by (repeat constructor; discriminate).
      repeat constructor; discriminate.
    - intros c s' Hin _. rewrite List.Forall_forall in H. apply H. exact Hin. }
  rewrite normalizeLines_fenceFree.
  - cbn [Markdown.closeFenceIfOpen]. rewrite app_nil_r. apply join_split.
  - eapply List.Forall_impl; [|apply split_Forall; exact Hn].
    intros l Hl. split.
    + apply (indexOf_absent (ch "`")). eapply List.Forall_impl; [|exact Hl].
      intros c (A & _). exact A.
    + apply (indexOf_absent (ch "~")). eapply List.Forall_impl; [|exact Hl].
      intros c (_ & B). exact B.
Qed.

Lemma normalizeFenceBoundaries_without_markers_witness :
  Markdown.normalizeFenceBoundaries (lit "**bob**:" ++ [Markdown.CR; Markdown.LF] ++ lit "hi")
  = lit "**bob**:" ++ [Markdown.LF] ++ lit "hi".
Proof.
  rewrite (normalizeFenceBoundaries_without_markers
             (lit "**bob**:" ++ [Markdown.CR; Markdown.LF] ++ lit "hi")).
  - vm_compute. reflexivity.
  - apply List.Forall_forall. intros c Hc. vm_compute in Hc.
    repeat (destruct Hc as [<-|Hc]; [split; discriminate|]). destruct Hc.
Defined.

(** ** The answer to a batch export request *)

Lemma fullFenceScan_marker (s : str) : forall prefixRev prefix marker code suffix,
  Markdown.fullFenceScan prefixRev s = Some (prefix, marker, code, suffix) -> marker <> [].
Proof.
  induction s as [|c s IH]; intros prefixRev prefix marker code suffix;
    cbn [Markdown.fullFenceScan].
  - destruct (Markdown.fenceMarkerAt []) as [m|] eqn:Em; [|discriminate].
    destruct (Markdown.findClose m _) as [[cd sf]|]; [|discriminate].
    intros [= <- <- <- <-]. vm_compute in Em. discriminate.
  - destruct (Markdown.fenceMarkerAt (c :: s)) as [m|] eqn:Em; [|apply IH].
    destruct (Markdown.findClose m _) as [[cd sf]|]; [|apply IH].
    intros [= <- <- <- <-]. unfold Markdown.fenceMarkerAt in Em.
    destruct (startsWith Markdown.backticks (c :: s)); [inversion Em; discriminate|].
    destruct (startsWith Markdown.tildes (c :: s)); [inversion Em; discriminate|discriminate].
Qed.

Lemma trailingScan_marker (s : str) : forall prefixRev prefix marker,
  Markdown.trailingScan prefixRev s = Some (prefix, marker) -> marker <> [].
Proof.
  induction s as [|c s IH]; intros prefixRev prefix marker; cbn [Markdown.trailingScan].
  - destruct (Markdown.fenceMarkerAt []) as [m|] eqn:Em; [|discriminate].
    vm_compute in Em. discriminate.
  - assert (Hcont : (if isLineTerminator c then None
                     else Markdown.trailingScan (c :: prefixRev) s) = Some (prefix, marker) ->
                    marker <> []).
    { destruct (isLineTerminator c); [discriminate|apply IH]. }
    destruct (Markdown.fenceMarkerAt (c :: s)) as [m|] eqn:Em; [|exact Hcont].
    destruct (forallb isWhiteSpace _); [|exact Hcont].
    intros [= <- <-]. unfold Markdown.fenceMarkerAt in Em.
    destruct (startsWith Markdown.backticks (c :: s)); [inversion Em; discriminate|].
    destruct (startsWith Markdown.tildes (c :: s)); [inversion Em; discriminate|discriminate].
Qed.

(** A line that is not empty leaves a line that is not empty. *)
Lemma stepOutside_keeps_text (l : str) :
  l <> [] -> exists x, In x (fst (Markdown.stepOutside l)) /\ x <> [].
Proof.
  intros Hl. unfold Markdown.stepOutside.
  destruct (Markdown.openFenceMatch (trim l)) as [marker|] eqn:Eo.
  - exists (trim l). split; [left; reflexivity|].
    unfold Markdown.openFenceMatch in Eo.
    destruct (Markdown.fenceMarkerAt (trim l)) eqn:Em; [|discriminate].
    intros Hnil. rewrite Hnil in Em. vm_compute in Em. discriminate.
  - unfold Markdown.inlineFullFenceMatch, Markdown.trailingOpenFenceMatch.
    destruct (if existsb isLineTerminator l then None else Markdown.fullFenceScan [] l)
      as [[[[prefix marker] code] suffix]|] eqn:Ef.
    + exists marker. split.
      * cbn [fst]. apply in_or_app. right. left. reflexivity.
      * destruct (existsb isLineTerminator l); [discriminate|].
        apply (fullFenceScan_marker _ _ _ _ _ _ Ef).
    + destruct (Markdown.trailingScan [] l) as [[prefix marker]|] eqn:Et.
      * exists marker. split.
        -- cbn [fst]. apply in_or_app. right. left. reflexivity.
        -- apply (trailingScan_marker _ _ _ _ Et).
      * exists l. split; [left; reflexivity|exact Hl].
Qed.

Lemma join_keeps_text (sep : str) (ls : list str) :
  (exists x, In x ls /\ x <> []) -> join sep ls <> [].
Proof.
  induction ls as [|l ls IH]; intros (x & Hin & Hx); [destruct Hin|].
  cbn [join]. destruct ls as [|l' ls'].
  - destruct Hin as [<-|[]]. exact Hx.
  - destruct Hin as [<-|Hin].
    + intros H. apply app_eq_nil in H. destruct H as [H _]. contradiction.
    + intros H. apply app_eq_nil in H. destruct H as [_ H].
      apply app_eq_nil in H. destruct H as [_ H].
      apply IH in H; [exact H|]. exists x. split; assumption.
Qed.

(** A document that opens with a hash keeps some text through the fence
    normalisation. *)
Lemma normalizeFenceBoundaries_heading (rest : str) :
  Markdown.normalizeFenceBoundaries (ch "#" :: rest) <> [].
Proof.
  unfold Markdown.normalizeFenceBoundaries, Markdown.normalizeNewlines, Replace.gsub.
  cbn [Replace.gsubFrom]. unfold Replace.literalAt at 1.
  change (startsWith [Markdown.CR; Markdown.LF] (ch "#" :: rest)) with false.
  cbn iota. cbn [split].
  change (eqc (ch "#") Markdown.LF) with false. cbn iota.
  set (tail := Replace.gsubFrom _ _ 0 _ rest).
  assert (Hsplit : exists l ls, (match split Markdown.LF tail with
                                 | [] => [[ch "#"]]
                                 | l :: ls => (ch "#" :: l) :: ls
                                 end) = (ch "#" :: l) :: ls).
  { destruct (split Markdown.LF tail) as [|l ls]; eexists; eexists; reflexivity. }
  destruct Hsplit as (l & ls & ->).
  cbn [Markdown.normalizeLines Markdown.step].
  destruct (stepOutside_keeps_text (ch "#" :: l)) as (x & Hin & Hx); [discriminate|].
  destruct (Markdown.stepOutside (ch "#" :: l)) as [out st1].
  destruct (Markdown.normalizeLines st1 ls) as [out' st2].
  apply join_keeps_text. exists x. split; [|exact Hx].
  cbn [fst] in Hin. apply in_or_app. left. apply in_or_app. left. exact Hin.
Qed.

Lemma toMarkdown_empty_nonempty (env : Pipeline.ExportEnv) (channelName : str) :
  Pipeline.toMarkdown env [] channelName <> [].
Proof.
  unfold Pipeline.toMarkdown, Markdown.convertToMarkdown, Markdown.rawMarkdown,
    Markdown.header.
  change (lit "# Slack Export Extension Export: ")
    with (ch "#" :: lit " Slack Export Extension Export: ").
  cbn [map concat app]. apply normalizeFenceBoundaries_heading.
Qed.

(** The listener of [BATCH_EXPORT_CHANNEL] always answers [success: true]
    with a Markdown document that is not empty, whether the export worked
    or not and whatever the saving of the file did. An export that threw is
    told by the [error] field alone, with a message count of zero; an
    export that returned carries no [error] and its own message count. *)
Theorem handleBatchExportChannel_always_answers
    (collectFilesFromMessage : Pipeline.RawMessage -> list FileRef)
    (extractMessageContent : Pipeline.RawMessage -> gmap str str -> list FileRef -> str)
    (parseFloat : str -> Z)
    (save : nat -> str -> str -> Settled Pipeline.SaveRes)
    (env : Pipeline.ExportEnv) (channelId channelName : str) (oldestTimestamp : option Z) :
  let answer := Pipeline.handleBatchExportChannel collectFilesFromMessage
                  extractMessageContent parseFloat save env channelId channelName
                  oldestTimestamp in
  Pipeline.b_success answer = true
  /\ Pipeline.b_markdown answer <> []
  /\ match fst (Pipeline.exportChannelViaAPI collectFilesFromMessage extractMessageContent
                  parseFloat env channelId channelName oldestTimestamp) with
     | Resolved result =>
         Pipeline.b_error answer = None
         /\ Pipeline.b_messageCount answer = Pipeline.res_messageCount result
     | Rejected message =>
         Pipeline.b_error answer = Some message /\ Pipeline.b_messageCount answer = 0
     end.
Proof.
  intros answer. unfold answer, Pipeline.handleBatchExportChannel. clear answer.
  destruct (fst (Pipeline.exportChannelViaAPI _ _ _ env channelId channelName oldestTimestamp))
    as [result|message].
  - destruct (Pipeline.savedBy _) as [saved saveError].
    cbn [Pipeline.b_success Pipeline.b_markdown Pipeline.b_error Pipeline.b_messageCount].
    split; [reflexivity|]. split; [|split; reflexivity].
    destruct (trim (Pipeline.res_markdown result)) eqn:E.
    + apply toMarkdown_empty_nonempty.
    + intros Hnil. rewrite Hnil in E. discriminate.
  - destruct (save 0 channelName (Pipeline.toMarkdown env [] channelName)) as [saveRes|m].
    + cbn [Pipeline.b_success Pipeline.b_markdown Pipeline.b_error Pipeline.b_messageCount].
      split; [reflexivity|]. split; [apply toMarkdown_empty_nonempty|split; reflexivity].
    + destruct (Pipeline.savedBy _) as [saved saveError].
      cbn [Pipeline.b_success Pipeline.b_markdown Pipeline.b_error Pipeline.b_messageCount].
      split; [reflexivity|]. split; [|split; reflexivity].
      change (lit "# Slack Export Extension Export: ")
        with (ch "#" :: lit " Slack Export Extension Export: ").
      discriminate.
Qed.

(** ** The message history *)

Section HistoryPages.

Variable respond : nat -> History.Response.

Lemma fetchPage_spec (remaining : nat) : forall pageCount cursor log,
  remaining <= 3 ->
  let run := History.fetchPage respond remaining pageCount cursor log in
  exists k ws,
    k <= remaining
    /\ History.requests (snd run) = History.requests log ++ repeat cursor k
    /\ History.waits (snd run) = History.waits log ++ ws
    /\ Forall (fun w => In w [2000; 4000; 8000; 16000]%Z) ws
    /\ match fst run with
       | History.PageOk _ _ _ => 1 <= k
       | History.PageThrows _ => k = remaining
       end.
Proof.
  induction remaining as [|remaining IH]; intros pageCount cursor log Hle;
    cbn [History.fetchPage].
  - exists 0, []. cbn. rewrite !app_nil_r. repeat split; constructor.
  - assert (Hwait1 : In (2 ^ Z.of_nat (S (3 - S remaining)) * 1000)%Z
                       [2000; 4000; 8000; 16000]%Z).
    { destruct remaining as [|[|[|r]]]; cbn; try lia; tauto. }
    assert (Hwait2 : In (2 ^ Z.of_nat (S (3 - S remaining)) * 2000)%Z
                       [2000; 4000; 8000; 16000]%Z).
    { destruct remaining as [|[|[|r]]]; cbn; try lia; tauto. }
    assert (Hnext : forall ms,
              In ms [2000; 4000; 8000; 16000]%Z ->
              let run := History.fetchPage respond remaining pageCount cursor
                           (History.slept ms (History.sent cursor log)) in
              exists k ws,
                k <= S remaining
                /\ History.requests (snd run) = History.requests log ++ repeat cursor k
                /\ History.waits (snd run) = History.waits log ++ ws
                /\ Forall (fun w => In w [2000; 4000; 8000; 16000]%Z) ws
                /\ match fst run with
                   | History.PageOk _ _ _ => 1 <= k
                   | History.PageThrows _ => k = S remaining
                   end).
    { intros ms Hms run.
      destruct (IH pageCount cursor (History.slept ms (History.sent cursor log)))
        as (k & ws & H1 & H2 & H3 & H4 & H5); [lia|].
      fold run in H2, H3, H5.
      exists (S k), (ms :: ws). split; [lia|].
      split; [rewrite H2; cbn [History.slept History.sent History.requests repeat];
              rewrite <- app_assoc; reflexivity|].
      split; [rewrite H3; cbn [History.slept History.sent History.waits];
              rewrite <- app_assoc; reflexivity|].
      split; [constructor; assumption|].
      destruct (fst run); lia. }
    assert (Hstop : forall message,
              let run := (History.PageThrows message, History.sent cursor log) in
              remaining = 0 ->
              exists k ws,
                k <= S remaining
                /\ History.requests (snd run) = History.requests log ++ repeat cursor k
                /\ History.waits (snd run) = History.waits log ++ ws
                /\ Forall (fun w => In w [2000; 4000; 8000; 16000]%Z) ws
                /\ match fst run with
                   | History.PageOk _ _ _ => 1 <= k
                   | History.PageThrows _ => k = S remaining
                   end).
    { intros message run ->. exists 1, []. cbn. rewrite app_nil_r.
      repeat split; try lia; constructor. }
    destruct (respond (length (History.requests log))) as [m|messages more next|e].
    + destruct remaining as [|r]; [apply Hstop; reflexivity|apply Hnext; exact Hwait1].
    + exists 1, []. cbn. rewrite app_nil_r. repeat split; try lia; constructor.
    + destruct (eqs e (lit "ratelimited")); [apply Hnext; exact Hwait2|].
      destruct remaining as [|r]; [apply Hstop; reflexivity|apply Hnext; exact Hwait1].
Qed.

End HistoryPages.

(** One page of the history costs at most three requests, all with the
    cursor of that page; the pauses between them are 2, 4, 8 or 16 seconds;
    and the page is given up (the function throws) only after the third
    request. *)
Theorem fetchPage_at_most_three_requests
    (respond : nat -> History.Response) (pageCount : nat) (cursor : str)
    (log : History.Log) :
  let run := History.fetchPage respond 3 pageCount cursor log in
  exists k ws,
    1 <= k <= 3
    /\ History.requests (snd run) = History.requests log ++ repeat cursor k
    /\ History.waits (snd run) = History.waits log ++ ws
    /\ Forall (fun w => In w [2000; 4000; 8000; 16000]%Z) ws
    /\ (forall message, fst run = History.PageThrows message -> k = 3).
Proof.
  intros run.
  destruct (fetchPage_spec respond 3 pageCount cursor log) as (k & ws & H1 & H2 & H3 & H4 & H5);
    [lia|].
  fold run in H2, H3, H5. exists k, ws.
  split; [destruct (fst run); lia|].
  split; [exact H2|]. split; [exact H3|]. split; [exact H4|].
  intros message Hm. rewrite Hm in H5. exact H5.
Qed.

Section HistoryScript.

Variable respond : nat -> History.Response.
Variables (lastMessages : list Pipeline.RawMessage) (lastCursor : option str).

(** The answers from request [from] on are the pages of [script], each
    announcing a next page and its cursor, and then a last page. *)
Definition answersFrom (from : nat) (script : list (list Pipeline.RawMessage * str)) : Prop :=
  (forall i m c, nth_error script i = Some (m, c) ->
                 respond (from + i) = History.ApiOk (Some m) true (Some c))
  /\ respond (from + length script) = History.ApiOk (Some lastMessages) false lastCursor.

Lemma truthy_cursor (c : str) : default [] (Pipeline.truthy (Some c)) = c.
Proof. destruct c; reflexivity. Qed.

Lemma fetchPages_script (script : list (list Pipeline.RawMessage * str)) :
  forall fuel pageCount cursor allMessages log,
    answersFrom (length (History.requests log) ) script ->
    length script < fuel ->
    History.fetchPages respond fuel pageCount cursor allMessages log
    = Some (Resolved (allMessages ++ concat (map fst script) ++ lastMessages),
            {| History.requests := History.requests log ++ cursor :: map snd script;
               History.waits := History.waits log
                                  ++ (if 0 <? pageCount then [1000%Z] else [])
                                  ++ repeat 1000%Z (length script) |}).
Proof.
  induction script as [|[m c] script IH]; intros fuel pageCount cursor allMessages
    [reqs ws] [Hpages Hlast] Hfuel; (destruct fuel as [|fuel]; [cbn in Hfuel; lia|]);
    cbn [History.fetchPages History.fetchPage History.requests] in *;
    change (1 <? S pageCount) with (0 <? pageCount).
  - cbn [length] in Hlast. rewrite Nat.add_0_r in Hlast.
    destruct (0 <? pageCount);
      cbn [History.slept History.sent History.requests History.waits];
      rewrite Hlast;
      cbn [default id map concat repeat length app History.sent History.requests
             History.waits];
      rewrite ?app_nil_r; reflexivity.
  - pose proof (Hpages 0 m c eq_refl) as H0. rewrite Nat.add_0_r in H0.
    assert (Hrest : answersFrom (length (reqs ++ [cursor])) script).
    { rewrite length_app. cbn [length]. split.
      - intros i m' c' Hi. replace (length reqs + 1 + i) with (length reqs + S i) by lia.
        apply Hpages. exact Hi.
      - replace (length reqs + 1 + length script)
          with (length reqs + length ((m, c) :: script)) by (cbn [length]; lia).
        exact Hlast. }
    cbn [length] in Hfuel.
    destruct (0 <? pageCount);
      cbn [History.slept History.sent History.requests History.waits];
      rewrite H0; cbn [default id]; rewrite truthy_cursor;
      (rewrite IH; [|exact Hrest|lia]);
      cbn [History.sent History.slept History.requests History.waits map concat
             fst snd repeat length];
      change (0 <? S pageCount) with true;
      rewrite <- !app_assoc; cbn [app]; reflexivity.
Qed.

End HistoryScript.

(** When every request is answered at once, the history is the pages in
    the order fetched, joined end to end: the first request carries no
    cursor, each later one the cursor the page before it gave, one second
    is waited before each page after the first, and the loop stops at the
    first page that announces no other. As many units of fuel as there are
    pages are enough. *)
Theorem history_pages_concatenated
    (respond : nat -> History.Response)
    (script : list (list Pipeline.RawMessage * str))
    (lastMessages : list Pipeline.RawMessage) (lastCursor : option str) (fuel : nat) :
  answersFrom respond lastMessages lastCursor 0 script ->
  length script < fuel ->
  History.getMessagesViaHistoryAPI respond fuel
  = Some (Resolved (concat (map fst script) ++ lastMessages),
          {| History.requests := [] :: map snd script;
             History.waits := repeat 1000%Z (length script) |}).
Proof.
  intros Hscript Hfuel. unfold History.getMessagesViaHistoryAPI.
  rewrite (fetchPages_script respond lastMessages lastCursor script); try assumption.
  reflexivity.
Qed.

Definition history_two_pages (n : nat) : History.Response :=
  match n with
  | 0 => History.ApiOk (Some [parent_a]) true (Some (lit "dXNlcjpVMDYx"))
  | _ => History.ApiOk (Some [parent_b]) false None
  end.

Lemma history_pages_concatenated_witness :
  History.getMessagesViaHistoryAPI history_two_pages 2
  = Some (Resolved [parent_a; parent_b],
          {| History.requests := [[]; lit "dXNlcjpVMDYx"];
             History.waits := [1000%Z] |}).
Proof.
  apply (history_pages_concatenated history_two_pages [([parent_a], lit "dXNlcjpVMDYx")]
           [parent_b] None 2).
  - split; [|reflexivity].
    intros [|i] m c Hi; [inversion Hi; reflexivity|].
    destruct i; discriminate.
  - cbn. lia.
Defined.

(** ** User names *)

Lemma displayName_nonempty (user : Users.User) : Users.displayName user <> [].
Proof.
  unfold Users.displayName.
  destruct (Pipeline.truthy (Users.real_name user)) eqn:E1;
    [apply (truthy_nonempty _ _ E1)|].
  destruct (Pipeline.truthy (Users.profile_display_name user)) eqn:E2;
    [apply (truthy_nonempty _ _ E2)|].
  destruct (Pipeline.truthy (Users.profile_real_name user)) eqn:E3;
    [apply (truthy_nonempty _ _ E3)|].
  destruct (Pipeline.truthy (Users.name user)) eqn:E4; cbn [default];
    [apply (truthy_nonempty _ _ E4)|discriminate].
Qed.

Lemma batches_concat (size : nat) : forall fuel ids,
  0 < size -> length ids <= fuel -> concat (Users.batches fuel size ids) = ids.
Proof.
  induction fuel as [|fuel IH]; intros ids Hsize Hlen.
  - destruct ids; [reflexivity|cbn in Hlen; lia].
  - destruct ids as [|id ids]; [reflexivity|].
    cbn [Users.batches concat]. rewrite IH; [apply firstn_skipn|exact Hsize|].
    rewrite length_skipn. cbn [length] in *. lia.
Qed.

Section UserMap.

Variable fetchSingleUser : str -> Settled (option Users.User).

(** What the lookup of one id leaves in the map. *)
Definition lookedUp (userId : str) (before : option str) : option str :=
  match fetchSingleUser userId with
  | Resolved (Some user) => Some (Users.displayName user)
  | Resolved None => before
  | Rejected _ => Some (lit "Unknown User")
  end.

Lemma fetchOne_fold (ids : list str) : forall st id,
  fst (fold_left (Users.fetchOne fetchSingleUser) ids st) !! id
  = if existsb (eqs id) ids then lookedUp id (fst st !! id) else fst st !! id.
Proof.
  induction ids as [|x ids IH]; intros [userMap waits] id; [reflexivity|].
  cbn [fold_left existsb]. rewrite IH.
  assert (Hstep : fst (Users.fetchOne fetchSingleUser (userMap, waits) x) !! id
                  = if eqs id x then lookedUp id (userMap !! id) else userMap !! id).
  { unfold Users.fetchOne, lookedUp.
    destruct (eqs id x) eqn:E.
    - apply eqs_eq in E. subst x.
      destruct (fetchSingleUser id) as [[user|]|m]; cbn [fst];
        rewrite ?lookup_insert_eq; reflexivity.
    - assert (Hne : x <> id).
      { intros ->. rewrite (proj2 (eqs_eq id id) eq_refl) in E. discriminate. }
      destruct (fetchSingleUser x) as [[user|]|m]; cbn [fst];
        rewrite ?lookup_insert_ne by exact Hne; reflexivity. }
  rewrite Hstep. cbn [fst].
  destruct (eqs id x), (existsb (eqs id) ids); cbn [orb]; try reflexivity.
  unfold lookedUp. destruct (fetchSingleUser id) as [[user|]|m]; reflexivity.
Qed.

Lemma fetchBatches_fold (bs : list (list str)) : forall st,
  fst (Users.fetchBatches fetchSingleUser bs st)
  = fst (fold_left (Users.fetchOne fetchSingleUser) (concat bs) st).
Proof.
  induction bs as [|batch rest IH]; intros st; [reflexivity|].
  cbn [Users.fetchBatches concat]. rewrite fold_left_app.
  destruct (fold_left (Users.fetchOne fetchSingleUser) batch st) as [userMap waits].
  rewrite IH.
  assert (Hwaits : forall ids w1 w2,
            fst (fold_left (Users.fetchOne fetchSingleUser) ids (userMap, w1))
            = fst (fold_left (Users.fetchOne fetchSingleUser) ids (userMap, w2))).
  { clear. intros ids. revert userMap.
    induction ids as [|x ids IH]; intros userMap w1 w2; [reflexivity|].
    cbn [fold_left]. unfold Users.fetchOne at 2 4.
    destruct (fetchSingleUser x) as [[user|]|m]; apply IH. }
  apply Hwaits.
Qed.

End UserMap.


(** ** Names *)

Lemma lowerAscii_safe (c : char) :
  Names.isChannelChar c = true ->
  Names.isChannelChar (lowerAscii c) = true /\ isUpper (lowerAscii c) = false.
Proof.
  unfold Names.isChannelChar, lowerAscii, isAlnum, isDigit, isUpper, isLower, eqc.
  unfold_ch. intros H. destruct ((65 <=? c) && (c <=? 90))%N eqn:E; b2p; lia.
Qed.

(** A sanitized channel name is never empty, has at most 50 code units,
    and holds only lower-case letters, digits, underscores, hyphens and
    dots. *)
Theorem sanitizeChannelName_safe (name : str) :
  let sanitized := Names.sanitizeChannelName name in
  sanitized <> []
  /\ length sanitized <= 50
  /\ Forall (fun c => Names.isChannelChar c = true /\ isUpper c = false) sanitized.
Proof.
  intros sanitized. unfold sanitized, Names.sanitizeChannelName. clear sanitized.
  assert (Hdefault : lit "slack-channel" <> []
                     /\ length (lit "slack-channel") <= 50
                     /\ Forall (fun c => Names.isChannelChar c = true /\ isUpper c = false)
                          (lit "slack-channel")).
  { split; [discriminate|]. split; [vm_compute; lia|].
    apply List.Forall_forall. intros c Hc. vm_compute in Hc.
    repeat (destruct Hc as [<-|Hc]; [split; reflexivity|]). destruct Hc. }
  destruct name as [|c0 name0]; [exact Hdefault|]. cbv zeta.
  set (replaced := Replace.gsub (Replace.classAt _) _ _).
  set (collapsed := Replace.gsub (Replace.runAt _) _ replaced).
  assert (H1 : Forall (fun c => Names.isChannelChar c = true) replaced).
  { apply gsub_class_Forall.
    - repeat constructor; discriminate.
    - repeat constructor.
    - apply List.Forall_forall. intros c _ Hc. apply negb_false_iff in Hc. exact Hc. }
  assert (H2 : Forall (fun c => Names.isChannelChar c = true) collapsed).
  { apply gsub_run_Forall.
    - repeat constructor; discriminate.
    - repeat constructor.
    - eapply List.Forall_impl; [|exact H1]. intros c Hc _. exact Hc. }
  assert (H3 : Forall (fun c => Names.isChannelChar c = true) (Names.stripEdgeHyphens collapsed)).
  { unfold Names.stripEdgeHyphens. clearbody collapsed. clear H1 replaced.
    set (s1 := match collapsed with
               | c :: rest => if eqc c (ch "-") then rest else collapsed
               | [] => []
               end).
    assert (Hs1 : Forall (fun c => Names.isChannelChar c = true) s1).
    { unfold s1. destruct collapsed as [|c rest]; [constructor|].
      destruct (eqc c (ch "-")); [inversion H2; assumption|exact H2]. }
    clearbody s1. destruct (rev s1) as [|c restRev] eqn:Er; [constructor|].
    destruct (eqc c (ch "-")); [|exact Hs1].
    apply Forall_rev. apply Forall_rev in Hs1. rewrite Er in Hs1.
    inversion Hs1; assumption. }
  set (cut := firstn 50 (map lowerAscii (Names.stripEdgeHyphens collapsed))).
  assert (H4 : length cut <= 50
               /\ Forall (fun c => Names.isChannelChar c = true /\ isUpper c = false) cut).
  { split; [unfold cut; rewrite length_firstn; lia|].
    unfold cut. apply Forall_take. apply List.Forall_map.
    eapply List.Forall_impl; [|exact H3]. intros c Hc. apply lowerAscii_safe. exact Hc. }
  clearbody cut. destruct cut as [|c cut']; [exact Hdefault|].
  split; [discriminate|exact H4].
Qed.

Lemma endsWithIgnoreCase_length (suffix s : str) :
  Names.endsWithIgnoreCase suffix s = true -> length suffix <= length s.
Proof.
  unfold Names.endsWithIgnoreCase. intros H. apply andb_true_iff in H.
  destruct H as [H _]. apply Nat.leb_le in H. exact H.
Qed.

Lemma endsWithIgnoreCase_app (base ext suffix : str) :
  length ext = length suffix ->
  Names.endsWithIgnoreCase suffix (base ++ ext) = eqs (map lowerAscii ext) suffix.
Proof.
  intros Hlen. unfold Names.endsWithIgnoreCase. rewrite length_app.
  replace (length suffix <=? length base + length ext) with true
    by (symmetry; apply Nat.leb_le; lia).
  replace (length base + length ext - length suffix) with (length base) by lia.
  rewrite skipn_exact by reflexivity. reflexivity.
Qed.

Lemma getHtmlFilename_ends (markdownFilename : option str) :
  exists base, Names.getHtmlFilename markdownFilename = base ++ lit ".html".
Proof.
  unfold Names.getHtmlFilename.
  destruct markdownFilename as [[|c f]|]; [exists (lit "slack-export"); reflexivity| |
    exists (lit "slack-export"); reflexivity].
  cbn beta iota.
  destruct (Names.endsWithIgnoreCase (lit ".md") (c :: f)); [eexists; reflexivity|].
  destruct (Names.endsWithIgnoreCase (lit ".markdown") (c :: f)); eexists; reflexivity.
Qed.

Lemma getHtmlFilename_differs (markdownFilename : option str) :
  Some (Names.getHtmlFilename markdownFilename) <> markdownFilename.
Proof.
  unfold Names.getHtmlFilename.
  destruct markdownFilename as [[|c f]|]; [discriminate| |discriminate].
  cbn beta iota. remember (c :: f) as name eqn:Hcons. clear Hcons.
  assert (Hlen : forall x y : str, length x <> length y -> Some x <> Some y).
  { intros x y Hxy E. inversion E. subst. contradiction. }
  destruct (Names.endsWithIgnoreCase (lit ".md") name) eqn:E1.
  - apply endsWithIgnoreCase_length in E1. change (length (lit ".md")) with 3 in E1.
    apply Hlen. rewrite length_app, length_firstn.
    change (length (lit ".html")) with 5. lia.
  - destruct (Names.endsWithIgnoreCase (lit ".markdown") name) eqn:E2.
    + apply endsWithIgnoreCase_length in E2.
      change (length (lit ".markdown")) with 9 in E2.
      apply Hlen. rewrite length_app, length_firstn.
      change (length (lit ".html")) with 5. lia.
    + apply Hlen. rewrite length_app. change (length (lit ".html")) with 5. lia.
Qed.


(** *** The first pass of [exportChannelViaAPI]: the users to look up *)

(** The ids the first pass reads from one message: its author, if set, and
    the users its text mentions. *)
Definition idsOf (msg : Pipeline.RawMessage) : list str :=
  match Pipeline.truthy (Pipeline.user msg) with Some u => [u] | None => [] end
  ++ Pipeline.mentionIds (default [] (Pipeline.text msg)).

Lemma addId_In (ids : list str) (id x : str) :
  In x (Pipeline.addId ids id) <-> In x ids \/ x = id.
Proof.
  unfold Pipeline.addId. destruct (existsb (eqs id) ids) eqn:E.
  - split; [auto|]. intros [H| ->]; [exact H|].
    apply existsb_exists in E. destruct E as (y & Hy & Ey).
    apply eqs_eq in Ey. subst y. exact Hy.
  - rewrite in_app_iff. cbn [In]. split.
    + intros [H|[H|[]]]; auto.
    + intros [H|H]; auto.
Qed.

Lemma addId_NoDup (ids : list str) (id : str) :
  List.NoDup ids -> List.NoDup (Pipeline.addId ids id).
Proof.
  intros H. unfold Pipeline.addId. destruct (existsb (eqs id) ids) eqn:E; [exact H|].
  apply NoDup_ListNoDup. apply NoDup_ListNoDup in H.
  apply NoDup_app. split; [exact H|]. split.
  - intros x Hx Hin. apply list_elem_of_In in Hx.
    apply list_elem_of_singleton in Hin. subst x.
    assert (existsb (eqs id) ids = true); [|congruence].
    apply existsb_exists. exists id. split; [exact Hx|]. apply eqs_eq. reflexivity.
  - apply NoDup_singleton.
Qed.

Lemma fold_addId_In (l : list str) : forall (ids : list str) (x : str),
  In x (fold_left Pipeline.addId l ids) <-> In x ids \/ In x l.
Proof.
  induction l as [|id l IH]; intros ids x; cbn [fold_left In].
  - tauto.
  - rewrite IH, addId_In. intuition auto.
Qed.

Lemma fold_addId_NoDup (l : list str) : forall ids : list str,
  List.NoDup ids -> List.NoDup (fold_left Pipeline.addId l ids).
Proof.
  induction l as [|id l IH]; intros ids H; cbn [fold_left]; [exact H|].
  apply IH, addId_NoDup, H.
Qed.

Lemma addIdsOf_In (ids : list str) (msg : Pipeline.RawMessage) (x : str) :
  In x (Pipeline.addIdsOf ids msg) <-> In x ids \/ In x (idsOf msg).
Proof.
  unfold Pipeline.addIdsOf, idsOf. rewrite fold_addId_In, in_app_iff.
  destruct (Pipeline.truthy (Pipeline.user msg)) as [u|].
  - rewrite addId_In. cbn [In]. intuition auto.
  - cbn [In]. tauto.
Qed.

Lemma addIdsOf_NoDup (ids : list str) (msg : Pipeline.RawMessage) :
  List.NoDup ids -> List.NoDup (Pipeline.addIdsOf ids msg).
Proof.
  intros H. unfold Pipeline.addIdsOf. apply fold_addId_NoDup.
  destruct (Pipeline.truthy (Pipeline.user msg)); [apply addId_NoDup|]; exact H.
Qed.

Lemma fold_addIdsOf_In (l : list Pipeline.RawMessage) : forall (ids : list str) (x : str),
  In x (fold_left Pipeline.addIdsOf l ids)
  <-> In x ids \/ exists msg, In msg l /\ In x (idsOf msg).
Proof.
  induction l as [|m l IH]; intros ids x; cbn [fold_left In].
  - split; [auto|]. intros [H|(msg & [] & _)]. exact H.
  - rewrite IH, addIdsOf_In. split.
    + intros [[H|H]|(msg & Hm & Hx)]; eauto 6.
    + intros [H|(msg & [<-|Hm] & Hx)]; eauto 6.
Qed.

Lemma fold_addIdsOf_NoDup (l : list Pipeline.RawMessage) : forall ids : list str,
  List.NoDup ids -> List.NoDup (fold_left Pipeline.addIdsOf l ids).
Proof.
  induction l as [|m l IH]; intros ids H; cbn [fold_left]; [exact H|].
  apply IH, addIdsOf_NoDup, H.
Qed.

Section FirstPass.

Variable respond : nat -> Pipeline.RepliesResponse.
Variable config : ExportConfig.

(** What the loop keeps: the set has no duplicates and holds the ids of
    every reply in the cache. *)
Definition idsComplete (st : Pipeline.ScanState) : Prop :=
  List.NoDup (Pipeline.userIds st)
  /\ forall threadTs replies reply id,
       Pipeline.threadRepliesCache st !! threadTs = Some replies ->
       In reply replies -> In id (idsOf reply) -> In id (Pipeline.userIds st).

Lemma scanMessage_ids (st : Pipeline.ScanState) (msg : Pipeline.RawMessage) :
  idsComplete st ->
  idsComplete (Pipeline.scanMessage respond config st msg)
  /\ (forall id, In id (Pipeline.userIds st) \/ In id (idsOf msg) ->
        In id (Pipeline.userIds (Pipeline.scanMessage respond config st msg))).
Proof.
  intros [Hnd Hc]. unfold Pipeline.scanMessage.
  destruct (Pipeline.threadOf config msg) as [threadTs|].
  - destruct (Pipeline.fetchThreadReplies respond threadTs _) as [repliesRaw net1].
    cbn [Pipeline.userIds]. split; [split|].
    + cbn [Pipeline.userIds]. apply fold_addIdsOf_NoDup, addIdsOf_NoDup, Hnd.
    + cbn [Pipeline.userIds Pipeline.threadRepliesCache].
      intros t replies reply id Ht Hr Hid. apply fold_addIdsOf_In.
      destruct (decide (threadTs = t)) as [->|Hne].
      * rewrite lookup_insert_eq in Ht. inversion Ht. subst replies. eauto.
      * rewrite lookup_insert_ne in Ht by exact Hne.
        left. apply addIdsOf_In. left. eapply Hc; eassumption.
    + intros id H. apply fold_addIdsOf_In. left. apply addIdsOf_In. exact H.
  - cbn [Pipeline.userIds Pipeline.threadRepliesCache]. split; [split|].
    + apply addIdsOf_NoDup, Hnd.
    + intros t replies reply id Ht Hr Hid. apply addIdsOf_In. left.
      eapply Hc; eassumption.
    + intros id H. apply addIdsOf_In. exact H.
Qed.

Lemma scanFold_ids (apiMessages : list Pipeline.RawMessage) : forall st,
  idsComplete st ->
  idsComplete (fold_left (Pipeline.scanMessage respond config) apiMessages st)
  /\ (forall id,
        In id (Pipeline.userIds st)
        \/ (exists msg, In msg apiMessages /\ In id (idsOf msg)) ->
        In id (Pipeline.userIds
                 (fold_left (Pipeline.scanMessage respond config) apiMessages st))).
Proof.
  induction apiMessages as [|m rest IH]; intros st H; cbn [fold_left].
  - split; [exact H|]. intros id [Hi|(msg & [] & _)]. exact Hi.
  - destruct (scanMessage_ids st m H) as [H1 Hg].
    destruct (IH _ H1) as [H2 Hg2]. split; [exact H2|].
    intros id [Hi|(msg & [<-|Hm] & Hi)]; apply Hg2; eauto.
Qed.

End FirstPass.

(** The first pass of [exportChannelViaAPI] leaves nobody out: the ids it
    hands to [fetchSpecificUsers] hold the author and every mentioned user
    of each message of the history and of each thread reply kept in the
    cache, and no id twice. *)
Theorem scanMessages_userIds (respond : nat -> Pipeline.RepliesResponse)
    (config : ExportConfig) (apiMessages : list Pipeline.RawMessage) (net0 : Pipeline.Net) :
  let scan := Pipeline.scanMessages respond config apiMessages net0 in
  List.NoDup (Pipeline.userIds scan)
  /\ (forall msg id,
        In msg apiMessages -> In id (idsOf msg) -> In id (Pipeline.userIds scan))
  /\ (forall threadTs replies reply id,
        Pipeline.threadRepliesCache scan !! threadTs = Some replies ->
        In reply replies -> In id (idsOf reply) -> In id (Pipeline.userIds scan)).
Proof.
  intros scan. unfold scan, Pipeline.scanMessages. clear scan.
  set (st0 := {| Pipeline.userIds := []; Pipeline.threadRepliesCache := ∅;
                 Pipeline.threadFetchCount := 0; Pipeline.net := net0 |}).
  assert (H0 : idsComplete st0).
  { split; [apply List.NoDup_nil|]. intros t replies reply id Ht.
    cbn [st0 Pipeline.threadRepliesCache] in Ht. rewrite lookup_empty in Ht. discriminate. }
  destruct (scanFold_ids respond config apiMessages st0 H0) as [[Hnd Hc] Hg].
  split; [exact Hnd|]. split; [|exact Hc].
  intros msg id Hm Hi. apply Hg. right. eauto.
Qed.

(** *** The messages an export keeps *)

(** [content && content.trim()] *)
Definition hasContent (content : str) : bool :=
  match trim content with [] => false | _ => true end.

Lemma filter_map_length {A B : Type} (f : B -> bool) (g : A -> B) (l : list A) :
  length (List.filter f (map g l)) = length (List.filter (fun x => f (g x)) l).
Proof.
  induction l as [|x l IH]; [reflexivity|]. cbn [map List.filter].
  destruct (f (g x)); cbn [length]; rewrite IH; reflexivity.
Qed.

Lemma filter_length_le {A : Type} (f : A -> bool) (l : list A) :
  length (List.filter f l) <= length l.
Proof.
  induction l as [|x l IH]; [reflexivity|]. cbn [List.filter].
  destruct (f x); cbn [length]; lia.
Qed.

Lemma sortByTimestamp_length (parseFloat : str -> Z) (ms : list EnrichedMessage) :
  length (Pipeline.sortByTimestamp parseFloat ms) = length ms.
Proof.
  destruct (sortFold_spec parseFloat ms []) as (_ & Hperm & _); [constructor|].
  symmetry. apply Permutation_length. exact Hperm.
Qed.

(** When the token is there and the history is read, the export returns,
    whatever the thread, user and file requests do; the message count it
    reports is the number of messages of the history whose extracted
    content is not blank, replies not counted. *)
Theorem exportChannelViaAPI_counts_messages_with_content
    (collectFilesFromMessage : Pipeline.RawMessage -> list FileRef)
    (extractMessageContent : Pipeline.RawMessage -> gmap str str -> list FileRef -> str)
    (parseFloat : str -> Z)
    (env : Pipeline.ExportEnv) (channelId channelName : str) (oldestTimestamp : option Z)
    (token : str) (apiMessages : list Pipeline.RawMessage) :
  Pipeline.env_token env = Resolved token ->
  (forall oldestUnix, Pipeline.env_history env channelId oldestUnix = Resolved apiMessages) ->
  let userMap :=
    Pipeline.env_users env
      (Pipeline.userIds
         (Pipeline.scanMessages (Pipeline.env_respond env) (Pipeline.env_config env)
            apiMessages Pipeline.emptyNet)) in
  exists result,
    fst (Pipeline.exportChannelViaAPI collectFilesFromMessage extractMessageContent
           parseFloat env channelId channelName oldestTimestamp) = Resolved result
    /\ Pipeline.res_channelName result = channelName
    /\ Pipeline.res_messageCount result
       = length (List.filter
                   (fun msg => hasContent (extractMessageContent msg userMap
                                             (collectFilesFromMessage msg)))
                   apiMessages)
    /\ Pipeline.res_messageCount result <= length apiMessages.
Proof.
  intros Htoken Hhistory userMap. unfold Pipeline.exportChannelViaAPI.
  rewrite Htoken, Hhistory.
  destruct apiMessages as [|m0 rest].
  - eexists. cbn [fst]. split; [reflexivity|].
    cbn [Pipeline.res_channelName Pipeline.res_messageCount List.filter length].
    repeat split; lia.
  - cbv beta iota. set (apiMessages := m0 :: rest) in *. clearbody apiMessages.
    eexists. cbn [fst]. split; [reflexivity|].
    cbn [Pipeline.res_channelName Pipeline.res_messageCount].
    split; [reflexivity|].
    unfold Files.updateFileReferencesInMessages.
    rewrite length_map, sortByTimestamp_length, map_map, filter_map_length.
    fold userMap.
    assert (E : forall l : list Pipeline.RawMessage,
              length (List.filter
                        (fun x => match trim (content (fst (Pipeline.enrichMessage
                                     collectFilesFromMessage extractMessageContent
                                     (Pipeline.env_config env) userMap
                                     (Pipeline.threadRepliesCache
                                        (Pipeline.scanMessages (Pipeline.env_respond env)
                                           (Pipeline.env_config env) apiMessages
                                           Pipeline.emptyNet)) x))) with
                                  | [] => false
                                  | _ => true
                                  end) l)
              = length (List.filter
                          (fun msg => hasContent (extractMessageContent msg userMap
                                                    (collectFilesFromMessage msg))) l)).
    { induction l as [|x l IH]; [reflexivity|]. cbn [List.filter].
      unfold Pipeline.enrichMessage at 1. cbn [fst content]. unfold hasContent at 1.
      destruct (trim _); cbn [length]; rewrite IH; reflexivity. }
    split; [apply E|]. rewrite E. apply filter_length_le.
Qed.

(** ** Lists in the HTML document *)

(** The lines of the HTML array read as a sequence of blocks: an opening
    [<ul>] comes outside a list and right before an item, an item comes
    inside a list, a closing [</ul>] ends the list, any other line comes
    outside a list, and no list is open at the end. *)
Fixpoint listsClosedFrom (inList : bool) (html : list str) : bool :=
  match html with
  | [] => negb inList
  | entry :: rest =>
      if eqs entry (lit "<ul>") then
        negb inList
        && match rest with
           | next :: _ => startsWith (lit "<li>") next
           | [] => false
           end
        && listsClosedFrom true rest
      else if eqs entry (lit "</ul>") then inList && listsClosedFrom false rest
      else if startsWith (lit "<li>") entry then inList && listsClosedFrom true rest
      else negb inList && listsClosedFrom false rest
  end.

Definition listsClosed (html : list str) : bool := listsClosedFrom false html.

(** A line that neither opens, closes nor continues a list. *)
Definition isBlock (entry : str) : bool :=
  negb (eqs entry (lit "<ul>")) && negb (eqs entry (lit "</ul>"))
  && negb (startsWith (lit "<li>") entry).

Lemma block_outside (entry : str) (k : list str) :
  isBlock entry = true ->
  listsClosedFrom false (entry :: k) = listsClosedFrom false k.
Proof.
  unfold isBlock. intros H. apply andb_true_iff in H. destruct H as [H H3].
  apply andb_true_iff in H. destruct H as [H1 H2].
  apply negb_true_iff in H1, H2, H3.
  cbn [listsClosedFrom]. rewrite H1, H2, H3. reflexivity.
Qed.

Lemma element_block (tag text : str) :
  In tag [lit "p"; lit "h1"; lit "h2"; lit "h3"; lit "blockquote"] ->
  isBlock (Document.element tag text) = true.
Proof.
  unfold Document.element. generalize (Html.inlineMarkdownToHtml text). intros x H.
  repeat (destruct H as [<-|H]; [vm_compute; reflexivity|]). destruct H.
Qed.

Lemma preBlock_block (codeLines : list str) : isBlock (Document.preBlock codeLines) = true.
Proof.
  unfold Document.preBlock. generalize (Html.escapeHtml (join [Markdown.LF] codeLines)).
  intros x. vm_compute. reflexivity.
Qed.

Lemma closeList_closes (inList : bool) (k : list str) :
  listsClosedFrom inList (Document.closeList inList ++ k) = listsClosedFrom false k.
Proof. destruct inList; reflexivity. Qed.

Lemma closeList_block (inList : bool) (entry : str) (k : list str) :
  isBlock entry = true ->
  listsClosedFrom inList ((Document.closeList inList ++ [entry]) ++ k)
  = listsClosedFrom false k.
Proof.
  intros H. rewrite <- app_assoc, closeList_closes. cbn [app].
  apply block_outside. exact H.
Qed.

Lemma item_inside (inList : bool) (text : str) (k : list str) :
  listsClosedFrom inList
    (((if inList then [] else [lit "<ul>"]) ++ [Document.element (lit "li") text]) ++ k)
  = listsClosedFrom true k.
Proof.
  assert (H : forall x : str,
            eqs (lit "<" ++ lit "li" ++ lit ">" ++ x) (lit "<ul>") = false
            /\ eqs (lit "<" ++ lit "li" ++ lit ">" ++ x) (lit "</ul>") = false
            /\ startsWith (lit "<li>") (lit "<" ++ lit "li" ++ lit ">" ++ x) = true).
  { intros x. repeat split; vm_compute; reflexivity. }
  unfold Document.element.
  destruct (H (Html.inlineMarkdownToHtml text ++ lit "</" ++ lit "li" ++ lit ">"))
    as (H1 & H2 & H3).
  destruct inList; cbn [app listsClosedFrom].
  - rewrite H1, H2, H3. reflexivity.
  - change (eqs (lit "<ul>") (lit "<ul>")) with true. cbv iota.
    rewrite H1, H2, H3. reflexivity.
Qed.

Lemma textLine_lists (inList : bool) (trimmed : str) (k : list str) :
  listsClosedFrom inList (fst (Document.textLine inList trimmed) ++ k)
  = listsClosedFrom (snd (Document.textLine inList trimmed)) k.
Proof.
  unfold Document.textLine. destruct trimmed as [|c t]; [apply closeList_closes|].
  set (trimmed := c :: t). clearbody trimmed.
  destruct (eqs trimmed (lit "---")).
  { cbn [fst snd]. apply closeList_block. vm_compute. reflexivity. }
  repeat match goal with
    | |- context [if startsWith ?p trimmed then _ else _] =>
        destruct (startsWith p trimmed);
        [cbn [fst snd]; apply closeList_block, element_block; cbn [In]; auto 6|]
    end.
  destruct (_ || _ || _); cbn [fst snd].
  - apply item_inside.
  - apply closeList_block, element_block. cbn [In]. auto.
Qed.

(** The loop never has a list open inside a code block. *)
Definition listOutsideCode (st : Document.State) : Prop :=
  Document.fence st <> None -> Document.inList st = false.

Lemma step_lists (st : Document.State) (rawLine : str) :
  listOutsideCode st ->
  listOutsideCode (snd (Document.step st rawLine))
  /\ forall k,
       listsClosedFrom (Document.inList st) (fst (Document.step st rawLine) ++ k)
       = listsClosedFrom (Document.inList (snd (Document.step st rawLine))) k.
Proof.
  intros Hinv. unfold Document.step.
  destruct (Document.fence st) as [[marker codeLines]|] eqn:Ef.
  - assert (Hl : Document.inList st = false) by (apply Hinv; rewrite Ef; discriminate).
    destruct (Document.closeFenceWithTailMatch marker (trim rawLine)) as [tail|].
    + cbn [fst snd Document.inList]. split; [intros H; exfalso; apply H; reflexivity|].
      intros k. rewrite Hl. cbn [app].
      rewrite block_outside by apply preBlock_block.
      destruct (trim tail) as [|c t]; [reflexivity|]. cbn [app].
      apply block_outside, element_block. cbn [In]. auto.
    + cbn [fst snd Document.inList]. split; [intros _; exact Hl|]. reflexivity.
  - destruct (Markdown.openFenceMatch (trim rawLine)) as [marker|].
    + cbn [fst snd Document.inList]. split; [intros _; reflexivity|].
      intros k. apply closeList_closes.
    + pose proof (textLine_lists (Document.inList st) (trim rawLine)) as Ht.
      destruct (Document.textLine (Document.inList st) (trim rawLine)) as [pushed inList'].
      cbn [fst snd Document.inList] in *. split; [|exact Ht].
      intros H. exfalso. apply H. reflexivity.
Qed.

Lemma run_lists (lines : list str) : forall st,
  listOutsideCode st ->
  listOutsideCode (snd (Document.run st lines))
  /\ forall k,
       listsClosedFrom (Document.inList st) (fst (Document.run st lines) ++ k)
       = listsClosedFrom (Document.inList (snd (Document.run st lines))) k.
Proof.
  induction lines as [|l ls IH]; intros st Hinv; cbn [Document.run].
  - split; [exact Hinv|]. reflexivity.
  - destruct (step_lists st l Hinv) as [H1 Hk1].
    destruct (Document.step st l) as [pushed st1]. cbn [fst snd] in H1, Hk1.
    destruct (IH st1 H1) as [H2 Hk2].
    destruct (Document.run st1 ls) as [pushed' st2]. cbn [fst snd] in *.
    split; [exact H2|]. intros k. rewrite <- app_assoc, Hk1, Hk2. reflexivity.
Qed.

(** Whatever the Markdown, the lists of the HTML that [markdownToBasicHtml]
    builds are well formed: every [<ul>] is followed by an item and closed
    before the next block or the end of the document, items come only
    inside a list, and a code block or any other block comes outside. *)
Theorem markdownToBasicHtml_lists_closed (markdown : str) :
  Document.markdownToBasicHtml markdown = join [Markdown.LF] (Document.htmlLines markdown)
  /\ listsClosed (Document.htmlLines markdown) = true.
Proof.
  split; [reflexivity|]. unfold listsClosed, Document.htmlLines.
  set (st0 := {| Document.fence := None; Document.inList := false |}).
  assert (H0 : listOutsideCode st0) by (intros _; reflexivity).
  destruct (run_lists (split Markdown.LF (Markdown.normalizeNewlines markdown)) st0 H0)
    as [Hinv Hk].
  destruct (Document.run st0 _) as [pushed st]. cbn [fst snd] in *.
  change false with (Document.inList st0) at 1. rewrite Hk.
  destruct (Document.fence st) as [[marker codeLines]|] eqn:Ef.
  - rewrite Hinv by (rewrite Ef; discriminate). cbn [app Document.closeList].
    rewrite block_outside by apply preBlock_block. reflexivity.
  - cbn [app]. rewrite <- (app_nil_r (Document.closeList _)).
    rewrite closeList_closes. reflexivity.
Qed.

(** ** The files saved for a channel *)

(** A request answered with [success]. *)
Definition answeredOk (answer : Settled (option Save.Response)) : bool :=
  match answer with
  | Resolved (Some response) => Save.success response
  | _ => false
  end.

(** [saveBatchChannelMarkdown] resolved with [success: true]. *)
Definition savedOk (result : Settled Pipeline.SaveRes) : bool :=
  match result with
  | Resolved res => Pipeline.save_success res
  | Rejected _ => false
  end.

(** [saveBatchChannelMarkdown] asks for the Markdown file first, and for the
    HTML file only once the Markdown file is saved. The two files go to the
    same directory under different names, the second one ending in [.html],
    so neither overwrites the other. Success is reported only when both
    requests were answered with success. *)
Theorem saveBatchChannelMarkdown_two_files (config : ExportConfig) (now : LocalTime)
    (sendMessage : nat -> Save.Request -> Settled (option Save.Response))
    (channelName markdown : str) :
  let result := fst (Save.saveBatchChannelMarkdown config now sendMessage channelName markdown) in
  let requests := snd (Save.saveBatchChannelMarkdown config now sendMessage channelName markdown) in
  exists markdownRequest,
    Save.filename markdownRequest
      = Utils.generateFilename now (cfg_fileNameFormat config) channelName
    /\ Save.content markdownRequest = markdown
    /\ Save.mimeType markdownRequest = None
    /\ if answeredOk (sendMessage 0 markdownRequest) then
         exists htmlRequest,
           requests = [markdownRequest; htmlRequest]
           /\ Save.filename htmlRequest <> Save.filename markdownRequest
           /\ (exists base, Save.filename htmlRequest = base ++ lit ".html")
           /\ Save.directory htmlRequest = Save.directory markdownRequest
           /\ Save.content htmlRequest
              = Document.convertMarkdownToHtmlDocument markdown channelName
           /\ Save.mimeType htmlRequest = Some (lit "text/html")
           /\ savedOk result = answeredOk (sendMessage 1 htmlRequest)
       else requests = [markdownRequest] /\ savedOk result = false.
Proof.
  intros result requests. unfold result, requests, Save.saveBatchChannelMarkdown.
  clear result requests.
  set (filename := Utils.generateFilename now (cfg_fileNameFormat config) channelName).
  set (directory := match cfg_downloadDirectory config with
                    | [] => lit "slack-exports"
                    | d => d
                    end).
  set (markdownRequest := {| Save.filename := filename; Save.content := markdown;
                             Save.directory := directory; Save.mimeType := None |}).
  set (htmlRequest := {| Save.filename := Names.getHtmlFilename (Some filename);
                         Save.content := Document.convertMarkdownToHtmlDocument
                                           markdown channelName;
                         Save.directory := directory;
                         Save.mimeType := Some (lit "text/html") |}).
  exists markdownRequest. repeat (split; [reflexivity|]).
  destruct (sendMessage 0 markdownRequest) as [[[[|] e]|]|m]; cbn [answeredOk Save.success];
    try (split; reflexivity).
  exists htmlRequest. cbn [fst snd]. 
  assert (Hne : Save.filename htmlRequest <> Save.filename markdownRequest).
  { cbn [htmlRequest markdownRequest Save.filename]. intros E.
    apply (getHtmlFilename_differs (Some filename)). rewrite E. reflexivity. }
  assert (Hends : exists base, Save.filename htmlRequest = base ++ lit ".html")
    by apply getHtmlFilename_ends.
  destruct (sendMessage 1 htmlRequest) as [[[[|] e']|]|m']; cbn [fst snd];
    repeat (split; [first [reflexivity | exact Hne | exact Hends]|]); reflexivity.
Qed.

(** ** The listener's answer in the popup *)

(** The object the listener passes to [sendResponse], as the popup reads
    it: [attachmentCount] is not among its fields. *)
Definition asRead (answer : Pipeline.BatchResponse) : Popup.ExportResponse :=
  {| Popup.r_success := Pipeline.b_success answer;
     Popup.r_messageCount := Some (Z.of_nat (Pipeline.b_messageCount answer));
     Popup.r_attachmentCount := None;
     Popup.r_markdown := Some (Pipeline.b_markdown answer);
     Popup.r_markdownSavedByContent := Pipeline.b_markdownSavedByContent answer;
     Popup.r_error := Pipeline.b_error answer |}.

Lemma handleBatchExportChannel_success
    (collectFilesFromMessage : Pipeline.RawMessage -> list FileRef)
    (extractMessageContent : Pipeline.RawMessage -> gmap str str -> list FileRef -> str)
    (parseFloat : str -> Z)
    (save : nat -> str -> str -> Settled Pipeline.SaveRes)
    (env : Pipeline.ExportEnv) (channelId channelName : str) (oldestTimestamp : option Z) :
  Pipeline.b_success
    (Pipeline.handleBatchExportChannel collectFilesFromMessage extractMessageContent
       parseFloat save env channelId channelName oldestTimestamp) = true.
Proof.
  unfold Pipeline.handleBatchExportChannel.
  destruct (fst (Pipeline.exportChannelViaAPI _ _ _ env channelId channelName oldestTimestamp))
    as [result|message].
  - destruct (Pipeline.savedBy _). reflexivity.
  - destruct (save 0 channelName _); [reflexivity|].
    destruct (Pipeline.savedBy _). reflexivity.
Qed.

(** A channel whose listener answered, with the Markdown saved by the
    content script, is a success for the popup whether the export worked
    or threw: the [error] field of the answer is not read. The popup
    records the message count of the answer and no attachment, stores the
    export timestamp of the channel, and requests no download. *)
Theorem exportOne_ignores_listener_error
    (collectFilesFromMessage : Pipeline.RawMessage -> list FileRef)
    (extractMessageContent : Pipeline.RawMessage -> gmap str str -> list FileRef -> str)
    (parseFloat : str -> Z)
    (save : nat -> str -> str -> Settled Pipeline.SaveRes)
    (exportEnv : Pipeline.ExportEnv) (oldestTimestamp : option Z)
    (config : Popup.Config) (combinedChecked isLast : bool) (channel : Popup.Channel)
    (env : Popup.ChannelEnv) (st : Popup.LoopState) :
  let answer :=
    Pipeline.handleBatchExportChannel collectFilesFromMessage extractMessageContent
      parseFloat save exportEnv (Popup.channelId channel) (Popup.name channel)
      oldestTimestamp in
  Popup.isSlackConversationId (Popup.channelId channel) = true ->
  Popup.ce_response env = Resolved (Some (asRead answer)) ->
  Pipeline.b_markdownSavedByContent answer = true ->
  Popup.ce_saveConfig env = Resolved tt ->
  let events := fst (Popup.exportOne config combinedChecked isLast channel env st) in
  let st' := snd (Popup.exportOne config combinedChecked isLast channel env st) in
  Popup.results st'
  = Popup.results st
      ++ [{| Popup.cr_channel := Popup.name channel; Popup.cr_success := true;
             Popup.cr_count := Z.of_nat (Pipeline.b_messageCount answer);
             Popup.cr_attachments := 0; Popup.cr_error := None |}]
  /\ Popup.storedTimestamps st' !! Popup.channelId channel = Some (Popup.ce_stamp env)
  /\ Forall (fun e => isDownloadRequest e = false) events.
Proof.
  intros answer Hid Hresp Hsaved Hconfig events st'.
  assert (Hok : Pipeline.b_success answer = true)
    by apply handleBatchExportChannel_success.
  unfold events, st', Popup.exportOne. clear events st'.
  rewrite Hid, Hresp, Hconfig. cbn [negb].
  clearbody answer. destruct answer as [ok count md cn savedByContent saveError err].
  cbn [Pipeline.b_success Pipeline.b_markdownSavedByContent] in Hok, Hsaved. subst.
  cbn [asRead Pipeline.b_success Pipeline.b_messageCount Pipeline.b_markdown
       Pipeline.b_markdownSavedByContent Pipeline.b_error
       Popup.r_success Popup.r_messageCount Popup.r_attachmentCount Popup.r_markdown
       Popup.r_markdownSavedByContent Popup.r_error negb default id].
  destruct (combinedChecked && (0 <? Z.of_nat count)%Z);
    cbn [fst snd Popup.results Popup.storedTimestamps];
    (split; [reflexivity|]); (split; [apply lookup_insert_eq|]);
    repeat (apply Forall_app; split); destruct isLast;
    repeat (constructor; try reflexivity).
Qed.

(** A message whose text is blank. *)
Definition message_blank : Pipeline.RawMessage :=
  {| Pipeline.ts := lit "1700000003.000400"; Pipeline.user := Some (lit "U1");
     Pipeline.subtype := None; Pipeline.bot_id := None; Pipeline.username := None;
     Pipeline.text := Some (lit "  "); Pipeline.thread_ts := None;
     Pipeline.reply_count := None |}.

Lemma exportChannelViaAPI_counts_messages_with_content_witness :
  exists result,
    fst (Pipeline.exportChannelViaAPI noFiles textOnly (fun _ => 0%Z)
           (env_of [parent_a; message_blank; reply_a] respond_ok)
           (lit "C012345678") (lit "general") None) = Resolved result
    /\ Pipeline.res_messageCount result = 2.
Proof.
  destruct (exportChannelViaAPI_counts_messages_with_content noFiles textOnly (fun _ => 0%Z)
              (env_of [parent_a; message_blank; reply_a] respond_ok)
              (lit "C012345678") (lit "general") None
              (lit "xoxc-1") [parent_a; message_blank; reply_a] eq_refl (fun _ => eq_refl))
    as (result & E & _ & Hcount & _).
  exists result. split; [exact E|]. rewrite Hcount. vm_compute. reflexivity.
Defined.

(** An export without a token, its file saved by the content script. *)
Definition env_no_token : Pipeline.ExportEnv :=
  {| Pipeline.env_config := config_plain;
     Pipeline.env_token := Rejected (lit "No Slack token found");
     Pipeline.env_now := 1700000100000;
     Pipeline.env_exportPrefix := lit "1700000100000-ab12cd";
     Pipeline.env_history := fun _ _ => Resolved [];
     Pipeline.env_respond := respond_ok;
     Pipeline.env_users := fun _ => ∅;
     Pipeline.env_sendDownload := fun _ _ => Resolved None;
     Pipeline.env_clock := 1700000100000;
     Pipeline.env_formatTimestamp := fun t => t;
     Pipeline.env_exportTime := lit "1/2/2024, 3:04:00 AM" |}.

Definition answer_no_token : Pipeline.BatchResponse :=
  Pipeline.handleBatchExportChannel noFiles textOnly (fun _ => 0%Z) save_ok env_no_token
    (lit "C012345678") (lit "general") (Some 1699395200000%Z).

Definition env_answered : Popup.ChannelEnv :=
  {| Popup.ce_now := 1700000000000;
     Popup.ce_response := Resolved (Some (asRead answer_no_token));
     Popup.ce_localeString := lit "1/2/2024, 3:04:00 AM";
     Popup.ce_localTime := t_2024;
     Popup.ce_download := fun _ => Resolved None;
     Popup.ce_stamp := 1700000005000;
     Popup.ce_saveConfig := Resolved tt |}.

Lemma exportOne_ignores_listener_error_witness :
  Pipeline.b_error answer_no_token = Some (lit "No Slack token found")
  /\ Popup.results
       (snd (Popup.exportOne config_default false true channel_general env_answered
               loop_start))
     = [{| Popup.cr_channel := lit "general"; Popup.cr_success := true;
           Popup.cr_count := 0; Popup.cr_attachments := 0; Popup.cr_error := None |}]
  /\ Popup.storedTimestamps
       (snd (Popup.exportOne config_default false true channel_general env_answered
               loop_start)) !! lit "C012345678" = Some 1700000005000%Z.
Proof.
  split; [vm_compute; reflexivity|].
  destruct (exportOne_ignores_listener_error noFiles textOnly (fun _ => 0%Z) save_ok
              env_no_token (Some 1699395200000%Z) config_default false true
              channel_general env_answered loop_start)
    as (Hres & Hstored & _);
    [reflexivity|reflexivity|vm_compute; reflexivity|reflexivity|].
  split; [rewrite Hres; vm_compute; reflexivity|exact Hstored].
Defined.

(** ** Inline Markdown without markers *)

(** A code unit that starts no inline pattern: no bracket, no star and no
    backtick. *)
Definition isInlineMarker (c : char) : bool :=
  eqc c (ch "[") || eqc c (ch "*") || eqc c (ch "`").

Definition markerFree (s : str) : Prop :=
  Forall (fun c => isInlineMarker c = false) s.

Lemma gsubFrom_no_match (matchAt : str -> option Replace.Match)
    (subst : Replace.Match -> str -> str -> str -> str) (s : str) : forall pre,
  (forall i, matchAt (skipn i s) = None) ->
  Replace.gsubFrom matchAt subst 0 pre s = s.
Proof.
  induction s as [|c s IH]; intros pre H; cbn [Replace.gsubFrom].
  - pose proof (H 0) as H0. cbn [skipn] in H0. rewrite H0. reflexivity.
  - pose proof (H 0) as H0. cbn [skipn] in H0. rewrite H0. f_equal. apply IH.
    intros i. exact (H (S i)).
Qed.

Lemma markerFree_skipn (s : str) (i : nat) : markerFree s -> markerFree (skipn i s).
Proof. apply Forall_drop. Qed.

Lemma gsub_markerFree (matchAt : str -> option Replace.Match)
    (subst : Replace.Match -> str -> str -> str -> str) (s : str) :
  (forall t, markerFree t -> matchAt t = None) ->
  markerFree s ->
  Replace.gsub matchAt subst s = s.
Proof.
  intros Hm Hs. apply gsubFrom_no_match. intros i.
  apply Hm, markerFree_skipn, Hs.
Qed.

Lemma markerFree_head (c : char) (t : str) (k : char) :
  markerFree (c :: t) -> isInlineMarker k = true -> eqc c k = false.
Proof.
  intros H Hk. inversion H as [|? ? Hc _]; subst.
  destruct (eqc c k) eqn:E; [|reflexivity].
  apply eqc_eq in E. subst. congruence.
Qed.

Lemma imageAt_markerFree (t : str) : markerFree t -> Html.imageAt t = None.
Proof.
  intros H. destruct t as [|c [|d rest]]; [reflexivity|reflexivity|].
  cbn [Html.imageAt]. inversion H as [|? ? _ H']; subst.
  rewrite (markerFree_head d rest (ch "[") H') by reflexivity.
  rewrite andb_false_r. reflexivity.
Qed.

Lemma linkAt_markerFree (t : str) : markerFree t -> Html.linkAt t = None.
Proof.
  intros H. destruct t as [|c rest]; [reflexivity|].
  cbn [Html.linkAt]. rewrite (markerFree_head c rest (ch "[") H) by reflexivity.
  reflexivity.
Qed.

Lemma delimitedAt_markerFree (k : char) (marker t : str) :
  isInlineMarker k = true -> markerFree t -> Html.delimitedAt (k :: marker) t = None.
Proof.
  intros Hk H. unfold Html.delimitedAt. destruct t as [|c rest]; [reflexivity|].
  cbn [startsWith]. replace (eqc k c) with false; [reflexivity|].
  symmetry. destruct (eqc k c) eqn:E; [|reflexivity].
  apply eqc_eq in E. subst c. inversion H; subst. congruence.
Qed.

Lemma escapeHtml_markerFree (text : str) :
  markerFree text -> markerFree (Html.escapeHtml text).
Proof.
  intros H. rewrite escapeHtml_flat_map. induction H as [|c t Hc _ IH]; [constructor|].
  cbn [flat_map]. apply Forall_app. split; [|exact IH]. unfold htmlEntity.
  repeat match goal with
    | |- context [if ?b then _ else _] =>
        destruct b; [repeat constructor|]
    end.
  repeat constructor. exact Hc.
Qed.

(** A text with no bracket, star or backtick holds no inline Markdown:
    [inlineMarkdownToHtml] only escapes it. *)
Theorem inlineMarkdownToHtml_plain_text (text : str) :
  markerFree text ->
  Html.inlineMarkdownToHtml text = Html.escapeHtml text.
Proof.
  intros H. apply escapeHtml_markerFree in H. unfold Html.inlineMarkdownToHtml. cbv zeta.
  rewrite (gsub_markerFree Html.imageAt _ _ imageAt_markerFree H).
  rewrite (gsub_markerFree Html.linkAt _ _ linkAt_markerFree H).
  change (lit "**") with (ch "*" :: lit "*").
  rewrite (gsub_markerFree _ _ _
             (fun t => delimitedAt_markerFree (ch "*") (lit "*") t eq_refl) H).
  change (lit "*") with (ch "*" :: []).
  rewrite (gsub_markerFree _ _ _
             (fun t => delimitedAt_markerFree (ch "*") [] t eq_refl) H).
  change (lit "`") with (ch "`" :: []).
  exact (gsub_markerFree _ _ _
           (fun t => delimitedAt_markerFree (ch "`") [] t eq_refl) H).
Qed.

Lemma inlineMarkdownToHtml_plain_text_witness :
  Html.inlineMarkdownToHtml (lit "a < b & c")
  = lit "a &lt; b &amp; c".
Proof.
  rewrite (inlineMarkdownToHtml_plain_text (lit "a < b & c"))
    by (repeat constructor).
  vm_compute. reflexivity.
Defined.

(** ** The token of the direct download *)

Lemma includes_true (p s : str) :
  includes p s = true <-> exists i, startsWith p (skipn i s) = true.
Proof.
  unfold includes. split.
  - revert p. induction s as [|c s IH]; intros p H; cbn [indexOf] in H.
    + destruct (startsWith p []) eqn:E; [exists 0; exact E|discriminate].
    + destruct (startsWith p (c :: s)) eqn:E; [exists 0; exact E|].
      destruct (indexOf p s) eqn:Ei; [|discriminate].
      destruct (IH p) as [i Hi]; [rewrite Ei; reflexivity|].
      exists (S i). exact Hi.
  - intros [i Hi]. revert i Hi. induction s as [|c s IH]; intros i Hi; cbn [indexOf].
    + destruct i; cbn [skipn] in Hi; rewrite Hi; reflexivity.
    + destruct (startsWith p (c :: s)) eqn:E; [reflexivity|].
      destruct i as [|i]; [cbn [skipn] in Hi; congruence|].
      cbn [skipn] in Hi. specialize (IH i Hi).
      destruct (indexOf p s); [reflexivity|discriminate].
Qed.

Lemma startsWith_split_app (p s : str) :
  startsWith p s = true <-> exists post, s = p ++ post.
Proof.
  revert s. induction p as [|x p IH]; intros s; cbn [startsWith].
  - split; [intros _; exists s; reflexivity|reflexivity].
  - destruct s as [|y s]; [split; [discriminate|intros [post H]; discriminate]|].
    rewrite andb_true_iff, IH. split.
    + intros [Hx [post ->]]. apply eqc_eq in Hx. subst. exists post. reflexivity.
    + intros [post H]. inversion H; subst. split; [apply eqc_refl|eauto].
Qed.

Lemma hostAt_includes (fuel : nat) : forall s,
  SlackFile.hostAt fuel s = true ->
  exists i, startsWith (lit "slack.com/") (map lowerAscii (skipn i s)) = true.
Proof.
  induction fuel as [|fuel IH]; intros s H; cbn [SlackFile.hostAt] in H;
    apply orb_true_iff in H; destruct H as [H|H];
    try (exists 0; exact H); try discriminate.
  destruct (takeWhile SlackFile.isLabelChar s) as [|l label] eqn:El; [discriminate|].
  destruct (skipn (length (l :: label)) s) as [|dot rest] eqn:Es; [discriminate|].
  apply andb_true_iff in H. destruct H as [_ H].
  destruct (IH rest H) as [i Hi].
  exists (i + (1 + length (l :: label))).
  rewrite <- !skipn_skipn. rewrite Es. cbn [skipn]. exact Hi.
Qed.

Lemma hostAt_here (fuel : nat) (s : str) :
  startsWith (lit "slack.com/") (map lowerAscii s) = true ->
  SlackFile.hostAt fuel s = true.
Proof.
  intros H. destruct fuel; cbn [SlackFile.hostAt]; unfold Html.startsWithIgnoreCase;
    rewrite H; reflexivity.
Qed.

Lemma testFrom_includes (s : str) : forall atStart,
  SlackFile.testFrom atStart s = true <->
  exists i, startsWith (lit "slack.com/") (map lowerAscii (skipn i s)) = true.
Proof.
  induction s as [|c s IH]; intros atStart; cbn [SlackFile.testFrom].
  - split.
    + intros H. rewrite orb_false_r in H. destruct atStart; discriminate.
    + intros [i Hi]. destruct i; discriminate.
  - split.
    + intros H. apply orb_true_iff in H. destruct H as [H|H].
      * unfold SlackFile.matchAt in H. apply orb_true_iff in H. destruct H as [H|H].
        -- apply andb_true_iff in H. destruct H as [_ H].
           apply orb_true_iff in H.
           destruct H as [H|H]; apply andb_true_iff in H; destruct H as [_ H];
             apply hostAt_includes in H; destruct H as [i Hi].
           ++ exists (i + 7). rewrite <- skipn_skipn. exact Hi.
           ++ exists (i + 8). rewrite <- skipn_skipn. exact Hi.
        -- apply hostAt_includes in H. exact H.
      * apply IH in H. destruct H as [i Hi]. exists (S i). exact Hi.
    + intros [i Hi]. apply orb_true_iff. destruct i as [|i].
      * left. unfold SlackFile.matchAt. apply orb_true_iff. right.
        apply hostAt_here. exact Hi.
      * right. apply IH. exists i. exact Hi.
Qed.


(** ** The progress of a batch in the durable state *)

(** The state a reader finds in the store. *)
Definition stateOf (store : option Background.StoredState) : Background.BatchExportState :=
  Background.spread Background.DEFAULT_BATCH_EXPORT_STATE
    (default Background.emptyStored store).

(** The progress is a percentage and counts no more channels than the
    batch has. *)
Definition progressInRange (state : Background.BatchExportState) : Prop :=
  (0 <= Background.progressPercent state <= 100)%Z
  /\ (0 <= Background.completedChannels state <= Background.totalChannels state)%Z.

Lemma calcProgressPercent_range (roundedPercent : Z -> Z -> Z) (completed total : Z) :
  (0 <= Session.calcProgressPercent roundedPercent completed total <= 100)%Z.
Proof.
  unfold Session.calcProgressPercent. destruct (total <=? 0)%Z; lia.
Qed.

Lemma stateOf_toStored (state : Background.BatchExportState) :
  stateOf (Some (Background.toStored state)) = state.
Proof. unfold stateOf. cbn [default]. apply spread_toStored. Qed.

Lemma getBatchExportState_range (store : option Background.StoredState)
    (getOk : bool) (nowRead nowWrite : Z) (setOk : bool) :
  progressInRange (stateOf store) ->
  let result := Background.getBatchExportState (if getOk then Some store else None)
                  nowRead nowWrite setOk in
  progressInRange (fst result)
  /\ progressInRange (stateOf match snd result with
                              | Some staleState => Some (Background.toStored staleState)
                              | None => store
                              end).
Proof.
  intros H result. unfold result, Background.getBatchExportState. clear result.
  assert (Hd : progressInRange Background.DEFAULT_BATCH_EXPORT_STATE)
    by (unfold progressInRange; cbn; lia).
  destruct getOk; [|split; [exact Hd|exact H]].
  fold (stateOf store).
  destruct (Background.active (stateOf store)
            && negb (Background.updatedAt (stateOf store) =? 0)%Z
            && (Background.BATCH_EXPORT_STATE_STALE_MS
                <? nowRead - Background.updatedAt (stateOf store))%Z);
    [|split; exact H].
  destruct setOk; cbn [fst snd]; [|split; [exact Hd|exact H]].
  rewrite stateOf_toStored.
  split; exact H.
Qed.

(** Whatever the store held within range, whatever message arrives and
    whatever the storage calls do, the state left by the listener of
    [BATCH_EXPORT_SESSION] is within range: the progress is between 0 and
    100 and the completed channels are between 0 and the total. A [finish]
    message that is saved leaves the batch inactive, at 100 percent and in
    the stage [done]. *)
Theorem handleSession_progress_in_range (roundedPercent : Z -> Z -> Z)
    (store : option Background.StoredState) (browser : Session.Browser)
    (message : Session.Message) :
  progressInRange (stateOf store) ->
  (0 <= default 0 (Session.totalChannels message))%Z ->
  let after := stateOf (fst (Session.handleSession roundedPercent store browser message)) in
  progressInRange after
  /\ (Session.event message = lit "finish" -> Session.saveOk browser = true ->
      Background.active after = false
      /\ Background.progressPercent after = 100%Z
      /\ Background.stage after = lit "done"
      /\ Background.updatedAt after = Session.nowSave browser).
Proof.
  intros Hstore Htotal after. unfold after, Session.handleSession. clear after.
  destruct (getBatchExportState_range store (Session.getOk browser)
              (Session.nowRead browser) (Session.nowStale browser)
              (Session.staleSetOk browser) Hstore) as [Hcur Hst1].
  destruct (Background.getBatchExportState _ _ _ _) as [current written].
  cbn [fst snd] in Hcur, Hst1.
  destruct Hcur as [Hp Hc].
  assert (Hsaved : forall next,
            stateOf (Some (Background.toStored
                             (Background.saveBatchExportState next
                                (Session.nowSave browser))))
            = Background.saveBatchExportState next (Session.nowSave browser))
    by (intros next; apply stateOf_toStored).
  unfold Session.nextState.
  destruct (eqs (Session.event message) (lit "start")) eqn:E1.
  { apply eqs_eq in E1. destruct (Session.saveOk browser); cbn [fst].
    - rewrite Hsaved. split; [unfold progressInRange; cbn; lia|].
      intros Ef. rewrite E1 in Ef. discriminate.
    - split; [exact Hst1|]. intros _ Hs. discriminate. }
  destruct (eqs (Session.event message) (lit "channel_start")) eqn:E2.
  { apply eqs_eq in E2. destruct (Session.saveOk browser); cbn [fst].
    - rewrite Hsaved. split; [unfold progressInRange; cbn; lia|].
      intros Ef. rewrite E2 in Ef. discriminate.
    - split; [exact Hst1|]. intros _ Hs. discriminate. }
  destruct (eqs (Session.event message) (lit "channel_done")) eqn:E3.
  { apply eqs_eq in E3. destruct (Session.saveOk browser); cbn [fst].
    - rewrite Hsaved. split.
      + unfold progressInRange. cbn.
        split; [apply calcProgressPercent_range|lia].
      + intros Ef. rewrite E3 in Ef. discriminate.
    - split; [exact Hst1|]. intros _ Hs. discriminate. }
  destruct (eqs (Session.event message) (lit "finish")) eqn:E4.
  { destruct (Session.saveOk browser); cbn [fst].
    - rewrite Hsaved. split; [unfold progressInRange; cbn; lia|].
      intros _ _. repeat split.
    - split; [exact Hst1|]. intros _ Hs. discriminate. }
  cbn [fst]. split; [exact Hst1|]. intros Ef.
  rewrite Ef in E4. discriminate.
Qed.

(** A batch of three channels, just started, and its first channel done. *)
Definition browser_quick : Session.Browser :=
  {| Session.getOk := true; Session.nowRead := 1700000001000;
     Session.nowStale := 1700000001000; Session.staleSetOk := true;
     Session.nowSave := 1700000001000; Session.saveOk := true |}.

Definition message_done : Session.Message :=
  {| Session.event := lit "channel_done";
     Session.channelId := Some (lit "C012345678");
     Session.channelName := Some (lit "general");
     Session.totalChannels := None;
     Session.status := Some (lit "success") |}.

Lemma handleSession_progress_in_range_witness :
  progressInRange
    (stateOf (fst (Session.handleSession (fun completed total => (100 * completed / total)%Z)
                     (Some (Session.startState 3)) browser_quick message_done))).
Proof.
  destruct (handleSession_progress_in_range
              (fun completed total => (100 * completed / total)%Z)
              (Some (Session.startState 3)) browser_quick message_done) as [H _].
  - unfold progressInRange. cbn. lia.
  - cbn. lia.
  - exact H.
Defined.

(** ** The attribute values of links and images *)

(** The code units at which an inline pattern starts or a group of one
    ends. *)
Definition isMarkup (c : char) : bool :=
  eqc c (ch "!") || eqc c (ch "[") || eqc c (ch "]") || eqc c (ch ")")
  || eqc c (ch "*") || eqc c (ch "`").

(** Neither an opening angle bracket nor a marker. *)
Definition plain (c : char) : bool := negb (eqc c (ch "<")) && negb (isMarkup c).

Definition notQuote (c : char) : bool := negb (eqc c Html.quote).

(** The value of a double-quoted attribute whose opening quote comes right
    before [s]: the text up to the next double quote. *)
Definition attributeValue (s : str) : str := takeWhile notQuote s.

(** [normalizeHref] accepts the value: it does not return the empty
    string. *)
Definition accepted (value : str) : Prop := Html.normalizeHref value <> [].

(** The start of an attribute value that is accepted however it goes on. *)
Definition goodStart (v : str) : Prop :=
  Forall (fun c => plain c = true) v
  /\ forall rest, accepted (attributeValue (v ++ rest)).

Definition imgOpener : str := lit "<img src=" ++ [Html.quote].
Definition aOpener : str := lit "<a href=" ++ [Html.quote].

Definition fixedTags : list str :=
  [lit "</a>"; lit "<strong>"; lit "</strong>"; lit "<em>"; lit "</em>";
   lit "<code>"; lit "</code>";
   lit "<p>"; lit "</p>"; lit "<h1>"; lit "</h1>"; lit "<h2>"; lit "</h2>";
   lit "<h3>"; lit "</h3>"; lit "<blockquote>"; lit "</blockquote>";
   lit "<li>"; lit "</li>"; lit "<ul>"; lit "</ul>"; lit "<hr>";
   lit "<pre>"; lit "</pre>"].

(** What an opening angle bracket of the HTML starts: a tag without
    attribute (those of the inline replacements and those of the blocks of
    the document), or the opening of an image or of a link up to the start
    of its address. *)
Inductive isHead : str -> Prop :=
  | head_tag (h : str) : In h fixedTags -> isHead h
  | head_img (v : str) : goodStart v -> isHead (imgOpener ++ v)
  | head_a (v : str) : goodStart v -> isHead (aOpener ++ v).

Definition headAt (s : str) : Prop := exists h rest, isHead h /\ s = h ++ rest.

(** Every opening angle bracket of [s] starts a head. *)
Fixpoint headed (s : str) : Prop :=
  match s with
  | [] => True
  | c :: t => (c = ch "<" -> headAt (c :: t)) /\ headed t
  end.

Lemma plain_lit (s : string) :
  forallb plain (lit s) = true -> Forall (fun c => plain c = true) (lit s).
Proof. intros H. apply List.Forall_forall. apply forallb_forall. exact H. Qed.

Lemma head_shape (h : str) :
  isHead h -> exists h', h = ch "<" :: h' /\ Forall (fun c => plain c = true) h'.
Proof.
  intros [t Ht|v [Hv _]|v [Hv _]].
  - cbn [fixedTags In] in Ht.
    repeat (destruct Ht as [<-|Ht];
            [eexists; split; [reflexivity|apply List.Forall_forall, forallb_forall;
                                            vm_compute; reflexivity]|]).
    destruct Ht.
  - exists (lit "img src=" ++ [Html.quote] ++ v). split; [reflexivity|].
    apply Forall_app. split; [apply plain_lit; reflexivity|].
    apply Forall_app. split; [repeat constructor|exact Hv].
  - exists (lit "a href=" ++ [Html.quote] ++ v). split; [reflexivity|].
    apply Forall_app. split; [apply plain_lit; reflexivity|].
    apply Forall_app. split; [repeat constructor|exact Hv].
Qed.

Lemma plain_not_lt (c : char) : plain c = true -> c <> ch "<".
Proof.
  unfold plain. intros H. apply andb_true_iff in H. destruct H as [H _].
  apply negb_true_iff, eqc_neq in H. exact H.
Qed.

Lemma plain_not_marker (c : char) : plain c = true -> isMarkup c = false.
Proof.
  unfold plain. intros H. apply andb_true_iff in H. destruct H as [_ H].
  apply negb_true_iff in H. exact H.
Qed.

Lemma markup_not_lt (c : char) : isMarkup c = true -> c <> ch "<".
Proof. intros H ->. vm_compute in H. discriminate. Qed.

Lemma headed_app (a b : str) : headed a -> headed b -> headed (a ++ b).
Proof.
  induction a as [|c a IH]; intros Ha Hb; [exact Hb|].
  destruct Ha as [Hc Ha]. cbn [app headed]. split; [|apply IH; assumption].
  intros E. destruct (Hc E) as (h & rest & Hh & Eq).
  exists h, (rest ++ b). split; [exact Hh|].
  change (c :: a ++ b) with ((c :: a) ++ b). rewrite Eq, app_assoc. reflexivity.
Qed.

Lemma headed_suffix (a b : str) : headed (a ++ b) -> headed b.
Proof.
  induction a as [|c a IH]; intros H; [exact H|].
  destruct H as [_ H]. apply IH. exact H.
Qed.

Lemma headed_skipn (n : nat) (s : str) : headed s -> headed (skipn n s).
Proof.
  intros H. apply (headed_suffix (firstn n s)). rewrite firstn_skipn. exact H.
Qed.

Lemma headed_plain (x : str) : Forall (fun c => c <> ch "<") x -> headed x.
Proof.
  induction 1 as [|c x Hc _ IH]; [exact I|]. split; [|exact IH].
  intros E. contradiction.
Qed.

Lemma headed_all_plain (x : str) : Forall (fun c => plain c = true) x -> headed x.
Proof.
  intros H. apply headed_plain. eapply List.Forall_impl; [|exact H].
  intros c. apply plain_not_lt.
Qed.

(** A run of plain units at the head of [g ++ m :: r] ends before the
    marker [m]. *)
Lemma plain_before_marker (h' : str) : forall (g : str) (m : char) (r rest : str),
  Forall (fun c => plain c = true) h' ->
  isMarkup m = true ->
  g ++ m :: r = h' ++ rest ->
  exists rest', g = h' ++ rest'.
Proof.
  induction h' as [|y h' IH]; intros g m r rest Hp Hm E; [exists g; reflexivity|].
  inversion Hp as [|? ? Hy Hp']; subst.
  destruct g as [|x g].
  - cbn [app] in E. inversion E; subst.
    apply plain_not_marker in Hy. congruence.
  - cbn [app] in E. inversion E; subst.
    destruct (IH g m r rest Hp' Hm H1) as [rest' ->]. exists rest'. reflexivity.
Qed.

(** A group that a marker ends keeps its heads whole. *)
Lemma headed_cut (g : str) (m : char) (r : str) :
  headed (g ++ m :: r) -> isMarkup m = true -> headed g.
Proof.
  intros H Hm. induction g as [|c g IH]; [exact I|].
  destruct H as [Hc H]. split; [|apply IH; exact H].
  intros E. destruct (Hc E) as (h & rest & Hh & Eq).
  destruct (head_shape h Hh) as (h' & -> & Hp).
  cbn [app] in Eq. inversion Eq as [[Ec Eq']].
  destruct (plain_before_marker h' g m r rest Hp Hm Eq') as [rest' ->].
  exists (ch "<" :: h'), rest'. split; [exact Hh|]. reflexivity.
Qed.

Lemma headed_cut_with (g : str) (m : char) (r : str) :
  headed (g ++ m :: r) -> isMarkup m = true -> headed (g ++ [m]).
Proof.
  intros H Hm. apply headed_app; [eapply headed_cut; eassumption|].
  split; [|exact I]. intros E. exfalso. exact (markup_not_lt m Hm E).
Qed.

Lemma headed_tag (h t : str) : In h fixedTags -> headed t -> headed (h ++ t).
Proof.
  intros Hin Ht. destruct (head_shape h (head_tag h Hin)) as (h' & -> & Hp).
  cbn [app]. split.
  - intros _. exists (ch "<" :: h'), t. split; [apply head_tag; exact Hin|reflexivity].
  - apply headed_app; [apply headed_all_plain; exact Hp|exact Ht].
Qed.

Lemma headed_img (v r : str) : goodStart v -> headed r -> headed (imgOpener ++ v ++ r).
Proof.
  intros Hv Hr. destruct (head_shape _ (head_img v Hv)) as (h' & E & Hp).
  rewrite app_assoc, E. cbn [app]. split.
  - intros _. exists (imgOpener ++ v), r. split; [apply head_img; exact Hv|].
    rewrite E. reflexivity.
  - apply headed_app; [apply headed_all_plain; exact Hp|exact Hr].
Qed.

Lemma headed_a (v r : str) : goodStart v -> headed r -> headed (aOpener ++ v ++ r).
Proof.
  intros Hv Hr. destruct (head_shape _ (head_a v Hv)) as (h' & E & Hp).
  rewrite app_assoc, E. cbn [app]. split.
  - intros _. exists (aOpener ++ v), r. split; [apply head_a; exact Hv|].
    rewrite E. reflexivity.
  - apply headed_app; [apply headed_all_plain; exact Hp|exact Hr].
Qed.

(** *** A global replacement keeps the heads *)

Section GsubHeaded.

Variable matchAt : str -> option Replace.Match.
Variable subst : Replace.Match -> str -> str -> str -> str.

(** A match starts at a marker and is not empty, and its replacement is
    headed when the text it is found in is. *)
Hypothesis starts_at_marker : forall t m,
  matchAt t = Some m -> exists c t', t = c :: t' /\ plain c = false.
Hypothesis not_empty : forall t m, matchAt t = Some m -> Replace.mlen m <> 0.
Hypothesis subst_headed : forall t m before,
  headed t -> matchAt t = Some m ->
  headed (subst m (firstn (Replace.mlen m) t) before (skipn (Replace.mlen m) t)).

Lemma copy_plain (h' : str) : forall (s pre : str),
  Forall (fun c => plain c = true) h' ->
  Replace.gsubFrom matchAt subst 0 pre (h' ++ s)
  = h' ++ Replace.gsubFrom matchAt subst 0 (rev h' ++ pre) s.
Proof.
  induction h' as [|y h' IH]; intros s pre Hp; [reflexivity|].
  inversion Hp as [|? ? Hy Hp']; subst.
  cbn [app Replace.gsubFrom].
  destruct (matchAt (y :: h' ++ s)) as [m|] eqn:Em.
  - destruct (starts_at_marker _ _ Em) as (c & t' & E & Hc).
    inversion E; subst. congruence.
  - rewrite IH by exact Hp'. cbn [rev]. rewrite <- app_assoc. reflexivity.
Qed.

Lemma gsubFrom_headed (s : str) : forall (skip : nat) (pre : str),
  headed (skipn skip s) -> headed (Replace.gsubFrom matchAt subst skip pre s).
Proof.
  induction s as [|c s IH]; intros skip pre H.
  - cbn [Replace.gsubFrom]. destruct skip; [|exact I].
    destruct (matchAt []) as [m|] eqn:Em; [|exact I].
    destruct (starts_at_marker _ _ Em) as (x & t' & E & _). discriminate.
  - destruct skip as [|k]; cbn [Replace.gsubFrom].
    + cbn [skipn] in H.
      destruct (matchAt (c :: s)) as [m|] eqn:Em.
      * destruct (Replace.mlen m) as [|k] eqn:El; [exfalso; eapply not_empty; eassumption|].
        apply headed_app.
        -- rewrite <- El. apply subst_headed; assumption.
        -- apply IH. apply headed_skipn. destruct H as [_ H]. exact H.
      * pose proof H as [Hc Hs]. split; [|apply IH; exact Hs].
        intros E. destruct (Hc E) as (h & rest & Hh & Eq).
        destruct (head_shape h Hh) as (h' & -> & Hp).
        cbn [app] in Eq. inversion Eq as [[Ec Es]].
        rewrite copy_plain by exact Hp.
        exists (ch "<" :: h'), (Replace.gsubFrom matchAt subst 0 (rev h' ++ ch "<" :: pre) rest).
        split; [exact Hh|reflexivity].
    + apply IH. exact H.
Qed.

Lemma gsub_headed (s : str) : headed s -> headed (Replace.gsub matchAt subst s).
Proof. intros H. apply gsubFrom_headed. exact H. Qed.

End GsubHeaded.

(** *** The shape of the matches *)

Lemma bracketed_spec (rest label href : str) :
  Html.bracketed rest = Some (label, href) ->
  exists rest3,
    rest = label ++ ch "]" :: ch "(" :: href ++ ch ")" :: rest3
    /\ href <> []
    /\ Forall (fun c => Html.isHrefChar c = true) href.
Proof.
  unfold Html.bracketed. cbv zeta. rewrite !skipn_takeWhile.
  pose proof (dropWhile_takeWhile Html.notBracket rest) as Hrest.
  destruct (dropWhile Html.notBracket rest) as [|e [|f rest2]];
    [discriminate|discriminate|].
  destruct (eqc e (ch "]") && eqc f (ch "(")) eqn:Eef; [|discriminate].
  apply andb_true_iff in Eef. destruct Eef as [Ee Ef].
  apply eqc_eq in Ee, Ef. subst e f.
  pose proof (dropWhile_takeWhile Html.isHrefChar rest2) as Hrest2.
  pose proof (takeWhile_all Html.isHrefChar rest2) as Hall.
  destruct (takeWhile Html.isHrefChar rest2) as [|h0 href0] eqn:Eh; [discriminate|].
  rewrite <- Eh in *. rewrite skipn_takeWhile.
  destruct (dropWhile Html.isHrefChar rest2) as [|g rest3]; [discriminate|].
  destruct (eqc g (ch ")")) eqn:Eg; [|discriminate].
  apply eqc_eq in Eg. subst g. intros E. inversion E; subst label href.
  exists rest3. split; [|split; [rewrite Eh; discriminate|exact Hall]].
  rewrite Hrest at 1. rewrite Hrest2 at 1. reflexivity.
Qed.

Lemma imageAt_spec (t : str) (m : Replace.Match) :
  Html.imageAt t = Some m ->
  exists alt href rest3,
    t = ch "!" :: ch "[" :: alt ++ ch "]" :: ch "(" :: href ++ ch ")" :: rest3
    /\ Replace.mcaps m = [alt; href]
    /\ Replace.mlen m = length (ch "!" :: ch "[" :: alt ++ ch "]" :: ch "(" :: href ++ [ch ")"])
    /\ href <> []
    /\ Forall (fun c => Html.isHrefChar c = true) href.
Proof.
  unfold Html.imageAt. destruct t as [|c [|d rest]]; try discriminate.
  destruct (eqc c (ch "!") && eqc d (ch "[")) eqn:Ecd; [|discriminate].
  apply andb_true_iff in Ecd. destruct Ecd as [Ec Ed]. apply eqc_eq in Ec, Ed. subst c d.
  destruct (Html.bracketed rest) as [[alt href]|] eqn:Eb; [|discriminate].
  intros E. inversion E; subst m. clear E.
  destruct (bracketed_spec rest alt href Eb) as (rest3 & -> & Hne & Hall).
  exists alt, href, rest3. cbn [Replace.mcaps Replace.mlen].
  repeat split; try assumption.
  cbn [length]. rewrite !length_app. cbn [length]. rewrite length_app. cbn [length]. lia.
Qed.

Lemma linkAt_spec (t : str) (m : Replace.Match) :
  Html.linkAt t = Some m ->
  exists label href rest3,
    t = ch "[" :: label ++ ch "]" :: ch "(" :: href ++ ch ")" :: rest3
    /\ Replace.mcaps m = [label; href]
    /\ Replace.mlen m = length (ch "[" :: label ++ ch "]" :: ch "(" :: href ++ [ch ")"])
    /\ href <> []
    /\ Forall (fun c => Html.isHrefChar c = true) href.
Proof.
  unfold Html.linkAt. destruct t as [|c rest]; try discriminate.
  destruct (eqc c (ch "[")) eqn:Ec; [|discriminate].
  apply eqc_eq in Ec. subst c.
  destruct (Html.bracketed rest) as [[label href]|] eqn:Eb; [|discriminate].
  destruct label as [|l0 label0] eqn:El; [discriminate|]. rewrite <- El in *.
  assert (Em : forall x, (match label with [] => None | _ :: _ => Some x end : option Replace.Match)
                         = Some x) by (intros x; rewrite El; reflexivity).
  intros E.
  destruct (bracketed_spec rest label href Eb) as (rest3 & -> & Hne & Hall).
  exists label, href, rest3.
  assert (m = {| Replace.mlen := 1 + length label + 2 + length href + 1;
                 Replace.mcaps := [label; href] |}) as ->.
  { rewrite El in E. inversion E. rewrite El. reflexivity. }
  cbn [Replace.mcaps Replace.mlen]. repeat split; try assumption.
  cbn [length]. rewrite !length_app. cbn [length]. rewrite length_app. cbn [length]. lia.
Qed.

Lemma lazyUntil_spec (closer : str) (s : str) : forall n,
  Html.lazyUntil closer s = Some n ->
  exists cap after, s = cap ++ closer ++ after /\ length cap = n /\ n <> 0.
Proof.
  induction s as [|c s IH]; intros n H; cbn [Html.lazyUntil] in H; [discriminate|].
  destruct (isLineTerminator c); [discriminate|].
  destruct (startsWith closer s) eqn:Es.
  - inversion H; subst n. apply startsWith_spec in Es.
    exists [c], (skipn (length closer) s). cbn [app length].
    split; [f_equal; exact Es|split; [reflexivity|discriminate]].
  - destruct (Html.lazyUntil closer s) as [k|] eqn:Ek; [|discriminate].
    cbn [option_map] in H. inversion H; subst n.
    destruct (IH k eq_refl) as (cap & after & -> & Hl & _).
    exists (c :: cap), after. cbn [app length]. repeat split; [lia|discriminate].
Qed.

Lemma delimitedAt_spec (marker t : str) (m : Replace.Match) :
  Html.delimitedAt marker t = Some m ->
  exists cap after,
    t = marker ++ cap ++ marker ++ after
    /\ Replace.mcaps m = [cap]
    /\ Replace.mlen m = length (marker ++ cap ++ marker)
    /\ cap <> [].
Proof.
  unfold Html.delimitedAt. destruct (startsWith marker t) eqn:Es; [|discriminate].
  apply startsWith_spec in Es.
  destruct (Html.lazyUntil marker (skipn (length marker) t)) as [n|] eqn:El; [|discriminate].
  intros E. inversion E; subst m. clear E.
  destruct (lazyUntil_spec _ _ _ El) as (cap & after & Er & Hl & Hn).
  exists cap, after. cbn [Replace.mcaps Replace.mlen].
  rewrite Er, firstn_exact by (symmetry; exact Hl).
  repeat split.
  - rewrite Es at 1. rewrite Er. reflexivity.
  - rewrite !length_app. lia.
  - intros ->. cbn in Hl. congruence.
Qed.

(** A template with one [$1] between two texts without dollar signs, the
    second one not starting with a digit. *)
Lemma expand_one_capture (cap matched before after pre post : str) :
  Forall (fun c => c <> ch "$") pre ->
  Forall (fun c => c <> ch "$") post ->
  match post with c :: _ => isDigit c = false | [] => True end ->
  Replace.expand [cap] matched before after (pre ++ [ch "$"; ch "1"] ++ post)
  = pre ++ cap ++ post.
Proof.
  intros Hpre Hpost Hd. induction Hpre as [|c pre Hc _ IH].
  - cbn [app Replace.expand].
    change (eqc (ch "$") (ch "$")) with true.
    change (eqc (ch "1") (ch "$")) with false.
    change (eqc (ch "1") (ch "&")) with false.
    change (eqc (ch "1") (ch "`")) with false.
    change (eqc (ch "1") (ch "'")) with false.
    change (isDigit (ch "1")) with true.
    change (Replace.digitVal (ch "1")) with 1.
    cbn [length Nat.leb andb Replace.capture Nat.sub nth]. cbv iota.
    rewrite expand_literal by exact Hpost.
    destruct post as [|e post]; [reflexivity|]. rewrite Hd. reflexivity.
  - cbn [app Replace.expand]. apply eqc_neq in Hc. rewrite Hc. f_equal. exact IH.
Qed.

(** *** Addresses that [normalizeHref] accepts *)

(** Plain, not a double quote and not white space. *)
Definition solidPlain (c : char) : bool :=
  plain c && notQuote c && negb (isWhiteSpace c).

Lemma solidPlain_parts (c : char) :
  solidPlain c = true -> plain c = true /\ notQuote c = true /\ isWhiteSpace c = false.
Proof.
  unfold solidPlain. intros H. apply andb_true_iff in H. destruct H as [H H3].
  apply andb_true_iff in H. destruct H as [H1 H2]. apply negb_true_iff in H3. auto.
Qed.

Lemma pathChar_solidPlain (c : char) : Html.isPathChar c = true -> solidPlain c = true.
Proof.
  unfold Html.isPathChar, solidPlain, plain, isMarkup, notQuote, Html.quote, isWhiteSpace,
    isAlnum, isDigit, isUpper, isLower, eqc.
  unfold_ch. intros H. b2p. lia.
Qed.

Lemma segmentChar_pathChar (c : char) :
  Html.isSegmentChar c = true -> Html.isPathChar c = true.
Proof.
  unfold Html.isSegmentChar, Html.isPathChar. intros H.
  destruct (isAlnum c); [reflexivity|].
  destruct (eqc c (ch ".")); [reflexivity|].
  destruct (eqc c (ch "_")); [reflexivity|].
  cbn [orb] in H |- *. rewrite H. destruct (eqc c (ch "%")); reflexivity.
Qed.

(** A code unit whose lower-case form is [x] is [x] or its upper-case
    form. *)
Lemma lower_solidPlain (c x : char) :
  lowerAscii c = x -> solidPlain x && solidPlain (x - 32) = true -> solidPlain c = true.
Proof.
  unfold lowerAscii, isUpper. intros E H. apply andb_true_iff in H. destruct H as [H1 H2].
  destruct ((65 <=? c) && (c <=? 90))%N eqn:Eu.
  - subst x. replace (c + 32 - 32)%N with c in H2 by lia. exact H2.
  - subst x. exact H1.
Qed.

Lemma startsWith_map_split (f : char -> char) (p : str) : forall s,
  startsWith p (map f s) = true -> exists a b, s = a ++ b /\ map f a = p.
Proof.
  induction p as [|x p IH]; intros s H; [exists [], s; split; reflexivity|].
  destruct s as [|c s]; [discriminate|]. cbn [map startsWith] in H.
  apply andb_true_iff in H. destruct H as [Hx Hp]. apply eqc_eq in Hx.
  destruct (IH s Hp) as (a & b & -> & Ea). exists (c :: a), b.
  split; [reflexivity|]. cbn [map]. congruence.
Qed.

Lemma takeWhile_app_all (f : char -> bool) (a b : str) :
  Forall (fun c => f c = true) a -> takeWhile f (a ++ b) = a ++ takeWhile f b.
Proof.
  induction 1 as [|c a Hc _ IH]; [reflexivity|]. cbn [app takeWhile].
  rewrite Hc, IH. reflexivity.
Qed.

Lemma takeWhile_stop (f : char -> bool) (a : str) (x : char) (b : str) :
  Forall (fun c => f c = true) a -> f x = false -> takeWhile f (a ++ x :: b) = a.
Proof.
  intros Ha Hx. rewrite takeWhile_app_all by exact Ha. cbn [takeWhile].
  rewrite Hx. apply app_nil_r.
Qed.

(** Trimming keeps a start without white space. *)
Lemma trim_keeps_start (p y : str) :
  p <> [] -> Forall (fun c => isWhiteSpace c = false) p ->
  exists y', trim (p ++ y) = p ++ y'.
Proof.
  intros Hne Hp.
  destruct (trim_decompose (p ++ y)) as (w1 & w2 & E & H1 & H2 & _).
  assert (Hw1 : w1 = []).
  { destruct w1 as [|c w1]; [reflexivity|]. exfalso.
    destruct p as [|a p]; [contradiction|].
    cbn [app] in E. inversion E; subst.
    inversion H1; subst. inversion Hp; subst. congruence. }
  subst w1. cbn [app] in E.
  apply app_eq_app in E. destruct E as (l & [[E1 E2]|[E1 E2]]).
  - (* p = trim _ ++ l *)
    assert (l = []) as ->.
    { destruct l as [|c l]; [reflexivity|]. exfalso.
      assert (Hc : isWhiteSpace c = true).
      { rewrite E2 in H2. inversion H2; subst. assumption. }
      assert (Hc' : isWhiteSpace c = false).
      { rewrite E1 in Hp. apply Forall_app in Hp. destruct Hp as [_ Hp].
        inversion Hp; subst. assumption. }
      congruence. }
    rewrite app_nil_r in E1. exists []. rewrite app_nil_r. symmetry. exact E1.
  - exists l. exact E1.
Qed.

Definition allowedPrefixes : list str :=
  [lit "http://"; lit "https://"; lit "mailto:"; lit "#"; lit "/"; lit "./"; lit "../"].

Lemma allowedPrefix_spec (value : str) :
  Html.allowedPrefix value = true <->
  exists p, In p allowedPrefixes /\ Html.startsWithIgnoreCase p value = true.
Proof.
  unfold Html.allowedPrefix, allowedPrefixes. rewrite !orb_true_iff. cbn [In]. split.
  - intros [[[[[[H|H]|H]|H]|H]|H]|H];
      [exists (lit "http://")|exists (lit "https://")|exists (lit "mailto:")
      |exists (lit "#")|exists (lit "/")|exists (lit "./")|exists (lit "../")];
      (split; [|exact H]); repeat (first [left; reflexivity | right]).
  - intros (p & Hp & H).
    repeat (destruct Hp as [<-|Hp]; [tauto|]). destruct Hp.
Qed.

Lemma prefix_solidPlain (p : str) :
  In p allowedPrefixes ->
  p <> [] /\ Forall (fun x => solidPlain x && solidPlain (x - 32) = true) p.
Proof.
  unfold allowedPrefixes. cbn [In]. intros H.
  repeat (destruct H as [<-|H];
          [split; [discriminate|apply List.Forall_forall, forallb_forall;
                                vm_compute; reflexivity]|]).
  destruct H.
Qed.

Lemma normalizeHref_solid (value : str) :
  value <> [] -> Forall (fun c => isWhiteSpace c = false) value ->
  Html.normalizeHref value = if Html.isAllowed value then value else [].
Proof.
  intros Hne Hs. unfold Html.normalizeHref. cbv zeta.
  pose proof (trim_solid [] value [] (List.Forall_nil _) (List.Forall_nil _) Hs) as Ht.
  cbn [app] in Ht. rewrite app_nil_r in Ht. rewrite Ht.
  destruct value; [contradiction|reflexivity].
Qed.

(** An accepted address starts an attribute value that stays accepted
    whatever is put in place of its later parts. *)
Lemma accepted_start (href r : str) :
  href <> [] -> Forall (fun c => isWhiteSpace c = false) href ->
  Html.isAllowed href = true ->
  exists v r', href ++ Html.quote :: r = v ++ r' /\ goodStart v.
Proof.
  intros Hne Hs Ha. unfold Html.isAllowed in Ha. apply orb_true_iff in Ha.
  destruct Ha as [Ha|Ha].
  - apply allowedPrefix_spec in Ha. destruct Ha as (p & Hp & Hstart).
    destruct (prefix_solidPlain p Hp) as [Hpne Hpok].
    unfold Html.startsWithIgnoreCase in Hstart.
    destruct (startsWith_map_split lowerAscii p href Hstart) as (a & b & -> & Ea).
    assert (Hsolid : Forall (fun c => solidPlain c = true) a).
    { clear - Ea Hpok. revert p Ea Hpok. induction a as [|c a IH]; intros p Ea Hpok;
        [constructor|].
      destruct p as [|x p]; [discriminate|]. cbn [map] in Ea. inversion Ea; subst.
      inversion Hpok; subst. constructor; [|eapply IH; [reflexivity|eassumption]].
      eapply lower_solidPlain; [reflexivity|eassumption]. }
    assert (Hane : a <> []) by (intros ->; apply Hpne; symmetry; exact Ea).
    exists a, (b ++ Html.quote :: r). split; [rewrite <- app_assoc; reflexivity|].
    split.
    + eapply List.Forall_impl; [|exact Hsolid]. intros c Hc.
      apply solidPlain_parts in Hc. tauto.
    + intros rest. unfold accepted, attributeValue.
      rewrite takeWhile_app_all
        by (eapply List.Forall_impl; [|exact Hsolid]; intros c Hc;
            apply solidPlain_parts in Hc; tauto).
      destruct (trim_keeps_start a (takeWhile notQuote rest) Hane) as [y' Hy'].
      { eapply List.Forall_impl; [|exact Hsolid]. intros c Hc.
        apply solidPlain_parts in Hc. tauto. }
      unfold Html.normalizeHref. cbv zeta. rewrite Hy'.
      assert (Hallowed : Html.isAllowed (a ++ y') = true).
      { unfold Html.isAllowed. apply orb_true_iff. left. apply allowedPrefix_spec.
        exists p. split; [exact Hp|]. unfold Html.startsWithIgnoreCase.
        rewrite map_app, Ea. apply startsWith_app. }
      rewrite Hallowed. destruct a; [contradiction|discriminate].
  - assert (Hpath : Forall (fun c => Html.isPathChar c = true) href).
    { unfold Html.bareRelative in Ha.
      pose proof (dropWhile_takeWhile Html.isSegmentChar href) as Hsplit.
      pose proof (takeWhile_all Html.isSegmentChar href) as Hseg.
      destruct (takeWhile Html.isSegmentChar href) as [|s0 seg] eqn:Et; [discriminate|].
      rewrite <- Et in *. rewrite skipn_takeWhile in Ha.
      destruct (dropWhile Html.isSegmentChar href) as [|slash [|c2 rest]];
        [discriminate|discriminate|].
      apply andb_true_iff in Ha. destruct Ha as [Hslash Hrest].
      apply eqc_eq in Hslash. subst slash.
      rewrite Hsplit. apply Forall_app. split.
      - eapply List.Forall_impl; [|exact Hseg]. intros c. apply segmentChar_pathChar.
      - constructor; [reflexivity|].
        apply List.Forall_forall. apply forallb_forall. exact Hrest. }
    assert (Hsolid : Forall (fun c => solidPlain c = true) href).
    { eapply List.Forall_impl; [|exact Hpath]. intros c. apply pathChar_solidPlain. }
    exists (href ++ [Html.quote]), r. split; [rewrite <- app_assoc; reflexivity|].
    split.
    + apply Forall_app. split; [|repeat constructor].
      eapply List.Forall_impl; [|exact Hsolid]. intros c Hc.
      apply solidPlain_parts in Hc. tauto.
    + intros rest. unfold accepted, attributeValue.
      rewrite <- app_assoc. cbn [app].
      rewrite takeWhile_stop;
        [|eapply List.Forall_impl; [|exact Hsolid]; intros c Hc;
          apply solidPlain_parts in Hc; tauto|reflexivity].
      rewrite normalizeHref_solid by assumption.
      assert (Html.isAllowed href = true) as ->
        by (unfold Html.isAllowed; rewrite Ha; apply orb_true_r).
      exact Hne.
Qed.

Lemma hrefChar_solid (href : str) :
  Forall (fun c => Html.isHrefChar c = true) href ->
  Forall (fun c => isWhiteSpace c = false) href.
Proof.
  intros H. eapply List.Forall_impl; [|exact H]. intros c Hc.
  unfold Html.isHrefChar in Hc. apply andb_true_iff in Hc. destruct Hc as [_ Hc].
  apply negb_true_iff in Hc. exact Hc.
Qed.

(** What the callbacks of the image and link replacements get from
    [normalizeHref]. *)
Lemma normalizeHref_capture (href : str) :
  href <> [] -> Forall (fun c => Html.isHrefChar c = true) href ->
  Html.normalizeHref href = []
  \/ (Html.normalizeHref href = href /\ Html.isAllowed href = true).
Proof.
  intros Hne Hc. rewrite normalizeHref_solid by (try apply hrefChar_solid; assumption).
  destruct (Html.isAllowed href); [right; split; reflexivity|left; reflexivity].
Qed.

(** *** The five replacements of [inlineMarkdownToHtml] *)

Lemma headed_lit (s : string) (t : str) :
  forallb (fun c => negb (eqc c (ch "<"))) (lit s) = true ->
  headed t -> headed (lit s ++ t).
Proof.
  intros H Ht. apply headed_app; [|exact Ht]. apply headed_plain.
  apply List.Forall_forall. intros c Hc.
  rewrite forallb_forall in H. specialize (H c Hc).
  apply negb_true_iff, eqc_neq in H. exact H.
Qed.

Lemma headed_lit_only (s : string) :
  forallb (fun c => negb (eqc c (ch "<"))) (lit s) = true -> headed (lit s).
Proof.
  intros H. rewrite <- (app_nil_r (lit s)). apply headed_lit; [exact H|exact I].
Qed.

Lemma headed_quote (t : str) : headed t -> headed (Html.quote :: t).
Proof. intros H. split; [discriminate|exact H]. Qed.

Lemma headed_quoted (x t : str) : headed x -> headed t -> headed (Html.quoted x ++ t).
Proof.
  intros Hx Ht. unfold Html.quoted. cbn [app]. apply headed_quote.
  rewrite <- app_assoc. apply headed_app; [exact Hx|]. apply headed_quote. exact Ht.
Qed.

Lemma imageHtml_headed (t : str) (m : Replace.Match) (before : str) :
  headed t -> Html.imageAt t = Some m ->
  headed (Html.imageHtml m (firstn (Replace.mlen m) t) before (skipn (Replace.mlen m) t)).
Proof.
  intros Ht Hm.
  destruct (imageAt_spec t m Hm) as (alt & href & rest3 & Et & Ecaps & Elen & Hne & Hc).
  assert (E1 : t = [ch "!"; ch "["] ++ alt ++ ch "]" :: ch "(" :: href ++ ch ")" :: rest3)
    by (rewrite Et; reflexivity).
  assert (E2 : t = (ch "!" :: ch "[" :: alt ++ [ch "]"; ch "("]) ++ href ++ ch ")" :: rest3)
    by (rewrite Et; cbn [app]; rewrite <- app_assoc; reflexivity).
  assert (E3 : t = (ch "!" :: ch "[" :: alt ++ ch "]" :: ch "(" :: href) ++ ch ")" :: rest3).
  { rewrite Et. cbn [app]. rewrite <- app_assoc. reflexivity. }
  assert (Halt : headed alt).
  { rewrite E1 in Ht. apply headed_suffix in Ht.
    eapply headed_cut; [exact Ht|reflexivity]. }
  assert (Hhref : headed href).
  { rewrite E2 in Ht. apply headed_suffix in Ht.
    eapply headed_cut; [exact Ht|reflexivity]. }
  unfold Html.imageHtml. rewrite Ecaps. cbn [Replace.capture Nat.sub nth]. cbv zeta.
  destruct (normalizeHref_capture href Hne Hc) as [E|[E Hallowed]]; rewrite E.
  - rewrite E3 in Ht. apply headed_cut_with in Ht; [|reflexivity].
    replace (firstn (Replace.mlen m) t)
      with ((ch "!" :: ch "[" :: alt ++ ch "]" :: ch "(" :: href) ++ [ch ")"]);
      [exact Ht|].
    symmetry. rewrite E3.
    change (?a ++ ch ")" :: rest3) with (a ++ [ch ")"] ++ rest3).
    rewrite app_assoc. apply firstn_exact.
    rewrite Elen. cbn [length]. rewrite !length_app. cbn [length].
    rewrite !length_app. cbn [length]. lia.
  - set (r := lit " alt=" ++ Html.quoted alt ++ lit " loading=" ++ Html.quoted (lit "lazy")
              ++ lit ">").
    assert (Hr : headed r).
    { unfold r. apply headed_lit; [reflexivity|]. apply headed_quoted; [exact Halt|].
      apply headed_lit; [reflexivity|]. apply headed_quoted.
      - apply headed_lit_only. reflexivity.
      - apply headed_lit_only. reflexivity. }
    destruct (accepted_start href r Hne (hrefChar_solid href Hc) Hallowed)
      as (v & r' & Ev & Hv).
    assert (Hall : headed (href ++ Html.quote :: r))
      by (apply headed_app; [exact Hhref|apply headed_quote; exact Hr]).
    rewrite Ev in Hall. apply headed_suffix in Hall.
    pose proof (headed_img v r' Hv Hall) as Hfinal. rewrite <- Ev in Hfinal.
    destruct href as [|h0 href0]; [contradiction|].
    unfold Html.quoted at 1. unfold imgOpener in Hfinal.
    rewrite <- !app_assoc in Hfinal. cbn [app] in Hfinal |- *.
    rewrite <- !app_assoc. cbn [app]. exact Hfinal.
Qed.

Lemma linkHtml_headed (t : str) (m : Replace.Match) (before : str) :
  headed t -> Html.linkAt t = Some m ->
  headed (Html.linkHtml m (firstn (Replace.mlen m) t) before (skipn (Replace.mlen m) t)).
Proof.
  intros Ht Hm.
  destruct (linkAt_spec t m Hm) as (label & href & rest3 & Et & Ecaps & Elen & Hne & Hc).
  assert (E1 : t = [ch "["] ++ label ++ ch "]" :: ch "(" :: href ++ ch ")" :: rest3)
    by (rewrite Et; reflexivity).
  assert (E2 : t = (ch "[" :: label ++ [ch "]"; ch "("]) ++ href ++ ch ")" :: rest3)
    by (rewrite Et; cbn [app]; rewrite <- app_assoc; reflexivity).
  assert (Hlabel : headed label).
  { rewrite E1 in Ht. apply headed_suffix in Ht.
    eapply headed_cut; [exact Ht|reflexivity]. }
  assert (Hhref : headed href).
  { rewrite E2 in Ht. apply headed_suffix in Ht.
    eapply headed_cut; [exact Ht|reflexivity]. }
  unfold Html.linkHtml. rewrite Ecaps. cbn [Replace.capture Nat.sub nth]. cbv zeta.
  destruct (normalizeHref_capture href Hne Hc) as [E|[E Hallowed]]; rewrite E;
    [exact Hlabel|].
  set (r := lit " target=" ++ Html.quoted (lit "_blank") ++ lit " rel="
            ++ Html.quoted (lit "noopener noreferrer") ++ lit ">" ++ label ++ lit "</a>").
  assert (Hr : headed r).
  { unfold r. apply headed_lit; [reflexivity|].
    apply headed_quoted; [apply headed_lit_only; reflexivity|].
    apply headed_lit; [reflexivity|].
    apply headed_quoted; [apply headed_lit_only; reflexivity|].
    apply headed_lit; [reflexivity|].
    apply headed_app; [exact Hlabel|].
    rewrite <- (app_nil_r (lit "</a>")). apply headed_tag; [|exact I].
    cbn [fixedTags In]. auto. }
  destruct (accepted_start href r Hne (hrefChar_solid href Hc) Hallowed)
    as (v & r' & Ev & Hv).
  assert (Hall : headed (href ++ Html.quote :: r))
    by (apply headed_app; [exact Hhref|apply headed_quote; exact Hr]).
  rewrite Ev in Hall. apply headed_suffix in Hall.
  pose proof (headed_a v r' Hv Hall) as Hfinal. rewrite <- Ev in Hfinal.
  destruct href as [|h0 href0]; [contradiction|].
  unfold Html.quoted at 1. unfold aOpener in Hfinal.
  rewrite <- !app_assoc in Hfinal. cbn [app] in Hfinal |- *.
  rewrite <- !app_assoc. cbn [app]. exact Hfinal.
Qed.

(** The bold, italic and code replacements: a marker, a text, the marker
    again, replaced by the text between two tags. *)
Lemma delimited_headed (k : char) (marker opening closing : str) (s : str) :
  isMarkup k = true ->
  In opening fixedTags -> In closing fixedTags ->
  Forall (fun c => c <> ch "$") opening -> Forall (fun c => c <> ch "$") closing ->
  headed s ->
  headed (Replace.gsub (Html.delimitedAt (k :: marker))
            (Replace.byTemplate (opening ++ [ch "$"; ch "1"] ++ closing)) s).
Proof.
  intros Hk Hopen Hclose Hdo Hdc Hs. apply gsub_headed; [| | |exact Hs].
  - intros t m Hm. destruct (delimitedAt_spec _ _ _ Hm) as (cap & after & -> & _).
    exists k, (marker ++ cap ++ (k :: marker) ++ after). split; [reflexivity|].
    unfold plain. rewrite Hk. apply andb_false_r.
  - intros t m Hm. destruct (delimitedAt_spec _ _ _ Hm) as (cap & after & _ & _ & -> & _).
    cbn [app length]. discriminate.
  - intros t m before Ht Hm.
    destruct (delimitedAt_spec _ _ _ Hm) as (cap & after & Et & Ecaps & _ & _).
    unfold Replace.byTemplate. rewrite Ecaps.
    rewrite expand_one_capture; [|exact Hdo|exact Hdc|].
    + apply headed_tag; [exact Hopen|]. apply headed_app.
      * rewrite Et in Ht. apply headed_suffix in Ht. cbn [app] in Ht.
        eapply headed_cut; [exact Ht|exact Hk].
      * rewrite <- (app_nil_r closing). apply headed_tag; [exact Hclose|exact I].
    + destruct (head_shape closing (head_tag closing Hclose)) as (h' & -> & _).
      reflexivity.
Qed.

Lemma escapeHtml_no_lt (text : str) :
  Forall (fun c => c <> ch "<") (Html.escapeHtml text).
Proof.
  rewrite escapeHtml_flat_map. induction text as [|c t IH]; [constructor|].
  cbn [flat_map]. apply Forall_app. split; [|exact IH]. unfold htmlEntity.
  destruct (eqc c (ch "&")); [repeat constructor; discriminate|].
  destruct (eqc c (ch "<")) eqn:E; [repeat constructor; discriminate|].
  apply eqc_neq in E.
  repeat match goal with
    | |- context [if ?b then _ else _] => destruct b; [repeat constructor; discriminate|]
    end.
  repeat constructor. exact E.
Qed.

Lemma inlineMarkdownToHtml_headed (text : str) : headed (Html.inlineMarkdownToHtml text).
Proof.
  unfold Html.inlineMarkdownToHtml. cbv zeta.
  change (lit "<strong>$1</strong>")
    with (lit "<strong>" ++ [ch "$"; ch "1"] ++ lit "</strong>").
  change (lit "<em>$1</em>") with (lit "<em>" ++ [ch "$"; ch "1"] ++ lit "</em>").
  change (lit "<code>$1</code>") with (lit "<code>" ++ [ch "$"; ch "1"] ++ lit "</code>").
  change (lit "**") with (ch "*" :: lit "*").
  change (lit "*") with (ch "*" :: []).
  change (lit "`") with (ch "`" :: []).
  assert (Hlit : forall s : string,
            forallb (fun c => negb (eqc c (ch "$"))) (lit s) = true ->
            Forall (fun c => c <> ch "$") (lit s)).
  { intros s H. apply List.Forall_forall. intros c Hc.
    rewrite forallb_forall in H. specialize (H c Hc).
    apply negb_true_iff, eqc_neq in H. exact H. }
  apply delimited_headed;
    [reflexivity|cbn [fixedTags In]; auto 10|cbn [fixedTags In]; auto 10
    |apply Hlit; reflexivity|apply Hlit; reflexivity|].
  apply delimited_headed;
    [reflexivity|cbn [fixedTags In]; auto 10|cbn [fixedTags In]; auto 10
    |apply Hlit; reflexivity|apply Hlit; reflexivity|].
  apply delimited_headed;
    [reflexivity|cbn [fixedTags In]; auto 10|cbn [fixedTags In]; auto 10
    |apply Hlit; reflexivity|apply Hlit; reflexivity|].
  apply gsub_headed.
  - intros t m Hm. destruct (linkAt_spec t m Hm) as (label & href & rest3 & -> & _).
    eexists _, _. split; reflexivity.
  - intros t m Hm. destruct (linkAt_spec t m Hm) as (? & ? & ? & _ & _ & -> & _).
    discriminate.
  - intros t m before. apply linkHtml_headed.
  - apply gsub_headed.
    + intros t m Hm. destruct (imageAt_spec t m Hm) as (alt & href & rest3 & -> & _).
      eexists _, _. split; reflexivity.
    + intros t m Hm. destruct (imageAt_spec t m Hm) as (? & ? & ? & _ & _ & -> & _).
      discriminate.
    + intros t m before. apply imageHtml_headed.
    + apply headed_plain, escapeHtml_no_lt.
Qed.

(** The value of the attribute that an opening of a link or an image
    starts in a headed text. *)
Lemma opener_value (opener tail : str) :
  In opener [aOpener; imgOpener] ->
  headed (opener ++ tail) ->
  accepted (attributeValue tail).
Proof.
  intros Ho H.
  assert (Hat : headAt (opener ++ tail)).
  { cbn [In] in Ho. destruct Ho as [<-|[<-|[]]]; destruct H as [H _]; apply H; reflexivity. }
  destruct Hat as (h & rest & Hh & E).
  destruct Hh as [h Hh|v Hv|v Hv].
  - exfalso. cbn [fixedTags In] in Hh, Ho.
    repeat (destruct Hh as [<-|Hh];
            [destruct Ho as [<-|[<-|[]]]; vm_compute in E; discriminate|]).
    destruct Hh.
  - cbn [In] in Ho. destruct Ho as [<-|[<-|[]]].
    + exfalso. vm_compute in E. discriminate.
    + rewrite <- app_assoc in E. apply app_inv_head in E. rewrite E.
      destruct Hv as [_ Hv]. apply Hv.
  - cbn [In] in Ho. destruct Ho as [<-|[<-|[]]].
    + rewrite <- app_assoc in E. apply app_inv_head in E. rewrite E.
      destruct Hv as [_ Hv]. apply Hv.
    + exfalso. vm_compute in E. discriminate.
Qed.



(** *** No script address *)

Lemma lower_segmentChar (c : char) :
  Html.isSegmentChar (lowerAscii c) = true -> Html.isSegmentChar c = true.
Proof.
  unfold Html.isSegmentChar, lowerAscii, isAlnum. destruct (isUpper c) eqn:E.
  - intros _. destruct (isDigit c); reflexivity.
  - rewrite E. auto.
Qed.

Lemma lower_colon (c : char) : lowerAscii c = ch ":" -> c = ch ":".
Proof.
  unfold lowerAscii, isUpper. unfold_ch.
  destruct ((65 <=? c) && (c <=? 90))%N eqn:E; [|auto]. b2p. lia.
Qed.

(** [normalizeHref] refuses every value that starts with [javascript:],
    in any letter case. *)
Lemma accepted_not_script (value : str) :
  accepted value -> Html.startsWithIgnoreCase (lit "javascript:") value = false.
Proof.
  intros Ha. destruct (Html.startsWithIgnoreCase (lit "javascript:") value) eqn:Es;
    [|reflexivity].
  exfalso. apply Ha. clear Ha. unfold Html.startsWithIgnoreCase in Es.
  destruct (startsWith_map_split lowerAscii _ value Es) as (a & b & -> & Ea).
  assert (Hsolid : Forall (fun c => isWhiteSpace c = false) a).
  { assert (Hok : Forall (fun x => solidPlain x && solidPlain (x - 32) = true)
                    (lit "javascript:"))
      by (apply List.Forall_forall, forallb_forall; vm_compute; reflexivity).
    rewrite <- Ea in Hok. clear - Hok. induction a as [|c a IH]; [constructor|].
    cbn [map] in Hok. inversion Hok; subst. constructor; [|apply IH; assumption].
    assert (Hc : solidPlain c = true) by (eapply lower_solidPlain; [reflexivity|eassumption]).
    apply solidPlain_parts in Hc. tauto. }
  assert (Hane : a <> []) by (intros ->; discriminate).
  destruct (trim_keeps_start a b Hane Hsolid) as [y' Hy'].
  unfold Html.normalizeHref. cbv zeta. rewrite Hy'.
  assert (Hrefused : Html.isAllowed (a ++ y') = false).
  { unfold Html.isAllowed. apply orb_false_iff. split.
    - unfold Html.allowedPrefix, Html.startsWithIgnoreCase. rewrite map_app, Ea.
      generalize (map lowerAscii y'). intros z. vm_compute. reflexivity.
    - do 11 (destruct a as [|? a]; [discriminate|]). destruct a; [|discriminate].
      cbn [map] in Ea. injection Ea as E1 E2 E3 E4 E5 E6 E7 E8 E9 E10 E11.
      apply lower_colon in E11. subst.
      unfold Html.bareRelative. cbn [app takeWhile].
      repeat match goal with
        | H : lowerAscii ?c = _ |- _ =>
            rewrite (lower_segmentChar c) by (rewrite H; reflexivity); clear H
        end.
      change (Html.isSegmentChar (ch ":")) with false. cbn [length skipn].
      destruct y'; reflexivity. }
  rewrite Hrefused. destruct (a ++ y'); reflexivity.
Qed.

(** Every address of a link or an image in the HTML that
    [inlineMarkdownToHtml] returns is one [normalizeHref] accepts: wherever
    the opening of a link or of an image stands in the result, the value
    of its attribute, which is the text up to the next double quote, is
    not refused by [normalizeHref]; so it never starts with [javascript:],
    in any letter case. *)
Theorem inlineMarkdownToHtml_addresses_accepted (text : str) (i : nat) (opener : str) :
  opener = aOpener \/ opener = imgOpener ->
  let html := Html.inlineMarkdownToHtml text in
  startsWith opener (skipn i html) = true ->
  let value := attributeValue (skipn (length opener) (skipn i html)) in
  Html.normalizeHref value <> []
  /\ Html.startsWithIgnoreCase (lit "javascript:") value = false.
Proof.
  intros Ho html Hs value.
  assert (Ha : accepted value).
  { unfold value.
    pose proof (headed_skipn i html (inlineMarkdownToHtml_headed text)) as H.
    clearbody html. apply startsWith_spec in Hs. rewrite Hs in H.
    apply (opener_value opener); [|exact H].
    cbn [In]. destruct Ho as [->| ->]; auto. }
  split; [exact Ha|apply accepted_not_script; exact Ha].
Qed.

Lemma inlineMarkdownToHtml_addresses_accepted_witness :
  Html.inlineMarkdownToHtml (lit "see [docs](HTTPS://a.example/x) and [x](javascript:alert)")
  = lit "see <a href=" ++ Html.quoted (lit "HTTPS://a.example/x")
      ++ lit " target=" ++ Html.quoted (lit "_blank")
      ++ lit " rel=" ++ Html.quoted (lit "noopener noreferrer")
      ++ lit ">docs</a> and x"
  /\ Html.normalizeHref
       (attributeValue
          (skipn (length aOpener)
             (skipn 4 (Html.inlineMarkdownToHtml
                         (lit "see [docs](HTTPS://a.example/x) and [x](javascript:alert)")))))
     <> [].
Proof.
  split; [vm_compute; reflexivity|].
  apply (inlineMarkdownToHtml_addresses_accepted
           (lit "see [docs](HTTPS://a.example/x) and [x](javascript:alert)") 4 aOpener).
  - left. reflexivity.
  - vm_compute. reflexivity.
Defined.

(** *** The addresses in the HTML document *)

Ltac in_tags := cbn [fixedTags In]; repeat (first [left; reflexivity | right]).

Lemma headed_one (x : str) : headed x -> Forall headed [x].
Proof. intros H. constructor; [exact H|constructor]. Qed.

Lemma headed_tag_only (h : str) : In h fixedTags -> headed h.
Proof.
  intros H. rewrite <- (app_nil_r h). apply headed_tag; [exact H|exact I].
Qed.

Lemma element_headed (tag text : str) :
  In tag [lit "p"; lit "h1"; lit "h2"; lit "h3"; lit "blockquote"; lit "li"] ->
  headed (Document.element tag text).
Proof.
  intros H. unfold Document.element.
  assert (Hin : headed (Html.inlineMarkdownToHtml text))
    by apply inlineMarkdownToHtml_headed.
  revert Hin. generalize (Html.inlineMarkdownToHtml text). intros x Hx.
  cbn [In] in H.
  destruct H as [<-|[<-|[<-|[<-|[<-|[<-|[]]]]]]].
  - change (headed (lit "<p>" ++ x ++ lit "</p>")).
    apply headed_tag; [in_tags|]. apply headed_app; [exact Hx|].
    apply headed_tag_only. in_tags.
  - change (headed (lit "<h1>" ++ x ++ lit "</h1>")).
    apply headed_tag; [in_tags|]. apply headed_app; [exact Hx|].
    apply headed_tag_only. in_tags.
  - change (headed (lit "<h2>" ++ x ++ lit "</h2>")).
    apply headed_tag; [in_tags|]. apply headed_app; [exact Hx|].
    apply headed_tag_only. in_tags.
  - change (headed (lit "<h3>" ++ x ++ lit "</h3>")).
    apply headed_tag; [in_tags|]. apply headed_app; [exact Hx|].
    apply headed_tag_only. in_tags.
  - change (headed (lit "<blockquote>" ++ x ++ lit "</blockquote>")).
    apply headed_tag; [in_tags|]. apply headed_app; [exact Hx|].
    apply headed_tag_only. in_tags.
  - change (headed (lit "<li>" ++ x ++ lit "</li>")).
    apply headed_tag; [in_tags|]. apply headed_app; [exact Hx|].
    apply headed_tag_only. in_tags.
Qed.

Lemma preBlock_headed (codeLines : list str) : headed (Document.preBlock codeLines).
Proof.
  unfold Document.preBlock.
  pose proof (escapeHtml_no_lt (join [Markdown.LF] codeLines)) as H.
  revert H. generalize (Html.escapeHtml (join [Markdown.LF] codeLines)). intros x Hx.
  change (headed (lit "<pre>" ++ lit "<code>" ++ x ++ lit "</code>" ++ lit "</pre>")).
  apply headed_tag; [in_tags|]. apply headed_tag; [in_tags|].
  apply headed_app; [apply headed_plain; exact Hx|].
  apply headed_tag; [in_tags|]. apply headed_tag_only. in_tags.
Qed.

Lemma closeList_headed (inList : bool) : Forall headed (Document.closeList inList).
Proof.
  destruct inList; [|constructor]. apply headed_one. apply headed_tag_only. in_tags.
Qed.

Lemma textLine_headed (inList : bool) (trimmed : str) :
  Forall headed (fst (Document.textLine inList trimmed)).
Proof.
  unfold Document.textLine. destruct trimmed as [|c t]; [apply closeList_headed|].
  set (trimmed := c :: t). clearbody trimmed.
  assert (Hel : forall tag text,
            In tag [lit "p"; lit "h1"; lit "h2"; lit "h3"; lit "blockquote"; lit "li"] ->
            Forall headed (Document.closeList inList ++ [Document.element tag text])).
  { intros tag text Hin. apply Forall_app. split; [apply closeList_headed|].
    apply headed_one. apply element_headed. exact Hin. }
  destruct (eqs trimmed (lit "---")).
  { cbn [fst]. apply Forall_app. split; [apply closeList_headed|].
    apply headed_one. apply headed_tag_only. in_tags. }
  repeat match goal with
    | |- context [if startsWith ?p trimmed then _ else _] =>
        destruct (startsWith p trimmed); [cbn [fst]; apply Hel; cbn [In]; auto 10|]
    end.
  destruct (_ || _ || _); cbn [fst].
  - apply Forall_app. split.
    + destruct inList; [constructor|]. apply headed_one. apply headed_tag_only. in_tags.
    + apply headed_one. apply element_headed. cbn [In]. auto 10.
  - apply Hel. cbn [In]. auto.
Qed.

Lemma step_headed (st : Document.State) (rawLine : str) :
  Forall headed (fst (Document.step st rawLine)).
Proof.
  unfold Document.step. destruct (Document.fence st) as [[marker codeLines]|].
  - destruct (Document.closeFenceWithTailMatch marker (trim rawLine)) as [tail|];
      cbn [fst]; [|constructor].
    constructor; [apply preBlock_headed|].
    destruct (trim tail); [constructor|].
    apply headed_one. apply element_headed. cbn [In]. auto.
  - destruct (Markdown.openFenceMatch (trim rawLine)); cbn [fst];
      [apply closeList_headed|].
    pose proof (textLine_headed (Document.inList st) (trim rawLine)) as H.
    destruct (Document.textLine (Document.inList st) (trim rawLine)). exact H.
Qed.

Lemma run_headed (lines : list str) : forall st,
  Forall headed (fst (Document.run st lines)).
Proof.
  induction lines as [|l ls IH]; intros st; cbn [Document.run]; [constructor|].
  pose proof (step_headed st l) as H1.
  destruct (Document.step st l) as [pushed st1].
  specialize (IH st1). destruct (Document.run st1 ls) as [pushed' st2].
  cbn [fst] in *. apply Forall_app. split; assumption.
Qed.

Lemma join_headed (ls : list str) : Forall headed ls -> headed (join [Markdown.LF] ls).
Proof.
  induction 1 as [|l ls Hl _ IH]; [exact I|].
  destruct ls as [|l' ls']; [exact Hl|].
  change (join [Markdown.LF] (l :: l' :: ls'))
    with (l ++ [Markdown.LF] ++ join [Markdown.LF] (l' :: ls')).
  apply headed_app; [exact Hl|]. apply headed_app; [|exact IH].
  split; [discriminate|exact I].
Qed.

Lemma markdownToBasicHtml_headed (markdown : str) :
  headed (Document.markdownToBasicHtml markdown).
Proof.
  unfold Document.markdownToBasicHtml, Document.htmlLines. apply join_headed.
  pose proof (run_headed (split Markdown.LF (Markdown.normalizeNewlines markdown))
                {| Document.fence := None; Document.inList := false |}) as H.
  destruct (Document.run _ _) as [pushed st]. cbn [fst] in H.
  apply Forall_app. split; [exact H|]. apply Forall_app. split.
  - destruct (Document.fence st) as [[marker codeLines]|]; [|constructor].
    apply headed_one. apply preBlock_headed.
  - apply closeList_headed.
Qed.

(** Every address of a link or an image in the HTML body of an export is
    one [normalizeHref] accepts: wherever the opening of a link or of an
    image stands in the result of [markdownToBasicHtml], whatever the
    Markdown, the value of its attribute (the text up to the next double
    quote) is not refused by [normalizeHref] and does not start with
    [javascript:]. *)
Theorem markdownToBasicHtml_addresses_accepted (markdown : str) (i : nat) (opener : str) :
  opener = aOpener \/ opener = imgOpener ->
  let html := Document.markdownToBasicHtml markdown in
  startsWith opener (skipn i html) = true ->
  let value := attributeValue (skipn (length opener) (skipn i html)) in
  Html.normalizeHref value <> []
  /\ Html.startsWithIgnoreCase (lit "javascript:") value = false.
Proof.
  intros Ho html Hs value.
  assert (Ha : accepted value).
  { unfold value.
    pose proof (headed_skipn i html (markdownToBasicHtml_headed markdown)) as H.
    clearbody html. apply startsWith_spec in Hs. rewrite Hs in H.
    apply (opener_value opener); [|exact H].
    cbn [In]. destruct Ho as [->| ->]; auto. }
  split; [exact Ha|apply accepted_not_script; exact Ha].
Qed.

Lemma markdownToBasicHtml_addresses_accepted_witness :
  Document.markdownToBasicHtml (lit "- ![cat](cats_files/cat.png)")
  = join [Markdown.LF]
      [lit "<ul>";
       lit "<li><img src=" ++ Html.quoted (lit "cats_files/cat.png")
         ++ lit " alt=" ++ Html.quoted (lit "cat")
         ++ lit " loading=" ++ Html.quoted (lit "lazy") ++ lit "></li>";
       lit "</ul>"]
  /\ Html.normalizeHref
       (attributeValue
          (skipn (length imgOpener)
             (skipn 9 (Document.markdownToBasicHtml (lit "- ![cat](cats_files/cat.png)")))))
     <> [].
Proof.
  split; [vm_compute; reflexivity|].
  apply (markdownToBasicHtml_addresses_accepted
           (lit "- ![cat](cats_files/cat.png)") 9 imgOpener).
  - right. reflexivity.
  - vm_compute. reflexivity.
Defined.
